(* ===== verification/_CoqProject ===== *)
-Q . S2P
Prelude.v
Text.v
Float64.v
Pricing.v
Json.v
Router.v
Http.v
Types.v
AuthScheme.v
Scalar.v
BlindSchnorr.v
CredentialScheme.v
BlindScheme.v
AnchorScheme.v
Config.v
Errors.v
Store.v
Toy.v
SignerV1.v
AuthWitnesses.v
StoreTheory.v
StoreProps.v
ProcessorV1.v
Watcher.v
ProviderTypes.v
Dashboard.v
World.v
WorldTheory.v
Progress.v
OpenRouter.v
OpenRouterTheory.v
OaOrg.v
OaOrgTheory.v
Provider.v
ProviderTheory.v
Processor.v
Leases.v
ToyWorld.v
Routes.v
ServerRouter.v
RequestProps.v
ServeProps.v
LeaseProps.v
Witnesses.v
TreeMirror.v
TreeMirrorTheory.v
Poller.v
PollerTheory.v
IndexerServer.v
DecodeTheory.v
IndexerWitnesses.v
OllamaStream.v
ClientTypes.v
Compat.v
ClientHelpers.v
ClientWorld.v
ClientWallet.v
DirectLease.v
ClientService.v
ClientRoutes.v
ClientRel.v
Assets.v
ClientTheory.v
ClientCustody.v
ClientRouter.v
ClientProps.v
IndexerApi.v
WithdrawalProps.v
ClientToy.v
ClientWitnesses.v
Cli.v
CliWorld.v
CliRun.v
DaemonMain.v
CliTheory.v
CliProps.v
CliFunding.v
CliReads.v
CliWitnesses.v
ApiWitnesses.v
