(* ===== verification/Prelude.v ===== *)
(** * zkAPI: a verification of the server, the indexer, the client daemon and the command line

    zkAPI sells LLM requests against shielded notes. A note is a deposit in a vault
    contract; its owner spends it anonymously, each request proving that the note
    is in the tree and solvent, and revealing a nullifier that is spent once. This
    library models the Rust workspace under [src/crates/] as shallow Rocq
    definitions and proves what makes its parts correct.

    ** The parts and how they meet

    - [zkapi-serverd] answers requests. It checks a proof, reserves its nullifier
      in SQLite, calls a provider, charges, signs the next state and stores the
      transcript. It also leases short-lived OpenRouter keys against one proof and
      settles their usage later.
    - [zkapi-auth] has the credential schemes behind one trait: blind signatures
      and the state anchor.
    - [zkapi-indexerd] follows the vault's log with a JSON-RPC poller, mirrors the
      note tree and serves roots and paths.
    - [zkapi-clientd] is the daemon beside the user. It keeps the wallet, speaks the
      OpenAI and Ollama dialects, proxies a request through the server or (direct
      mode) buys a key and sends the prompt to OpenRouter itself, and prepares
      withdrawals.
    - [zkapi-cli] starts the others, and drives a withdrawal or a deposit with the
      daemon, the vault and Foundry's [cast].

    The cryptography, the note tree, the client wallet and the wire types are the
    [protocol] git submodule, which is not in the repository: they are classes
    ([Types.FeltOps], [Types.WireTypes], [Types.WireOps], [SignerV1.XmssOps],
    [ProcessorV1.V1Core], [TreeMirror]'s tree,
    [BlindSchnorr]'s curve, [ClientTypes.ClientTypes], [ClientWorld.WalletOps],
    [ClientWallet.ClientWire], [Cli.CliTypes]) whose laws, where a theorem needs one,
    are separate classes. Libraries the sources call are classes too:
    [Json.JsonText], [Router.Axum], [CliWorld.CliEnv]'s URL parser with
    [CliProps.UrlLaws]. [Toy], [ToyWorld], [AuthWitnesses], [IndexerWitnesses],
    [ClientToy], [CliWitnesses], [ApiWitnesses] and the end of [SignerV1] have
    instances that satisfy the laws; the witnesses evaluate there.

    ** Files and sources

    Shared: [Prelude] (results, machine integers, lists, strings, maps),
    [Text], [Float64] (executable binary64), [Json] ([serde_json::Value] and the
    field readers [serde] derives), [Router] (route tables, and what is relied on of
    axum), [Http], [Types] (the wire messages).

    Server ([zkapi-serverd/src]): [Pricing] is [pricing.rs]; [Config] [config.rs];
    [Errors] [error.rs]; [Store] [nullifier_store.rs] (both tables, one definition
    per SQL statement and per method); [Watcher] [watcher.rs]; [Dashboard]
    [dashboard.rs]; [ProviderTypes] and [Provider] [provider.rs] and
    [metered_provider.rs]; [OpenRouter] [openrouter.rs]; [OaOrg] [oa_org.rs];
    [Processor] and [Leases] [processor_v2.rs] and [signer_v2.rs]; [Routes]
    the handlers of [routes.rs], [ServerRouter] its router; [SignerV1] [signer.rs] and
    [ProcessorV1] [processor.rs], the version-1 files beside those [lib.rs] builds.
    [World] is the monad of a handler: the shared state, a world that
    answers HTTP calls, clock, randomness and faults, and what other handlers did
    between two steps of this one.

    Schemes ([zkapi-auth/src]): [AuthScheme] and [CredentialScheme] are [lib.rs],
    [Scalar] [scalar.rs], [BlindSchnorr] [blind_schnorr.rs], [BlindScheme]
    [blind_signature.rs], [AnchorScheme] [state_anchor.rs].

    Indexer ([zkapi-indexerd/src]): [TreeMirror] is [events.rs], [tree_mirror.rs],
    [service.rs] and the handlers of [http.rs]; [Poller] is [poller.rs];
    [IndexerServer] the start, the polling task, the services the routes may read
    while it polls, and the routes.

    Daemon ([zkapi-clientd/src]): [ClientTypes] is [config.rs], [error.rs] and the
    data of [service.rs]; [Compat] [compat.rs]; [OllamaStream] the stream translator
    of [routes.rs]; [ClientHelpers] the pure functions of both; [ClientWorld] the
    monad, the locks and the files; [ClientWallet], [DirectLease] and
    [ClientService] the methods of [AuthService] and [indexer.rs]; [ClientRoutes]
    the handlers of [routes.rs], [ClientRouter] its router and the daemon's life;
    [Assets] [build_support.rs] and [build.rs]; [DaemonMain] the mains of the daemon
    and the indexer.

    Command line ([zkapi-cli/src/main.rs]): [Cli] has the options, the manifest, the
    configurations they become, the checks of a withdrawal proof and the texts passed
    to Foundry's [cast]; [CliWorld] the monad of a command, which lists the calls it
    makes, and the readers and waits; [CliRun] the commands, which run the daemon's
    methods of [ClientWallet] and [ClientService] in their own process.

    ** What the theorems show

    - [StoreTheory], [StoreProps]: every store reachable by its operations is well
      formed and refines a nullifier state machine; transcripts are immutable,
      issued leases persist, columns round-trip exactly up to the signed width.
    - [WorldTheory], [Progress], [Leases]: a logic of the server's
      handlers (what they change, what they call, when they complete).
      [RequestProps], [ServeProps], [LeaseProps]: a request is charged and answered
      once, under interleaving and restart; only admissible requests reserve; a
      fresh answer signs its own charge; a key is issued once and its reported usage
      charged once; spending and clearance exclude each other; a calm server serves.
    - [SignerV1]: over any history of processes on one table, with faults, crashes and
      rotations, no one-time leaf signs twice, and a restart is invisible; two ways to
      break it that the code leaves open. [ProcessorV1]: what a next state is bound to.
    - [ProviderTheory], [OpenRouterTheory], [OaOrgTheory], [Pricing], [Routes],
      [Dashboard]: the providers' contract, which upstream answers are accepted,
      that the key listing ends, errors and status codes, redaction.
    - [BlindSchnorr], [BlindScheme], [AnchorScheme], [CredentialScheme]: completeness
      and perfect blindness of issuance, double-and-add against the repeated sum,
      and, by the trait's contract, that a credential's life conserves its deposit.
    - [TreeMirrorTheory], [PollerTheory], [DecodeTheory]: the mirror refines the
      vault, logs decode to the events they encode, snapshots round-trip, and through
      any failures and restarts the cursor, the mirror and the checkpoint agree, and
      the indexer catches up.
    - [ServerRouter]: reading changes nothing, and other origins read the dashboard
      only. [IndexerServer], [IndexerApi], [CliReads]: the parts
      together. Whatever the indexer's process answers, also in the middle of a poll,
      is true of the vault after an initial part of its events that reaches a head
      the node reported; so the daemon's deposit plans fit it, the root the server
      serves is one of its roots, and a wait of the command line that succeeds saw
      the deposit.
    - [ClientTheory], [ClientCustody]: a logic of the daemon's handlers and its
      invariant: where a key may go, and that prompts stay local on every route but
      one. [ClientRel]: what each handler leaves alone, and which calls it makes.
      [ClientRouter]: the invariant over the daemon's whole life, that only POST
      routes spend, and that a note moves only as a request asked. [ClientProps]: a
      session sends only keys of its own, bounded retries, loops that end.
      [WithdrawalProps]: withdrawals that survive a restart, block requests, clear
      only a closed note; retired notes that are kept. [OllamaStream], [Compat],
      [ClientHelpers]: the stream does not depend on chunk boundaries, requests are
      normalized, vault words and addresses round-trip. [Assets]: the files of the
      funding page that are served are exactly the regular ones under public names.
      [DaemonMain]: the daemon's binary and [zkapi clientd] make the same configuration.
    - [CliTheory]: what every run of a command calls, and in which order ([only],
      [steps]). [CliProps]: a withdrawal signs one transaction, of a proof that was
      checked, and clears the local wallet only once the note is closed. [CliFunding]:
      a deposit is covered, by the balance of the key that signs it, before it is
      signed, and confirmed as the daemon planned it; nothing is signed unasked. [CliReads]: waits are bounded and exact, vault words
      round-trip, a deployment's name stays inside the state root.

    ** Choices

    Integers are [Z] with the wrap or saturation of their Rust width written out;
    [f64] is the standard library's primitive-free binary64. Strings are bytes.
    Maps the code orders by key are sorted association lists; file contents are a
    [gmap]. A panic is a [None] or a named error where the code can reach it. Tracing
    output has no model.

    Concurrency is interference at the points where a handler does not hold a lock:
    [World]'s steps let the world replace the shared state by any state other
    handlers can reach; in [ClientWorld] taking a lock yields what others left in
    the slot it guards, and a guarded slot changes only then. The indexer's routes
    read a service that the polling task changes under its lock: [Poller]'s state
    keeps, as a ghost no program reads, every service it was, and the reads of a
    request fall on any of them in order. The read-write lock of
    the direct requests and the order in which waiting tasks get a lock are not
    modelled. Time is in milliseconds and passes at every answer of the world.

    Loops that are not structural have fuel, each with a theorem that the fuel is
    enough: the retirement of a lease polls 24 times (two seconds each in 45), an
    issuance repeats three times, a rejected key is replaced once, retries are at
    most three ([ClientProps.loops_end]); the key listing has 10,000 keys at most
    ([OpenRouterTheory]); a search for a free directory tries one name more than
    there are files; the poller's ranges shrink ([PollerTheory]). The waits of the
    command line read twenty or forty times, as in the code.

    ** Not modelled

    Of the version-1 [processor.rs] what stores or answers a version-1 signature,
    which does not type-check against [nullifier_store.rs] any more; the integration
    tests; the clap parsers (a model starts from parsed options), tracing and the texts written to a terminal; the transport of axum and
    its tickers (missed ticks, keep-alive, the values of CORS headers apart from the
    daemon's origin test); the deletion of the temporary keystore of a deposit; the
    drop finalizer of the daemon's streams, which does nothing while no lease is
    retired after a response; the web client and the contracts, which are not Rust. *)

From Stdlib Require Import ZArith Lia Ascii.
From stdpp Require Import base gmap strings list.

Declare Scope zkapi_scope.
Delimit Scope zkapi_scope with zkapi.

(** ** Results: Rust's [Result<A, E>] *)

Inductive result (E A : Type) : Type :=
| Ok (a : A)
| Err (e : E).
Arguments Ok {E A} a.
Arguments Err {E A} e.

#[export] Instance result_eq_dec {E A} `{EqDecision E} `{EqDecision A} : EqDecision (result E A).
Proof. solve_decision. Defined.
#[export] Instance result_ret E : MRet (result E) := λ A a, Ok a.
#[export] Instance result_bind E : MBind (result E) := λ A B f r,
  match r with Ok a => f a | Err e => Err e end.
#[export] Instance result_fmap E : FMap (result E) := λ A B f r,
  match r with Ok a => Ok (f a) | Err e => Err e end.

Definition map_err {E F A} (f : E → F) (r : result E A) : result F A :=
  match r with Ok a => Ok a | Err e => Err (f e) end.
Definition ok {E A} (r : result E A) : option A :=
  match r with Ok a => Some a | Err _ => None end.
Definition ok_or {E A} (e : E) (o : option A) : result E A :=
  match o with Some a => Ok a | None => Err e end.
Definition is_ok {E A} (r : result E A) : bool :=
  match r with Ok _ => true | Err _ => false end.

(** [if cond { return Err(e) }]. *)
Definition fail_if {E} (b : bool) (e : E) : result E unit :=
  if b then Err e else Ok tt.

Lemma bind_Ok {E A B} (r : result E A) (f : A → result E B) b :
  r ≫= f = Ok b → ∃ a, r = Ok a ∧ f a = Ok b.
Proof. destruct r; naive_solver. Qed.

Lemma fail_if_Ok {E} b (e : E) u : fail_if b e = Ok u → b = false.
Proof. destruct b; naive_solver. Qed.

Lemma map_err_Ok {E F A} (f : E → F) (r : result E A) a : map_err f r = Ok a ↔ r = Ok a.
Proof. destruct r; simpl; split; congruence. Qed.
Lemma ok_or_Ok {E A} (e : E) (o : option A) a : ok_or e o = Ok a → o = Some a.
Proof. destruct o; naive_solver. Qed.

(** ** Machine integers

    A [uN] or [iN] value is a [Z]; the operations write out saturation and
    the two's-complement reinterpretation of Rust's [as] casts. *)

Definition u16_MAX : Z := 2 ^ 16 - 1.
Definition u32_MAX : Z := 2 ^ 32 - 1.
Definition u64_MAX : Z := 2 ^ 64 - 1.
Definition u128_MAX : Z := 2 ^ 128 - 1.

Definition in_u16 (z : Z) : Prop := (0 ≤ z ≤ u16_MAX)%Z.
Definition in_u32 (z : Z) : Prop := (0 ≤ z ≤ u32_MAX)%Z.
Definition in_u64 (z : Z) : Prop := (0 ≤ z ≤ u64_MAX)%Z.
Definition in_u128 (z : Z) : Prop := (0 ≤ z ≤ u128_MAX)%Z.

(** [a.saturating_add(b)] and [a.saturating_sub(b)] at the width of [max]. *)
Definition saturating_add (max a b : Z) : Z := Z.min (a + b) max.
Definition saturating_sub (a b : Z) : Z := Z.max (a - b) 0.
Definition u64_add : Z → Z → Z := saturating_add u64_MAX.
Definition u128_add : Z → Z → Z := saturating_add u128_MAX.

(** [z as uN] and [z as iN]. *)
Definition as_unsigned (bits z : Z) : Z := z mod 2 ^ bits.
Definition as_signed (bits z : Z) : Z := (z + 2 ^ (bits - 1)) mod 2 ^ bits - 2 ^ (bits - 1).
Definition cast_i64 : Z → Z := as_signed 64.
Definition cast_i32 : Z → Z := as_signed 32.
Definition cast_u16 : Z → Z := as_unsigned 16.
Definition cast_u32 : Z → Z := as_unsigned 32.
Definition cast_u64 : Z → Z := as_unsigned 64.
Definition cast_u128 : Z → Z := as_unsigned 128.

(** [a.checked_sub(b)] on an unsigned type. *)
Definition checked_sub (a b : Z) : option Z := if (b <=? a)%Z then Some (a - b)%Z else None.

Lemma checked_sub_Some a b c : checked_sub a b = Some c → (b ≤ a ∧ c = a - b)%Z.
Proof. unfold checked_sub. destruct (Z.leb_spec b a); naive_solver. Qed.

Lemma u64_add_bounds a b : in_u64 a → in_u64 b → in_u64 (u64_add a b).
Proof. unfold in_u64, u64_add, saturating_add, u64_MAX. lia. Qed.

Lemma u64_add_le a b : in_u64 a → (0 ≤ b)%Z → (a ≤ u64_add a b)%Z.
Proof. unfold in_u64, u64_add, saturating_add, u64_MAX. lia. Qed.

Lemma as_signed_small bits z :
  (0 < bits)%Z → (- 2 ^ (bits - 1) ≤ z < 2 ^ (bits - 1))%Z → as_signed bits z = z.
Proof.
  intros Hb Hz. unfold as_signed.
  assert (2 ^ bits = 2 * 2 ^ (bits - 1))%Z as Hp.
  { rewrite <- Z.pow_succ_r by lia. f_equal. lia. }
  rewrite Z.mod_small by lia. lia.
Qed.

Lemma as_signed_wrap bits z :
  (0 < bits)%Z → (2 ^ (bits - 1) ≤ z < 2 ^ bits)%Z → as_signed bits z = (z - 2 ^ bits)%Z.
Proof.
  intros Hb Hz. unfold as_signed.
  assert (2 ^ bits = 2 * 2 ^ (bits - 1))%Z as Hp.
  { rewrite <- Z.pow_succ_r by lia. f_equal. lia. }
  rewrite <- (Z.mod_unique _ _ 1 (z - 2 ^ (bits - 1))); lia.
Qed.

Lemma as_unsigned_small bits z : (0 ≤ z < 2 ^ bits)%Z → as_unsigned bits z = z.
Proof. intros Hz. unfold as_unsigned. by rewrite Z.mod_small. Qed.

(** Casting to the signed type of the same width and back is the identity. *)
Lemma as_unsigned_as_signed bits z :
  (0 < bits)%Z → (0 ≤ z < 2 ^ bits)%Z → as_unsigned bits (as_signed bits z) = z.
Proof.
  intros Hb Hz. destruct (decide (z < 2 ^ (bits - 1))%Z) as [Hlt|Hge].
  - rewrite as_signed_small by lia. by apply as_unsigned_small.
  - rewrite as_signed_wrap by lia. unfold as_unsigned.
    symmetry. apply (Z.mod_unique _ _ (-1)); lia.
Qed.

(** Storing a [u128] in a 64-bit signed column and reading it back. *)
Lemma u128_i64_roundtrip c : (0 ≤ c < 2 ^ 63)%Z → cast_u128 (cast_i64 c) = c.
Proof.
  intros Hc. unfold cast_u128, cast_i64. rewrite as_signed_small by lia. apply as_unsigned_small. lia.
Qed.
Lemma as_signed_range bits z : (0 < bits)%Z → (- 2 ^ (bits - 1) ≤ as_signed bits z < 2 ^ (bits - 1))%Z.
Proof.
  intros Hb. unfold as_signed.
  assert (2 ^ bits = 2 * 2 ^ (bits - 1))%Z as Hp.
  { rewrite <- Z.pow_succ_r by lia. f_equal. lia. }
  pose proof (Z.mod_pos_bound (z + 2 ^ (bits - 1)) (2 ^ bits) ltac:(lia)). lia.
Qed.
Lemma u128_i64_roundtrip_iff c :
  in_u128 c → cast_u128 (cast_i64 c) = c ↔ (c < 2 ^ 63 ∨ 2 ^ 128 - 2 ^ 63 ≤ c)%Z.
Proof.
  unfold in_u128, u128_MAX. intros Hc. split; [|intros [Hlt|Hge]].
  - intros Heq. pose proof (as_signed_range 64 c ltac:(lia)) as Hr. simpl in Hr.
    unfold cast_u128, as_unsigned, cast_i64 in Heq. destruct (decide (0 ≤ as_signed 64 c)%Z).
    + rewrite Z.mod_small in Heq by lia. lia.
    + rewrite <- (Z.mod_unique _ _ (-1) (as_signed 64 c + 2 ^ 128)) in Heq; lia.
  - apply u128_i64_roundtrip. lia.
  - unfold cast_u128, cast_i64, as_unsigned.
    assert (as_signed 64 c = c - 2 ^ 128)%Z as ->.
    { unfold as_signed. rewrite <- (Z.mod_unique _ _ (2 ^ 64) (c + 2 ^ (64 - 1) - 2 ^ 128)); lia. }
    symmetry. apply (Z.mod_unique _ _ (-1)); lia.
Qed.
Lemma u64_i64_roundtrip c : in_u64 c → cast_u64 (cast_i64 c) = c.
Proof. unfold in_u64, u64_MAX. intros. apply as_unsigned_as_signed; lia. Qed.
Lemma u32_i32_roundtrip c : in_u32 c → cast_u32 (cast_i32 c) = c.
Proof. unfold in_u32, u32_MAX. intros. apply as_unsigned_as_signed; lia. Qed.
Lemma u16_i32_roundtrip c : in_u16 c → cast_u16 (cast_i32 c) = c.
Proof.
  unfold in_u16, u16_MAX. intros. unfold cast_u16, cast_i32.
  rewrite as_signed_small by lia. apply as_unsigned_small. lia.
Qed.

(** ** Strings: UTF-8 byte sequences *)

Local Open Scope string_scope.

(** [s.starts_with(p)] *)
Definition starts_with (p s : string) : bool := String.prefix p s.

(** [s.strip_prefix(p)] *)
Fixpoint strip_prefix (p s : string) : option string :=
  match p, s with
  | EmptyString, _ => Some s
  | String a p', String b s' => if Ascii.eqb a b then strip_prefix p' s' else None
  | _, EmptyString => None
  end.

(** [s.strip_suffix(p)] *)
Definition strip_suffix (p s : string) : option string :=
  String.rev <$> strip_prefix (String.rev p) (String.rev s).

(** [s.contains(p)] for a string pattern. *)
Fixpoint str_contains (p s : string) : bool :=
  starts_with p s || match s with EmptyString => false | String _ s' => str_contains p s' end.

Fixpoint str_forall (f : ascii → bool) (s : string) : bool :=
  match s with EmptyString => true | String c s' => f c && str_forall f s' end.

Definition in_range (lo hi : ascii) (c : ascii) : bool :=
  (N_of_ascii lo <=? N_of_ascii c)%N && (N_of_ascii c <=? N_of_ascii hi)%N.
Definition is_ascii_digit (c : ascii) : bool := in_range "0" "9" c.
Definition is_ascii_uppercase (c : ascii) : bool := in_range "A" "Z" c.
Definition is_ascii_lowercase (c : ascii) : bool := in_range "a" "z" c.
Definition is_ascii_alphanumeric (c : ascii) : bool :=
  is_ascii_digit c || is_ascii_uppercase c || is_ascii_lowercase c.
Definition is_ascii_hexdigit (c : ascii) : bool :=
  is_ascii_digit c || in_range "A" "F" c || in_range "a" "f" c.

Definition ascii_lower (c : ascii) : ascii :=
  if is_ascii_uppercase c then ascii_of_N (N_of_ascii c + 32) else c.
Fixpoint to_ascii_lowercase (s : string) : string :=
  match s with EmptyString => EmptyString | String c s' => String (ascii_lower c) (to_ascii_lowercase s') end.

(** [s.trim_end_matches(c)] and [s.trim_start_matches(c)] for one ASCII character. *)
Fixpoint trim_start_matches (c : ascii) (s : string) : string :=
  match s with
  | EmptyString => EmptyString
  | String a s' => if Ascii.eqb a c then trim_start_matches c s' else s
  end.
Definition trim_end_matches (c : ascii) (s : string) : string :=
  String.rev (trim_start_matches c (String.rev s)).

(** The UTF-8 encodings of the code points with Unicode's White_Space
    property, which [str::trim] removes. *)
Definition bytes (l : list nat) : string := fold_right (λ n s, String (ascii_of_nat n) s) EmptyString l.
Definition white_space : list string :=
  map bytes
    (app [[9]; [10]; [11]; [12]; [13]; [32]; [194; 133]; [194; 160]; [225; 154; 128];
      [226; 128; 168]; [226; 128; 169]; [226; 128; 175]; [226; 129; 159]; [227; 128; 128]]
     (map (λ n, [226; 128; 128 + n]) (seq 0 11)))%nat.

Fixpoint strip_any (ps : list string) (s : string) : option string :=
  match ps with
  | [] => None
  | p :: ps' => match strip_prefix p s with Some r => Some r | None => strip_any ps' s end
  end.
Fixpoint trim_with (ps : list string) (fuel : nat) (s : string) : string :=
  match fuel with
  | O => s
  | S fuel' => match strip_any ps s with Some r => trim_with ps fuel' r | None => s end
  end.
Definition trim_start (s : string) : string := trim_with white_space (String.length s) s.
Definition trim_end (s : string) : string :=
  String.rev (trim_with (map String.rev white_space) (String.length s) (String.rev s)).
Definition trim (s : string) : string := trim_end (trim_start s).

(** [u64::from_str_radix], [str::parse::<u64>] and the other unsigned parsers. *)
Definition hex_value (c : ascii) : option Z :=
  if is_ascii_digit c then Some (Z.of_N (N_of_ascii c - 48))
  else if in_range "A" "F" c then Some (Z.of_N (N_of_ascii c - 55))
  else if in_range "a" "f" c then Some (Z.of_N (N_of_ascii c - 87))
  else None.
Definition digit_value (radix : Z) (c : ascii) : option Z :=
  v ← hex_value c; if (v <? radix)%Z then Some v else None.
Fixpoint parse_digits (radix max acc : Z) (s : string) : option Z :=
  match s with
  | EmptyString => Some acc
  | String c s' =>
      v ← digit_value radix c;
      let acc' := (acc * radix + v)%Z in
      if (acc' <=? max)%Z then parse_digits radix max acc' s' else None
  end.
Definition parse_uint (radix max : Z) (s : string) : option Z :=
  let body := default s (strip_prefix "+" s) in
  if String.eqb body "" then None else parse_digits radix max 0 body.
Definition parse_u64 : string → option Z := parse_uint 10 u64_MAX.

Lemma digit_value_nonneg radix c d : digit_value radix c = Some d → (0 ≤ d)%Z.
Proof.
  unfold digit_value, hex_value. intros (v & Hv & Hd)%bind_Some.
  assert (0 ≤ v)%Z by (repeat case_match; simplify_eq; lia). case_match; simplify_eq. done.
Qed.

Lemma parse_uint_range radix max s n :
  (0 ≤ radix)%Z → (0 ≤ max)%Z → parse_uint radix max s = Some n → (0 ≤ n ≤ max)%Z.
Proof.
  intros Hr Hm. unfold parse_uint. destruct (String.eqb _ ""); [done|].
  generalize (default s (strip_prefix "+" s)). intros body.
  assert (∀ acc, 0 ≤ acc ≤ max → parse_digits radix max acc body = Some n → 0 ≤ n ≤ max)%Z as IH;
    [|apply IH; lia].
  induction body as [|c body IH]; intros acc Hacc; simpl.
  - intros [= <-]. done.
  - intros (v & Hv & Hp)%bind_Some. apply digit_value_nonneg in Hv. revert Hp.
    destruct (Z.leb_spec (acc * radix + v) max); [|done]. apply IH. nia.
Qed.

(** Decimal rendering of a natural number, as [format!("{n}")]. *)
Definition digit_char (d : Z) : ascii := ascii_of_N (48 + Z.to_N d).
Fixpoint show_digits (fuel : nat) (n : Z) (acc : string) : string :=
  match fuel with
  | O => acc
  | S fuel' =>
      let acc' := String (digit_char (n mod 10)) acc in
      if (n <? 10)%Z then acc' else show_digits fuel' (n / 10) acc'
  end.
Definition show_uint (n : Z) : string := show_digits (S (Z.to_nat (Z.log2 n))) n "".
Definition show_int (n : Z) : string := if (n <? 0)%Z then "-" +:+ show_uint (- n) else show_uint n.

(** [format!("{n:0w$}")] of a natural number. *)
Fixpoint pad_zeros (n : nat) (s : string) : string :=
  match n with O => s | S n' => String "0" (pad_zeros n' s) end.
Definition show_padded (width : nat) (n : Z) : string :=
  let s := show_uint n in pad_zeros (width - String.length s) s.

Lemma str_length_app a b : String.length (a +:+ b) = (String.length a + String.length b)%nat.
Proof.
  induction a as [|c a IH]; [done|].
  change (S (String.length (a +:+ b)) = S (String.length a + String.length b)). by rewrite IH.
Qed.

Lemma str_app_assoc a b c : (a +:+ b) +:+ c = a +:+ (b +:+ c).
Proof.
  induction a as [|x a IH]; [done|].
  change (String x ((a +:+ b) +:+ c) = String x (a +:+ (b +:+ c))). by rewrite IH.
Qed.

Lemma starts_with_spec p s : starts_with p s = true ↔ ∃ r, s = p +:+ r.
Proof.
  revert s. induction p as [|a p IH]; intros s; simpl.
  - split; [by exists s | by destruct s].
  - destruct s as [|b s]; simpl.
    + split; [done | intros [r Hr]; discriminate].
    + destruct (ascii_dec a b) as [->|Hne].
      * rewrite IH. split; intros [r Hr]; exists r; [by rewrite Hr | by injection Hr].
      * split; [done | intros [r Hr]; injection Hr; congruence].
Qed.

Lemma strip_prefix_spec p s r : strip_prefix p s = Some r ↔ s = p +:+ r.
Proof.
  revert s. induction p as [|a p IH]; intros s; simpl.
  - split; intros H; [injection H as ->; reflexivity | rewrite H; reflexivity].
  - destruct s as [|b s]; simpl; [split; [done | intros H; discriminate H]|].
    destruct (Ascii.eqb_spec a b) as [->|Hne].
    + rewrite IH. split; intros H; [by rewrite H | by injection H].
    + split; [done | intros H; injection H; congruence].
Qed.

(** ** List tables: the SQL statements the store runs *)

Section tables.
Context {A : Type}.
Implicit Types (p : A → bool) (f : A → A) (l : list A).

(** [UPDATE ... SET f WHERE p]: the rows afterwards and the affected count. *)
Definition update_where p f l : nat * list A :=
  (length (filter (λ r, p r = true) l), map (λ r, if p r then f r else r) l).

(** [SELECT * ... WHERE p], in rowid order. *)
Definition select_where p l : list A := filter (λ r, p r = true) l.

(** [DELETE FROM ... WHERE p] *)
Definition delete_where p l : list A := filter (λ r, p r = false) l.

Lemma elem_of_select_where p l r : r ∈ select_where p l ↔ r ∈ l ∧ p r = true.
Proof. unfold select_where. rewrite list_elem_of_filter. tauto. Qed.

Lemma elem_of_delete_where p l r : r ∈ delete_where p l ↔ r ∈ l ∧ p r = false.
Proof. unfold delete_where. rewrite list_elem_of_filter. tauto. Qed.

Lemma update_where_rows_inv p f l r' :
  r' ∈ (update_where p f l).2 →
  ∃ r, r ∈ l ∧ ((p r = true ∧ r' = f r) ∨ (p r = false ∧ r' = r)).
Proof.
  simpl. rewrite list_elem_of_fmap. intros [r [-> Hr]].
  exists r. split; [done|]. destruct (p r); naive_solver.
Qed.

Lemma update_where_rows_intro p f l r :
  r ∈ l → (if p r then f r else r) ∈ (update_where p f l).2.
Proof. intros Hr. simpl. apply list_elem_of_fmap. by exists r. Qed.

Lemma update_where_rows_hit p f l r : r ∈ l → p r = true → f r ∈ (update_where p f l).2.
Proof. intros Hr Hp. pose proof (update_where_rows_intro p f l r Hr) as Hi. by rewrite Hp in Hi. Qed.

Lemma update_where_rows_keep p f l r : r ∈ l → p r = false → r ∈ (update_where p f l).2.
Proof. intros Hr Hp. pose proof (update_where_rows_intro p f l r Hr) as Hi. by rewrite Hp in Hi. Qed.

Lemma update_where_none p f l :
  (∀ r, r ∈ l → p r = false) → update_where p f l = (0%nat, l).
Proof.
  intros Hp. unfold update_where. induction l as [|r l IH]; [done|].
  assert (p r = false) as Hr by (apply Hp; left).
  assert (∀ r', r' ∈ l → p r' = false) as Hl by (intros r' ?; apply Hp; by right).
  injection (IH Hl) as Hn Hm.
  rewrite filter_cons_False by (by rewrite Hr). simpl. by rewrite Hr, Hn, Hm.
Qed.

Lemma update_where_count_pos p f l r :
  r ∈ l → p r = true → (update_where p f l).1 ≠ 0%nat.
Proof.
  intros Hr Hp Hlen. simpl in Hlen. apply length_zero_iff_nil in Hlen.
  assert (r ∈ filter (λ r, p r = true) l) as Hin by (apply list_elem_of_filter; naive_solver).
  rewrite Hlen in Hin. by apply not_elem_of_nil in Hin.
Qed.

Lemma update_where_count_zero p f l :
  (update_where p f l).1 = 0%nat → ∀ r, r ∈ l → p r = false.
Proof.
  intros Hz r Hr. destruct (p r) eqn:Hp; [|done].
  by destruct (update_where_count_pos p f l r).
Qed.

Lemma update_where_hit p f l n l' :
  update_where p f l = (n, l') → n ≠ 0%nat → ∃ r, r ∈ l ∧ p r = true ∧ f r ∈ l'.
Proof.
  intros [= Hn <-] Hpos. destruct (filter (λ r, p r = true) l) as [|r rs] eqn:Hf; [by subst|].
  assert (r ∈ filter (λ r, p r = true) l) as [Hp Hr]%list_elem_of_filter by (rewrite Hf; left).
  exists r. split; [done|]. split; [done|]. by apply update_where_rows_hit.
Qed.

(** A key column no update changes stays a key. *)
Lemma update_where_key {K} (k : A → K) p f l :
  (∀ r, p r = true → k (f r) = k r) → map k (update_where p f l).2 = map k l.
Proof.
  intros Hk. simpl. induction l as [|r l IH]; [done|]. simpl. rewrite IH.
  destruct (p r) eqn:Hp; [by rewrite (Hk _ Hp)|done].
Qed.

Lemma delete_where_key {K} (k : A → K) p l :
  NoDup (map k l) → NoDup (map k (delete_where p l)).
Proof.
  intros Hnd. unfold delete_where. induction l as [|r l IH]; [done|].
  simpl in Hnd. apply NoDup_cons in Hnd as [Hni Hnd].
  rewrite filter_cons. case_decide; [|by apply IH].
  simpl. apply NoDup_cons. split; [|by apply IH].
  intros (r' & Heq & Hr')%list_elem_of_fmap. apply Hni, list_elem_of_fmap.
  exists r'. split; [done|]. by apply list_elem_of_filter in Hr' as [_ ?].
Qed.

(** Two rows of a keyed table with one key are one row. *)
Lemma key_unique {K} (k : A → K) l r r' :
  NoDup (map k l) → r ∈ l → r' ∈ l → k r = k r' → r = r'.
Proof.
  induction l as [|a l IH]; intros Hnd Hr Hr' Hk; [by apply not_elem_of_nil in Hr|].
  simpl in Hnd. apply NoDup_cons in Hnd as [Hni Hnd].
  apply elem_of_cons in Hr as [->|Hr]; apply elem_of_cons in Hr' as [->|Hr']; auto.
  - destruct Hni. rewrite Hk. by apply list_elem_of_fmap_2.
  - destruct Hni. rewrite <- Hk. by apply list_elem_of_fmap_2.
Qed.

Lemma select_where_nil p l : (∀ r, r ∈ l → p r = false) → select_where p l = [].
Proof.
  intros Hp. unfold select_where. induction l as [|r l IH]; [done|].
  rewrite filter_cons_False by (rewrite Hp by left; done).
  apply IH. intros r' ?. apply Hp. by right.
Qed.

(** A SELECT by key of a keyed table. *)
Lemma select_where_key (k : A → string) x l r :
  NoDup (map k l) → r ∈ l → k r = x → select_where (λ r, String.eqb (k r) x) l = [r].
Proof.
  intros Hnd Hr <-. induction l as [|a l IH]; [by apply not_elem_of_nil in Hr|].
  simpl in Hnd. apply NoDup_cons in Hnd as [Hni Hnd].
  unfold select_where. apply elem_of_cons in Hr as [->|Hr].
  - rewrite filter_cons_True by apply String.eqb_refl. f_equal.
    apply select_where_nil. intros r' Hr'. apply String.eqb_neq. intros Heq.
    apply Hni. rewrite <- Heq. by apply list_elem_of_fmap_2.
  - rewrite filter_cons_False; [by apply IH|]. intros Heq%String.eqb_eq.
    apply Hni. rewrite Heq. by apply list_elem_of_fmap_2.
Qed.

Lemma head_select_where p l r : head (select_where p l) = Some r → r ∈ l ∧ p r = true.
Proof.
  intros Hh. apply elem_of_select_where. destruct (select_where p l); [done|].
  injection Hh as ->. by left.
Qed.

Lemma head_select_where_None p l : head (select_where p l) = None → ∀ r, r ∈ l → p r = false.
Proof.
  intros Hh r Hr. apply not_true_iff_false. intros Hp.
  assert (r ∈ select_where p l) as Hin by by apply elem_of_select_where.
  destruct (select_where p l); [by apply not_elem_of_nil in Hin | done].
Qed.

Lemma head_select_where_app p l l' r :
  head (select_where p l) = Some r → head (select_where p (l ++ l')%list) = Some r.
Proof. unfold select_where. rewrite filter_app. by destruct (filter _ l). Qed.
End tables.

Lemma tail_drop {A} n (l : list A) : tail (drop n l) = drop (S n) l.
Proof. revert l. induction n as [|n IH]; intros [|x l]; try done. apply IH. Qed.

Lemma Forall2_refl {A} (R : relation A) l : (∀ x, R x x) → Forall2 R l l.
Proof. intros HR. induction l; constructor; auto. Qed.

Lemma Forall2_compose {A} (R : relation A) l1 l2 l3 :
  (∀ x y z, R x y → R y z → R x z) → Forall2 R l1 l2 → Forall2 R l2 l3 → Forall2 R l1 l3.
Proof.
  intros HR Hl. revert l3. induction Hl as [|x y l1 l2 Hxy _ IH]; intros l3 Hl3.
  - by inversion Hl3.
  - inversion Hl3; subst. constructor; eauto.
Qed.

Lemma Forall2_elem_l {A B} (R : A → B → Prop) l k x :
  Forall2 R l k → x ∈ l → ∃ y, y ∈ k ∧ R x y.
Proof.
  induction 1 as [|a b l k Hab _ IH]; intros Hx; [by apply not_elem_of_nil in Hx|].
  apply elem_of_cons in Hx as [->|Hx]; [exists b; split; [by left|done]|].
  destruct (IH Hx) as (y & ? & ?). exists y. split; [by right|done].
Qed.

(** ** Automation *)

Create HintDb zkapi discriminated.
Create Rewrite HintDb zkapi.
#[export] Hint Resolve u64_add_bounds u64_add_le : zkapi.
#[export] Hint Rewrite @elem_of_select_where @elem_of_delete_where : zkapi.

(** Case analysis on the guards of a handler that returned: every [fail_if],
    [ok_or] and bind in a hypothesis [_ = Ok _] is inverted. *)
Ltac inv_ok :=
  repeat match goal with
  | H : (_ ≫= _) = Ok _ |- _ => apply bind_Ok in H as (? & ? & ?)
  | H : fail_if _ _ = Ok _ |- _ => apply fail_if_Ok in H
  | H : ok_or _ _ = Ok _ |- _ => apply ok_or_Ok in H
  | H : Ok _ = Ok _ |- _ => injection H as H; subst
  | H : Err _ = Ok _ |- _ => discriminate H
  end.

(** Case on the first [if] or [match] of the goal or of a hypothesis. *)
Ltac split_match_in H :=
  match type of H with
  | context [ match ?x with _ => _ end ] => destruct x eqn:?; try discriminate
  end.
Ltac split_match :=
  match goal with
  | |- context [ match ?x with _ => _ end ] => destruct x eqn:?
  end.
