(* ===== verification/Text.v ===== *)
(** * Text and bytes the components share

    Hexadecimal, paths, and the big-endian bytes of an integer. *)

From Stdlib Require Import ZArith Lia Ascii.
From stdpp Require Import base tactics decidable numbers list strings.
From S2P Require Import Prelude.

Local Open Scope string_scope.

Definition hex_digit (d : Z) : ascii := ascii_of_N (Z.to_N (if (d <? 10)%Z then 48 + d else 87 + d)).
Fixpoint show_hex_digits (fuel : nat) (n : Z) (acc : string) : string :=
  match fuel with
  | O => acc
  | S fuel' =>
      let acc' := String (hex_digit (n mod 16)) acc in
      if (n <? 16)%Z then acc' else show_hex_digits fuel' (n / 16) acc'
  end.
(** [format!("{n:x}")] *)
Definition show_hex (n : Z) : string := show_hex_digits (S (Z.to_nat (Z.log2 n))) n "".

(** The text after an optional [0x] or [0X]. *)
Definition strip_0x (s : string) : string :=
  match strip_prefix "0x" s with
  | Some r => r
  | None => default s (strip_prefix "0X" s)
  end.

(** Paths: [Path::parent] and [Path::with_extension], of a path without trailing
    slashes. [rsplit c s] cuts at the last [c]. *)
Fixpoint rsplit (c : ascii) (s : string) : option (string * string) :=
  match s with
  | EmptyString => None
  | String a s' =>
      match rsplit c s' with
      | Some (l, r) => Some (String a l, r)
      | None => if Ascii.eqb a c then Some ("", s') else None
      end
  end.
Definition path_parent (path : string) : option string :=
  if String.eqb path "" || String.eqb path "/" then None
  else match rsplit "/" path with
       | None => Some ""
       | Some (EmptyString, _) => Some "/"
       | Some (dir, _) => Some dir
       end.
Definition with_extension (path ext : string) : string :=
  let '(dir, name) := match rsplit "/" path with Some (d, n) => (d +:+ "/", n) | None => ("", path) end in
  let stem := match rsplit "." name with Some (EmptyString, _) | None => name | Some (stem, _) => stem end in
  dir +:+ stem +:+ "." +:+ ext.

(** Big-endian value of bytes. *)
Fixpoint be_value (acc : Z) (s : string) : Z :=
  match s with
  | EmptyString => acc
  | String c s' => be_value (acc * 256 + Z.of_N (N_of_ascii c)) s'
  end.

(** ** Lemmas *)

Lemma substring_app_l a b : String.substring 0 (String.length a) (a +:+ b) = a.
Proof. induction a as [|c a IH]; simpl; [by destruct b|]. by rewrite IH. Qed.
Lemma substring_app_r a b n : String.substring (String.length a) n (a +:+ b) = String.substring 0 n b.
Proof. induction a as [|c a IH]; simpl; [done|]. exact IH. Qed.
Lemma substring_all a : String.substring 0 (String.length a) a = a.
Proof. induction a as [|c a IH]; simpl; [done|]. by rewrite IH. Qed.
Lemma str_forall_app f a b : str_forall f (a +:+ b) = str_forall f a && str_forall f b.
Proof. induction a as [|c a IH]; simpl; [done|]. by rewrite IH, andb_assoc. Qed.

(** No white space starts or ends with a visible ASCII character. *)
Definition solid (c : ascii) : bool := in_range "!" "~" c.
Lemma strip_any_solid c s : solid c = true → strip_any white_space (String c s) = None.
Proof. destruct c as [[] [] [] [] [] [] [] []]; try discriminate; intros _; reflexivity. Qed.
Lemma strip_any_rev_solid c s : solid c = true → strip_any (map String.rev white_space) (String c s) = None.
Proof. destruct c as [[] [] [] [] [] [] [] []]; try discriminate; intros _; reflexivity. Qed.
Lemma str_forall_rev_app f s t : str_forall f (String.rev_app s t) = str_forall f s && str_forall f t.
Proof.
  revert t. induction s as [|c s IH]; intros t; simpl; [done|]. rewrite IH. simpl.
  destruct (f c), (str_forall f s); done.
Qed.
Lemma str_app_nil s : s +:+ "" = s.
Proof. induction s as [|c s IH]; [done|]. exact (f_equal (String c) IH). Qed.
Lemma rev_rev_app s t u : String.rev_app (String.rev_app s t) u = String.rev_app t (s +:+ u).
Proof. revert t. induction s as [|c s IH]; intros t; simpl; [done|]. by rewrite IH. Qed.
Lemma rev_involutive s : String.rev (String.rev s) = s.
Proof. unfold String.rev. rewrite rev_rev_app. exact (str_app_nil s). Qed.

Lemma trim_with_solid ps n s :
  (∀ c s, solid c = true → strip_any ps (String c s) = None) →
  str_forall solid s = true → String.length s = n → trim_with ps n s = s.
Proof.
  intros Hps Hs <-. destruct s as [|c s]; [done|]. simpl in Hs. apply andb_true_iff in Hs as [Hc _].
  cbn [trim_with String.length]. by rewrite Hps.
Qed.
Lemma rev_length s : String.length (String.rev s) = String.length s.
Proof.
  unfold String.rev. assert (∀ t, String.length (String.rev_app s t) = String.length s + String.length t)%nat as Hr.
  { induction s as [|c s IH]; intros t; simpl; [done|]. rewrite IH. simpl. lia. }
  rewrite Hr. simpl. lia.
Qed.
Lemma trim_solid s : str_forall solid s = true → trim s = s.
Proof.
  intros Hs. unfold trim, trim_start. rewrite trim_with_solid; [|apply strip_any_solid|done|done].
  unfold trim_end. rewrite (trim_with_solid _ _ (String.rev s)); [apply rev_involutive|apply strip_any_rev_solid| |].
  - unfold String.rev. by rewrite str_forall_rev_app, Hs.
  - apply rev_length.
Qed.

Lemma solid_hex s : str_forall is_ascii_hexdigit s = true → str_forall solid s = true.
Proof.
  induction s as [|c s IH]; [done|]. cbn [str_forall]. intros [Hc Hs]%andb_true_iff. rewrite IH by done.
  rewrite andb_true_r. revert Hc. by destruct c as [[] [] [] [] [] [] [] []].
Qed.

(** ** Hexadecimal *)

Lemma digit_value_hex d : (0 ≤ d < 16)%Z → digit_value 16 (hex_digit d) = Some d.
Proof.
  intros Hd. assert (d = 0 ∨ d = 1 ∨ d = 2 ∨ d = 3 ∨ d = 4 ∨ d = 5 ∨ d = 6 ∨ d = 7 ∨ d = 8 ∨ d = 9 ∨ d = 10
    ∨ d = 11 ∨ d = 12 ∨ d = 13 ∨ d = 14 ∨ d = 15)%Z as Hc by lia.
  repeat destruct Hc as [->|Hc]; [reflexivity..|by subst].
Qed.
Lemma hex_digit_hex d : (0 ≤ d < 16)%Z → is_ascii_hexdigit (hex_digit d) = true.
Proof.
  intros Hd. assert (d = 0 ∨ d = 1 ∨ d = 2 ∨ d = 3 ∨ d = 4 ∨ d = 5 ∨ d = 6 ∨ d = 7 ∨ d = 8 ∨ d = 9 ∨ d = 10
    ∨ d = 11 ∨ d = 12 ∨ d = 13 ∨ d = 14 ∨ d = 15)%Z as Hc by lia.
  repeat destruct Hc as [->|Hc]; [reflexivity..|by subst].
Qed.

Lemma show_hex_digits_spec fuel n acc max :
  (0 ≤ n ≤ max)%Z → (n < 16 ^ Z.of_nat fuel)%Z → (0 < fuel)%nat →
  parse_digits 16 max 0 (show_hex_digits fuel n acc) = parse_digits 16 max n acc
  ∧ str_forall is_ascii_hexdigit (show_hex_digits fuel n acc) = str_forall is_ascii_hexdigit acc
  ∧ show_hex_digits fuel n acc ≠ "".
Proof.
  revert n acc. induction fuel as [|fuel IH]; intros n acc Hn Hf Hpos; [lia|]. cbn [show_hex_digits].
  pose proof (Z.mod_pos_bound n 16 ltac:(lia)) as Hm.
  destruct (Z.ltb_spec n 16) as [Hlt|Hge].
  - rewrite (Z.mod_small n 16) in * by lia. cbn [parse_digits str_forall]. rewrite digit_value_hex by lia.
    cbn [mbind option_bind]. rewrite hex_digit_hex by lia. rewrite (proj2 (Z.leb_le _ _)) by lia.
    by replace (0 * 16 + n)%Z with n by lia.
  - assert (0 < fuel)%nat.
    { destruct fuel; [|lia]. simpl in Hf. lia. }
    destruct (IH (n / 16)%Z (String (hex_digit (n mod 16)) acc)) as (Hp & Hs & Hne); [|..|done|].
    + split; [apply Z.div_pos; lia|]. etransitivity; [apply Z.div_le_upper_bound; [lia|]|apply Hn]. lia.
    + apply Z.div_lt_upper_bound; [lia|]. rewrite Nat2Z.inj_succ, Z.pow_succ_r in Hf by lia. lia.
    + rewrite Hp, Hs. split; [|split; [simpl; by rewrite hex_digit_hex|exact Hne]].
      cbn [parse_digits]. rewrite digit_value_hex by lia. cbn [mbind option_bind].
      pose proof (Z.div_mod n 16 ltac:(lia)). rewrite (proj2 (Z.leb_le _ _)) by lia. f_equal. lia.
Qed.

(** ** Decimals *)

Lemma digit_value_dec d : (0 ≤ d < 10)%Z → digit_value 10 (digit_char d) = Some d.
Proof.
  intros Hd. assert (d = 0 ∨ d = 1 ∨ d = 2 ∨ d = 3 ∨ d = 4 ∨ d = 5 ∨ d = 6 ∨ d = 7 ∨ d = 8 ∨ d = 9)%Z as Hc by lia.
  repeat destruct Hc as [->|Hc]; [reflexivity..|by subst].
Qed.
Lemma show_digits_spec fuel n acc max :
  (0 ≤ n ≤ max)%Z → (n < 10 ^ Z.of_nat fuel)%Z → (0 < fuel)%nat →
  parse_digits 10 max 0 (show_digits fuel n acc) = parse_digits 10 max n acc.
Proof.
  revert n acc. induction fuel as [|fuel IH]; intros n acc Hn Hf Hpos; [lia|]. cbn [show_digits].
  pose proof (Z.mod_pos_bound n 10 ltac:(lia)) as Hm.
  destruct (Z.ltb_spec n 10) as [Hlt|Hge].
  - rewrite (Z.mod_small n 10) in * by lia. cbn [parse_digits]. rewrite digit_value_dec by lia.
    cbn [mbind option_bind]. rewrite (proj2 (Z.leb_le _ _)) by lia. by replace (0 * 10 + n)%Z with n by lia.
  - assert (0 < fuel)%nat.
    { destruct fuel; [|lia]. simpl in Hf. lia. }
    assert (0 ≤ n / 10 ≤ max)%Z.
    { split; [apply Z.div_pos; lia|]. etransitivity; [apply Z.div_le_upper_bound; [lia|]|apply Hn]. lia. }
    assert (n / 10 < 10 ^ Z.of_nat fuel)%Z.
    { apply Z.div_lt_upper_bound; [lia|]. rewrite Nat2Z.inj_succ, Z.pow_succ_r in Hf by lia. lia. }
    rewrite IH by done. cbn [parse_digits]. rewrite digit_value_dec by lia. cbn [mbind option_bind].
    pose proof (Z.div_mod n 10 ltac:(lia)). rewrite (proj2 (Z.leb_le _ _)) by lia. f_equal. lia.
Qed.
Lemma show_uint_parse n : (0 ≤ n)%Z → parse_digits 10 n 0 (show_uint n) = Some n.
Proof.
  intros Hn. unfold show_uint. rewrite (show_digits_spec _ n "" n); [reflexivity|lia| |lia].
  assert (n < 2 ^ Z.succ (Z.log2 n))%Z.
  { destruct (decide (n = 0)%Z) as [->|]; [done|]. apply Z.log2_spec. lia. }
  pose proof (Z.log2_nonneg n). rewrite Nat2Z.inj_succ, Z2Nat.id by done.
  assert (2 ^ Z.succ (Z.log2 n) ≤ 10 ^ Z.succ (Z.log2 n))%Z; [|lia]. apply Z.pow_le_mono_l. lia.
Qed.
Lemma parse_digits_mono radix max max' acc s n :
  (max ≤ max')%Z → parse_digits radix max acc s = Some n → parse_digits radix max' acc s = Some n.
Proof.
  intros Hm. revert acc. induction s as [|c s IH]; intros acc; cbn [parse_digits]; [done|].
  destruct (digit_value radix c); [|done]. cbn [mbind option_bind].
  destruct (Z.leb_spec (acc * radix + z) max); [|done]. rewrite (proj2 (Z.leb_le _ _)) by lia. apply IH.
Qed.
Lemma show_uint_inj n m : (0 ≤ n)%Z → (0 ≤ m)%Z → show_uint n = show_uint m → n = m.
Proof.
  intros Hn Hm Heq. apply show_uint_parse in Hn. apply show_uint_parse in Hm.
  apply (parse_digits_mono _ _ (Z.max n m)) in Hn; [|lia].
  apply (parse_digits_mono _ _ (Z.max n m)) in Hm; [|lia].
  rewrite Heq in Hn. congruence.
Qed.

(** The [k] low bytes of [n], most significant first. *)
Fixpoint be_bytes (k : nat) (n : Z) : string :=
  match k with
  | O => ""
  | S k' => String (ascii_of_N (Z.to_N (n / 256 ^ Z.of_nat k' mod 256))) (be_bytes k' n)
  end.
Lemma be_bytes_length k n : String.length (be_bytes k n) = k.
Proof. induction k as [|k IH]; simpl; [done|]. by rewrite IH. Qed.

Lemma be_value_bytes k n acc : be_value acc (be_bytes k n) = (acc * 256 ^ Z.of_nat k + n mod 256 ^ Z.of_nat k)%Z.
Proof.
  revert acc. induction k as [|k IH]; intros acc.
  - cbn [be_bytes be_value]. rewrite Z.pow_0_r, Z.mod_1_r. lia.
  - cbn [be_bytes be_value]. rewrite IH.
    assert (0 < 256 ^ Z.of_nat k)%Z as Hp by (apply Z.pow_pos_nonneg; lia).
    pose proof (Z.mod_pos_bound (n / 256 ^ Z.of_nat k) 256 ltac:(lia)) as Hb.
    rewrite N_ascii_embedding by lia. rewrite Z2N.id by lia.
    rewrite Nat2Z.inj_succ, Z.pow_succ_r by lia.
    rewrite (Z.mul_comm 256), Z.rem_mul_r by lia. lia.
Qed.

Lemma be_bytes_tail k j n : String.substring k j (be_bytes (k + j) n) = be_bytes j n.
Proof.
  induction k as [|k IH]; [|exact IH]. simpl.
  rewrite <- (be_bytes_length j n) at 1. apply substring_all.
Qed.

(** ** UTF-8 *)

(** For a lead byte of a sequence of several bytes: the range of the second byte
    and how many continuation bytes follow it. *)
Definition utf8_lead (b : N) : option (N * N * nat) :=
  (if (194 <=? b) && (b <=? 223) then Some (128, 191, 0%nat)
   else if b =? 224 then Some (160, 191, 1%nat)
   else if (b =? 237) then Some (128, 159, 1%nat)
   else if (225 <=? b) && (b <=? 239) then Some (128, 191, 1%nat)
   else if b =? 240 then Some (144, 191, 2%nat)
   else if (241 <=? b) && (b <=? 243) then Some (128, 191, 2%nat)
   else if b =? 244 then Some (128, 143, 2%nat)
   else None)%N.
Fixpoint utf8_continues (k n : nat) (s : string) : bool * nat :=
  match k, s with
  | O, _ => (true, n)
  | S k', String c s' => if in_range "128" "191" c then utf8_continues k' (S n) s' else (false, n)
  | S _, EmptyString => (false, n)
  end.
(** The first character, or the longest prefix of one: whether it is whole, and
    its length. *)
Definition utf8_step (c : ascii) (s : string) : bool * nat :=
  if (N_of_ascii c <? 128)%N then (true, 1%nat)
  else match utf8_lead (N_of_ascii c), s with
       | Some (lo, hi, k), String c1 s1 =>
           if (lo <=? N_of_ascii c1)%N && (N_of_ascii c1 <=? hi)%N then utf8_continues k 2 s1 else (false, 1%nat)
       | _, _ => (false, 1%nat)
       end.
(** The characters of [s], each flagged whole or broken. *)
Fixpoint utf8_parts (fuel : nat) (s : string) : list (bool * string) :=
  match fuel, s with
  | S fuel', String c s' =>
      let '(whole, n) := utf8_step c s' in
      (whole, String.substring 0 n s) :: utf8_parts fuel' (String.substring n (String.length s - n) s)
  | _, _ => []
  end.
(** [String::from_utf8(s).is_ok()] *)
Definition utf8_valid (s : string) : bool := forallb fst (utf8_parts (String.length s) s).
(** [String::from_utf8_lossy(s)] *)
Definition from_utf8_lossy (s : string) : string :=
  String.concat "" (map (λ p : bool * string, if p.1 then p.2 else bytes [239; 191; 189]%nat)
                      (utf8_parts (String.length s) s)).

(** [s.split_once(p)] *)
Definition split_once (p s : string) : option (string * string) :=
  (λ i, (String.substring 0 i s,
         String.substring (i + String.length p) (String.length s - (i + String.length p)) s)) <$> String.index 0 p s.

(** [s.lines()] *)
Fixpoint split_char (c : ascii) (s : string) : list string :=
  match s with
  | EmptyString => [""]
  | String a s' =>
      if Ascii.eqb a c then "" :: split_char c s'
      else match split_char c s' with [] => [String a ""] | l :: ls => String a l :: ls end
  end.
Definition lines (s : string) : list string :=
  let parts := split_char "010"%char s in
  let rest := default "" (last parts) in
  (map (λ l, default l (strip_suffix (String "013"%char "") l)) (removelast parts)
   ++ if String.eqb rest "" then [] else [rest])%list.

(** [s.split_whitespace().next()] *)
Fixpoint first_word (fuel : nat) (s : string) : string :=
  match fuel, s with
  | S fuel', String c s' => match strip_any white_space s with Some _ => "" | None => String c (first_word fuel' s') end
  | _, _ => ""
  end.
Definition split_whitespace_next (s : string) : option string :=
  let w := first_word (String.length s) (trim_start s) in
  if String.eqb w "" then None else Some w.

(** [s.trim_start_matches(p)] for a string pattern. *)
Fixpoint trim_start_str (fuel : nat) (p s : string) : string :=
  match fuel with
  | O => s
  | S fuel' => match strip_prefix p s with Some r => trim_start_str fuel' p r | None => s end
  end.
