(* ===== verification/Float64.v ===== *)
(** * IEEE-754 binary64, the [f64] of the sources

    The Standard Library's executable specification of binary floating point at
    precision 53 and maximal exponent 1024, with the conversions the sources use:
    integers to [f64] ([as f64]), [f64] to integers (Rust's saturating [as]),
    [ceil], [max], comparisons and decimal literals. *)

From Stdlib Require Import ZArith Lia SpecFloat.
From stdpp Require Import base tactics decidable numbers.
From S2P Require Import Prelude.

Abbreviation f64 := spec_float.

Definition f64_mul : f64 → f64 → f64 := SFmul 53 1024.
Definition f64_div : f64 → f64 → f64 := SFdiv 53 1024.
Definition f64_add : f64 → f64 → f64 := SFadd 53 1024.
Definition f64_sub : f64 → f64 → f64 := SFsub 53 1024.
Definition f64_abs : f64 → f64 := SFabs.
Definition f64_ltb : f64 → f64 → bool := SFltb.
Definition f64_leb : f64 → f64 → bool := SFleb.
Definition f64_eqb : f64 → f64 → bool := SFeqb.
Definition f64_zero : f64 := S754_zero false.

#[export] Instance f64_eq_dec : EqDecision f64.
Proof. solve_decision. Defined.

(** [n as f64] for an integer: round to nearest, ties to even. *)
Definition f64_of_Z (n : Z) : f64 := binary_normalize 53 1024 n 0 false.

(** The decimal literal [num / 10 ^ digits], correctly rounded (both operands
    of the quotient are exact for the literals of the sources). *)
Definition f64_lit (num : Z) (digits : Z) : f64 := f64_div (f64_of_Z num) (f64_of_Z (10 ^ digits)).

Definition is_finite (x : f64) : bool :=
  match x with S754_zero _ | S754_finite _ _ _ => true | _ => false end.
Definition is_nan (x : f64) : bool :=
  match x with S754_nan => true | _ => false end.

(** [x.max(y)]: a NaN operand is ignored. *)
Definition f64_max (x y : f64) : f64 :=
  if is_nan x then y else if is_nan y then x else if f64_ltb x y then y else x.

(** [x.ceil()] *)
Definition f64_ceil (x : f64) : f64 :=
  match x with
  | S754_finite s m (Zneg e) =>
      let d := (2 ^ Zpos e)%Z in
      let n := (if s then - (Zpos m / d) else - ((- Zpos m) / d))%Z in
      binary_normalize 53 1024 n 0 s
  | _ => x
  end.

(** [x as uN]: towards zero, saturating at both ends, NaN to zero. *)
Definition f64_as_uint (max : Z) (x : f64) : Z :=
  match x with
  | S754_nan | S754_zero _ => 0
  | S754_infinity s => if s then 0 else max
  | S754_finite true _ _ => 0
  | S754_finite false m e =>
      Z.min max (if (0 <=? e)%Z then Zpos m * 2 ^ e else Zpos m / 2 ^ (- e))%Z
  end.
Definition f64_as_u128 : f64 → Z := f64_as_uint u128_MAX.
(** [f64::EPSILON], 2^-52. *)
Definition f64_epsilon : f64 := f64_div (f64_of_Z 1) (f64_of_Z (2 ^ 52)).
