(* ===== verification/Pricing.v ===== *)
(** * Usage pricing: [zkapi-serverd/src/pricing.rs]

    One credit is one micro-dollar. [usd_to_credits] rounds a dollar amount up
    to credits, [openai_price] picks the longest table entry that is a prefix of
    the model id, and [cost_usd] prices token counts. *)

From Stdlib Require Import ZArith Lia SpecFloat.
From stdpp Require Import base strings list.
From S2P Require Import Prelude Float64.

Definition CREDITS_PER_USD : f64 := f64_of_Z 1000000.

Definition usd_to_credits (cost_usd : f64) : Z :=
  if negb (is_finite cost_usd) || f64_leb cost_usd f64_zero then 0
  else
    let credits := f64_ceil (f64_mul cost_usd CREDITS_PER_USD) in
    if f64_ltb credits (f64_of_Z 1) then 1 else f64_as_u128 credits.

Definition credits_to_usd (credits : Z) : f64 := f64_div (f64_of_Z credits) CREDITS_PER_USD.

Record ModelPrice := {
  prompt_usd_per_token : f64;
  completion_usd_per_token : f64;
}.

Definition per_million (prompt completion : f64) : ModelPrice := {|
  prompt_usd_per_token := f64_div prompt (f64_of_Z 1000000);
  completion_usd_per_token := f64_div completion (f64_of_Z 1000000);
|}.

Definition cost_usd (self : ModelPrice) (prompt_tokens completion_tokens : Z) : f64 :=
  f64_add (f64_mul (f64_of_Z prompt_tokens) (prompt_usd_per_token self))
          (f64_mul (f64_of_Z completion_tokens) (completion_usd_per_token self)).

Definition OPENAI_PRICES : list (string * ModelPrice) := [
  ("gpt-4o-mini", per_million (f64_lit 15 2) (f64_lit 60 2));
  ("gpt-4o", per_million (f64_lit 250 2) (f64_lit 1000 2));
  ("gpt-4.1-nano", per_million (f64_lit 10 2) (f64_lit 40 2));
  ("gpt-4.1-mini", per_million (f64_lit 40 2) (f64_lit 160 2));
  ("gpt-4.1", per_million (f64_lit 200 2) (f64_lit 800 2));
  ("gpt-4-turbo", per_million (f64_lit 1000 2) (f64_lit 3000 2));
  ("gpt-4", per_million (f64_lit 3000 2) (f64_lit 6000 2));
  ("gpt-3.5-turbo", per_million (f64_lit 50 2) (f64_lit 150 2));
  ("o4-mini", per_million (f64_lit 110 2) (f64_lit 440 2));
  ("o3-mini", per_million (f64_lit 110 2) (f64_lit 440 2));
  ("o3", per_million (f64_lit 200 2) (f64_lit 800 2));
  ("o1-mini", per_million (f64_lit 110 2) (f64_lit 440 2));
  ("o1", per_million (f64_lit 1500 2) (f64_lit 6000 2))
]%string.

Definition FALLBACK_PRICE : ModelPrice := per_million (f64_lit 15 2) (f64_lit 60 2).

(** The loop of [openai_price]: [best] is the longest match so far. *)
Fixpoint best_price (model : string) (best : option (string * ModelPrice))
    (prices : list (string * ModelPrice)) : option (string * ModelPrice) :=
  match prices with
  | [] => best
  | (id, price) :: rest =>
      let best' :=
        if starts_with id model
           && match best with None => true | Some (b, _) => String.length b <? String.length id end
        then Some (id, price) else best in
      best_price model best' rest
  end.

Definition openai_price (model : string) : ModelPrice * bool :=
  let model := trim model in
  match best_price model None OPENAI_PRICES with
  | Some (_, price) => (price, true)
  | None => (FALLBACK_PRICE, false)
  end.

Definition openai_cost_usd (model : string) (prompt_tokens completion_tokens : Z) : f64 * bool :=
  let '(price, exact) := openai_price model in
  (cost_usd price prompt_tokens completion_tokens, exact).

(** ** The price table *)

(** [id] is an entry of [prices] that prefixes [model], none longer does. *)
Definition longest_match (model : string) (prices : list (string * ModelPrice)) (id : string)
    (price : ModelPrice) : Prop :=
  (id, price) ∈ prices ∧ starts_with id model = true
  ∧ ∀ id' price', (id', price') ∈ prices → starts_with id' model = true →
      String.length id' ≤ String.length id.

Lemma best_price_spec model prices seen best :
  match best with
  | Some (b, p) => longest_match model seen b p
  | None => ∀ id' price', (id', price') ∈ seen → starts_with id' model = false
  end →
  match best_price model best prices with
  | Some (b, p) => longest_match model (seen ++ prices)%list b p
  | None => ∀ id' price', (id', price') ∈ (seen ++ prices)%list → starts_with id' model = false
  end.
Proof.
  revert seen best. induction prices as [|[id price] rest IH]; intros seen best Hb; simpl.
  - by rewrite app_nil_r.
  - replace (seen ++ (id, price) :: rest)%list with ((seen ++ [(id, price)]) ++ rest)%list
      by (rewrite <- app_assoc; done).
    apply IH. clear IH.
    destruct (starts_with id model) eqn:Hp; simpl.
    + destruct best as [[b p]|].
      * destruct Hb as (Hin & Hbp & Hmax). destruct (Nat.ltb_spec (String.length b) (String.length id)) as [Hlt|Hge].
        -- split; [apply elem_of_app; right; by apply list_elem_of_singleton|]. split; [done|].
           intros id' price' [Hin'|[= -> ->]%list_elem_of_singleton]%elem_of_app Hp'; [|done].
           specialize (Hmax _ _ Hin' Hp'). lia.
        -- split; [apply elem_of_app; by left|]. split; [done|].
           intros id' price' [Hin'|[= -> ->]%list_elem_of_singleton]%elem_of_app Hp'; [by eapply Hmax|done].
      * split; [apply elem_of_app; right; by apply list_elem_of_singleton|]. split; [done|].
        intros id' price' [Hin'|[= -> ->]%list_elem_of_singleton]%elem_of_app Hp'; [|done].
        by rewrite (Hb _ _ Hin') in Hp'.
    + destruct best as [[b p]|].
      * destruct Hb as (Hin & Hbp & Hmax). split; [apply elem_of_app; by left|]. split; [done|].
        intros id' price' [Hin'|[= -> ->]%list_elem_of_singleton]%elem_of_app Hp'; [by eapply Hmax|congruence].
      * intros id' price' [Hin'|[= -> ->]%list_elem_of_singleton]%elem_of_app; [by eapply Hb|done].
Qed.

(** A model is priced by the most specific table entry. [openai_price] ignores
    surrounding white space; it returns the price of an entry whose id is a
    prefix of the model and no shorter than any other such id, and says so; or,
    when no entry is a prefix, the fallback price, and says that. *)
Theorem openai_price_longest_prefix model price exact :
  openai_price model = (price, exact) →
  if exact then ∃ id, longest_match (trim model) OPENAI_PRICES id price
  else price = FALLBACK_PRICE ∧ ∀ id' price', (id', price') ∈ OPENAI_PRICES →
       starts_with id' (trim model) = false.
Proof.
  unfold openai_price. pose proof (best_price_spec (trim model) OPENAI_PRICES [] None) as Hb.
  simpl app in Hb. destruct (best_price _ _ _) as [[id p]|]; intros [= <- <-].
  - exists id. apply Hb. intros id' price' []%not_elem_of_nil.
  - split; [done|]. apply Hb. intros id' price' []%not_elem_of_nil.
Qed.
Lemma openai_price_longest_prefix_witness :
  ∃ id, longest_match (trim " gpt-4o-mini-2024 ") OPENAI_PRICES id (openai_price " gpt-4o-mini-2024 ").1.
Proof.
  apply (openai_price_longest_prefix " gpt-4o-mini-2024 " (openai_price " gpt-4o-mini-2024 ").1 true).
  vm_compute. reflexivity.
Defined.

(** The dollar value of 123 credits comes back as 124: the round trip through
    [f64] rounds up. *)
Example credits_roundtrip_rounds_up : usd_to_credits (credits_to_usd 123) = 124%Z.
Proof. vm_compute. reflexivity. Qed.
