(* ===== verification/Json.v ===== *)
(** * [serde_json::Value]

    JSON values as the sources build, index and match them. Objects are
    [serde_json]'s default map, ordered by key with one entry per key. Text is
    [serde_json]'s business: parsing and printing are the two fields of
    [JsonText]. *)

From Stdlib Require Import ZArith.
From stdpp Require Import base tactics decidable numbers list strings.
From S2P Require Import Prelude Float64.

(** [serde_json::Number]: a non-negative integer, a negative one or a finite
    [f64]. An integer literal of any size is kept here; the accessors bound it. *)
Inductive Number :=
| PosInt (n : Z)
| NegInt (n : Z)
| Float (x : f64).

#[warnings="-register-all"]
Inductive Value :=
| Null
| Bool (b : bool)
| Num (n : Number)
| Str (s : string)
| Array (l : list Value)
| Object (m : list (string * Value)).

Class JsonText := {
  json_parse : string → result string Value;
  json_print : Value → string;
}.

(** ** Maps *)

Fixpoint map_get (k : string) (m : list (string * Value)) : option Value :=
  match m with
  | [] => None
  | (k', v) :: m' => if String.eqb k k' then Some v else map_get k m'
  end.

Fixpoint map_insert (k : string) (v : Value) (m : list (string * Value)) : list (string * Value) :=
  match m with
  | [] => [(k, v)]
  | (k', v') :: m' =>
      match String.compare k k' with
      | Eq => (k, v) :: m'
      | Lt => (k, v) :: m
      | Gt => (k', v') :: map_insert k v m'
      end
  end.

(** [map.entry(k).or_insert(v)] *)
Definition or_insert (k : string) (v : Value) (m : list (string * Value)) : list (string * Value) :=
  match map_get k m with Some _ => m | None => map_insert k v m end.

(** [json!({ k1: v1, ... })] *)
Definition json_object (l : list (string * Value)) : Value :=
  Object (fold_left (λ m kv, map_insert kv.1 kv.2 m) l []).

(** ** Accessors *)

Definition as_object (v : Value) : option (list (string * Value)) :=
  match v with Object m => Some m | _ => None end.
Definition as_array (v : Value) : option (list Value) :=
  match v with Array l => Some l | _ => None end.
Definition as_str (v : Value) : option string :=
  match v with Str s => Some s | _ => None end.
Definition as_bool (v : Value) : option bool :=
  match v with Bool b => Some b | _ => None end.
Definition as_u64 (v : Value) : option Z :=
  match v with Num (PosInt n) => if (0 <=? n)%Z && (n <=? u64_MAX)%Z then Some n else None | _ => None end.
Definition as_u128 (v : Value) : option Z :=
  match v with Num (PosInt n) => if (0 <=? n)%Z && (n <=? u128_MAX)%Z then Some n else None | _ => None end.
Definition as_f64 (v : Value) : option f64 :=
  match v with
  | Num (PosInt n) => Some (f64_of_Z n)
  | Num (NegInt n) => Some (f64_of_Z n)
  | Num (Float x) => Some x
  | _ => None
  end.
Definition is_null (v : Value) : bool := match v with Null => true | _ => false end.
Definition is_object (v : Value) : bool := match v with Object _ => true | _ => false end.

(** [v.get("k")] and [v["k"]]. *)
Definition value_get (k : string) (v : Value) : option Value := as_object v ≫= map_get k.
Definition value_index (k : string) (v : Value) : Value := default Null (value_get k v).

(** [v.get(i)] of an array. *)
Definition value_nth (i : nat) (v : Value) : option Value := as_array v ≫= λ l, l !! i.

(** [Value]'s [PartialEq]. *)
Definition number_eqb (a b : Number) : bool :=
  match a, b with
  | PosInt x, PosInt y => Z.eqb x y
  | NegInt x, NegInt y => Z.eqb x y
  | Float x, Float y => f64_eqb x y
  | _, _ => false
  end.
Fixpoint value_eqb (a b : Value) : bool :=
  match a, b with
  | Null, Null => true
  | Bool x, Bool y => Bool.eqb x y
  | Num x, Num y => number_eqb x y
  | Str x, Str y => String.eqb x y
  | Array l, Array l' =>
      (fix go l l' := match l, l' with
        | [], [] => true
        | x :: l, y :: l' => value_eqb x y && go l l'
        | _, _ => false
        end) l l'
  | Object m, Object m' =>
      (fix go m m' := match m, m' with
        | [], [] => true
        | (k, x) :: m, (k', y) :: m' => String.eqb k k' && value_eqb x y && go m m'
        | _, _ => false
        end) m m'
  | _, _ => false
  end.

(** A [f64] as a JSON number; a non-finite one is [null]. *)
Definition json_f64 (x : f64) : Value := if is_finite x then Num (Float x) else Null.

(** ** Derived [Deserialize] of a struct, field by field

    A field is required, has a default, or is an [Option] that a missing key or
    [null] leaves empty; a value of the wrong type fails the whole struct. *)
Definition field_req {A} (dec : Value → option A) (k : string) (m : list (string * Value)) : option A :=
  map_get k m ≫= dec.
Definition field_default {A} (dec : Value → option A) (d : A) (k : string)
    (m : list (string * Value)) : option A :=
  match map_get k m with None => Some d | Some v => dec v end.
Definition field_opt {A} (dec : Value → option A) (k : string)
    (m : list (string * Value)) : option (option A) :=
  match map_get k m with
  | None | Some Null => Some None
  | Some v => Some <$> dec v
  end.

(** Text of a decoding error. *)
Class SerdeText := { decode_error : string → string }.
Definition from_str `{!JsonText, !SerdeText} {A} (dec : Value → option A) (text : string) : result string A :=
  match json_parse text with
  | Err e => Err e
  | Ok v => ok_or (decode_error text) (dec v)
  end.

(** ** Lemmas *)

Lemma as_u128_range v n : as_u128 v = Some n → in_u128 n.
Proof.
  unfold as_u128. repeat case_match; try done. intros [= <-].
  match goal with H : _ && _ = true |- _ => apply andb_true_iff in H as [?%Z.leb_le ?%Z.leb_le] end. done.
Qed.


Lemma string_compare_eq k k' : String.compare k k' = Eq ↔ k = k'.
Proof.
  split; [apply String.compare_eq_iff|]. intros <-. induction k as [|c k IH]; [done|].
  simpl. unfold Ascii.compare. by rewrite N.compare_refl.
Qed.

Lemma string_compare_refl k : String.compare k k = Eq.
Proof. by apply string_compare_eq. Qed.

Lemma map_get_insert k v m : map_get k (map_insert k v m) = Some v.
Proof.
  induction m as [|[k' v'] m IH]; simpl; [by rewrite String.eqb_refl|].
  destruct (String.compare k k') eqn:Hc; simpl; rewrite ?String.eqb_refl; [done..|].
  destruct (String.eqb_spec k k') as [->|_]; [|done].
  by rewrite string_compare_refl in Hc.
Qed.

Lemma map_get_insert_ne k k' v m : k ≠ k' → map_get k (map_insert k' v m) = map_get k m.
Proof.
  intros Hne. induction m as [|[k'' v'] m IH]; simpl.
  - by destruct (String.eqb_spec k k').
  - destruct (String.compare k' k'') eqn:Hc; simpl.
    + apply string_compare_eq in Hc as <-. by destruct (String.eqb_spec k k').
    + by destruct (String.eqb_spec k k').
    + by rewrite IH.
Qed.

Lemma map_get_or_insert k v m : map_get k (or_insert k v m) = Some (default v (map_get k m)).
Proof.
  unfold or_insert. destruct (map_get k m) eqn:Hg; simpl; [done|]. apply map_get_insert.
Qed.

Lemma map_get_or_insert_ne k k' v m :
  k ≠ k' → map_get k (or_insert k' v m) = map_get k m.
Proof.
  intros. unfold or_insert. destruct (map_get k' m); [done|]. by apply map_get_insert_ne.
Qed.
#[export] Hint Rewrite map_get_insert map_get_or_insert : zkapi.

(** Induction that sees the elements of arrays and the members of objects. *)
Lemma Value_nested_ind (P : Value → Prop) :
  P Null → (∀ b, P (Bool b)) → (∀ n, P (Num n)) → (∀ s, P (Str s)) →
  (∀ l, Forall P l → P (Array l)) → (∀ m, Forall (λ kv, P kv.2) m → P (Object m)) →
  ∀ v, P v.
Proof.
  intros HN HB HNum HS HA HO. fix IH 1. intros [| | | |l|m]; [done|done|done|done| |].
  - apply HA. induction l; constructor; [apply IH|done].
  - apply HO. induction m as [|[k v] m IHm]; constructor; [apply IH|done].
Qed.
