(* ===== verification/Router.v ===== *)
(** * Routing: what the sources use of axum

    A router is a list of paths with the handlers of their methods. Axum itself is a
    parameter: [Axum] has its dispatch and its extractors, [AxumLaws] what its
    documentation promises of them, for the path syntax that [match_path] writes
    down. [first_match] is a router that keeps the laws. *)

From Stdlib Require Import ZArith Lia Ascii.
From stdpp Require Import base tactics decidable numbers list strings.
From S2P Require Import Prelude Text Float64 Json.

Local Open Scope string_scope.

(** A literal, a parameter [{p}], or the rest of the path, [{*p}]. *)
Inductive Segment := Lit (s : string) | Param | Rest.
Record Route (H : Type) := { rt_path : list Segment; rt_methods : list (string * H) }.
Arguments rt_path {H}. Arguments rt_methods {H}.

(** What became of a request line. *)
Inductive Dispatch (H : Type) :=
| Handled (h : H) (params : list string)
| MethodNotAllowed
| NotFound.
Arguments Handled {H}. Arguments MethodNotAllowed {H}. Arguments NotFound {H}.

Fixpoint match_segments (pattern : list Segment) (segments : list string) : option (list string) :=
  match pattern, segments with
  | [], [] => Some []
  | Lit s :: pattern', s' :: segments' => if String.eqb s s' then match_segments pattern' segments' else None
  | Param :: pattern', s' :: segments' =>
      if String.eqb s' "" then None else cons s' <$> match_segments pattern' segments'
  | [Rest], _ :: _ => let rest := String.concat "/" segments in if String.eqb rest "" then None else Some [rest]
  | _, _ => None
  end.
(** The segments after the leading slash. *)
Definition segments (path : string) : option (list string) := split_char "/" <$> strip_prefix "/" path.
Definition match_path (pattern : list Segment) (path : string) : option (list string) :=
  segments path ≫= match_segments pattern.

(** The methods a route serves: [get(h)] serves HEAD too. *)
Definition serves {H} (r : Route H) (method : string) (h : H) : Prop :=
  (method, h) ∈ rt_methods r ∨ method = "HEAD" ∧ ("GET", h) ∈ rt_methods r.

(** Dispatch, and the extractors [Path<String>] and [Path<u32>] of the captured
    segments, and [Json<T>] under a body limit of a content type and a body; [Err]
    is the status of a rejection. *)
Class Axum := {
  axum_dispatch {H} : list (Route H) → string → string → Dispatch H;
  axum_path_string : list string → result Z string;
  axum_path_u32 : list string → result Z Z;
  axum_json {T} : Z → (string → result string T) → option string → string → result Z T;
}.
(** A handler is called only for its route; a path that matches one route is
    dispatched to the one handler of its method there. *)
Class AxumLaws `{!Axum} := {
  axum_handled {H} (routes : list (Route H)) method path h params :
    axum_dispatch routes method path = Handled h params →
    ∃ r, r ∈ routes ∧ match_path (rt_path r) path = Some params ∧ serves r method h;
  axum_found {H} (routes : list (Route H)) method path r params h :
    r ∈ routes → match_path (rt_path r) path = Some params → (method, h) ∈ rt_methods r →
    (∀ r', r' ∈ routes → is_Some (match_path (rt_path r') path) → r' = r) →
    (∀ h', (method, h') ∈ rt_methods r → h' = h) →
    axum_dispatch routes method path = Handled h params;
  axum_u32_range params n : axum_path_u32 params = Ok n → in_u32 n;
  axum_u32_show n : in_u32 n → axum_path_u32 [show_uint n] = Ok n;
}.

(** A path without parameters matches itself only. *)
Lemma match_literal l s ps : match_segments (map Lit l) s = Some ps → s = l ∧ ps = [].
Proof.
  revert s. induction l as [|a l IH]; intros [|b s]; cbn; try done; [by intros [= <-]|].
  destruct (String.eqb_spec a b) as [<-|]; [|done]. by intros [-> ->]%IH.
Qed.

(** ** A router that keeps the laws *)

Definition method_handler {H} (methods : list (string * H)) (method : string) : option H :=
  let find m := snd <$> List.find (λ p : string * H, String.eqb p.1 m) methods in
  match find method with
  | Some h => Some h
  | None => if String.eqb method "HEAD" then find "GET" else None
  end.
Fixpoint dispatch {H} (routes : list (Route H)) (method path : string) : Dispatch H :=
  match routes with
  | [] => NotFound
  | r :: routes' =>
      match match_path (rt_path r) path with
      | Some params =>
          match method_handler (rt_methods r) method with Some h => Handled h params | None => MethodNotAllowed end
      | None => dispatch routes' method path
      end
  end.

Fixpoint percent_decode (s : string) : string :=
  match s with
  | String "%" (String a (String b s' as s1) as s0) =>
      match hex_value a, hex_value b with
      | Some x, Some y => String (ascii_of_N (Z.to_N (x * 16 + y))) (percent_decode s')
      | _, _ => String "%" (percent_decode s0)
      end
  | String c s' => String c (percent_decode s')
  | EmptyString => ""
  end.
(** [Path<String>] and [Path<u32>] of one parameter; [Err] is the status of the
    rejection. *)
Definition path_string (params : list string) : result Z string :=
  match params with
  | [p] => let s := percent_decode p in if utf8_valid s then Ok s else Err 400%Z
  | _ => Err 500%Z
  end.
Definition path_u32 (params : list string) : result Z Z :=
  s ← path_string params; ok_or 400%Z (parse_uint 10 u32_MAX s).

Lemma split_char_solid c s : str_forall (λ a, negb (Ascii.eqb a c)) s = true → split_char c s = [s].
Proof.
  induction s as [|a s IH]; [done|]. cbn [str_forall split_char].
  intros [Ha%negb_true_iff Hs]%andb_true_iff. by rewrite Ha, IH.
Qed.
Lemma split_char_app c a s : str_forall (λ a, negb (Ascii.eqb a c)) a = true →
  split_char c (a +:+ String c s) = a :: split_char c s.
Proof.
  induction a as [|x a IH].
  - intros _. change ("" +:+ String c s) with (String c s). cbn [split_char]. by rewrite Ascii.eqb_refl.
  - cbn [str_forall]. intros [Hx%negb_true_iff Ha]%andb_true_iff.
    change (String x a +:+ String c s) with (String x (a +:+ String c s)). cbn [split_char]. by rewrite Hx, IH.
Qed.

(** A text without [%] is decoded to itself. *)
Lemma percent_decode_plain s : str_forall (λ c, negb (Ascii.eqb c "%")) s = true → percent_decode s = s.
Proof.
  induction s as [|c s IH]; [done|]. cbn [str_forall]. intros [Hc%negb_true_iff Hs]%andb_true_iff.
  specialize (IH Hs). apply Ascii.eqb_neq in Hc. cbn [percent_decode]. rewrite IH.
  destruct c as [[] [] [] [] [] [] [] []]; try reflexivity. by destruct Hc.
Qed.

(** Where a request line is handled, and by what. *)
Lemma dispatch_handled {H} (routes : list (Route H)) method path h params :
  dispatch routes method path = Handled h params →
  ∃ r, r ∈ routes ∧ match_path (rt_path r) path = Some params ∧ method_handler (rt_methods r) method = Some h.
Proof.
  induction routes as [|r routes IH]; cbn [dispatch]; [done|].
  destruct (match_path (rt_path r) path) as [ps|] eqn:Hp.
  - destruct (method_handler (rt_methods r) method) as [h'|] eqn:Hm; [|done]. intros [= -> ->].
    exists r. split; [by constructor|done].
  - intros (r' & Hr & Hx)%IH. exists r'. split; [by right|done].
Qed.
Lemma method_handler_in {H} (methods : list (string * H)) method h : method_handler methods method = Some h →
  ∃ p, In p methods ∧ p.2 = h ∧ (p.1 = method ∨ method = "HEAD" ∧ p.1 = "GET").
Proof.
  unfold method_handler. cbv zeta. destruct (List.find _ methods) as [p|] eqn:Hf; cbn.
  - intros [= <-]. apply find_some in Hf as [Hin Hp%String.eqb_eq]. exists p. auto.
  - destruct (String.eqb_spec method "HEAD") as [->|]; [|done]. destruct (List.find _ methods) as [p|] eqn:Hg in |- *; [|done].
    intros [= <-]. apply find_some in Hg as [Hin Hp%String.eqb_eq]. exists p. auto.
Qed.
Lemma path_u32_range params n : path_u32 params = Ok n → in_u32 n.
Proof. unfold path_u32. intros (s & _ & Hn%ok_or_Ok)%bind_Ok. by apply parse_uint_range in Hn. Qed.


Lemma digit_char_digit d : (0 ≤ d < 10)%Z → is_ascii_digit (digit_char d) = true.
Proof.
  intros Hd. assert (d = 0 ∨ d = 1 ∨ d = 2 ∨ d = 3 ∨ d = 4 ∨ d = 5 ∨ d = 6 ∨ d = 7 ∨ d = 8 ∨ d = 9)%Z as Hc by lia.
  repeat destruct Hc as [->|Hc]; [reflexivity..|by subst].
Qed.
Lemma show_digits_digits fuel n acc : (0 ≤ n)%Z → str_forall is_ascii_digit acc = true →
  str_forall is_ascii_digit (show_digits fuel n acc) = true.
Proof.
  revert n acc. induction fuel as [|fuel IH]; intros n acc Hn Ha; [done|]. cbn [show_digits].
  pose proof (Z.mod_pos_bound n 10 ltac:(lia)) as Hm.
  assert (str_forall is_ascii_digit (String (digit_char (n mod 10)) acc) = true) as Hs.
  { cbn [str_forall]. by rewrite digit_char_digit. }
  destruct (n <? 10)%Z; [done|]. apply IH; [apply Z.div_pos; lia|done].
Qed.
Lemma show_uint_decimal n : (0 ≤ n)%Z → str_forall is_ascii_digit (show_uint n) = true.
Proof. intros Hn. by apply show_digits_digits. Qed.
Lemma str_forall_weaken (f g : ascii → bool) s : (∀ c, f c = true → g c = true) → str_forall f s = true → str_forall g s = true.
Proof.
  intros Hfg. induction s as [|c s IH]; [done|]. cbn [str_forall]. intros [Hc Hs]%andb_true_iff.
  by rewrite (Hfg c Hc), IH.
Qed.
Lemma digit_not (x c : ascii) : is_ascii_digit x = false → is_ascii_digit c = true → negb (Ascii.eqb c x) = true.
Proof. intros Hx Hc. destruct (Ascii.eqb_spec c x) as [->|]; [congruence|done]. Qed.

Lemma utf8_ascii s : str_forall is_ascii_digit s = true → utf8_valid s = true.
Proof.
  unfold utf8_valid. induction s as [|c s IH]; [done|]. cbn [str_forall]. intros [Hc Hs]%andb_true_iff.
  cbn [String.length utf8_parts]. unfold utf8_step.
  assert ((N_of_ascii c <? 128)%N = true) as ->.
  { unfold is_ascii_digit, in_range in Hc. apply andb_true_iff in Hc as [_ Hc%N.leb_le]. apply N.ltb_lt.
    eapply N.le_lt_trans; [exact Hc|]. reflexivity. }
  cbn [forallb fst andb]. replace (S (String.length s) - 1)%nat with (String.length s) by lia.
  cbn [String.substring]. rewrite substring_all. by apply IH.
Qed.
Lemma show_uint_not_empty n : (0 ≤ n)%Z → show_uint n ≠ "".
Proof.
  intros Hn Hs. pose proof (show_uint_parse n Hn) as Hp. rewrite Hs in Hp. injection Hp as <-. discriminate Hs.
Qed.
Lemma path_u32_show n : in_u32 n → path_u32 [show_uint n] = Ok n.
Proof.
  intros Hn. assert (0 ≤ n)%Z as H0 by (unfold in_u32 in Hn; lia). pose proof (show_uint_decimal n H0) as Hd.
  unfold path_u32, path_string. rewrite percent_decode_plain.
  2: { eapply str_forall_weaken; [|exact Hd]. intros c. by apply digit_not. }
  rewrite utf8_ascii by done. change (ok_or 400%Z (parse_uint 10 u32_MAX (show_uint n)) = Ok n). unfold parse_uint.
  assert (strip_prefix "+" (show_uint n) = None) as ->.
  { pose proof (show_uint_not_empty n H0). destruct (show_uint n) as [|c s]; [done|]. cbn [str_forall] in Hd.
    apply andb_true_iff in Hd as [Hc _]. cbn [strip_prefix]. by destruct (Ascii.eqb_spec "+" c) as [<-|]. }
  cbn [default]. destruct (String.eqb_spec (show_uint n) "") as [Hs|]; [by apply show_uint_not_empty in Hs|].
  unfold in_u32 in Hn. by rewrite (parse_digits_mono 10 n u32_MAX 0 _ n (proj2 Hn) (show_uint_parse n H0)).
Qed.


Lemma dispatch_found {H} (routes : list (Route H)) method path r params h :
  r ∈ routes → match_path (rt_path r) path = Some params → (method, h) ∈ rt_methods r →
  (∀ r', r' ∈ routes → is_Some (match_path (rt_path r') path) → r' = r) →
  (∀ h', (method, h') ∈ rt_methods r → h' = h) →
  dispatch routes method path = Handled h params.
Proof.
  intros Hr Hm Hh Hone Hsame. induction routes as [|r0 routes IH]; [by apply not_elem_of_nil in Hr|]. cbn [dispatch].
  destruct (match_path (rt_path r0) path) as [ps|] eqn:Hp.
  - assert (r0 = r) as -> by (apply Hone; [by left|by rewrite Hp]). rewrite Hm in Hp. injection Hp as <-.
    unfold method_handler. destruct (List.find (λ p : string * H, String.eqb p.1 method) (rt_methods r)) as [[m h']|] eqn:Hf.
    + apply find_some in Hf as [Hin Heq%String.eqb_eq]. cbn in Heq. subst m. cbn. by rewrite (Hsame h') by (by apply list_elem_of_In).
    + apply list_elem_of_In in Hh. eapply find_none in Hf; [|exact Hh]. cbn in Hf. by rewrite String.eqb_refl in Hf.
  - apply IH; [|by intros r' Hr'; apply Hone; right]. apply elem_of_cons in Hr as [->|Hr]; [congruence|done].
Qed.

Definition first_match (json : ∀ T, Z → (string → result string T) → option string → string → result Z T) : Axum := {|
  axum_dispatch := @dispatch; axum_path_string := path_string; axum_path_u32 := path_u32; axum_json := json |}.
Lemma first_match_laws json : @AxumLaws (first_match json).
Proof.
  split; cbn.
  - intros H routes method path h params (r & Hr & Hp & (p & Hin & <- & Hm)%method_handler_in)%dispatch_handled.
    exists r. split; [done|]. split; [done|]. apply list_elem_of_In in Hin. destruct p as [m h]. cbn in *.
    destruct Hm as [<-|[-> ->]]; [by left|by right].
  - intros H routes method path r params h. apply dispatch_found.
  - apply path_u32_range.
  - apply path_u32_show.
Qed.
