(* ===== verification/Http.v ===== *)
(** * HTTP messages

    The requests the programs send with [reqwest], the responses they get, and
    the readings of status and headers they share. *)

From Stdlib Require Import ZArith.
From stdpp Require Import base tactics decidable numbers list strings.
From S2P Require Import Prelude Json.

Inductive HttpBody :=
| NoBody
| JsonBody (v : Value)
| TextBody (s : string).

Record HttpRequest := {
  http_method : string;
  http_url : string;
  http_bearer : option string;
  http_headers : list (string * string);
  http_query : list (string * string);
  http_body : HttpBody;
}.

(** A header value is the outcome of reading it as text; the body, that of
    reading it to the end. *)
Record HttpResponse := {
  http_status : Z;
  http_response_headers : list (string * result string string);
  http_text : result string string;
}.

Definition is_success (status : Z) : bool := (200 <=? status)%Z && (status <? 300)%Z.

(** [error_for_status] fails on these. *)
Definition is_http_error (status : Z) : bool := (400 <=? status)%Z && (status <? 600)%Z.

Fixpoint header (name : string) (l : list (string * result string string))
    : option (result string string) :=
  match l with
  | [] => None
  | (k, v) :: l' => if String.eqb k name then Some v else header name l'
  end.

