(* ===== verification/Types.v ===== *)
(** * The protocol types and functions the server uses

    [zkapi_types], [zkapi_core] and [zkapi_proof] live in the [protocol]
    submodule, which is not part of the sources. Their types are carried by the
    classes below, abstract where the server only passes values along and a
    record where the server builds or reads the fields; the functions are the
    classes' operations; the laws the server relies on are [FeltLaws] and
    [WireLaws]. *)

From Stdlib Require Import ZArith.
From stdpp Require Import base tactics decidable numbers list strings.
From S2P Require Import Prelude Float64 Json.

(** ** [zkapi_types::Felt252] *)

Class FeltOps := {
  Felt252 : Type;
  Felt252_eq_dec :: EqDecision Felt252;
  ZERO : Felt252;
  to_hex : Felt252 → string;
  from_hex : string → result string Felt252;
}.

Class FeltLaws `{!FeltOps} := {
  from_hex_to_hex x : from_hex (to_hex x) = Ok x;
}.

Lemma to_hex_inj `{FeltLaws} x y : to_hex x = to_hex y → x = y.
Proof. intros Heq. apply (f_equal from_hex) in Heq. rewrite !from_hex_to_hex in Heq. congruence. Qed.

Inductive NullifierStatus := Reserved | Finalized | ClearanceReserved.
#[export] Instance NullifierStatus_eq_dec : EqDecision NullifierStatus.
Proof. solve_decision. Defined.

(** ** Wire types, [zkapi_types::wire] *)

Class WireTypes := {
  SchnorrSignature : Type;
  ProofBackendWire : Type;
  OpenRouterLeaseAuthorization : Type;
  SchnorrSignature_eq_dec :: EqDecision SchnorrSignature;
  ProofBackendWire_eq_dec :: EqDecision ProofBackendWire;
  OpenRouterLeaseAuthorization_eq_dec :: EqDecision OpenRouterLeaseAuthorization;
  OpenRouterLeaseAuthorization_default : OpenRouterLeaseAuthorization;
}.

Section records.
Context `{!FeltOps, !WireTypes}.

Record CurvePointWire := { point_x : Felt252; point_y : Felt252 }.

Record RequestPublicInputsV2 := {
  protocol_version : Z;
  chain_id : Z;
  contract_address : Felt252;
  active_root : Felt252;
  state_signing_key_x : Felt252;
  state_signing_key_y : Felt252;
  request_time : Z;
  solvency_bound : Z;
  request_nullifier : Felt252;
  authorization_tag : Felt252;
  anonymous_commitment_x : Felt252;
  anonymous_commitment_y : Felt252;
}.

Record Groth16ProofWire := { backend : ProofBackendWire; proof : string }.

Record ApiRequestV2 := {
  client_request_id : string;
  payload : string;
  payload_hash : Felt252;
  public_inputs : RequestPublicInputsV2;
  request_proof : Groth16ProofWire;
}.

Record RequestResponseV2 := {
  resp_status : string;
  resp_client_request_id : string;
  resp_request_nullifier : Felt252;
  resp_response_code : Z;
  resp_response_payload : string;
  resp_response_hash : Felt252;
  resp_charge_applied : Z;
  resp_next_commitment : CurvePointWire;
  resp_next_anchor : Felt252;
  resp_blind_delta_srv : Felt252;
  resp_next_state_signature : SchnorrSignature;
  resp_policy_reason_code : option Z;
  resp_policy_evidence_hash : option Felt252;
}.

Record RecoveryResponseV2 := {
  recovery_status : string;
  nullifier_status : string;
  request_response : option RequestResponseV2;
}.

Record ClearanceRequest := { withdrawal_nullifier : Felt252 }.

Record ClearanceResponseV2 := {
  clearance_status : string;
  clearance_nullifier : Felt252;
  clearance_signature : SchnorrSignature;
}.

Record OpenRouterLeaseResponse := {
  lr_status : string;
  lr_client_request_id : string;
  lr_api_key : string;
  lr_openrouter_api_base : string;
  lr_issued_at : Z;
  lr_expires_at : Z;
  lr_valid_for_seconds : Z;
  lr_settle_after : Z;
  lr_spending_limit_usd : f64;
}.

Record OpenRouterLeaseStatusResponse := {
  ls_status : string;
  ls_client_request_id : string;
  ls_issued_at : Z;
  ls_expires_at : Z;
  ls_settle_after : Z;
  ls_spending_limit_usd : f64;
  ls_usage_usd : option f64;
  ls_charge_applied : option Z;
  ls_last_error : option string;
}.

Record ErrorResponse := {
  er_status : string;
  er_client_request_id : string;
  er_error_code : string;
  er_error_message : string;
  er_retriable : bool;
  er_latest_root : option Felt252;
  er_server_time_ms : option Z;
  er_retry_after_seconds : option Z;
}.

#[export] Instance RequestPublicInputsV2_eq_dec : EqDecision RequestPublicInputsV2.
Proof. solve_decision. Defined.
#[export] Instance Groth16ProofWire_eq_dec : EqDecision Groth16ProofWire.
Proof. solve_decision. Defined.
#[export] Instance ApiRequestV2_eq_dec : EqDecision ApiRequestV2.
Proof. solve_decision. Defined.
End records.

(** ** Serialization ([serde_json] of the wire types) and byte encodings *)

Class WireOps `{!FeltOps, !WireTypes} := {
  sig_to_json : SchnorrSignature → result string string;
  sig_from_json : string → result string SchnorrSignature;
  request_to_json : ApiRequestV2 → result string string;
  request_from_json : string → result string ApiRequestV2;
  request_to_value : ApiRequestV2 → result string Value;
  inputs_to_json : RequestPublicInputsV2 → result string string;
  authorization_from_json : string → result string OpenRouterLeaseAuthorization;
  keccak256 : string → string;
  hex_encode : string → string;
  base64_decode : string → result string string;
}.

Class WireLaws `{!FeltOps, !WireTypes, !WireOps} := {
  sig_roundtrip σ : ∃ s, sig_to_json σ = Ok s ∧ sig_from_json s = Ok σ;
  request_roundtrip r s : request_to_json r = Ok s → request_from_json s = Ok r;
  request_to_value_inj r r' v v' :
    request_to_value r = Ok v → request_to_value r' = Ok v' → value_eqb v v' = true → r = r';
}.

(** ** [zkapi_core::v2], [zkapi_proof::compact] *)

Class CoreOps `{!FeltOps, !WireTypes} := {
  RequestVerifier : Type;
  CompactSigner : Type;
  canonical_payload_hash : string → Felt252;
  canonical_request_context : string → Felt252 → Felt252;
  canonical_response_hash : string → Felt252;
  core_authorization_tag : Felt252 → Felt252 → Felt252;
  core_next_anchor : Felt252 → Felt252 → Felt252 → Felt252 → Felt252;
  core_state_message : Z → Z → Felt252 → Felt252 → Felt252 → Felt252 → Felt252;
  core_clearance_message : Z → Z → Felt252 → Felt252 → Felt252;
  verify : RequestVerifier → RequestPublicInputsV2 → Groth16ProofWire → result string bool;
  server_update : CurvePointWire → Z → Felt252 → result string CurvePointWire;
  signer_from_seed : Felt252 → CompactSigner;
  signer_public_key : CompactSigner → CurvePointWire;
  signer_sign : CompactSigner → Felt252 → SchnorrSignature;
}.
