(* ===== verification/AuthScheme.v ===== *)
(** * Authentication schemes: [zkapi-auth/src/lib.rs]

    The errors of a credential scheme, and the configured scheme with its
    textual form. *)

From Stdlib Require Import ZArith Lia Ascii.
From stdpp Require Import base tactics decidable numbers list strings.
From S2P Require Import Prelude.

Local Open Scope string_scope.

Inductive AuthError :=
| VerificationFailed (m : string)
| InsufficientBalance (have need : Z)
| AuthReplay
| Crypto (m : string).

Definition auth_error_to_string (e : AuthError) : string :=
  match e with
  | VerificationFailed m => "authentication verification failed: " +:+ m
  | InsufficientBalance have need =>
      "insufficient balance: have " +:+ show_uint have +:+ ", need " +:+ show_uint need
  | AuthReplay => "spend token already used (replay)"
  | Crypto m => "crypto error: " +:+ m
  end.

Inductive AuthSchemeKind := StateAnchor | BlindSignature.
#[export] Instance AuthSchemeKind_eq_dec : EqDecision AuthSchemeKind.
Proof. solve_decision. Defined.
Definition AuthSchemeKind_default : AuthSchemeKind := StateAnchor.

Definition scheme_as_str (self : AuthSchemeKind) : string :=
  match self with StateAnchor => "state-anchor" | BlindSignature => "blind-signature" end.

(** [s.replace('_', "-")] *)
Fixpoint underscores_to_dashes (s : string) : string :=
  match s with
  | EmptyString => EmptyString
  | String c s' => String (if Ascii.eqb c "_"%char then "-"%char else c) (underscores_to_dashes s')
  end.

Definition scheme_from_str (s : string) : result string AuthSchemeKind :=
  let s := underscores_to_dashes (to_ascii_lowercase (trim s)) in
  if existsb (String.eqb s) ["state-anchor"; "stateanchor"; "anchor"; "state"] then Ok StateAnchor
  else if existsb (String.eqb s) ["blind-signature"; "blindsignature"; "blind"; "bs"] then Ok BlindSignature
  else Err ("unknown auth scheme '" +:+ s +:+ "' (expected 'state-anchor' or 'blind-signature')").

(** What [as_str] prints, in any letter case, [from_str] reads back. *)
Lemma scheme_text_roundtrip k : scheme_from_str (scheme_as_str k) = Ok k.
Proof. by destruct k; vm_compute. Qed.
