(* ===== verification/Scalar.v ===== *)
(** * Scalars of the Stark curve: [zkapi-auth/src/scalar.rs]

    Arithmetic modulo the group order on the field elements of
    [starknet_types_core], through big integers. The field itself and the order
    (a constant of [zkapi_crypto]) are the class [StarkFelt]. *)

From Stdlib Require Import ZArith Lia.
From stdpp Require Import base tactics decidable numbers list strings.
From S2P Require Import Prelude Text.

Local Open Scope Z_scope.

Class StarkFelt := {
  Felt : Type;
  Felt_eq_dec :: EqDecision Felt;
  felt_prime : Z;
  curve_order : Z;
  to_uint : Felt → Z;
  felt_from_bytes_be : string → Felt;
  felt_to_bytes_be : Felt → string;
  felt_to_bits_le : Felt → list bool;
}.

(** The number a little-endian list of bits denotes. *)
Fixpoint bits_value (bits : list bool) : Z :=
  match bits with [] => 0 | b :: bits' => Z.b2z b + 2 * bits_value bits' end.

(** Field elements are the numbers below the prime; [from_bytes_be] reduces, and
    the curve's order is below the prime. *)
Class StarkFeltLaws `{!StarkFelt} := {
  order_range : 1 < curve_order ≤ felt_prime ∧ felt_prime ≤ 2 ^ 256;
  to_uint_range x : 0 ≤ to_uint x < felt_prime;
  to_uint_inj x y : to_uint x = to_uint y → x = y;
  from_bytes_be_spec s : String.length s = 32%nat → to_uint (felt_from_bytes_be s) = be_value 0 s mod felt_prime;
  to_bits_le_spec x : bits_value (felt_to_bits_le x) = to_uint x;
}.

Section scalar.
Context `{!StarkFelt}.

(** [buf[32 - bytes.len()..].copy_from_slice(&bytes)]: the callers' numbers are
    below the order, so the slice exists. *)
Definition from_uint (v : Z) : Felt := felt_from_bytes_be (be_bytes 32 v).

Definition scalar_reduce (a : Felt) : Felt := from_uint (to_uint a mod curve_order).
Definition scalar_add (a b : Felt) : Felt := from_uint ((to_uint a + to_uint b) mod curve_order).
Definition scalar_sub (a b : Felt) : Felt :=
  let a := to_uint a mod curve_order in
  let b := to_uint b mod curve_order in
  from_uint ((a + curve_order - b) mod curve_order).
Definition scalar_mul_mod (a b : Felt) : Felt := from_uint ((to_uint a * to_uint b) mod curve_order).
Definition from_bytes_reduced (bytes : string) : Felt := from_uint (be_value 0 bytes mod curve_order).

(** A canonical scalar. *)
Definition is_scalar (x : Felt) : Prop := to_uint x < curve_order.

Context `{!StarkFeltLaws}.

Lemma order_pos : 0 < curve_order.
Proof. pose proof order_range. lia. Qed.

Lemma to_uint_from_uint v : 0 ≤ v < curve_order → to_uint (from_uint v) = v.
Proof.
  intros Hv. unfold from_uint. pose proof order_range as [? ?].
  rewrite from_bytes_be_spec by apply be_bytes_length. rewrite be_value_bytes, Z.add_0_l.
  change (256 ^ Z.of_nat 32) with (2 ^ 256). rewrite (Z.mod_small v) by lia. apply Z.mod_small. lia.
Qed.
Lemma to_uint_mod v : to_uint (from_uint (v mod curve_order)) = v mod curve_order.
Proof. apply to_uint_from_uint, Z.mod_pos_bound, order_pos. Qed.

Lemma to_uint_reduce a : to_uint (scalar_reduce a) = to_uint a mod curve_order.
Proof. apply to_uint_mod. Qed.
Lemma to_uint_add a b : to_uint (scalar_add a b) = (to_uint a + to_uint b) mod curve_order.
Proof. apply to_uint_mod. Qed.
Lemma to_uint_sub a b : to_uint (scalar_sub a b) = (to_uint a - to_uint b) mod curve_order.
Proof.
  unfold scalar_sub. rewrite to_uint_mod.
  rewrite (Zminus_mod (to_uint a)).
  rewrite <- (Z_mod_plus_full (to_uint a mod curve_order - to_uint b mod curve_order) 1). f_equal. lia.
Qed.
Lemma to_uint_mul a b : to_uint (scalar_mul_mod a b) = (to_uint a * to_uint b) mod curve_order.
Proof. apply to_uint_mod. Qed.
Lemma to_uint_bytes bytes : to_uint (from_bytes_reduced bytes) = be_value 0 bytes mod curve_order.
Proof. apply to_uint_mod. Qed.

Lemma mod_is_scalar x v : to_uint x = v mod curve_order → is_scalar x.
Proof. unfold is_scalar. intros ->. apply Z.mod_pos_bound, order_pos. Qed.
Lemma scalar_mod x : is_scalar x → to_uint x mod curve_order = to_uint x.
Proof. intros Hx. apply Z.mod_small. split; [apply to_uint_range|exact Hx]. Qed.

(** Scalars are equal when their values are congruent. *)
Lemma scalar_eq x y :
  is_scalar x → is_scalar y → to_uint x mod curve_order = to_uint y mod curve_order → x = y.
Proof. intros Hx Hy. rewrite !scalar_mod by done. apply to_uint_inj. Qed.

(** Solving [u + v = w] for [v]. *)
Lemma scalar_sub_unique u v w :
  is_scalar v → is_scalar w → scalar_add u v = w ↔ v = scalar_sub w u.
Proof.
  intros Hv Hw. split; [intros <-|intros ->]; apply scalar_eq; try done;
    try (eapply mod_is_scalar; first [apply to_uint_sub|apply to_uint_add]).
  - rewrite to_uint_sub, to_uint_add, Zmod_mod, Zminus_mod_idemp_l. f_equal. lia.
  - rewrite to_uint_add, to_uint_sub, Zmod_mod, Zplus_mod_idemp_r. f_equal. lia.
Qed.

(** Random bytes exist for every scalar. *)
Lemma from_bytes_reduced_onto x : is_scalar x → from_bytes_reduced (be_bytes 32 (to_uint x)) = x.
Proof.
  intros Hx. apply to_uint_inj. rewrite to_uint_bytes, be_value_bytes, Z.add_0_l.
  change (256 ^ Z.of_nat 32) with (2 ^ 256). pose proof order_range. pose proof (to_uint_range x).
  rewrite (Z.mod_small _ (2 ^ 256)) by lia. by apply scalar_mod.
Qed.

(** Scalars are the integers modulo the group order. Every operation yields
    a canonical scalar, below the order, whose value is the sum, difference or
    product of the arguments' values modulo the order, for any field elements,
    also those at or above the order; subtraction never underflows; and
    subtracting what was added gives the first argument reduced. *)
Lemma scalars_mod_order a b :
  to_uint (scalar_reduce a) = to_uint a mod curve_order
  ∧ to_uint (scalar_add a b) = (to_uint a + to_uint b) mod curve_order
  ∧ to_uint (scalar_sub a b) = (to_uint a - to_uint b) mod curve_order
  ∧ to_uint (scalar_mul_mod a b) = (to_uint a * to_uint b) mod curve_order
  ∧ Forall is_scalar [scalar_reduce a; scalar_add a b; scalar_sub a b; scalar_mul_mod a b]
  ∧ scalar_sub (scalar_add a b) b = scalar_reduce a.
Proof.
  split; [apply to_uint_reduce|]. split; [apply to_uint_add|]. split; [apply to_uint_sub|].
  split; [apply to_uint_mul|]. split.
  - repeat constructor; eapply mod_is_scalar;
      first [apply to_uint_reduce|apply to_uint_add|apply to_uint_sub|apply to_uint_mul].
  - apply to_uint_inj. rewrite to_uint_sub, to_uint_add, to_uint_reduce, Zminus_mod_idemp_l.
    f_equal. lia.
Qed.
End scalar.
