(* ===== verification/BlindSchnorr.v ===== *)
(** * Blind Schnorr signatures: [zkapi-auth/src/blind_schnorr.rs]

    Issuance in four steps and verification over the Stark curve. The curve of
    [starknet_types_core] is the class [CurveOps], its points compared up to
    projective equality [≡]; [Keccak256] is a parameter. Random draws are
    arguments: the bytes [rng.fill] writes. A function that may panic (the affine
    form of the identity) returns an option. *)

From Stdlib Require Import ZArith Lia.
From stdpp Require Import base tactics decidable numbers list strings.
From S2P Require Import Prelude Text Scalar.

Local Open Scope Z_scope.

Class Sha3 := { keccak_digest : string → string }.

Class CurveOps `{!StarkFelt} := {
  ProjectivePoint : Type;
  point_equiv :: Equiv ProjectivePoint;
  identity : ProjectivePoint;
  generator : ProjectivePoint;
  point_add : ProjectivePoint → ProjectivePoint → ProjectivePoint;
  point_neg : ProjectivePoint → ProjectivePoint;
  is_identity : ProjectivePoint → bool;
  affine_x : ProjectivePoint → option Felt;
}.

(** [n • P] by repeated addition. *)
Fixpoint times `{!StarkFelt, !CurveOps} (n : nat) (P : ProjectivePoint) : ProjectivePoint :=
  match n with O => identity | S n' => point_add P (times n' P) end.

(** The points are an abelian group in which the order annihilates every point;
    only the identity has no affine form. *)
Class CurveLaws `{!StarkFelt, !CurveOps} := {
  point_equivalence :: Equivalence (≡@{ProjectivePoint});
  point_add_proper :: Proper ((≡) ==> (≡) ==> (≡)) point_add;
  point_neg_proper :: Proper ((≡) ==> (≡)) point_neg;
  is_identity_proper :: Proper ((≡) ==> eq) is_identity;
  affine_x_proper :: Proper ((≡) ==> eq) affine_x;
  point_add_assoc P Q R : point_add P (point_add Q R) ≡ point_add (point_add P Q) R;
  point_add_comm P Q : point_add P Q ≡ point_add Q P;
  point_add_identity P : point_add identity P ≡ P;
  point_add_neg P : point_add P (point_neg P) ≡ identity;
  times_order P : times (Z.to_nat curve_order) P ≡ identity;
  affine_x_identity P : affine_x P = None ↔ is_identity P = true;
}.

Section schnorr.
Context `{!StarkFelt, !Sha3, !CurveOps}.
Implicit Types (P Q : ProjectivePoint) (k m : Felt).

(** ** Scalar multiplication *)

Fixpoint double_and_add (bits : list bool) (result temp : ProjectivePoint) : ProjectivePoint :=
  match bits with
  | [] => result
  | bit :: bits' =>
      double_and_add bits' (if bit then point_add result temp else result) (point_add temp temp)
  end.
Definition scalar_mul (point : ProjectivePoint) (k : Felt) : ProjectivePoint :=
  double_and_add (felt_to_bits_le (scalar_reduce k)) identity point.

(** ** The protocol *)

Definition CHALLENGE_DOMAIN : string := "zkapi.blind-schnorr.v1".
Definition point_x (point : ProjectivePoint) : option Felt := affine_x point.

Definition challenge (r_prime : ProjectivePoint) (message : Felt) : option Felt :=
  x ← point_x r_prime;
  Some (from_bytes_reduced
          (keccak_digest (CHALLENGE_DOMAIN +:+ felt_to_bytes_be x +:+ felt_to_bytes_be message))).

Definition random_scalar (draw : string) : Felt := from_bytes_reduced draw.

Record SigningKey := { secret : Felt; public : ProjectivePoint }.
Definition key_from_secret (s : Felt) : SigningKey :=
  let s := scalar_reduce s in
  {| secret := s; public := scalar_mul generator s |}.
Definition key_generate (draw : string) : SigningKey := key_from_secret (random_scalar draw).
Definition public_x (self : SigningKey) : option Felt := point_x (public self).

Record IssuanceNonce := { nonce_k : Felt; commitment : ProjectivePoint }.
Definition server_commit (draw : string) : IssuanceNonce :=
  let k := random_scalar draw in
  {| nonce_k := k; commitment := scalar_mul generator k |}.

Record BlindState := { alpha : Felt; r_prime : ProjectivePoint; message : Felt }.
Definition client_blind (commitment public : ProjectivePoint) (message : Felt) (draw_alpha draw_beta : string)
    : option (BlindState * Felt) :=
  let alpha := random_scalar draw_alpha in
  let beta := random_scalar draw_beta in
  let r_prime := point_add (point_add commitment (scalar_mul generator alpha)) (scalar_mul public beta) in
  c_prime ← challenge r_prime message;
  Some ({| alpha := alpha; r_prime := r_prime; message := message |}, scalar_add c_prime beta).

Definition server_respond (nonce : IssuanceNonce) (key : SigningKey) (c : Felt) : Felt :=
  scalar_add (nonce_k nonce) (scalar_mul_mod c (secret key)).

Record Signature := { c_prime : Felt; s_prime : Felt }.
#[export] Instance Signature_eq_dec : EqDecision Signature.
Proof. solve_decision. Defined.

Definition client_unblind (state : BlindState) (s : Felt) : option Signature :=
  c ← challenge (r_prime state) (message state);
  Some {| c_prime := c; s_prime := scalar_add s (alpha state) |}.

Definition blind_verify (public : ProjectivePoint) (message : Felt) (sig : Signature) : option bool :=
  let s_g := scalar_mul generator (s_prime sig) in
  let c_p := scalar_mul public (c_prime sig) in
  let r_pp := point_add s_g (point_neg c_p) in
  if is_identity r_pp then Some false
  else c ← challenge r_pp message; Some (bool_decide (c = c_prime sig)).

(** The in-process run of the four steps, [BlindSignatureScheme::blind_issue]. *)
Definition blind_issue (key : SigningKey) (message : Felt) (draw_k draw_alpha draw_beta : string) : option Signature :=
  let nonce := server_commit draw_k in
  '(state, c) ← client_blind (commitment nonce) (public key) message draw_alpha draw_beta;
  client_unblind state (server_respond nonce key c).
End schnorr.

(** ** Theory: points as multiples *)

Section theory.
Context `{!StarkFelt, !StarkFeltLaws, !Sha3, !CurveOps, !CurveLaws}.
Implicit Types (P Q R : ProjectivePoint).

Lemma point_add_identity_r P : point_add P identity ≡ P.
Proof. rewrite point_add_comm. apply point_add_identity. Qed.

Lemma times_add a b P : times (a + b) P ≡ point_add (times a P) (times b P).
Proof.
  induction a as [|a IH]; simpl; [by rewrite point_add_identity|]. by rewrite IH, point_add_assoc.
Qed.
#[export] Instance times_proper n : Proper ((≡) ==> (≡)) (times n).
Proof. intros P Q HPQ. induction n as [|n IH]; simpl; [done|]. by apply point_add_proper. Qed.
Lemma times_identity n : times n identity ≡ identity.
Proof. induction n as [|n IH]; simpl; [done|]. by rewrite IH, point_add_identity. Qed.
Lemma times_mul a b P : times (a * b) P ≡ times a (times b P).
Proof. induction a as [|a IH]; simpl; [done|]. by rewrite times_add, IH. Qed.

(** The multiple by an integer, taken modulo the order. *)
Definition multiple (z : Z) P : ProjectivePoint := times (Z.to_nat (z mod curve_order)) P.

#[export] Instance multiple_proper z : Proper ((≡) ==> (≡)) (multiple z).
Proof. intros P Q HPQ. unfold multiple. by rewrite HPQ. Qed.
Lemma multiple_mod z z' P : z mod curve_order = z' mod curve_order → multiple z P = multiple z' P.
Proof. unfold multiple. by intros ->. Qed.
Lemma residue_nonneg a : 0 ≤ a mod curve_order.
Proof. apply Z.mod_pos_bound, order_pos. Qed.
(** Any natural number may stand for its residue. *)
Lemma times_multiple n P : times n P ≡ multiple (Z.of_nat n) P.
Proof.
  unfold multiple. pose proof order_pos.
  assert (n = Z.to_nat curve_order * Z.to_nat (Z.of_nat n / curve_order) + Z.to_nat (Z.of_nat n mod curve_order))%nat as Hn.
  { apply Nat2Z.inj. pose proof (residue_nonneg (Z.of_nat n)).
    assert (0 ≤ Z.of_nat n / curve_order) by (apply Z.div_pos; lia).
    rewrite Nat2Z.inj_add, Nat2Z.inj_mul, !Z2Nat.id by lia. apply Z.div_mod. lia. }
  rewrite Hn at 1. rewrite times_add, Nat.mul_comm, times_mul, times_order, times_identity.
  by rewrite point_add_identity.
Qed.

Lemma multiple_add a b P : multiple (a + b) P ≡ point_add (multiple a P) (multiple b P).
Proof.
  pose proof (residue_nonneg a). pose proof (residue_nonneg b).
  unfold multiple at 2 3. rewrite <- times_add, times_multiple, Nat2Z.inj_add, !Z2Nat.id by lia.
  by rewrite (multiple_mod (a + b) (a mod curve_order + b mod curve_order)) by apply Zplus_mod.
Qed.
Lemma multiple_mul a b P : multiple (a * b) P ≡ multiple a (multiple b P).
Proof.
  pose proof (residue_nonneg a). pose proof (residue_nonneg b).
  unfold multiple at 2 3. rewrite <- times_mul, times_multiple, Nat2Z.inj_mul, !Z2Nat.id by lia.
  by rewrite (multiple_mod (a * b) (a mod curve_order * (b mod curve_order))) by apply Zmult_mod.
Qed.
Lemma point_neg_unique P Q : point_add P Q ≡ identity → Q ≡ point_neg P.
Proof.
  intros HPQ. rewrite <- (point_add_identity (point_neg P)), <- HPQ.
  by rewrite (point_add_comm P), <- point_add_assoc, point_add_neg, point_add_identity_r.
Qed.
Lemma multiple_neg a P : point_neg (multiple a P) ≡ multiple (- a) P.
Proof.
  symmetry. apply point_neg_unique. rewrite <- multiple_add, Z.add_opp_diag_r.
  unfold multiple. by rewrite Zmod_0_l.
Qed.

Lemma double_and_add_spec bits R P :
  0 ≤ bits_value bits → double_and_add bits R P ≡ point_add R (times (Z.to_nat (bits_value bits)) P).
Proof.
  assert (∀ l, 0 ≤ bits_value l) as Hpos.
  { induction l as [|b l IH]; simpl; [lia|]. destruct b; simpl; lia. }
  intros _. revert R P. induction bits as [|b bits IH]; intros R P; simpl; [by rewrite point_add_identity_r|].
  rewrite IH. specialize (Hpos bits).
  assert (times (Z.to_nat (bits_value bits)) (point_add P P) ≡ times (Z.to_nat (2 * bits_value bits)) P) as ->.
  { rewrite Z2Nat.inj_mul, Nat.mul_comm, times_mul by lia. apply times_proper.
    simpl. by rewrite point_add_identity_r. }
  destruct b; cbn [Z.b2z]; [|by rewrite Z.add_0_l].
  rewrite Z2Nat.inj_add by lia. change (Z.to_nat 1) with 1%nat. rewrite times_add. simpl.
  by rewrite point_add_identity_r, point_add_assoc.
Qed.

Lemma mul_multiple P k : scalar_mul P k ≡ multiple (to_uint k) P.
Proof.
  unfold scalar_mul. rewrite double_and_add_spec; rewrite to_bits_le_spec, to_uint_reduce.
  - by rewrite point_add_identity.
  - apply residue_nonneg.
Qed.

(** Double-and-add is multiplication. [scalar_mul] computes, in one pass over
    the bits, the point added to itself as often as the scalar's residue modulo
    the group order says. *)
Theorem scalar_mul_is_multiple P k :
  scalar_mul P k ≡ times (Z.to_nat (to_uint k mod curve_order)) P.
Proof. exact (mul_multiple P k). Qed.

(** ** Issuance and verification *)

(** The point a signature's challenge is recomputed from. *)
Definition recovered P (sig : Signature) : ProjectivePoint :=
  point_add (scalar_mul generator (s_prime sig)) (point_neg (scalar_mul P (c_prime sig))).

Lemma key_public s : public (key_from_secret s) ≡ multiple (to_uint (secret (key_from_secret s))) generator.
Proof. apply mul_multiple. Qed.

Lemma recovered_multiple s sig :
  let key := key_from_secret s in
  recovered (public key) sig
    ≡ multiple (to_uint (s_prime sig) - to_uint (c_prime sig) * to_uint (secret key)) generator.
Proof.
  intros key. subst key. unfold recovered. rewrite !mul_multiple, key_public, <- multiple_mul, multiple_neg, <- multiple_add.
  done.
Qed.

Lemma challenge_proper P Q m : P ≡ Q → challenge P m = challenge Q m.
Proof. intros HPQ. unfold challenge, point_x. by rewrite (affine_x_proper _ _ HPQ). Qed.
Lemma challenge_scalar P m c : challenge P m = Some c → is_scalar c.
Proof.
  unfold challenge. intros (x & _ & [= <-])%bind_Some. eapply mod_is_scalar, to_uint_bytes.
Qed.
Lemma challenge_identity P m c : challenge P m = Some c → is_identity P = false.
Proof.
  unfold challenge, point_x. intros (x & Hx & _)%bind_Some.
  apply not_true_iff_false. intros Hi%affine_x_identity. congruence.
Qed.
Lemma challenge_total P m : is_identity P = false → is_Some (challenge P m).
Proof.
  intros Hi. unfold challenge, point_x. destruct (affine_x P) eqn:Hx; [by eexists|].
  apply affine_x_identity in Hx. congruence.
Qed.

(** Verification recomputes the challenge, and never panics. *)
Lemma blind_verify_spec P m sig :
  blind_verify P m sig = Some (bool_decide (challenge (recovered P sig) m = Some (c_prime sig))).
Proof.
  unfold blind_verify. fold (recovered P sig). destruct (is_identity _) eqn:Hi.
  - case_bool_decide as Hc; [|done]. apply challenge_identity in Hc. congruence.
  - destruct (challenge_total _ m Hi) as [c Hc]. rewrite Hc. simpl. f_equal.
    apply bool_decide_ext. split; congruence.
Qed.

(** The point the client blinds to. *)
Lemma blinded_multiple s k x y :
  let key := key_from_secret s in
  point_add (point_add (scalar_mul generator k) (scalar_mul generator x)) (scalar_mul (public key) y)
    ≡ multiple (to_uint k + to_uint x + to_uint y * to_uint (secret key)) generator.
Proof.
  intros key. subst key. by rewrite !mul_multiple, key_public, <- multiple_mul, <- !multiple_add.
Qed.

Lemma multiple_eq a b P : a mod curve_order = b mod curve_order → multiple a P ≡ multiple b P.
Proof. intros Hab. by rewrite (multiple_mod _ _ P Hab). Qed.

#[local] Existing Instances eqm_setoid Zplus_eqm Zminus_eqm Zmult_eqm Zopp_eqm.
(** Congruences: drop the remainders the scalar operations take. *)
Local Ltac residues :=
  match goal with |- ?x mod _ = ?y mod _ => change (eqm curve_order x y) end;
  repeat first [rewrite to_uint_add|rewrite to_uint_mul|rewrite to_uint_sub];
  repeat setoid_rewrite Zmod_eqm; unfold eqm; f_equal; ring.

(** The point the commitment is blinded to in a run. *)
Definition blinded s draw_k draw_a draw_b : ProjectivePoint :=
  multiple (to_uint (random_scalar draw_k) + to_uint (random_scalar draw_a)
            + to_uint (random_scalar draw_b) * to_uint (secret (key_from_secret s))) generator.

(** A run's signature, if the blinded point has a challenge. *)
Lemma blind_issue_run s m draw_k draw_a draw_b :
  blind_issue (key_from_secret s) m draw_k draw_a draw_b =
    (c ← challenge (blinded s draw_k draw_a draw_b) m;
     Some {| c_prime := c;
             s_prime := scalar_add (server_respond (server_commit draw_k) (key_from_secret s)
                          (scalar_add c (random_scalar draw_b))) (random_scalar draw_a) |}).
Proof.
  unfold blind_issue, client_blind.
  assert (point_add (point_add (commitment (server_commit draw_k)) (scalar_mul generator (random_scalar draw_a)))
    (scalar_mul (public (key_from_secret s)) (random_scalar draw_b)) ≡ blinded s draw_k draw_a draw_b) as Hb
    by apply blinded_multiple.
  rewrite (challenge_proper _ _ m Hb). destruct (challenge (blinded _ _ _ _) m) as [c|] eqn:Hc; [|done].
  cbn [mbind option_bind]. unfold client_unblind. cbn [r_prime message alpha].
  by rewrite (challenge_proper _ _ m Hb), Hc.
Qed.

Lemma issue_verifies s m draw_k draw_a draw_b sig :
  blind_issue (key_from_secret s) m draw_k draw_a draw_b = Some sig →
  blind_verify (public (key_from_secret s)) m sig = Some true.
Proof.
  rewrite blind_issue_run. intros (c & Hc & [= <-])%bind_Some.
  rewrite blind_verify_spec. f_equal. apply bool_decide_eq_true. cbn [c_prime]. rewrite <- Hc.
  apply challenge_proper. rewrite recovered_multiple. unfold blinded. apply multiple_eq.
  cbn [s_prime c_prime]. unfold server_respond, server_commit. cbn [nonce_k]. residues.
Qed.

(** C39: Issued blind signatures verify. Whatever the key, the message and the
    random draws, a run of the issuance either ends in a signature that verifies
    under the public key, or panics because the blinded commitment happens to be
    the identity point; verification itself never panics. *)
Theorem blind_issue_verifies s m draw_k draw_a draw_b :
  let key := key_from_secret s in
  match blind_issue key m draw_k draw_a draw_b with
  | Some sig => blind_verify (public key) m sig = Some true
  | None => is_identity (blinded s draw_k draw_a draw_b) = true
  end
  ∧ ∀ P sig, is_Some (blind_verify P m sig).
Proof.
  intros key. split; [|intros P sig; rewrite blind_verify_spec; by eexists].
  destruct (blind_issue key m _ _ _) eqn:Hi; [by eapply issue_verifies|].
  apply not_false_iff_true. intros Hid. destruct (challenge_total _ m Hid) as [c Hc].
  unfold key in Hi. by rewrite blind_issue_run, Hc in Hi.
Qed.

(** With the draws the signer's view and the signature determine, the client
    blinds to the point verification recovers. *)
Lemma matching_draws s k c sig :
  let key := key_from_secret s in
  let resp := scalar_add k (scalar_mul_mod c (secret key)) in
  point_add (point_add (scalar_mul generator k) (scalar_mul generator (scalar_sub (s_prime sig) resp)))
    (scalar_mul (public key) (scalar_sub c (c_prime sig))) ≡ recovered (public key) sig.
Proof.
  intros key resp. unfold key. rewrite blinded_multiple, recovered_multiple. fold key.
  apply multiple_eq. unfold resp. residues.
Qed.

(** C38: Signatures are unlinkable to their issuance. Take what the signer saw of
    any run, its nonce and the challenge it answered, and any signature that
    verifies under its key, on any message: there are client draws under which that
    run produces exactly that signature, and they are unique as scalars. So every
    run explains every signature, and the signer's view says nothing about which
    one it issued. *)
Theorem issuance_is_blind s draw_k c m sig :
  let key := key_from_secret s in
  let nonce := server_commit draw_k in
  is_scalar c → is_scalar (s_prime sig) → blind_verify (public key) m sig = Some true →
  ∃ draw_a draw_b state,
    client_blind (commitment nonce) (public key) m draw_a draw_b = Some (state, c)
    ∧ client_unblind state (server_respond nonce key c) = Some sig
    ∧ ∀ draw_a' draw_b' state',
        client_blind (commitment nonce) (public key) m draw_a' draw_b' = Some (state', c) →
        client_unblind state' (server_respond nonce key c) = Some sig →
        random_scalar draw_a' = random_scalar draw_a ∧ random_scalar draw_b' = random_scalar draw_b.
Proof.
  intros key nonce Hc Hs Hv. rewrite blind_verify_spec in Hv.
  apply (inj Some), bool_decide_eq_true in Hv. pose proof (challenge_scalar _ _ _ Hv) as Hcp.
  set (resp := server_respond nonce key c).
  set (a := scalar_sub (s_prime sig) resp). set (b := scalar_sub c (c_prime sig)).
  assert (is_scalar a ∧ is_scalar b) as [Ha Hb] by (split; eapply mod_is_scalar, to_uint_sub).
  assert (random_scalar (be_bytes 32 (to_uint a)) = a) as Hra by by apply from_bytes_reduced_onto.
  assert (random_scalar (be_bytes 32 (to_uint b)) = b) as Hrb by by apply from_bytes_reduced_onto.
  assert (point_add (point_add (commitment nonce) (scalar_mul generator a)) (scalar_mul (public key) b)
    ≡ recovered (public key) sig) as Hm by apply matching_draws.
  exists (be_bytes 32 (to_uint a)), (be_bytes 32 (to_uint b)). unfold client_blind. rewrite Hra, Hrb.
  rewrite (challenge_proper _ _ m Hm), Hv. cbn [mbind option_bind].
  eexists. split; [|split].
  - do 2 f_equal. by apply scalar_sub_unique.
  - unfold client_unblind. cbn [r_prime message alpha]. rewrite (challenge_proper _ _ m Hm), Hv.
    cbn [mbind option_bind]. f_equal. destruct sig as [c' s']. cbn. f_equal. by apply scalar_sub_unique.
  - intros draw_a' draw_b' state' (cp & Hch & [= <- Hcb])%bind_Some Hu.
    unfold client_unblind in Hu. cbn [r_prime message alpha] in Hu.
    apply bind_Some in Hu as (cp' & Hch' & [= Hsig]). assert (cp' = cp) as -> by (apply (inj Some); by rewrite <- Hch').
    subst sig. cbn in *. split; apply scalar_sub_unique; try done; eapply mod_is_scalar, to_uint_bytes.
Qed.
End theory.
