(* ===== verification/CredentialScheme.v ===== *)
(** * The credential-scheme interface: the trait of [zkapi-auth/src/lib.rs]

    [CredentialScheme] is the trait; [SchemeContract] is what the daemons rely on
    from any scheme behind it. The life of a credential, from deposit over
    requests to withdrawal, is proved against the contract, so that both schemes
    have it by discharging their instance. *)

From Stdlib Require Import ZArith Lia.
From stdpp Require Import base tactics decidable numbers list strings.
From S2P Require Import Prelude AuthScheme Scalar.

Local Open Scope Z_scope.

(** A method with [&mut self]: [None] when it panics. *)
Definition Run (S A : Type) : Type := S → option (result AuthError A * S).
#[export] Instance Run_ret S : MRet (Run S) := λ A a s, Some (Ok a, s).
#[export] Instance Run_bind S : MBind (Run S) := λ A B f m s,
  match m s with
  | Some (Ok a, s') => f a s'
  | Some (Err e, s') => Some (Err e, s')
  | None => None
  end.
Definition run_lift {S A} (r : result AuthError A) : Run S A := λ s, Some (r, s).
(** A method with [&self]. *)
Definition run_reads {S A} (f : S → result AuthError A) : Run S A := λ s, Some (f s, s).

(** The draws [thread_rng] makes in one call. *)
Abbreviation Rng := (nat → string).

Class CredentialScheme `{!StarkFelt} (S : Type) := {
  Credential : Type;
  Presentation : Type;
  Withdrawal : Type;
  kind : S → AuthSchemeKind;
  issue : Rng → Felt → Z → Run S Credential;
  authenticate : Rng → S → Credential → Z → result AuthError (Presentation * Felt);
  verify_presentation : Presentation → Run S Felt;
  apply_charge : Rng → Credential → Presentation → Z → Run S Credential;
  build_withdrawal : S → Credential → result AuthError Withdrawal;
  verify_withdrawal : Withdrawal → Run S (Z * Felt);
  balance : S → Credential → Z;
}.
Arguments Credential {_} S {_}.
Arguments Presentation {_} S {_}.
Arguments Withdrawal {_} S {_}.

(** [scheme_wf s]: the scheme's keys belong together. [issued s c]: [c] is a credential the scheme stands behind. [key p]: what a
    presentation is replayed by. A withdrawal is a presentation of the final
    balance. *)
Class SchemeContract `{!StarkFelt} (S : Type) `{!CredentialScheme S} := {
  Key : Type;
  key : Presentation S → Key;
  withdrawal_key : Withdrawal S → Key;
  spent_key : S → Key → Prop;
  scheme_wf : S → Prop;
  issued : S → Credential S → Prop;
  presents : Credential S → Presentation S → Prop;
  issue_spec rng secret b s r s' :
    scheme_wf s → issue rng secret b s = Some (r, s') →
    scheme_wf s' ∧ ∃ c, r = Ok c ∧ issued s' c ∧ balance s' c = b ∧ ∀ k, spent_key s' k ↔ spent_key s k;
  authenticate_spec rng s c cap :
    match authenticate rng s c cap with
    | Ok (p, _) => cap ≤ balance s c ∧ presents c p
    | Err e => balance s c < cap ∧ e = InsufficientBalance (balance s c) cap
    end;
  verify_fresh p s t s' :
    verify_presentation p s = Some (Ok t, s') →
    ¬ spent_key s (key p) ∧ (∀ k, spent_key s' k ↔ spent_key s k ∨ k = key p)
    ∧ (scheme_wf s → scheme_wf s') ∧ ∀ c, issued s c → issued s' c ∧ balance s' c = balance s c;
  verify_honest s c p :
    issued s c → presents c p →
    (spent_key s (key p) → verify_presentation p s = Some (Err AuthReplay, s))
    ∧ (¬ spent_key s (key p) → ∃ t s', verify_presentation p s = Some (Ok t, s'));
  apply_charge_spec rng s c p charge r s' :
    scheme_wf s → issued s c → presents c p → 0 ≤ charge → apply_charge rng c p charge s = Some (r, s') →
    scheme_wf s' ∧ (∀ k, spent_key s' k ↔ spent_key s k)
    ∧ match r with
      | Ok c' => issued s' c' ∧ charge ≤ balance s c ∧ balance s' c' = balance s c - charge
      | Err (InsufficientBalance have need) => balance s c < charge ∧ have = balance s c ∧ need = charge
      | Err _ => True
      end;
  withdrawal_spec s c :
    issued s c →
    ∃ w, build_withdrawal s c = Ok w
      ∧ (spent_key s (withdrawal_key w) → verify_withdrawal w s = Some (Err AuthReplay, s))
      ∧ (¬ spent_key s (withdrawal_key w) → ∃ t s',
          verify_withdrawal w s = Some (Ok (balance s c, t), s')
          ∧ ∀ k, spent_key s' k ↔ spent_key s k ∨ k = withdrawal_key w);
}.

Section life.
Context `{!StarkFelt} {S : Type} `{!CredentialScheme S}.

(** One request as the daemons make it: the client authenticates for at most
    [cap], the server verifies and charges. *)
Definition request (rng : nat → Rng) (c : Credential S) (cap charge : Z) : Run S (Credential S * Presentation S) :=
  '(p, _) ← run_reads (λ s, authenticate (rng 0%nat) s c cap);
  _ ← verify_presentation p;
  c' ← apply_charge (rng 1%nat) c p charge;
  mret (c', p).

Fixpoint requests (rng : nat → nat → Rng) (c : Credential S) (l : list (Z * Z))
    : Run S (Credential S * list (Presentation S)) :=
  match l with
  | [] => mret (c, [])
  | (cap, charge) :: l' =>
      '(c', p) ← request (rng 0%nat) c cap charge;
      '(c'', ps) ← requests (λ n, rng (Datatypes.S n)) c' l';
      mret (c'', p :: ps)
  end.

(** Deposit, requests, withdrawal: the amount settled, what was presented. *)
Definition life (rng0 : Rng) (rng : nat → nat → Rng) (secret : Felt) (deposit : Z) (l : list (Z * Z))
    : Run S (Z * list (Presentation S) * Withdrawal S) :=
  c ← issue rng0 secret deposit;
  '(c', ps) ← requests rng c l;
  w ← run_reads (λ s, build_withdrawal s c');
  '(settled, _) ← verify_withdrawal w;
  mret (settled, ps, w).

Definition charged (l : list (Z * Z)) : Z := foldr (λ p z, p.2 + z) 0 l.

(** ** Theory *)

Lemma run_bind_Ok {A B} (m : Run S A) (f : A → Run S B) s b s' :
  (m ≫= f) s = Some (Ok b, s') → ∃ a s1, m s = Some (Ok a, s1) ∧ f a s1 = Some (Ok b, s').
Proof. unfold mbind, Run_bind. destruct (m s) as [[[a|e] s1]|]; naive_solver. Qed.
Lemma run_ret_Ok {A} (a b : A) (s s' : S) : (mret a : Run S A) s = Some (Ok b, s') → b = a ∧ s' = s.
Proof. by intros [= -> ->]. Qed.

Context `{!SchemeContract S}.

Lemma request_Ok rng c cap charge s c' p s' :
  scheme_wf s → issued s c → 0 ≤ charge → request rng c cap charge s = Some (Ok (c', p), s') →
  scheme_wf s' ∧ issued s' c' ∧ balance s' c' = balance s c - charge ∧ charge ≤ balance s c ∧ cap ≤ balance s c
  ∧ ¬ spent_key s (key p) ∧ ∀ k, spent_key s' k ↔ spent_key s k ∨ k = key p.
Proof.
  intros Hwf Hc Hch ([p' t] & s1 & Ha & (t' & s2 & Hv & (c1 & s3 & Hap & Hr)%run_bind_Ok)%run_bind_Ok)%run_bind_Ok.
  apply run_ret_Ok in Hr as [[= -> ->] ->]. injection Ha as Ha <-.
  pose proof (authenticate_spec (rng 0%nat) s c cap) as Hs. rewrite Ha in Hs. destruct Hs as [Hcap Hp].
  apply verify_fresh in Hv as (Hfresh & Hsp & Hwf2 & Hkeep). destruct (Hkeep _ Hc) as [Hc2 Hb2].
  destruct (apply_charge_spec _ _ _ _ _ _ _ (Hwf2 Hwf) Hc2 Hp Hch Hap) as (Hwf3 & Hsp' & Hc' & Hle & Hb).
  rewrite Hb2 in Hle, Hb. repeat (split; [done|]). intros k. by rewrite Hsp'.
Qed.

Lemma requests_Ok rng c l s c' ps s' :
  scheme_wf s → issued s c → Forall (λ p, 0 ≤ p.2) l → requests rng c l s = Some (Ok (c', ps), s') →
  issued s' c' ∧ balance s' c' = balance s c - charged l ∧ length ps = length l
  ∧ (0 ≤ balance s c → 0 ≤ balance s' c')
  ∧ (∀ k, spent_key s' k ↔ spent_key s k ∨ k ∈ map key ps)
  ∧ NoDup (map key ps) ∧ (∀ k, k ∈ map key ps → ¬ spent_key s k).
Proof.
  revert rng c s ps. induction l as [|[cap charge] l IH]; intros rng c s ps Hwf Hc Hl Hr.
  - apply run_ret_Ok in Hr as [[= -> ->] ->]. simpl. rewrite Z.sub_0_r.
    do 4 (split; [done|]). split; [|split; [constructor|]]; intros k; rewrite elem_of_nil; tauto.
  - apply run_bind_Ok in Hr as ([c1 p] & s1 & Hq & ([c2 ps'] & s2 & Hrs & Hret)%run_bind_Ok).
    apply run_ret_Ok in Hret as [[= -> ->] ->]. inversion Hl as [|? ? Hch Hl']; subst.
    simpl in Hch. destruct (request_Ok _ _ _ _ _ _ _ _ Hwf Hc Hch Hq) as (Hwf1 & Hc1 & Hb1 & Hle & _ & Hnew & Hsp1).
    destruct (IH _ _ _ _ Hwf1 Hc1 Hl' Hrs) as (Hc2 & Hb2 & Hlen & Hpos & Hsp2 & Hnd & Hfresh).
    split; [done|]. split; [unfold charged in *; simpl; lia|]. split; [simpl; lia|]. split; [intros; apply Hpos; lia|].
    simpl. split; [|split].
    + intros k. rewrite Hsp2, Hsp1, elem_of_cons. tauto.
    + apply NoDup_cons. split; [|done]. intros Hin. apply (Hfresh _ Hin), Hsp1. by right.
    + intros k [->|Hk]%elem_of_cons Hs; [done|]. apply (Hfresh _ Hk), Hsp1. by left.
Qed.

(** C37: Value is conserved over a credential's life, under either scheme. When a
    deposit, any requests with any charges, and the withdrawal all succeed, the
    amount settled is the deposit less exactly the charges; it is not negative;
    and every request and the withdrawal was accepted under its own replay key,
    none of which had been used before and all of which are used up after. *)
Theorem life_conserves rng0 rng secret deposit l s settled ps w s' :
  scheme_wf s → 0 ≤ deposit → Forall (λ p, 0 ≤ p.2) l →
  life rng0 rng secret deposit l s = Some (Ok (settled, ps, w), s') →
  settled = deposit - charged l ∧ 0 ≤ settled ∧ length ps = length l
  ∧ NoDup (withdrawal_key w :: map key ps)
  ∧ ∀ k, (k ∈ withdrawal_key w :: map key ps → ¬ spent_key s k)
       ∧ (spent_key s' k ↔ spent_key s k ∨ k ∈ withdrawal_key w :: map key ps).
Proof.
  intros Hwf Hd Hl (c & s1 & Hi & ([c' ps'] & s2 & Hr & (w' & s3 & Hw & ([settled' t] & s4 & Hv & Hret)%run_bind_Ok)%run_bind_Ok)%run_bind_Ok)%run_bind_Ok.
  apply run_ret_Ok in Hret as [[= -> -> ->] ->]. injection Hw as Hw <-.
  apply (issue_spec _ _ _ _ _ _ Hwf) in Hi as (Hwf1 & c0 & [= <-] & Hc & Hb & Hsp1).
  destruct (requests_Ok _ _ _ _ _ _ _ Hwf1 Hc Hl Hr) as (Hc' & Hb' & Hlen & Hpos & Hsp2 & Hnd & Hfresh).
  destruct (withdrawal_spec s2 c' Hc') as (w0 & Hw0 & Hold & Hnew). rewrite Hw in Hw0. injection Hw0 as <-.
  assert (¬ spent_key s2 (withdrawal_key w')) as Hns by (intros Hs; by rewrite (Hold Hs) in Hv).
  destruct (Hnew Hns) as (t0 & s0 & Hv0 & Hsp3). rewrite Hv in Hv0. injection Hv0 as -> <- <-.
  rewrite Hb in *. split; [done|]. split; [lia|]. split; [done|]. split.
  - apply NoDup_cons. split; [|done]. intros Hin. apply Hns, Hsp2. by right.
  - intros k. rewrite elem_of_cons, Hsp3, Hsp2, Hsp1. split; [|tauto].
    intros [->|Hk] Hs; [apply Hns, Hsp2; left; by apply Hsp1|]. apply (Hfresh _ Hk). by apply Hsp1.
Qed.
End life.
