(* ===== verification/BlindScheme.v ===== *)
(** * The blind-signature scheme: [zkapi-auth/src/blind_signature.rs]

    Credentials are blind signatures on the balance and a serial, which is the
    replay key. The file ends with the scheme's instance of the contract. *)

From Stdlib Require Import ZArith Lia.
From stdpp Require Import base tactics decidable numbers list strings.
From S2P Require Import Prelude Text AuthScheme Scalar BlindSchnorr CredentialScheme.

Local Open Scope Z_scope.

Section blind.
Context `{!StarkFelt, !Sha3, !CurveOps}.

Definition CRED_DOMAIN : string := "zkapi.bs.cred.v1".
Definition SERIAL_DOMAIN : string := "zkapi.bs.serial.v1".

Definition hash_to_felt (domain : string) (parts : list string) : Felt :=
  from_bytes_reduced (keccak_digest (fold_left String.app parts domain)).

Definition credential_message (balance : Z) (serial : Felt) : Felt :=
  hash_to_felt CRED_DOMAIN [be_bytes 16 balance; felt_to_bytes_be serial].

Record BlindCredential := { bc_balance : Z; bc_serial : Felt; bc_signature : Signature }.
Record BlindPresentation := { bp_balance : Z; bp_serial : Felt; bp_signature : Signature }.

(** [spent] is a [HashSet<Felt>]. *)
Record BlindSignatureScheme := { signing_key : SigningKey; spent : list Felt }.

Definition blind_new (key : SigningKey) : BlindSignatureScheme := {| signing_key := key; spent := [] |}.
Definition public_key_x (self : BlindSignatureScheme) : option Felt := public_x (signing_key self).

Definition next_serial (prev : Felt) : Felt := hash_to_felt SERIAL_DOMAIN [felt_to_bytes_be prev].

(** A credential for [balance] under [serial], signed blindly with the draws of
    [rng]: the nonce, then the client's two. *)
Definition blind_credential (rng : Rng) (balance : Z) (serial : Felt) : Run BlindSignatureScheme BlindCredential := λ self,
  signature ← blind_issue (signing_key self) (credential_message balance serial) (rng 0%nat) (rng 1%nat) (rng 2%nat);
  Some (Ok {| bc_balance := balance; bc_serial := serial; bc_signature := signature |}, self).

Definition blind_issue_first (rng : Rng) (secret : Felt) (balance : Z) : Run BlindSignatureScheme BlindCredential :=
  blind_credential rng balance (hash_to_felt SERIAL_DOMAIN ["genesis"%string; felt_to_bytes_be secret]).

Definition present (cred : BlindCredential) : BlindPresentation :=
  {| bp_balance := bc_balance cred; bp_serial := bc_serial cred; bp_signature := bc_signature cred |}.

Definition blind_authenticate (rng : Rng) (self : BlindSignatureScheme) (cred : BlindCredential) (charge_cap : Z)
    : result AuthError (BlindPresentation * Felt) :=
  _ ← fail_if (bc_balance cred <? charge_cap) (InsufficientBalance (bc_balance cred) charge_cap);
  Ok (present cred, bc_serial cred).

Definition blind_verify_presentation (presentation : BlindPresentation) : Run BlindSignatureScheme Felt := λ self,
  let message := credential_message (bp_balance presentation) (bp_serial presentation) in
  valid ← blind_verify (public (signing_key self)) message (bp_signature presentation);
  if negb valid then Some (Err (VerificationFailed "invalid blind signature"), self)
  else if decide (bp_serial presentation ∈ spent self) then Some (Err AuthReplay, self)
  else Some (Ok (bp_serial presentation),
             {| signing_key := signing_key self; spent := bp_serial presentation :: spent self |}).

Definition blind_apply_charge (rng : Rng) (cred : BlindCredential) (_ : BlindPresentation) (charge : Z)
    : Run BlindSignatureScheme BlindCredential :=
  next_balance ← run_lift (ok_or (InsufficientBalance (bc_balance cred) charge) (checked_sub (bc_balance cred) charge));
  blind_credential rng next_balance (next_serial (bc_serial cred)).

Definition blind_verify_withdrawal (w : BlindPresentation) : Run BlindSignatureScheme (Z * Felt) :=
  token ← blind_verify_presentation w; mret (bp_balance w, token).

#[export] Instance BlindSignatureScheme_scheme : CredentialScheme BlindSignatureScheme := {|
  Credential := BlindCredential;
  Presentation := BlindPresentation;
  Withdrawal := BlindPresentation;
  kind := λ _, BlindSignature;
  issue := blind_issue_first;
  authenticate := blind_authenticate;
  verify_presentation := blind_verify_presentation;
  apply_charge := blind_apply_charge;
  build_withdrawal := λ _ cred, Ok (present cred);
  verify_withdrawal := blind_verify_withdrawal;
  balance := λ _ cred, bc_balance cred;
|}.
End blind.

(** ** The contract *)

Section contract.
Context `{!StarkFelt, !StarkFeltLaws, !Sha3, !CurveOps, !CurveLaws}.
Implicit Types (s : BlindSignatureScheme) (c : BlindCredential) (p : BlindPresentation).

(** The server's signature binds the balance and the serial presented. *)
Definition blind_valid s p : Prop :=
  blind_verify (public (signing_key s)) (credential_message (bp_balance p) (bp_serial p)) (bp_signature p) = Some true.
#[export] Instance blind_valid_dec s p : Decision (blind_valid s p).
Proof. unfold blind_valid. apply _. Defined.
Definition blind_wf s : Prop := ∃ x, signing_key s = key_from_secret x.

Lemma blind_credential_valid rng b serial s r s' :
  blind_wf s → blind_credential rng b serial s = Some (r, s') →
  s' = s ∧ ∃ c, r = Ok c ∧ bc_balance c = b ∧ bc_serial c = serial ∧ blind_valid s (present c).
Proof.
  intros [x Hx] (sig & Hsig & [= <- <-])%bind_Some. split; [done|].
  eexists. do 3 (split; [done|]). unfold blind_valid. simpl. rewrite Hx in *.
  eapply issue_verifies, Hsig.
Qed.

Lemma blind_verify_run p s :
  blind_verify_presentation p s = Some (
    if bool_decide (blind_valid s p) then
      if decide (bp_serial p ∈ spent s) then (Err AuthReplay, s)
      else (Ok (bp_serial p), {| signing_key := signing_key s; spent := bp_serial p :: spent s |})
    else (Err (VerificationFailed "invalid blind signature"), s)).
Proof.
  assert (∃ b, blind_verify (public (signing_key s)) (credential_message (bp_balance p) (bp_serial p)) (bp_signature p)
    = Some b) as [b Hb] by (eexists; apply blind_verify_spec).
  assert (blind_valid s p ↔ b = true) as Hv by (unfold blind_valid; rewrite Hb; naive_solver).
  unfold blind_verify_presentation. rewrite Hb. cbn [mbind option_bind].
  destruct b; [rewrite bool_decide_eq_true_2 by tauto|rewrite bool_decide_eq_false_2 by (rewrite Hv; done)]; [|done].
  cbn [negb]. by case_decide.
Qed.

Lemma blind_charge_run rng c p charge s r s' :
  blind_wf s → blind_apply_charge rng c p charge s = Some (r, s') →
  s' = s ∧
  if bool_decide (charge ≤ bc_balance c)
  then ∃ c', r = Ok c' ∧ bc_balance c' = bc_balance c - charge ∧ bc_serial c' = next_serial (bc_serial c)
         ∧ blind_valid s (present c')
  else r = Err (InsufficientBalance (bc_balance c) charge).
Proof.
  intros Hwf. unfold blind_apply_charge, checked_sub. case_bool_decide as Hle.
  - rewrite (proj2 (Z.leb_le _ _) Hle). cbn. intros Hr.
    by apply (blind_credential_valid _ _ _ _ _ _ Hwf) in Hr as [-> ?].
  - rewrite (proj2 (Z.leb_gt _ _)) by lia. by intros [= <- <-].
Qed.

Lemma blind_withdraw_run p s :
  blind_verify_withdrawal p s = match blind_verify_presentation p s with
    | Some (Ok t, s') => Some (Ok (bp_balance p, t), s')
    | Some (Err e, s') => Some (Err e, s')
    | None => None
    end.
Proof. unfold blind_verify_withdrawal, mbind, Run_bind. by destruct (blind_verify_presentation p s) as [[[]]|]. Qed.

#[export] Instance BlindSignatureScheme_contract : SchemeContract BlindSignatureScheme.
Proof.
  refine {| Key := Felt; key := (bp_serial : Presentation BlindSignatureScheme → Felt);
            withdrawal_key := (bp_serial : Withdrawal BlindSignatureScheme → Felt);
            spent_key s k := k ∈ spent s; scheme_wf := blind_wf;
            issued s (c : Credential BlindSignatureScheme) := blind_valid s (present c);
            presents (c : Credential BlindSignatureScheme) p := p = present c |}.
  - intros rng x b s r s' Hwf Hr. apply (blind_credential_valid _ _ _ _ _ _ Hwf) in Hr as (-> & c & -> & Hb & _ & Hv).
    split; [done|]. by exists c.
  - intros rng s c cap. cbn. unfold blind_authenticate.
    destruct (Z.ltb_spec (bc_balance c) cap); cbn; [done|]. split; [lia|done].
  - intros p s t s'. cbn. rewrite blind_verify_run. repeat case_match; intros [= <- <-]. cbn.
    split; [done|]. split; [|done]. intros k. rewrite elem_of_cons. tauto.
  - intros s c p Hv ->. cbn. rewrite blind_verify_run, bool_decide_eq_true_2 by done.
    split; intros; case_decide; try done. by eexists _, _.
  - intros rng s c p charge r s' Hwf Hv -> Hch Hr. apply (blind_charge_run _ _ (present c) _ _ _ _ Hwf) in Hr as [-> Hr].
    split; [done|]. split; [done|]. case_bool_decide.
    + destruct Hr as (c' & -> & Hb & _ & Hv'). done.
    + subst r. cbn in *. split; [lia|done].
  - intros s c Hv. exists (present c). split; [done|]. cbn.
    rewrite blind_withdraw_run, blind_verify_run, bool_decide_eq_true_2 by done.
    split; intros; case_decide; try done. eexists _, _. split; [done|]. intros k. cbn. rewrite elem_of_cons. tauto.
Defined.
End contract.
