(* ===== verification/AnchorScheme.v ===== *)
(** * The state-anchor scheme: [zkapi-auth/src/state_anchor.rs]

    Credentials open a Pedersen commitment, chained by nullifiers and carried
    forward by an XMSS signature. The primitives belong to [zkapi_core] and
    [zkapi_crypto]: the class [AnchorOps]. The file ends with the scheme's
    instance of the contract. *)

From Stdlib Require Import ZArith Lia.
From stdpp Require Import base tactics decidable numbers list strings.
From S2P Require Import Prelude Text Float64 Json Types AuthScheme Scalar BlindSchnorr CredentialScheme.

Local Open Scope Z_scope.

Class AnchorOps `{!FeltOps, !StarkFelt} := {
  XmssSignature : Type;
  XmssKeypair : Type;
  felt_to_field : Felt252 → Felt;
  field_to_felt : Felt → Felt252;
  felt_as_bytes : Felt252 → string;
  GENESIS_ANCHOR : Felt252;
  pedersen_coords : Z → Felt → Felt * Felt;
  add_blinding : Felt → Felt → Felt;
  compute_nullifier : Felt252 → Felt252 → Felt252;
  compute_next_anchor : Felt252 → Felt252 → Felt252 → Felt252 → Z → Felt252;
  compute_blind_delta : Felt252 → Felt252 → Z → Felt252;
  compute_state_message : Z → Z → Felt252 → Felt252 → Felt252 → Felt252 → Felt252;
  xmss_next_index : XmssKeypair → Z;
  xmss_sign : XmssKeypair → Felt252 → option (XmssSignature * Z) * XmssKeypair;
  xmss_root : XmssKeypair → Felt252;
  xmss_with_epoch : XmssSignature → Z → XmssSignature;
  xmss_verify : Felt252 → Felt252 → XmssSignature → bool;
}.

(** A key signs under its root, which does not move; the epoch is a label. *)
Class AnchorLaws `{!FeltOps, !StarkFelt, !AnchorOps} := {
  xmss_sign_verifies k m σ i k' :
    xmss_sign k m = (Some (σ, i), k') → xmss_verify (xmss_root k) m σ = true ∧ xmss_root k' = xmss_root k;
  xmss_verify_epoch r m σ e : xmss_verify r m (xmss_with_epoch σ e) = xmss_verify r m σ;
}.

Section anchor.
Context `{!FeltOps, !StarkFelt, !Sha3, !AnchorOps}.

Record StateAnchorCredential := {
  ac_secret : Felt252;
  ac_balance : Z;
  ac_blinding : Felt;
  ac_anchor : Felt252;
  ac_is_genesis : bool;
  ac_state_sig : option XmssSignature;
  ac_state_sig_root : Felt252;
}.

Record StateAnchorPresentation := {
  ap_balance : Z;
  ap_blinding : Felt;
  ap_user_rerand : Felt;
  ap_anchor : Felt252;
  ap_nullifier : Felt252;
  ap_is_genesis : bool;
  ap_state_sig : option XmssSignature;
  ap_state_sig_root : Felt252;
}.

(** [anchor_spent] is a [HashSet<Felt252>]. *)
Record StateAnchorScheme := {
  signer : XmssKeypair;
  epoch : Z;
  scheme_protocol_version : Z;
  scheme_chain_id : Z;
  contract : Felt252;
  anchor_spent : list Felt252;
}.

Definition anchor_new (signer : XmssKeypair) (epoch protocol_version chain_id : Z) (contract : Felt252)
    : StateAnchorScheme := {|
  signer := signer; epoch := epoch; scheme_protocol_version := protocol_version;
  scheme_chain_id := chain_id; contract := contract; anchor_spent := [];
|}.

Definition commitment_coords (balance : Z) (blinding : Felt) : Felt252 * Felt252 :=
  let '(x, y) := pedersen_coords balance blinding in (field_to_felt x, field_to_felt y).

Definition server_rng (nullifier : Felt252) (tag : nat) : Felt252 :=
  field_to_felt (from_bytes_reduced
    (keccak_digest ("zkapi.sa.srv-rng.v1" +:+ bytes [tag] +:+ felt_as_bytes nullifier))).

(** The message the state signature is on. *)
Definition anchor_message (self : StateAnchorScheme) (balance : Z) (blinding : Felt) (anchor : Felt252) : Felt252 :=
  let '(cx, cy) := commitment_coords balance blinding in
  compute_state_message (scheme_protocol_version self) (scheme_chain_id self) (contract self) cx cy anchor.

Definition verify_state_sig (self : StateAnchorScheme) (balance : Z) (blinding : Felt) (anchor : Felt252)
    (is_genesis : bool) (state_sig : option XmssSignature) (state_sig_root : Felt252) : result AuthError unit :=
  if is_genesis then Ok tt
  else
    sig ← ok_or (VerificationFailed "missing non-genesis state signature") state_sig;
    fail_if (negb (xmss_verify state_sig_root (anchor_message self balance blinding anchor) sig))
      (VerificationFailed "XMSS state signature verification failed").

Definition anchor_issue (rng : Rng) (secret : Felt) (balance : Z) : Run StateAnchorScheme StateAnchorCredential :=
  mret {| ac_secret := field_to_felt secret; ac_balance := balance; ac_blinding := random_scalar (rng 0%nat);
          ac_anchor := GENESIS_ANCHOR; ac_is_genesis := true; ac_state_sig := None; ac_state_sig_root := ZERO |}.

(** What a credential shows, rerandomized by [user_rerand]. *)
Definition anchor_present (cred : StateAnchorCredential) (user_rerand : Felt) : StateAnchorPresentation := {|
  ap_balance := ac_balance cred;
  ap_blinding := ac_blinding cred;
  ap_user_rerand := user_rerand;
  ap_anchor := ac_anchor cred;
  ap_nullifier := compute_nullifier (ac_secret cred) (ac_anchor cred);
  ap_is_genesis := ac_is_genesis cred;
  ap_state_sig := ac_state_sig cred;
  ap_state_sig_root := ac_state_sig_root cred;
|}.

Definition anchor_authenticate (rng : Rng) (self : StateAnchorScheme) (cred : StateAnchorCredential) (charge_cap : Z)
    : result AuthError (StateAnchorPresentation * Felt) :=
  _ ← fail_if (ac_balance cred <? charge_cap) (InsufficientBalance (ac_balance cred) charge_cap);
  let presentation := anchor_present cred (random_scalar (rng 0%nat)) in
  Ok (presentation, felt_to_field (ap_nullifier presentation)).

Definition with_spent (self : StateAnchorScheme) (spent : list Felt252) : StateAnchorScheme := {|
  signer := signer self; epoch := epoch self; scheme_protocol_version := scheme_protocol_version self;
  scheme_chain_id := scheme_chain_id self; contract := contract self; anchor_spent := spent;
|}.
Definition with_signer (self : StateAnchorScheme) (k : XmssKeypair) : StateAnchorScheme := {|
  signer := k; epoch := epoch self; scheme_protocol_version := scheme_protocol_version self;
  scheme_chain_id := scheme_chain_id self; contract := contract self; anchor_spent := anchor_spent self;
|}.

Definition anchor_verify (p : StateAnchorPresentation) : Run StateAnchorScheme Felt := λ self,
  match verify_state_sig self (ap_balance p) (ap_blinding p) (ap_anchor p) (ap_is_genesis p) (ap_state_sig p)
          (ap_state_sig_root p) with
  | Err e => Some (Err e, self)
  | Ok _ =>
      if decide (ap_nullifier p ∈ anchor_spent self) then Some (Err AuthReplay, self)
      else Some (Ok (felt_to_field (ap_nullifier p)), with_spent self (ap_nullifier p :: anchor_spent self))
  end.

Definition next_blinding (cred : StateAnchorCredential) (p : StateAnchorPresentation) (leaf_index : Z) : Felt :=
  let blind_delta := felt_to_field (compute_blind_delta (server_rng (ap_nullifier p) 2) (ap_nullifier p) leaf_index) in
  add_blinding (add_blinding (ac_blinding cred) (ap_user_rerand p)) blind_delta.

Definition anchor_apply_charge (_ : Rng) (cred : StateAnchorCredential) (p : StateAnchorPresentation) (charge : Z)
    : Run StateAnchorScheme StateAnchorCredential := λ self,
  match checked_sub (ac_balance cred) charge with
  | None => Some (Err (InsufficientBalance (ac_balance cred) charge), self)
  | Some next_balance =>
      let leaf_index := xmss_next_index (signer self) in
      let blinding := next_blinding cred p leaf_index in
      let '(ncx, ncy) := commitment_coords next_balance blinding in
      let next_anchor := compute_next_anchor (server_rng (ap_nullifier p) 1) (ap_nullifier p) ncx ncy leaf_index in
      let message := compute_state_message (scheme_protocol_version self) (scheme_chain_id self) (contract self)
                       ncx ncy next_anchor in
      let '(signed, k) := xmss_sign (signer self) message in
      let self := with_signer self k in
      match signed with
      | None => Some (Err (Crypto "XMSS signing capacity exhausted"), self)
      | Some (sig, signed_index) =>
          if negb (signed_index =? leaf_index) then Some (Err (Crypto "XMSS leaf index moved unexpectedly"), self)
          else Some (Ok {|
            ac_secret := ac_secret cred;
            ac_balance := next_balance;
            ac_blinding := blinding;
            ac_anchor := next_anchor;
            ac_is_genesis := false;
            ac_state_sig := Some (xmss_with_epoch sig (epoch self));
            ac_state_sig_root := xmss_root (signer self);
          |}, self)
      end
  end.

(** The final opening, without rerandomization ([Felt::ZERO]). *)
Definition anchor_build_withdrawal (self : StateAnchorScheme) (cred : StateAnchorCredential)
    : result AuthError StateAnchorPresentation := Ok (anchor_present cred (from_uint 0)).
Definition anchor_verify_withdrawal (w : StateAnchorPresentation) : Run StateAnchorScheme (Z * Felt) :=
  token ← anchor_verify w; mret (ap_balance w, token).

#[export] Instance StateAnchorScheme_scheme : CredentialScheme StateAnchorScheme := {|
  Credential := StateAnchorCredential;
  Presentation := StateAnchorPresentation;
  Withdrawal := StateAnchorPresentation;
  kind := λ _, StateAnchor;
  issue := anchor_issue;
  authenticate := anchor_authenticate;
  verify_presentation := anchor_verify;
  apply_charge := anchor_apply_charge;
  build_withdrawal := anchor_build_withdrawal;
  verify_withdrawal := anchor_verify_withdrawal;
  balance := λ _ cred, ac_balance cred;
|}.
End anchor.

(** ** The contract *)

Section laws.
Context `{!FeltOps, !StarkFelt, !Sha3, !AnchorOps, !AnchorLaws}.
Implicit Types (s : StateAnchorScheme) (c : StateAnchorCredential) (p : StateAnchorPresentation).

Definition anchor_valid s p : Prop :=
  verify_state_sig s (ap_balance p) (ap_blinding p) (ap_anchor p) (ap_is_genesis p) (ap_state_sig p)
    (ap_state_sig_root p) = Ok tt.

(** A credential is valid however it is rerandomized, and whatever the scheme
    signs or marks spent. *)
Lemma anchor_valid_rerand s c r r' : anchor_valid s (anchor_present c r) → anchor_valid s (anchor_present c r').
Proof. done. Qed.
Lemma anchor_valid_spent s l p : anchor_valid s p → anchor_valid (with_spent s l) p.
Proof. done. Qed.

Lemma anchor_charge_run rng c p charge s r s' :
  0 ≤ charge → anchor_apply_charge rng c p charge s = Some (r, s') →
  anchor_spent s' = anchor_spent s
  ∧ match r with
    | Ok c' => (∀ x, anchor_valid s' (anchor_present c' x)) ∧ charge ≤ ac_balance c
               ∧ ac_balance c' = ac_balance c - charge
    | Err (InsufficientBalance have need) => ac_balance c < charge ∧ have = ac_balance c ∧ need = charge
    | Err _ => True
    end.
Proof.
  intros Hch. unfold anchor_apply_charge, checked_sub.
  destruct (Z.leb_spec charge (ac_balance c)) as [Hle|Hlt]; [|by intros [= <- <-]].
  destruct (commitment_coords _ _) as [ncx ncy] eqn:Hcoords.
  destruct (xmss_sign _ _) as [[[sig i]|] k] eqn:Hsign; [|by intros [= <- <-]].
  destruct (negb _); [by intros [= <- <-]|]. intros [= <- <-]. split; [done|]. split; [|done].
  intros x. unfold anchor_valid, verify_state_sig, anchor_message. cbn.
  destruct (xmss_sign_verifies _ _ _ _ _ Hsign) as [Hv Hr]. rewrite Hcoords, xmss_verify_epoch, Hr, Hv. done.
Qed.

(** A presentation that claims to be a first one is not checked at all: it is
    accepted at any balance, and a withdrawal pays that balance. *)
Lemma genesis_unchecked s p :
  ap_is_genesis p = true → ap_nullifier p ∉ anchor_spent s →
  ∃ t s', anchor_verify_withdrawal p s = Some (Ok (ap_balance p, t), s').
Proof.
  intros Hg Hn. unfold anchor_verify_withdrawal, anchor_verify, mbind, Run_bind.
  rewrite Hg. cbn. destruct (decide _); [done|]. by eexists _, _.
Qed.

#[export] Instance StateAnchorScheme_contract : SchemeContract StateAnchorScheme.
Proof.
  refine {| Key := Felt252; key := (ap_nullifier : Presentation StateAnchorScheme → Felt252);
            withdrawal_key := (ap_nullifier : Withdrawal StateAnchorScheme → Felt252);
            spent_key s k := k ∈ anchor_spent s; scheme_wf := λ _ : StateAnchorScheme, True;
            issued s (c : Credential StateAnchorScheme) := ∀ r, anchor_valid s (anchor_present c r);
            presents (c : Credential StateAnchorScheme) p := ∃ r, p = anchor_present c r |}.
  - intros rng x b s r s' _ [= <- <-]. split; [done|]. by eexists.
  - intros rng s c cap. cbn. unfold anchor_authenticate.
    destruct (Z.ltb_spec (ac_balance c) cap); cbn; [done|]. split; [lia|by eexists].
  - intros p s t s'. cbn. unfold anchor_verify. repeat case_match; intros [= <- <-]. cbn.
    split; [done|]. split; [intros k; rewrite elem_of_cons; tauto|]. split; [done|]. intros c Hc. split; [|done].
    intros x. apply anchor_valid_spent, Hc.
  - intros s c p Hc [x ->]. specialize (Hc x). unfold anchor_valid in Hc. cbn. unfold anchor_verify. rewrite Hc.
    split; intros; case_decide; try done. by eexists _, _.
  - intros rng s c p charge r s' _ Hc Hp Hch Hr. destruct (anchor_charge_run _ _ _ _ _ _ _ Hch Hr) as [Hs Hr'].
    split; [done|]. split; [|done]. intros k. by rewrite Hs.
  - intros s c Hc. eexists. split; [reflexivity|]. specialize (Hc (from_uint 0)). unfold anchor_valid in Hc.
    cbn. unfold anchor_verify_withdrawal, anchor_verify, mbind, Run_bind. rewrite Hc.
    split; intros; case_decide; try done. eexists _, _. split; [done|]. intros k. cbn. rewrite elem_of_cons. tauto.
Defined.
End laws.
