(* ===== verification/Config.v ===== *)
(** * Server configuration: [zkapi-serverd/src/config.rs] *)

From Stdlib Require Import ZArith Lia.
From stdpp Require Import base tactics decidable numbers list strings.
From S2P Require Import Prelude Types AuthScheme.

Local Open Scope string_scope.

Inductive ProviderKind := Echo | HttpProxy | Metered.

Record MeteredConfig := {
  openai_api_base : string;
  openai_api_key : option string;
  openrouter_api_base : string;
  openrouter_inference_key : option string;
}.

Definition MeteredConfig_default : MeteredConfig := {|
  openai_api_base := "https://api.openai.com";
  openai_api_key := None;
  openrouter_api_base := "https://openrouter.ai/api";
  openrouter_inference_key := None;
|}.

Definition upstreams_label (self : MeteredConfig) : string :=
  let present (key : option string) (name : string) : list string :=
    match key with Some _ => [name] | None => [] end in
  let parts := (present (openai_api_key self) "openai"
                ++ present (openrouter_inference_key self) "openrouter")%list in
  match parts with [] => "none" | _ => String.concat "+" parts end.

Inductive OpenRouterLeaseSourceConfig :=
| SourceOpenRouter (management_key api_base : string)
| SourceOaOrg (org_base_url shared_secret : string).
Definition source_label (self : OpenRouterLeaseSourceConfig) : string :=
  match self with SourceOpenRouter _ _ => "openrouter" | SourceOaOrg _ _ => "oa_org" end.

(** The [Debug] forms, which reach logs: the fields of the printed struct. *)
Inductive DebugField := DebugText (s : string) | DebugOption (o : option string).
Definition CONFIGURED : string := "[configured]".
Definition metered_debug (self : MeteredConfig) : string * list (string * DebugField) :=
  ("MeteredConfig", [
    ("openai_api_base", DebugText (openai_api_base self));
    ("openai_api_key", DebugOption ((λ _, CONFIGURED) <$> openai_api_key self));
    ("openrouter_api_base", DebugText (openrouter_api_base self));
    ("openrouter_inference_key", DebugOption ((λ _, CONFIGURED) <$> openrouter_inference_key self))]).
Definition source_debug (self : OpenRouterLeaseSourceConfig) : string * list (string * DebugField) :=
  match self with
  | SourceOpenRouter _ api_base => ("OpenRouter", [("management_key", DebugText CONFIGURED); ("api_base", DebugText api_base)])
  | SourceOaOrg org_base_url _ => ("OaOrg", [("org_base_url", DebugText org_base_url); ("shared_secret", DebugText CONFIGURED)])
  end.
(** What is printed says which keys are set, and nothing else of them. *)
Lemma metered_debug_hides_keys a b k k' l l' :
  metered_debug {| openai_api_base := a; openai_api_key := Some k; openrouter_api_base := b; openrouter_inference_key := Some l |}
  = metered_debug {| openai_api_base := a; openai_api_key := Some k'; openrouter_api_base := b; openrouter_inference_key := Some l' |}.
Proof. reflexivity. Qed.
Lemma source_debug_hides_secrets url s s' :
  source_debug (SourceOpenRouter s url) = source_debug (SourceOpenRouter s' url)
  ∧ source_debug (SourceOaOrg url s) = source_debug (SourceOaOrg url s').
Proof. by split. Qed.

Record OpenRouterLeaseConfig := {
  lc_source : OpenRouterLeaseSourceConfig;
  lc_ttl_seconds : Z;
  lc_settlement_grace_seconds : Z;
  lc_settlement_poll_seconds : Z;
}.

Section config.
Context `{!FeltOps}.

(** Without the fields kept for v1 only, which nothing of v2 reads. *)
Record ServerConfig := {
  c_protocol_version : Z;
  c_chain_id : Z;
  c_contract_address : Felt252;
  c_request_charge_cap : Z;
  c_policy_charge_cap : Z;
  c_policy_enabled : bool;
  c_auth_scheme : AuthSchemeKind;
  c_listen_addr : string;
  c_provider_kind : ProviderKind;
  c_echo_fixed_charge : Z;
  c_proxy_default_charge : Z;
  c_proxy_upstream_url : option string;
  c_proxy_timeout_ms : Z;
  c_db_path : string;
  c_state_seed : Felt252;
  c_clear_seed : Felt252;
  c_initial_root : Felt252;
  c_indexer_url : option string;
  c_root_poll_interval_ms : Z;
  c_metered : option MeteredConfig;
  c_openrouter_leases : option OpenRouterLeaseConfig;
  c_proof_setup_dir : string;
}.

(** [ServerConfig::default()]; [from_u64] is [Felt252::from_u64]. *)
Definition ServerConfig_default (from_u64 : Z → Felt252) : ServerConfig := {|
  c_protocol_version := 2;
  c_chain_id := 1;
  c_contract_address := ZERO;
  c_request_charge_cap := 1000000;
  c_policy_charge_cap := 10000000;
  c_policy_enabled := false;
  c_auth_scheme := StateAnchor;
  c_listen_addr := "0.0.0.0:3000";
  c_provider_kind := Echo;
  c_echo_fixed_charge := 1;
  c_proxy_default_charge := 1;
  c_proxy_upstream_url := None;
  c_proxy_timeout_ms := 30000;
  c_db_path := "zkapi_server.db";
  c_state_seed := from_u64 1%Z;
  c_clear_seed := from_u64 2%Z;
  c_initial_root := ZERO;
  c_indexer_url := None;
  c_root_poll_interval_ms := 1000;
  c_metered := None;
  c_openrouter_leases := None;
  c_proof_setup_dir := "protocol/setup/v2";
|}.

Definition proof_backend_label (self : ServerConfig) : string := "groth16_bn254".
End config.
