(* ===== verification/Errors.v ===== *)
(** * [ServerError]: [zkapi-serverd/src/error.rs] *)

From Stdlib Require Import ZArith.
From stdpp Require Import base tactics decidable numbers list strings.
From S2P Require Import Prelude.

Inductive ServerError :=
| InvalidProof (m : string)
| StaleRoot (latest_root : string)
| Replay
| NoteExpired
| Internal (m : string)
| CapacityExhausted
| NullifierUsed
| Database (m : string)
| InvalidRequest (m : string)
| ProtocolMismatch (m : string)
| LeasePending
| LeaseSettlementPending (retry_after_seconds : Z)
| OaRateLimited (reason : string) (retry_after_seconds : Z).

#[export] Instance ServerError_eq_dec : EqDecision ServerError.
Proof. solve_decision. Defined.

(** The [Display] text [thiserror] derives from the [#[error]] attributes. *)
Definition error_to_string (self : ServerError) : string :=
  match self with
  | InvalidProof m => "invalid proof: " +:+ m
  | StaleRoot latest_root => "stale root: latest is " +:+ latest_root
  | Replay => "replayed nullifier"
  | NoteExpired => "note expired"
  | Internal m => "internal error: " +:+ m
  | CapacityExhausted => "capacity exhausted"
  | NullifierUsed => "nullifier already used"
  | Database m => "database error: " +:+ m
  | InvalidRequest m => "invalid request: " +:+ m
  | ProtocolMismatch m => "protocol mismatch: " +:+ m
  | LeasePending => "OpenRouter lease is already active or awaiting settlement"
  | LeaseSettlementPending s =>
      "OpenRouter lease settlement is still pending; retry after " +:+ show_uint s +:+ " seconds"
  | OaRateLimited reason s =>
      "OA org key issuance was rate limited (" +:+ reason +:+ "); retry after " +:+ show_uint s +:+ " seconds"
  end%string.

Definition error_code (self : ServerError) : string :=
  match self with
  | InvalidProof _ => "invalid_proof"
  | StaleRoot _ => "stale_root"
  | Replay => "replay"
  | NoteExpired => "note_expired"
  | Internal _ => "internal_error"
  | CapacityExhausted => "capacity_exhausted"
  | NullifierUsed => "nullifier_used"
  | Database _ => "database_error"
  | InvalidRequest _ => "invalid_request"
  | ProtocolMismatch _ => "protocol_mismatch"
  | LeasePending => "lease_pending"
  | LeaseSettlementPending _ => "lease_settlement_pending"
  | OaRateLimited reason _ => reason
  end%string.

Definition is_retriable (self : ServerError) : bool :=
  match self with
  | StaleRoot _ => true
  | Internal _ => true
  | Database _ => true
  | InvalidProof _ => false
  | Replay => false
  | NoteExpired => false
  | CapacityExhausted => false
  | NullifierUsed => false
  | InvalidRequest _ => false
  | ProtocolMismatch _ => false
  | LeasePending => true
  | LeaseSettlementPending _ => true
  | OaRateLimited _ _ => true
  end.
