(* ===== verification/Store.v ===== *)
(** * The nullifier store: [zkapi-serverd/src/nullifier_store.rs]

    The SQLite database is two lists of rows in rowid order. Every operation is
    a function of the row lists, of the clock where the code reads it, and of an
    optional database fault (a poisoned lock or a failing statement), which is
    how the code's error arms are reached. *)

From Stdlib Require Import ZArith Lia.
From stdpp Require Import base tactics decidable numbers list strings gmap relations sorting.
From S2P Require Import Prelude Float64 Json Types Errors.

Local Open Scope string_scope.

(** The message texts of SQLite's constraint errors. *)
Class SqliteText := {
  unique_failed : string → string;
  not_null_failed : string → string;
}.

Inductive DbFault :=
| LockPoisoned (e : string)
| SqlFailure (e : string).

(** [conn.lock()?] and the statement's [map_err]. *)
Definition with_conn {A S} (fault : option DbFault) (failed : string) (s : S)
    (body : result ServerError A * S) : result ServerError A * S :=
  match fault with
  | Some (LockPoisoned e) => (Err (Database ("lock poisoned: " +:+ e)), s)
  | Some (SqlFailure e) => (Err (Database (failed +:+ e)), s)
  | None => body
  end.

(** ** Data *)

Section data.
Context `{!FeltOps, !WireTypes}.

Record TranscriptRecord := {
  t_nullifier : Felt252;
  t_status : NullifierStatus;
  t_reservation_kind : string;
  t_client_request_id : option string;
  t_payload_hash : option Felt252;
  t_charge_applied : option Z;
  t_response_code : option Z;
  t_response_payload : option string;
  t_response_hash : option Felt252;
  t_next_commitment_x : option Felt252;
  t_next_commitment_y : option Felt252;
  t_next_anchor : option Felt252;
  t_blind_delta_srv : option Felt252;
  t_next_state_sig_epoch : option Z;
  t_next_state_sig_root : option Felt252;
  t_next_state_sig : option SchnorrSignature;
  t_policy_reason_code : option Z;
  t_policy_evidence_hash : option Felt252;
  t_proof_blob : option string;
  t_request_inputs_json : option string;
  t_api_request_binding : option string;
  t_created_at : Z;
  t_finalized_at : option Z;
}.

Record OpenRouterLeaseRecord := {
  l_client_request_id : string;
  l_request_nullifier : Felt252;
  l_api_request : ApiRequestV2;
  l_key_hash : option string;
  l_key_source : string;
  l_status : string;
  l_issued_at : Z;
  l_expires_at : Z;
  l_settle_after : Z;
  l_spending_limit_usd : f64;
  l_usage_usd : option f64;
  l_charge_applied : option Z;
  l_last_error : option string;
}.
End data.

(** A row of [nullifiers]. *)
Record NullifierRow := {
  n_nullifier : string;
  n_status : string;
  n_reservation_kind : string;
  n_client_request_id : option string;
  n_payload_hash : option string;
  n_charge_applied : option Z;
  n_response_code : option Z;
  n_response_payload : option string;
  n_response_hash : option string;
  n_next_commitment_x : option string;
  n_next_commitment_y : option string;
  n_next_anchor : option string;
  n_blind_delta_srv : option string;
  n_next_state_sig_epoch : option Z;
  n_next_state_sig_root : option string;
  n_next_state_sig_json : option string;
  n_policy_reason_code : option Z;
  n_policy_evidence_hash : option string;
  n_proof_blob : option string;
  n_request_inputs_json : option string;
  n_api_request_binding : option string;
  n_created_at : Z;
  n_finalized_at : option Z;
}.

(** A row of [openrouter_leases]. *)
Record LeaseRow := {
  o_client_request_id : string;
  o_request_nullifier : string;
  o_api_request_json : string;
  o_key_hash : option string;
  o_key_source : string;
  o_status : string;
  o_issued_at : Z;
  o_expires_at : Z;
  o_settle_after : Z;
  o_spending_limit_usd : f64;
  o_usage_usd : option f64;
  o_charge_applied : option Z;
  o_last_error : option string;
  o_updated_at : Z;
}.

Record NullifierStore := { nullifiers : list NullifierRow; leases : list LeaseRow }.
Definition empty_store : NullifierStore := {| nullifiers := []; leases := [] |}.

(** ** Column conversions *)

Definition status_to_str (status : NullifierStatus) : string :=
  match status with
  | Reserved => "Reserved"
  | Finalized => "Finalized"
  | ClearanceReserved => "ClearanceReserved"
  end.

Definition str_to_status (s : string) : NullifierStatus :=
  if String.eqb s "Reserved" then Reserved
  else if String.eqb s "Finalized" then Finalized
  else if String.eqb s "ClearanceReserved" then ClearanceReserved
  else Reserved.

(** SQLite stores a NaN as NULL. *)
Definition bind_real (x : f64) : option f64 := if is_nan x then None else Some x.

Section rows.
Context `{!FeltOps, !WireTypes, !WireOps}.

Definition parse_opt_felt (s : option string) : option Felt252 :=
  s ≫= λ h, ok (from_hex h).

Definition row_to_record (row : NullifierRow) : TranscriptRecord := {|
  t_nullifier := match from_hex (n_nullifier row) with Ok x => x | Err _ => ZERO end;
  t_status := str_to_status (n_status row);
  t_reservation_kind := n_reservation_kind row;
  t_client_request_id := n_client_request_id row;
  t_payload_hash := parse_opt_felt (n_payload_hash row);
  t_charge_applied := cast_u128 <$> n_charge_applied row;
  t_response_code := cast_u16 <$> n_response_code row;
  t_response_payload := n_response_payload row;
  t_response_hash := parse_opt_felt (n_response_hash row);
  t_next_commitment_x := parse_opt_felt (n_next_commitment_x row);
  t_next_commitment_y := parse_opt_felt (n_next_commitment_y row);
  t_next_anchor := parse_opt_felt (n_next_anchor row);
  t_blind_delta_srv := parse_opt_felt (n_blind_delta_srv row);
  t_next_state_sig_epoch := cast_u32 <$> n_next_state_sig_epoch row;
  t_next_state_sig_root := parse_opt_felt (n_next_state_sig_root row);
  t_next_state_sig := n_next_state_sig_json row ≫= λ json, ok (sig_from_json json);
  t_policy_reason_code := cast_u32 <$> n_policy_reason_code row;
  t_policy_evidence_hash := parse_opt_felt (n_policy_evidence_hash row);
  t_proof_blob := n_proof_blob row;
  t_request_inputs_json := n_request_inputs_json row;
  t_api_request_binding := n_api_request_binding row;
  t_created_at := cast_u64 (n_created_at row);
  t_finalized_at := cast_u64 <$> n_finalized_at row;
|}.

Definition row_to_openrouter_lease (row : LeaseRow) : option OpenRouterLeaseRecord :=
  api_request ← ok (request_from_json (o_api_request_json row));
  Some {|
    l_client_request_id := o_client_request_id row;
    l_request_nullifier :=
      match from_hex (o_request_nullifier row) with Ok x => x | Err _ => ZERO end;
    l_api_request := api_request;
    l_key_hash := o_key_hash row;
    l_key_source := o_key_source row;
    l_status := o_status row;
    l_issued_at := cast_u64 (o_issued_at row);
    l_expires_at := cast_u64 (o_expires_at row);
    l_settle_after := cast_u64 (o_settle_after row);
    l_spending_limit_usd := o_spending_limit_usd row;
    l_usage_usd := o_usage_usd row;
    l_charge_applied := cast_u128 <$> o_charge_applied row;
    l_last_error := o_last_error row;
  |}.
End rows.

(** ** Reservations and transcripts *)

Section transcripts.
Context `{!FeltOps, !WireTypes, !WireOps, !SqliteText}.
Implicit Types (fault : option DbFault) (now : Z) (s : NullifierStore).

(** Keccak-256 over a domain separator and the request's JSON. *)
Definition binding_domain : string := "zkapi:v2:api-request-binding" +:+ bytes [0].
Definition api_request_binding (request : ApiRequestV2) : result ServerError string :=
  request ← map_err (λ error, Internal ("failed to serialize v2 request binding: " +:+ error))
              (request_to_json request);
  Ok (hex_encode (keccak256 (binding_domain +:+ request))).

(** A freshly inserted row: the columns the INSERT does not name are NULL. *)
Definition new_row (nullifier status kind : string) (client_request_id payload_hash binding : option string)
    (created_at : Z) : NullifierRow := {|
  n_nullifier := nullifier;
  n_status := status;
  n_reservation_kind := kind;
  n_client_request_id := client_request_id;
  n_payload_hash := payload_hash;
  n_charge_applied := None;
  n_response_code := None;
  n_response_payload := None;
  n_response_hash := None;
  n_next_commitment_x := None;
  n_next_commitment_y := None;
  n_next_anchor := None;
  n_blind_delta_srv := None;
  n_next_state_sig_epoch := None;
  n_next_state_sig_root := None;
  n_next_state_sig_json := None;
  n_policy_reason_code := None;
  n_policy_evidence_hash := None;
  n_proof_blob := None;
  n_request_inputs_json := None;
  n_api_request_binding := binding;
  n_created_at := created_at;
  n_finalized_at := None;
|}.

(** [INSERT INTO nullifiers]: [nullifier] is the primary key. *)
Definition insert_nullifier (row : NullifierRow) (s : NullifierStore) : result string NullifierStore :=
  if existsb (λ r, String.eqb (n_nullifier r) (n_nullifier row)) (nullifiers s)
  then Err (unique_failed "nullifiers.nullifier")
  else Ok {| nullifiers := nullifiers s ++ [row]; leases := leases s |}.

Definition reserve_with_kind fault now (nullifier : Felt252) (client_request_id : string)
    (payload_hash : Felt252) (reservation_kind : string) (api_request_binding : option string) s
    : result ServerError unit * NullifierStore :=
  with_conn fault "insert failed: " s
    (match insert_nullifier
             (new_row (to_hex nullifier) (status_to_str Reserved) reservation_kind
                (Some client_request_id) (Some (to_hex payload_hash)) api_request_binding
                (cast_i64 now)) s with
     | Ok s' => (Ok tt, s')
     | Err _ => (Err Replay, s)
     end).

Definition reserve fault now (nullifier : Felt252) (client_request_id : string)
    (payload_hash : Felt252) s :=
  reserve_with_kind fault now nullifier client_request_id payload_hash "proxy" None s.

Definition reserve_bound_v2 fault now (request : ApiRequestV2) (reservation_kind : string) s
    : result ServerError unit * NullifierStore :=
  match api_request_binding request with
  | Err e => (Err e, s)
  | Ok binding =>
      reserve_with_kind fault now (request_nullifier (public_inputs request))
        (client_request_id request) (payload_hash request) reservation_kind (Some binding) s
  end.

Definition reserve_v2 fault now (request : ApiRequestV2) s := reserve_bound_v2 fault now request "proxy" s.
Definition reserve_openrouter_lease fault now (request : ApiRequestV2) s :=
  reserve_bound_v2 fault now request "openrouter_lease" s.

(** The row after [finalize]'s UPDATE. *)
Definition sig_json (transcript : TranscriptRecord) : option string :=
  (λ σ, default "" (ok (sig_to_json σ))) <$> t_next_state_sig transcript.
Definition finalized_row now (transcript : TranscriptRecord) (r : NullifierRow) : NullifierRow := {|
  n_nullifier := n_nullifier r;
  n_status := status_to_str Finalized;
  n_reservation_kind := n_reservation_kind r;
  n_client_request_id := n_client_request_id r;
  n_payload_hash := n_payload_hash r;
  n_charge_applied := cast_i64 <$> t_charge_applied transcript;
  n_response_code := cast_i32 <$> t_response_code transcript;
  n_response_payload := t_response_payload transcript;
  n_response_hash := to_hex <$> t_response_hash transcript;
  n_next_commitment_x := to_hex <$> t_next_commitment_x transcript;
  n_next_commitment_y := to_hex <$> t_next_commitment_y transcript;
  n_next_anchor := to_hex <$> t_next_anchor transcript;
  n_blind_delta_srv := to_hex <$> t_blind_delta_srv transcript;
  n_next_state_sig_epoch := cast_i32 <$> t_next_state_sig_epoch transcript;
  n_next_state_sig_root := to_hex <$> t_next_state_sig_root transcript;
  n_next_state_sig_json := sig_json transcript;
  n_policy_reason_code := cast_i32 <$> t_policy_reason_code transcript;
  n_policy_evidence_hash := to_hex <$> t_policy_evidence_hash transcript;
  n_proof_blob := t_proof_blob transcript;
  n_request_inputs_json := t_request_inputs_json transcript;
  n_api_request_binding := n_api_request_binding r;
  n_created_at := n_created_at r;
  n_finalized_at := Some (cast_i64 now);
|}.

Definition finalize_pred (null_hex : string) (r : NullifierRow) : bool :=
  String.eqb (n_nullifier r) null_hex && String.eqb (n_status r) (status_to_str Reserved).

Definition finalize fault now (nullifier : Felt252) (transcript : TranscriptRecord) s
    : result ServerError unit * NullifierStore :=
  with_conn fault "finalize failed: " s
    (let '(rows, nullifiers') :=
       update_where (finalize_pred (to_hex nullifier)) (finalized_row now transcript) (nullifiers s) in
     let s' := {| nullifiers := nullifiers'; leases := leases s |} in
     if Nat.eqb rows 0
     then (Err (Internal "nullifier not in Reserved state or does not exist"), s')
     else (Ok tt, s')).

(** A read that answers [None] when the database does not answer. *)
Definition query_row {A B} fault (p : A → bool) (f : A → option B) (l : list A) : option B :=
  match fault with
  | Some _ => None
  | None => head (select_where p l) ≫= f
  end.

Definition lookup_by_nullifier fault (nullifier : Felt252) s : option TranscriptRecord :=
  query_row fault (λ r, String.eqb (n_nullifier r) (to_hex nullifier))
    (λ r, Some (row_to_record r)) (nullifiers s).

Definition lookup_by_client_id fault (client_request_id : string) s : option TranscriptRecord :=
  query_row fault (λ r, bool_decide (n_client_request_id r = Some client_request_id))
    (λ r, Some (row_to_record r)) (nullifiers s).

Definition reserve_clearance fault now (nullifier : Felt252) s
    : result ServerError unit * NullifierStore :=
  with_conn fault "clearance reserve failed: " s
    (match insert_nullifier
             (new_row (to_hex nullifier) (status_to_str ClearanceReserved) "proxy" None None None
                (cast_i64 now)) s with
     | Ok s' => (Ok tt, s')
     | Err _ => (Err NullifierUsed, s)
     end).

Definition get_reserved_entries fault s : list TranscriptRecord :=
  match fault with
  | Some _ => []
  | None => map row_to_record
              (select_where (λ r, String.eqb (n_status r) (status_to_str Reserved)) (nullifiers s))
  end.

Definition get_all_nullifiers fault s : list TranscriptRecord :=
  match fault with
  | Some _ => []
  | None => map row_to_record (nullifiers s)
  end.
End transcripts.

(** ** Leases *)

Section leases.
Context `{!FeltOps, !WireTypes, !WireOps, !SqliteText}.
Implicit Types (fault : option DbFault) (now : Z) (s : NullifierStore).

Definition with_leases (l : list LeaseRow) s : NullifierStore :=
  {| nullifiers := nullifiers s; leases := l |}.

(** The UNIQUE columns of [openrouter_leases]. *)
Definition lease_conflict (row : LeaseRow) (l : list LeaseRow) : option string :=
  if existsb (λ r, String.eqb (o_client_request_id r) (o_client_request_id row)) l
  then Some (unique_failed "openrouter_leases.client_request_id")
  else if existsb (λ r, String.eqb (o_request_nullifier r) (o_request_nullifier row)) l
  then Some (unique_failed "openrouter_leases.request_nullifier")
  else None.

Definition create_openrouter_lease fault now (request : ApiRequestV2) (key_source : string)
    (issued_at expires_at settle_after : Z) (spending_limit_usd : f64) s
    : result ServerError unit * NullifierStore :=
  match request_to_json request with
  | Err error => (Err (Database ("lease serialization failed: " +:+ error)), s)
  | Ok request_json =>
      with_conn fault "lease insert failed: " s
        (match bind_real spending_limit_usd with
         | None => (Err (Database ("lease insert failed: "
                      +:+ not_null_failed "openrouter_leases.spending_limit_usd")), s)
         | Some limit =>
             let row := {|
               o_client_request_id := client_request_id request;
               o_request_nullifier := to_hex (request_nullifier (public_inputs request));
               o_api_request_json := request_json;
               o_key_hash := None;
               o_key_source := key_source;
               o_status := "provisioning";
               o_issued_at := cast_i64 issued_at;
               o_expires_at := cast_i64 expires_at;
               o_settle_after := cast_i64 settle_after;
               o_spending_limit_usd := limit;
               o_usage_usd := None;
               o_charge_applied := None;
               o_last_error := None;
               o_updated_at := cast_i64 now;
             |} in
             match lease_conflict row (leases s) with
             | Some e => (Err (Database ("lease insert failed: " +:+ e)), s)
             | None => (Ok tt, with_leases (leases s ++ [row]) s)
             end
         end)
  end.

(** [WHERE client_request_id = ? AND status = ?] *)
Definition lease_in (cid status : string) (r : LeaseRow) : bool :=
  String.eqb (o_client_request_id r) cid && String.eqb (o_status r) status.

Definition timing_row now (expires_at settle_after : Z) (r : LeaseRow) : LeaseRow := {|
  o_client_request_id := o_client_request_id r;
  o_request_nullifier := o_request_nullifier r;
  o_api_request_json := o_api_request_json r;
  o_key_hash := o_key_hash r;
  o_key_source := o_key_source r;
  o_status := o_status r;
  o_issued_at := o_issued_at r;
  o_expires_at := cast_i64 expires_at;
  o_settle_after := cast_i64 settle_after;
  o_spending_limit_usd := o_spending_limit_usd r;
  o_usage_usd := o_usage_usd r;
  o_charge_applied := o_charge_applied r;
  o_last_error := o_last_error r;
  o_updated_at := cast_i64 now;
|}.

Definition not_provisioning : ServerError := Internal "lease was not in provisioning state".

Definition update_openrouter_lease_timing fault now (cid : string) (expires_at settle_after : Z) s
    : result ServerError unit * NullifierStore :=
  with_conn fault "lease timing update failed: " s
    (let '(rows, l) := update_where (lease_in cid "provisioning")
                         (timing_row now expires_at settle_after) (leases s) in
     if negb (Nat.eqb rows 1) then (Err not_provisioning, with_leases l s)
     else (Ok tt, with_leases l s)).

Definition activated_row now (key_hash : string) (r : LeaseRow) : LeaseRow := {|
  o_client_request_id := o_client_request_id r;
  o_request_nullifier := o_request_nullifier r;
  o_api_request_json := o_api_request_json r;
  o_key_hash := Some key_hash;
  o_key_source := o_key_source r;
  o_status := "active";
  o_issued_at := o_issued_at r;
  o_expires_at := o_expires_at r;
  o_settle_after := o_settle_after r;
  o_spending_limit_usd := o_spending_limit_usd r;
  o_usage_usd := o_usage_usd r;
  o_charge_applied := o_charge_applied r;
  o_last_error := o_last_error r;
  o_updated_at := cast_i64 now;
|}.

(** [key_hash] is UNIQUE: another row holding it fails the statement. *)
Definition key_hash_taken (cid key_hash : string) (l : list LeaseRow) : bool :=
  existsb (λ r, bool_decide (o_key_hash r = Some key_hash) && negb (lease_in cid "provisioning" r)) l
  && existsb (lease_in cid "provisioning") l.

Definition activate_openrouter_lease fault now (cid key_hash : string) s
    : result ServerError unit * NullifierStore :=
  with_conn fault "lease activation failed: " s
    (if key_hash_taken cid key_hash (leases s)
     then (Err (Database ("lease activation failed: "
                  +:+ unique_failed "openrouter_leases.key_hash")), s)
     else
       let '(rows, l) := update_where (lease_in cid "provisioning")
                           (activated_row now key_hash) (leases s) in
       if negb (Nat.eqb rows 1) then (Err not_provisioning, with_leases l s)
       else (Ok tt, with_leases l s)).

Definition removable (cid : string) (r : LeaseRow) : bool :=
  lease_in cid "provisioning" r && bool_decide (o_key_hash r = None).

Definition remove_failed_openrouter_lease fault (cid : string) s
    : result ServerError unit * NullifierStore :=
  with_conn fault "lease cleanup failed: " s
    (Ok tt, with_leases (delete_where (removable cid) (leases s)) s).

Definition lookup_openrouter_lease fault (cid : string) s : option OpenRouterLeaseRecord :=
  query_row fault (λ r, String.eqb (o_client_request_id r) cid) row_to_openrouter_lease (leases s).

(** [ORDER BY settle_after ASC]; SQL leaves the order of ties open. *)
Definition settle_after_le (a b : LeaseRow) : Prop := (o_settle_after a ≤ o_settle_after b)%Z.
#[export] Instance settle_after_le_dec a b : Decision (settle_after_le a b).
Proof. unfold settle_after_le. apply _. Defined.

Definition due (now : Z) (r : LeaseRow) : bool :=
  String.eqb (o_status r) "active" && (o_settle_after r <=? cast_i64 now)%Z.

Definition due_openrouter_leases fault now s : list OpenRouterLeaseRecord :=
  match fault with
  | Some _ => []
  | None => omap row_to_openrouter_lease
              (merge_sort settle_after_le (select_where (due now) (leases s)))
  end.

Definition error_row now (error : string) (r : LeaseRow) : LeaseRow := {|
  o_client_request_id := o_client_request_id r;
  o_request_nullifier := o_request_nullifier r;
  o_api_request_json := o_api_request_json r;
  o_key_hash := o_key_hash r;
  o_key_source := o_key_source r;
  o_status := o_status r;
  o_issued_at := o_issued_at r;
  o_expires_at := o_expires_at r;
  o_settle_after := o_settle_after r;
  o_spending_limit_usd := o_spending_limit_usd r;
  o_usage_usd := o_usage_usd r;
  o_charge_applied := o_charge_applied r;
  o_last_error := Some error;
  o_updated_at := cast_i64 now;
|}.

Definition record_openrouter_lease_error fault now (cid error : string) s
    : result ServerError unit * NullifierStore :=
  with_conn fault "lease error update failed: " s
    (Ok tt, with_leases (update_where (lease_in cid "active") (error_row now error) (leases s)).2 s).

Definition settled_row now (usage_usd : f64) (charge_applied : Z) (r : LeaseRow) : LeaseRow := {|
  o_client_request_id := o_client_request_id r;
  o_request_nullifier := o_request_nullifier r;
  o_api_request_json := o_api_request_json r;
  o_key_hash := o_key_hash r;
  o_key_source := o_key_source r;
  o_status := "finalized";
  o_issued_at := o_issued_at r;
  o_expires_at := o_expires_at r;
  o_settle_after := o_settle_after r;
  o_spending_limit_usd := o_spending_limit_usd r;
  o_usage_usd := bind_real usage_usd;
  o_charge_applied := Some (cast_i64 charge_applied);
  o_last_error := None;
  o_updated_at := cast_i64 now;
|}.

Definition finalize_openrouter_lease fault now (cid : string) (usage_usd : f64) (charge_applied : Z) s
    : result ServerError unit * NullifierStore :=
  with_conn fault "lease finalize failed: " s
    (Ok tt, with_leases (update_where (λ r, String.eqb (o_client_request_id r) cid)
                           (settled_row now usage_usd charge_applied) (leases s)).2 s).
End leases.

(** ** Opening the database *)

Section opening.
Context `{!FeltOps, !WireTypes, !WireOps, !SqliteText}.

(** The failure points of the binding migration's SELECT. *)
Inductive BackfillFault :=
| QueryFailed (e : string)
| ReadFailed (e : string)
| RowFailed (e : string).

Definition backfill_error (f : BackfillFault) : ServerError :=
  match f with
  | QueryFailed e => Database ("lease binding migration query failed: " +:+ e)
  | ReadFailed e => Database ("lease binding migration read failed: " +:+ e)
  | RowFailed e => Database ("lease binding migration row failed: " +:+ e)
  end.

(** The rows the migration's UPDATE selects for one lease. *)
Definition backfill_pred (request_nullifier client_request_id payload_hash : string)
    (r : NullifierRow) : bool :=
  String.eqb (n_nullifier r) request_nullifier
  && bool_decide (n_client_request_id r = Some client_request_id)
  && bool_decide (n_payload_hash r = Some payload_hash)
  && String.eqb (n_reservation_kind r) "openrouter_lease"
  && bool_decide (n_api_request_binding r = None).

Definition bound_row (binding : string) (r : NullifierRow) : NullifierRow := {|
  n_nullifier := n_nullifier r;
  n_status := n_status r;
  n_reservation_kind := n_reservation_kind r;
  n_client_request_id := n_client_request_id r;
  n_payload_hash := n_payload_hash r;
  n_charge_applied := n_charge_applied r;
  n_response_code := n_response_code r;
  n_response_payload := n_response_payload r;
  n_response_hash := n_response_hash r;
  n_next_commitment_x := n_next_commitment_x r;
  n_next_commitment_y := n_next_commitment_y r;
  n_next_anchor := n_next_anchor r;
  n_blind_delta_srv := n_blind_delta_srv r;
  n_next_state_sig_epoch := n_next_state_sig_epoch r;
  n_next_state_sig_root := n_next_state_sig_root r;
  n_next_state_sig_json := n_next_state_sig_json r;
  n_policy_reason_code := n_policy_reason_code r;
  n_policy_evidence_hash := n_policy_evidence_hash r;
  n_proof_blob := n_proof_blob r;
  n_request_inputs_json := n_request_inputs_json r;
  n_api_request_binding := Some binding;
  n_created_at := n_created_at r;
  n_finalized_at := n_finalized_at r;
|}.

(** One iteration of the migration: [Ok l] is the [nullifiers] table after it. *)
Definition backfill_lease (update_fault : option string) (o : LeaseRow) (l : list NullifierRow)
    : result ServerError (list NullifierRow) :=
  match request_from_json (o_api_request_json o) with
  | Err _ => Ok l
  | Ok request =>
      if negb (String.eqb (client_request_id request) (o_client_request_id o))
         || negb (String.eqb (to_hex (request_nullifier (public_inputs request)))
                    (o_request_nullifier o))
      then Ok l
      else
        binding ← api_request_binding request;
        match update_fault with
        | Some e => Err (Database ("lease binding migration update failed: " +:+ e))
        | None =>
            Ok (update_where
                  (backfill_pred (o_request_nullifier o) (o_client_request_id o)
                     (to_hex (payload_hash request)))
                  (bound_row binding) l).2
        end
  end.

(** The loop stops at the first error; the updates before it stay.
    [update_faults] lists the fault of each iteration. *)
Fixpoint backfill_loop (update_faults : list (option string)) (os : list LeaseRow)
    (l : list NullifierRow) : result ServerError unit * list NullifierRow :=
  match os with
  | [] => (Ok tt, l)
  | o :: os' =>
      match backfill_lease (default None (head update_faults)) o l with
      | Err e => (Err e, l)
      | Ok l' => backfill_loop (tail update_faults) os' l'
      end
  end.

Definition backfill_openrouter_request_bindings (select_fault : option BackfillFault)
    (update_faults : list (option string)) (s : NullifierStore)
    : result ServerError unit * NullifierStore :=
  match select_fault with
  | Some f => (Err (backfill_error f), s)
  | None =>
      let '(r, l) := backfill_loop update_faults (leases s) (nullifiers s) in
      (r, {| nullifiers := l; leases := leases s |})
  end.

(** [NullifierStore::new]: [db] is the file's contents, [None] for a new
    file. Columns a table written by an older release lacks read as the
    defaults the ALTER statements give them. *)
Definition new (open_fault create_fault : option string) (select_fault : option BackfillFault)
    (update_faults : list (option string)) (db : option NullifierStore)
    : result ServerError NullifierStore * option NullifierStore :=
  match open_fault, create_fault with
  | Some e, _ => (Err (Database ("failed to open db: " +:+ e)), db)
  | None, Some e => (Err (Database ("failed to create table: " +:+ e)), db)
  | None, None =>
      let '(r, s) := backfill_openrouter_request_bindings select_fault update_faults
                       (default empty_store db) in
      ((λ _, s) <$> r, Some s)
  end.

Definition in_memory : result ServerError NullifierStore * option NullifierStore :=
  new None None None [] None.
End opening.
