(* ===== verification/Toy.v ===== *)
(** * A concrete instance of the protocol classes

    Field elements are their hexadecimal text, signatures record the key and the
    message, and the wire types are serialized by a length-delimited encoding.
    It satisfies [FeltLaws] and [WireLaws]; the witnesses of the theorems that
    assume those laws evaluate the development at it. *)

From Stdlib Require Import ZArith Lia Ascii.
From stdpp Require Import base tactics decidable numbers list strings.
From S2P Require Import Prelude Float64 Json Types Store.

Local Open Scope string_scope.

(** ** A self-delimiting encoding of lists of strings *)

Fixpoint enc_str (s rest : string) : string :=
  match s with
  | EmptyString => String "0"%char rest
  | String c s' => String "1"%char (String c (enc_str s' rest))
  end.
Fixpoint enc_list (l : list string) : string :=
  match l with [] => "" | s :: l' => String "s"%char (enc_str s (enc_list l')) end.

(** [dec cur s]: the strings of [s], [cur] holding the reversed prefix of the
    string being read. *)
Fixpoint dec_str (s : string) : option (string * string) :=
  match s with
  | String b s' =>
      if Ascii.eqb b "0"%char then Some ("", s')
      else match s' with
           | String c s'' => '(w, rest) ← dec_str s''; Some (String c w, rest)
           | EmptyString => None
           end
  | EmptyString => None
  end.
Fixpoint dec_list (fuel : nat) (s : string) : option (list string) :=
  match fuel, s with
  | _, EmptyString => Some []
  | S fuel', String _ s' => '(w, rest) ← dec_str s'; l ← dec_list fuel' rest; Some (w :: l)
  | O, String _ _ => None
  end.

Lemma dec_enc_str s rest : dec_str (enc_str s rest) = Some (s, rest).
Proof. induction s as [|c s IH]; simpl; [done|]. by rewrite IH. Qed.

Lemma dec_enc_list l fuel : (length l ≤ fuel)%nat → dec_list fuel (enc_list l) = Some l.
Proof.
  revert fuel. induction l as [|s l IH]; intros [|fuel] Hf; simpl in *; [done|done|lia|].
  rewrite dec_enc_str. simpl. rewrite IH by lia. done.
Qed.

(** Integers as text. *)
Fixpoint enc_pos (p : positive) : string :=
  match p with xH => "" | xO p => String "0"%char (enc_pos p) | xI p => String "1"%char (enc_pos p) end.
Fixpoint dec_pos (s : string) : positive :=
  match s with
  | EmptyString => xH
  | String c s => if Ascii.eqb c "0"%char then xO (dec_pos s) else xI (dec_pos s)
  end.
Definition enc_Z (z : Z) : string :=
  match z with Z0 => "z" | Zpos p => String "p"%char (enc_pos p) | Zneg p => String "n"%char (enc_pos p) end.
Definition dec_Z (s : string) : Z :=
  match s with
  | String c s => if Ascii.eqb c "p"%char then Zpos (dec_pos s)
                  else if Ascii.eqb c "n"%char then Zneg (dec_pos s) else 0
  | EmptyString => 0
  end.

Lemma dec_enc_pos p : dec_pos (enc_pos p) = p.
Proof. induction p; simpl; congruence. Qed.
Lemma dec_enc_Z z : dec_Z (enc_Z z) = z.
Proof. destruct z; simpl; rewrite ?dec_enc_pos; done. Qed.

(** Hexadecimal, two digits a byte. *)
Definition hex_nibble (n : nat) : ascii := ascii_of_nat (if (n <? 10)%nat then 48 + n else 87 + n).
Fixpoint toy_hex (s : string) : string :=
  match s with
  | EmptyString => EmptyString
  | String c s' => let n := nat_of_ascii c in
      String (hex_nibble (n / 16)) (String (hex_nibble (n mod 16)) (toy_hex s'))
  end.
Fixpoint toy_unhex (s : string) : option string :=
  match s with
  | EmptyString => Some EmptyString
  | String a (String b s') =>
      x ← hex_value a; y ← hex_value b; r ← toy_unhex s';
      Some (String (ascii_of_nat (Z.to_nat x * 16 + Z.to_nat y)) r)
  | _ => None
  end.
Lemma hex_byte c :
  let n := nat_of_ascii c in
  is_ascii_hexdigit (hex_nibble (n / 16)) = true ∧ is_ascii_hexdigit (hex_nibble (n mod 16)) = true
  ∧ (x ← hex_value (hex_nibble (n / 16)); y ← hex_value (hex_nibble (n mod 16));
     Some (ascii_of_nat (Z.to_nat x * 16 + Z.to_nat y))) = Some c.
Proof. destruct c as [[] [] [] [] [] [] [] []]; repeat split; reflexivity. Qed.
Lemma toy_unhex_hex s : toy_unhex (toy_hex s) = Some s.
Proof.
  induction s as [|c s IH]; [done|]. cbn [toy_hex toy_unhex]. destruct (hex_byte c) as (_ & _ & Hb).
  apply bind_Some in Hb as (x & Hx & (y & Hy & Hc)%bind_Some). injection Hc as Hc.
  apply bind_Some. exists x. split; [exact Hx|]. apply bind_Some. exists y. split; [exact Hy|].
  apply bind_Some. exists s. split; [exact IH|]. by rewrite Hc.
Qed.
Lemma toy_hex_length s : String.length (toy_hex s) = (2 * String.length s)%nat.
Proof. induction s as [|c s IH]; [done|]. cbn [toy_hex String.length]. lia. Qed.
Lemma toy_hex_digits s : str_forall is_ascii_hexdigit (toy_hex s) = true.
Proof.
  induction s as [|c s IH]; [done|]. cbn [toy_hex str_forall]. destruct (hex_byte c) as (-> & -> & _). done.
Qed.

(** ** The instances *)

#[export] Instance toy_felt : FeltOps := {|
  Felt252 := string;
  ZERO := "0x0";
  to_hex := λ x, x;
  from_hex := λ s, Ok s;
|}.
#[export] Instance toy_felt_laws : FeltLaws.
Proof. by split. Qed.

#[export] Instance toy_types : WireTypes := {|
  SchnorrSignature := string;
  ProofBackendWire := unit;
  OpenRouterLeaseAuthorization := bool;
  OpenRouterLeaseAuthorization_default := true;
|}.

Definition inputs_fields (p : RequestPublicInputsV2) : list string :=
  [enc_Z (protocol_version p); enc_Z (chain_id p); contract_address p; active_root p;
   state_signing_key_x p; state_signing_key_y p; enc_Z (request_time p); enc_Z (solvency_bound p);
   request_nullifier p; authorization_tag p; anonymous_commitment_x p; anonymous_commitment_y p].
Definition request_fields (r : ApiRequestV2) : list string :=
  client_request_id r :: payload r :: payload_hash r :: proof (request_proof r)
    :: inputs_fields (public_inputs r).
Definition toy_json (r : ApiRequestV2) : string := enc_list (request_fields r).
Definition fields_request (l : list string) : option ApiRequestV2 :=
  match l with
  | [cid; pay; ph; pr; pv; ch; ca; ar; kx; ky; rt; sb; nu; at'; ax; ay] =>
      Some {|
        client_request_id := cid; payload := pay; payload_hash := (ph : @Felt252 toy_felt);
        public_inputs := {|
          protocol_version := dec_Z pv; chain_id := dec_Z ch;
          contract_address := (ca : @Felt252 toy_felt); active_root := ar;
          state_signing_key_x := kx; state_signing_key_y := ky;
          request_time := dec_Z rt; solvency_bound := dec_Z sb; request_nullifier := nu;
          authorization_tag := at'; anonymous_commitment_x := ax; anonymous_commitment_y := ay |};
        request_proof := {| backend := (tt : @ProofBackendWire toy_types); proof := pr |} |}
  | _ => None
  end.

#[export] Instance toy_wire : WireOps := {|
  sig_to_json := λ s, Ok s;
  sig_from_json := λ s, Ok s;
  request_to_json := λ r, Ok (toy_json r);
  request_from_json := λ s,
    ok_or "malformed request" (dec_list (String.length s) s ≫= fields_request);
  request_to_value := λ r, Ok (Str (toy_json r));
  inputs_to_json := λ p, Ok (enc_list (inputs_fields p));
  authorization_from_json := λ s, Ok (String.eqb s "lease");
  keccak256 := λ s, "k" +:+ s;
  hex_encode := toy_hex;
  base64_decode := λ s, Ok s;
|}.

Lemma enc_list_length l : (length l ≤ String.length (enc_list l))%nat.
Proof.
  assert (∀ s rest, (String.length rest ≤ String.length (enc_str s rest))%nat) as Hs.
  { intros s rest. induction s as [|c s IH]; simpl; lia. }
  induction l as [|s l IH]; simpl; [done|]. specialize (Hs s (enc_list l)). lia.
Qed.

Lemma toy_request_roundtrip r : request_from_json (toy_json r) = Ok r.
Proof.
  unfold request_from_json, toy_wire, toy_json. rewrite dec_enc_list by apply enc_list_length.
  destruct r as [cid pay ph [] [[] pr]]. simpl. by rewrite !dec_enc_Z.
Qed.

Lemma toy_json_inj r r' : toy_json r = toy_json r' → r = r'.
Proof.
  intros Heq. apply (f_equal request_from_json) in Heq.
  rewrite !toy_request_roundtrip in Heq. by injection Heq.
Qed.

#[export] Instance toy_wire_laws : WireLaws.
Proof.
  split.
  - intros σ. by exists σ.
  - intros r s [= <-]. apply toy_request_roundtrip.
  - intros r r' v v' Hv Hv' Heq. apply toy_json_inj, String.eqb_eq.
    injection Hv as <-. injection Hv' as <-. exact Heq.
Qed.

#[export] Instance toy_core : CoreOps := {|
  RequestVerifier := unit;
  CompactSigner := string;
  canonical_payload_hash := λ s, "h" +:+ s;
  canonical_request_context := λ cid ph, cid +:+ "|" +:+ ph;
  canonical_response_hash := λ s, "r" +:+ s;
  core_authorization_tag := λ n c, n +:+ "#" +:+ c;
  core_next_anchor := λ rnd n x y, rnd +:+ n +:+ x +:+ y;
  core_state_message := λ _ _ _ x y a, x +:+ y +:+ a;
  core_clearance_message := λ _ _ _ n, "clear" +:+ n;
  verify := λ _ _ p, Ok (String.eqb (proof p) "good");
  server_update := λ p c d, Ok {| point_x := point_x p +:+ d; point_y := point_y p +:+ enc_Z c |};
  signer_from_seed := λ s, s;
  signer_public_key := λ s, {| point_x := s +:+ "x"; point_y := s +:+ "y" |};
  signer_sign := λ k m, k +:+ ":" +:+ m;
|}.

#[export] Instance toy_sqlite : SqliteText := {|
  unique_failed := λ c, "UNIQUE constraint failed: " +:+ c;
  not_null_failed := λ c, "NOT NULL constraint failed: " +:+ c;
|}.

(** ** Concrete requests *)

Definition toy_inputs (nullifier : string) : RequestPublicInputsV2 := {|
  protocol_version := 2;
  chain_id := 1;
  contract_address := ("0xc0" : @Felt252 toy_felt);
  active_root := "root";
  state_signing_key_x := "seedx";
  state_signing_key_y := "seedy";
  request_time := 1000;
  solvency_bound := 5000000;
  request_nullifier := nullifier;
  authorization_tag := nullifier +:+ "#" +:+ "req-1|hhello";
  anonymous_commitment_x := "ax";
  anonymous_commitment_y := "ay";
|}.
Definition toy_request (nullifier : string) : ApiRequestV2 := {|
  client_request_id := "req-1";
  payload := "hello";
  payload_hash := ("hhello" : @Felt252 toy_felt);
  public_inputs := toy_inputs nullifier;
  request_proof := {| backend := (tt : @ProofBackendWire toy_types); proof := "good" |};
|}.
Definition toy_transcript (nullifier : string) : TranscriptRecord := {|
  t_nullifier := (nullifier : @Felt252 toy_felt);
  t_status := Finalized;
  t_reservation_kind := "proxy";
  t_client_request_id := Some "req-1";
  t_payload_hash := Some "hhello";
  t_charge_applied := Some 42%Z;
  t_response_code := Some 200%Z;
  t_response_payload := Some "world";
  t_response_hash := Some "rworld";
  t_next_commitment_x := Some "cx";
  t_next_commitment_y := Some "cy";
  t_next_anchor := Some "a";
  t_blind_delta_srv := Some "d";
  t_next_state_sig_epoch := None;
  t_next_state_sig_root := None;
  t_next_state_sig := Some ("sig" : @SchnorrSignature toy_types);
  t_policy_reason_code := None;
  t_policy_evidence_hash := None;
  t_proof_blob := Some "good";
  t_request_inputs_json := Some "{}";
  t_api_request_binding := None;
  t_created_at := 0;
  t_finalized_at := None;
|}.
