(* ===== verification/SignerV1.v ===== *)
(** * The durable one-time signer: [zkapi-serverd/src/signer.rs]

    The signer of the version-1 server: two XMSS trees whose leaves may each sign
    once, and the table [signer_state] that remembers, across restarts, how many
    leaves of each tree are taken. [lib.rs] builds [signer_v2.rs] in its place.
    [XmssKeypair] belongs to [zkapi_crypto], a part of the [protocol] submodule:
    it is the class [XmssOps], with what the signer relies on in [XmssLaws]. *)

From Stdlib Require Import ZArith Lia.
From stdpp Require Import base tactics decidable numbers list gmap strings.
From S2P Require Import Prelude Text Float64 Json Types Errors Store.

Local Open Scope string_scope.

(** ** Keypairs *)

Section signatures.
Context `{!FeltOps}.

(** [zkapi_types::XmssSignature], a record of four fields. *)
Record XmssSignature := {
  sig_epoch : Z;
  leaf_index : Z;
  wots_sig : list Felt252;
  auth_path : list Felt252;
}.
Definition with_epoch (epoch : Z) (sig : XmssSignature) : XmssSignature :=
  {| sig_epoch := epoch; leaf_index := leaf_index sig; wots_sig := wots_sig sig; auth_path := auth_path sig |}.
End signatures.

(** The methods take the keypair by reference: [sign] moves its counter, so it
    gives the keypair afterwards too. *)
Class XmssOps `{!FeltOps} := {
  FieldElement : Type;
  XmssKeypair : Type;
  XMSS_TREE_HEIGHT : Z;
  generate_with_height : FieldElement → Z → XmssKeypair;
  root_felt : XmssKeypair → Felt252;
  capacity : XmssKeypair → Z;
  next_index : XmssKeypair → Z;
  remaining : XmssKeypair → Z;
  sign : XmssKeypair → Felt252 → option (XmssSignature * Z) * XmssKeypair;
  sign_reserved : XmssKeypair → Z → Felt252 → option XmssSignature;
  (** [Felt252]'s [Display]. *)
  felt_display : Felt252 → string;
}.

(** What the signer relies on: a tree has [capacity] leaves, a leaf that is one of
    them can sign, and [sign] signs with the leaf of the counter and moves on. *)
Class XmssLaws `{!FeltOps, !XmssOps} := {
  capacity_u32 k : in_u32 (capacity k);
  sign_reserved_some k i m : (0 ≤ i < capacity k)%Z → ∃ sig, sign_reserved k i m = Some sig ∧ leaf_index sig = i;
  sign_counter k m :
    sign k m = (if decide (next_index k < capacity k)%Z
                then ((λ sig, (sig, next_index k)) <$> sign_reserved k (next_index k) m, (sign k m).2)
                else (None, (sign k m).2));
  sign_root k m : root_felt (sign k m).2 = root_felt k;
  sign_capacity k m : capacity (sign k m).2 = capacity k;
  sign_reserved_kept k m i m' : sign_reserved (sign k m).2 i m' = sign_reserved k i m';
  sign_next k m : next_index (sign k m).2 = if decide (next_index k < capacity k)%Z then (next_index k + 1)%Z else next_index k;
  generated_index seed h : next_index (generate_with_height seed h) = 0%Z;
}.

(** ** The table [signer_state] *)

Inductive SignerTree := StateTree | ClearTree.
#[export] Instance SignerTree_eq_dec : EqDecision SignerTree.
Proof. solve_decision. Defined.
Definition as_str (self : SignerTree) : string :=
  match self with StateTree => "state" | ClearTree => "clear" end.
Lemma as_str_inj t1 t2 : as_str t1 = as_str t2 → t1 = t2.
Proof. by destruct t1, t2. Qed.

(** A row; the table has one row for each [tree_kind], its primary key. *)
Record SignerRow := { row_epoch : Z; row_root : string; row_next_leaf : Z }.
Definition Db : Type := gmap string SignerRow.

(** The statements that can fail. *)
Inductive Statement :=
| OpenFile | CreateTable | SelectTree | RotateTree | InsertTree | SelectLeaf | Begin | SelectReserve | UpdateLeaf | Commit.

(** The faults of one call: the poisoned locks, the statements that fail with
    their error's text, whether a commit that reports failure took effect all the
    same, and what other connections do to the table between the statements of
    [ensure_tree], which are not in one transaction. *)
Record Faults := {
  op_lock_poisoned : bool;
  conn_lock_poisoned : bool;
  fails : Statement → option string;
  commit_lands : bool;
  meanwhile : Db → Db;
}.
Definition no_faults : Faults :=
  {| op_lock_poisoned := false; conn_lock_poisoned := false; fails := λ _, None;
     commit_lands := true; meanwhile := λ db, db |}.

(** Programs over a state that may fail. *)
Definition Prog (S A : Type) : Type := S → result ServerError A * S.
#[export] Instance Prog_ret S : MRet (Prog S) := λ A a s, (Ok a, s).
#[export] Instance Prog_bind S : MBind (Prog S) := λ A B f m s,
  match m s with (Ok a, s') => f a s' | (Err e, s') => (Err e, s') end.
Definition raise {S A} (e : ServerError) : Prog S A := λ s, (Err e, s).
Definition state {S} : Prog S S := λ s, (Ok s, s).
Definition modify {S} (f : S → S) : Prog S unit := λ s, (Ok tt, f s).
Definition raise_if {S} (b : bool) (e : ServerError) : Prog S unit := if b then raise e else mret tt.

Section store.
Context `{!FeltOps, !XmssOps, !SqliteText}.

Definition statement (f : Faults) (q : Statement) (failed : string) : Prog Db unit :=
  match fails f q with Some e => raise (Database (failed +:+ e)) | None => mret tt end.
Definition conn_lock (f : Faults) : Prog Db unit :=
  raise_if (conn_lock_poisoned f) (Database "signer_state lock poisoned").

Definition ensure_tree (f : Faults) (tree : SignerTree) (epoch : Z) (root : Felt252) : Prog Db unit :=
  _ ← conn_lock f;
  _ ← statement f SelectTree "signer_state lookup failed: ";
  db ← state;
  _ ← modify (meanwhile f);
  match db !! as_str tree with
  | Some row =>
      let stored_epoch := row_epoch row in
      let stored_root := row_root row in
      if (stored_epoch =? epoch)%Z && String.eqb stored_root (to_hex root) then mret tt
      else if (stored_epoch <? epoch)%Z && negb (String.eqb stored_root (to_hex root)) then
        _ ← statement f RotateTree "signer_state rotation failed: ";
        modify (alter (λ _, {| row_epoch := epoch; row_root := to_hex root; row_next_leaf := 0 |}) (as_str tree))
      else raise (Database ("signer_state " +:+ as_str tree +:+ " mismatch: db has epoch=" +:+ show_int stored_epoch
             +:+ " root=" +:+ stored_root +:+ ", config has epoch=" +:+ show_uint epoch
             +:+ " root=" +:+ felt_display root))
  | None =>
      _ ← statement f InsertTree "signer_state insert failed: ";
      db' ← state;
      match db' !! as_str tree with
      | Some _ => raise (Database ("signer_state insert failed: " +:+ unique_failed "signer_state.tree_kind"))
      | None => modify (insert (as_str tree) {| row_epoch := epoch; row_root := to_hex root; row_next_leaf := 0 |})
      end
  end.

(** [SignerStateStore::new]; [CREATE TABLE IF NOT EXISTS] keeps the rows. *)
Definition store_new (f : Faults) (state_epoch : Z) (state_root : Felt252) (clear_epoch : Z) (clear_root : Felt252)
    : Prog Db unit :=
  _ ← statement f OpenFile "failed to open signer db: ";
  _ ← statement f CreateTable "failed to create signer_state: ";
  _ ← ensure_tree f StateTree state_epoch state_root;
  ensure_tree f ClearTree clear_epoch clear_root.

(** [u32::try_from(next)] with the message of both call sites. *)
Definition leaf_u32 (next : Z) : Prog Db Z :=
  if decide (in_u32 next) then mret next else raise (Database "signer_state next_leaf out of range").

(** [query_row] without [optional]: no row is an error. *)
Definition query_row (tree : SignerTree) (failed : string) : Prog Db SignerRow :=
  db ← state;
  match db !! as_str tree with
  | Some row => mret row
  | None => raise (Database (failed +:+ "Query returned no rows"))
  end.

Definition next_leaf (f : Faults) (tree : SignerTree) : Prog Db Z :=
  _ ← conn_lock f;
  _ ← statement f SelectLeaf "signer_state lookup failed: ";
  row ← query_row tree "signer_state lookup failed: ";
  leaf_u32 (row_next_leaf row).

(** [tx.commit()]: the table becomes [db]; an error leaves it open whether it has. *)
Definition commit (f : Faults) (db : Db) : Prog Db unit :=
  match fails f Commit with
  | None => modify (λ _, db)
  | Some e =>
      _ ← (if commit_lands f then modify (λ _, db) else mret tt);
      raise (Database ("signer_state tx commit failed: " +:+ e))
  end.

(** The transaction's SELECT holds the lock its UPDATE needs, so no other
    connection writes in between. *)
Definition reserve_leaf (f : Faults) (tree : SignerTree) (epoch : Z) (root : Felt252) (cap : Z) : Prog Db Z :=
  _ ← conn_lock f;
  _ ← statement f Begin "signer_state tx failed: ";
  _ ← statement f SelectReserve "signer_state reserve lookup failed: ";
  row ← query_row tree "signer_state reserve lookup failed: ";
  _ ← raise_if (negb ((row_epoch row =? epoch)%Z && String.eqb (row_root row) (to_hex root)))
        (Database ("signer_state " +:+ as_str tree +:+ " changed during signing"));
  next ← leaf_u32 (row_next_leaf row);
  _ ← raise_if (cap <=? next)%Z CapacityExhausted;
  _ ← statement f UpdateLeaf "signer_state reserve update failed: ";
  db ← state;
  _ ← commit f (alter (λ row, {| row_epoch := row_epoch row; row_root := row_root row; row_next_leaf := next + 1 |})
                  (as_str tree) db);
  mret next.
End store.

(** ** [ServerSigner] *)

Section signer.
Context `{!FeltOps, !XmssOps, !SqliteText}.

(** [durable_state] is a handle on the one table; the two [Mutex]es hold nothing. *)
Record ServerSigner := {
  state_keypair : XmssKeypair;
  clear_keypair : XmssKeypair;
  state_epoch : Z;
  clear_epoch : Z;
  durable_state : bool;
}.

(** Both constructors take what differs, the store. *)
Definition new_signer (state_seed clear_seed : FieldElement) (epoch height : Z) (durable : bool) : ServerSigner :=
  {| state_keypair := generate_with_height state_seed height; clear_keypair := generate_with_height clear_seed height;
     state_epoch := epoch; clear_epoch := epoch; durable_state := durable |}.
Definition with_height (state_seed clear_seed : FieldElement) (epoch height : Z) : ServerSigner :=
  new_signer state_seed clear_seed epoch height false.
Definition new (state_seed clear_seed : FieldElement) (epoch : Z) : ServerSigner :=
  with_height state_seed clear_seed epoch XMSS_TREE_HEIGHT.
Definition with_height_durable (f : Faults) (state_seed clear_seed : FieldElement) (epoch height : Z) : Prog Db ServerSigner :=
  let signer := new_signer state_seed clear_seed epoch height true in
  _ ← store_new f epoch (root_felt (state_keypair signer)) epoch (root_felt (clear_keypair signer));
  mret signer.

Definition state_root (self : ServerSigner) : Felt252 := root_felt (state_keypair self).
Definition clear_root (self : ServerSigner) : Felt252 := root_felt (clear_keypair self).
Definition epoch (self : ServerSigner) : Z := state_epoch self.

(** A leaf used to sign a message: the root says which tree it is of. *)
Record Use := { use_root : Felt252; use_leaf : Z; use_message : Felt252 }.

(** What one call works on: the signer, the table, and the uses of leaves so far. *)
Record Running := { self : ServerSigner; table : Db; used : list Use }.

Definition on_table {A} (m : Prog Db A) : Prog Running A := λ σ,
  let (r, db) := m (table σ) in (r, {| self := self σ; table := db; used := used σ |}).
Definition gets {A} (f : ServerSigner → A) : Prog Running A := λ σ, (Ok (f (self σ)), σ).

(** The keypairs a call can reach. *)
Definition keypair (tree : SignerTree) (self : ServerSigner) : XmssKeypair :=
  match tree with StateTree => state_keypair self | ClearTree => clear_keypair self end.
Definition set_keypair (tree : SignerTree) (k : XmssKeypair) (self : ServerSigner) : ServerSigner :=
  match tree with
  | StateTree => {| state_keypair := k; clear_keypair := clear_keypair self; state_epoch := state_epoch self;
                    clear_epoch := clear_epoch self; durable_state := durable_state self |}
  | ClearTree => {| state_keypair := state_keypair self; clear_keypair := k; state_epoch := state_epoch self;
                    clear_epoch := clear_epoch self; durable_state := durable_state self |}
  end.
Definition log_use (tree : SignerTree) (leaf : Z) (message : Felt252) (σ : Running) : list Use :=
  (used σ ++ [{| use_root := root_felt (keypair tree (self σ)); use_leaf := leaf; use_message := message |}])%list.

(** [keypair.sign_reserved(leaf, message).ok_or(CapacityExhausted)] *)
Definition use_reserved (tree : SignerTree) (leaf : Z) (message : Felt252) : Prog Running XmssSignature := λ σ,
  match sign_reserved (keypair tree (self σ)) leaf message with
  | Some sig => (Ok sig, {| self := self σ; table := table σ; used := log_use tree leaf message σ |})
  | None => (Err CapacityExhausted, σ)
  end.
(** [keypair.sign(message).ok_or(CapacityExhausted)] *)
Definition use_next (tree : SignerTree) (message : Felt252) : Prog Running (XmssSignature * Z) := λ σ,
  let (r, k) := sign (keypair tree (self σ)) message in
  match r with
  | Some (sig, leaf) =>
      (Ok (sig, leaf), {| self := set_keypair tree k (self σ); table := table σ; used := log_use tree leaf message σ |})
  | None => (Err CapacityExhausted, {| self := set_keypair tree k (self σ); table := table σ; used := used σ |})
  end.

Definition sign_state (f : Faults) (message : Felt252) : Prog Running (XmssSignature * Z) :=
  _ ← raise_if (op_lock_poisoned f) (Internal "state signer lock poisoned");
  signer ← gets id;
  x ← (if durable_state signer then
      leaf_index ← on_table (reserve_leaf f StateTree (state_epoch signer) (state_root signer) (capacity (state_keypair signer)));
      sig ← use_reserved StateTree leaf_index message;
      mret (sig, leaf_index)
    else use_next StateTree message);
  mret (with_epoch (state_epoch signer) x.1, x.2).

Definition sign_next_state {T} (f : Faults) (build_message : Z → Felt252 * T) : Prog Running (XmssSignature * T) :=
  _ ← raise_if (op_lock_poisoned f) (Internal "state signer lock poisoned");
  signer ← gets id;
  x ← (if durable_state signer then
      leaf_index ← on_table (reserve_leaf f StateTree (state_epoch signer) (state_root signer) (capacity (state_keypair signer)));
      let '(message, context) := build_message leaf_index in
      sig ← use_reserved StateTree leaf_index message;
      mret (sig, context)
    else
      let predicted_leaf_index := next_index (state_keypair signer) in
      let '(message, context) := build_message predicted_leaf_index in
      '(sig, actual_leaf_index) ← use_next StateTree message;
      _ ← raise_if (negb (actual_leaf_index =? predicted_leaf_index)%Z)
            (Internal ("state signer leaf index changed during signing: predicted=" +:+ show_uint predicted_leaf_index
                       +:+ ", actual=" +:+ show_uint actual_leaf_index));
      mret (sig, context));
  mret (with_epoch (state_epoch signer) x.1, x.2).

Definition sign_clearance (f : Faults) (message : Felt252) : Prog Running (XmssSignature * Z) :=
  _ ← raise_if (op_lock_poisoned f) (Internal "clear signer lock poisoned");
  signer ← gets id;
  x ← (if durable_state signer then
      leaf_index ← on_table (reserve_leaf f ClearTree (clear_epoch signer) (clear_root signer) (capacity (clear_keypair signer)));
      sig ← use_reserved ClearTree leaf_index message;
      mret (sig, leaf_index)
    else use_next ClearTree message);
  mret (with_epoch (clear_epoch signer) x.1, x.2).

Definition left_of (f : Faults) (tree : SignerTree) (k : XmssKeypair) (durable : bool) (db : Db) : Z :=
  if durable then default 0%Z (next ← ok (next_leaf f tree db).1; checked_sub (capacity k) next) else remaining k.
Definition state_remaining (f : Faults) (signer : ServerSigner) (db : Db) : Z :=
  left_of f StateTree (state_keypair signer) (durable_state signer) db.
Definition clear_remaining (f : Faults) (signer : ServerSigner) (db : Db) : Z :=
  left_of f ClearTree (clear_keypair signer) (durable_state signer) db.
End signer.

(** ** The processes of a deployment

    Signers open the table, sign, and stop or crash, in any order and any number
    at a time. [CrashSigning] is a process that dies between the commit of a leaf
    and its use. *)

Section deployment.
Context `{!FeltOps, !XmssOps, !SqliteText}.

Record System := { disk : Db; running : list ServerSigner; signed : list Use }.
Definition blank : System := {| disk := ∅; running := []; signed := [] |}.

Inductive Action :=
| Open (f : Faults) (state_seed clear_seed : FieldElement) (epoch height : Z)
| Stop (i : nat)
| SignState (i : nat) (f : Faults) (message : Felt252)
| SignNextState (i : nat) (f : Faults) (build_message : Z → Felt252)
| SignClearance (i : nat) (f : Faults) (message : Felt252)
| CrashSigning (i : nat) (f : Faults) (tree : SignerTree).

Definition epoch_of (tree : SignerTree) (signer : ServerSigner) : Z :=
  match tree with StateTree => state_epoch signer | ClearTree => clear_epoch signer end.

Definition call {A} (i : nat) (m : Prog Running A) (s : System) : System :=
  match running s !! i with
  | Some signer =>
      let σ := (m {| self := signer; table := disk s; used := signed s |}).2 in
      {| disk := table σ; running := <[i := self σ]> (running s); signed := used σ |}
  | None => s
  end.
Definition stop (i : nat) (s : System) : System :=
  {| disk := disk s; running := delete i (running s); signed := signed s |}.

Definition perform (s : System) (a : Action) : System :=
  match a with
  | Open f state_seed clear_seed epoch height =>
      let (r, db) := with_height_durable f state_seed clear_seed epoch height (disk s) in
      {| disk := db; running := match r with Ok signer => running s ++ [signer] | Err _ => running s end;
         signed := signed s |}
  | Stop i => stop i s
  | SignState i f message => call i (sign_state f message) s
  | SignNextState i f build_message => call i (sign_next_state f (λ leaf, (build_message leaf, tt))) s
  | SignClearance i f message => call i (sign_clearance f message) s
  | CrashSigning i f tree =>
      stop i (call i (signer ← gets id;
                      on_table (reserve_leaf f tree (epoch_of tree signer) (root_felt (keypair tree signer))
                                  (capacity (keypair tree signer)))) s)
  end.
Definition history (actions : list Action) : System := foldl perform blank actions.
Definition leaf_key (u : Use) : Felt252 * Z := (use_root u, use_leaf u).
End deployment.

(** ** What the store does *)

Section prog.
Context {S : Type}.
Implicit Types s : S.

Lemma prog_bind_inv {A B} (m : Prog S A) (k : A → Prog S B) s r s' : (m ≫= k) s = (r, s') →
  (∃ a s1, m s = (Ok a, s1) ∧ k a s1 = (r, s')) ∨ (∃ e, m s = (Err e, s') ∧ r = Err e).
Proof. unfold mbind, Prog_bind. destruct (m s) as [[a|e] s1]; [intros; left; eauto|]. intros [= <- <-]. right. eauto. Qed.
Lemma raise_if_inv b e s r s' : raise_if b e s = (r, s') → s' = s ∧ ((b = false ∧ r = Ok tt) ∨ (b = true ∧ r = Err e)).
Proof. unfold raise_if, raise, mret, Prog_ret. destruct b; intros [= <- <-]; auto. Qed.
Lemma raise_inv {A} e s (r : result ServerError A) s' : raise e s = (r, s') → s' = s ∧ r = Err e.
Proof. unfold raise. by intros [= <- <-]. Qed.
Lemma mret_inv {A} (a : A) s (r : result ServerError A) s' : (mret a : Prog S A) s = (r, s') → s' = s ∧ r = Ok a.
Proof. unfold mret, Prog_ret. by intros [= <- <-]. Qed.
End prog.

(** A bind that succeeds so far goes on with what follows; one that failed is a
    disjunct of the goal. *)
Ltac bind_step H :=
  let a := fresh "a" in let s1 := fresh "s1" in let e := fresh "e" in let Hm := fresh "Hm" in
  let He := fresh "He" in
  apply prog_bind_inv in H as [(a & s1 & Hm & H)|(e & Hm & He)];
  [|first [discriminate He|injection He as He; subst|rewrite ?He; clear He]].

Section store_theory.
Context `{!FeltOps, !XmssOps, !SqliteText}.

Lemma statement_inv f q t db r db' : statement f q t db = (r, db') → db' = db ∧ (r = Ok tt ∨ ∃ e, r = Err e).
Proof. unfold statement, raise, mret, Prog_ret. destruct (fails f q); intros [= <- <-]; eauto. Qed.
Lemma query_row_inv tree t db r db' : query_row tree t db = (r, db') →
  db' = db ∧ ((∃ e, r = Err e) ∨ ∃ row, r = Ok row ∧ db !! as_str tree = Some row).
Proof. unfold query_row, raise, mret, Prog_ret, mbind, Prog_bind, state. destruct (db !! _) eqn:?; intros [= <- <-]; eauto. Qed.
Lemma leaf_u32_inv n db r db' : leaf_u32 n db = (r, db') → db' = db ∧ ((∃ e, r = Err e) ∨ (r = Ok n ∧ in_u32 n)).
Proof. unfold leaf_u32, raise, mret, Prog_ret. destruct (decide _); intros [= <- <-]; eauto. Qed.
Lemma commit_inv f new db r db' : commit f new db = (r, db') →
  ((∃ e, r = Err e) ∧ db' = db) ∨ (db' = new ∧ (r = Ok tt ∨ ∃ e, r = Err e)).
Proof.
  unfold commit, mbind, Prog_bind, modify, raise, mret, Prog_ret. destruct (fails f Commit); [|intros [= <- <-]; eauto].
  destruct (commit_lands f); intros [= <- <-]; eauto.
Qed.

(** The row lets [epoch] and [root] reserve the leaf [next]. *)
Definition grants (tree : SignerTree) (epoch : Z) (root : Felt252) (cap next : Z) (db : Db) : Prop :=
  db !! as_str tree = Some {| row_epoch := epoch; row_root := to_hex root; row_next_leaf := next |}
  ∧ in_u32 next ∧ (next < cap)%Z.
Definition taken (tree : SignerTree) (epoch : Z) (root : Felt252) (next : Z) (db : Db) : Db :=
  <[as_str tree := {| row_epoch := epoch; row_root := to_hex root; row_next_leaf := next + 1 |}]> db.

Lemma alter_insert_row (tree : SignerTree) (g : SignerRow → SignerRow) (db : Db) row :
  db !! as_str tree = Some row → alter g (as_str tree) db = <[as_str tree := g row]> db.
Proof.
  intros Hrow. unfold Db in *. apply map_eq. intros k. destruct (decide (k = as_str tree)) as [->|Hne].
  - by rewrite lookup_alter_eq, lookup_insert_eq, Hrow.
  - by rewrite lookup_alter_ne, lookup_insert_ne by done.
Qed.

(** A reservation leaves the table alone, with an error, or takes the row's leaf;
    the leaf is taken whenever the call succeeds. *)
Lemma reserve_leaf_inv f tree epoch root cap db r db' :
  reserve_leaf f tree epoch root cap db = (r, db') →
  ((∃ e, r = Err e) ∧ db' = db)
  ∨ ∃ next, grants tree epoch root cap next db ∧ db' = taken tree epoch root next db ∧ (r = Ok next ∨ ∃ e, r = Err e).
Proof.
  unfold reserve_leaf. intros Hrun.
  bind_step Hrun; apply raise_if_inv in Hm as [-> Hm]; [clear Hm|by eauto].
  bind_step Hrun; apply statement_inv in Hm as [-> Hm]; [clear Hm|by eauto].
  bind_step Hrun; apply statement_inv in Hm as [-> Hm]; [clear Hm|by eauto].
  bind_step Hrun; apply query_row_inv in Hm as [-> [[? ?]|(row & Hr & Hrow)]]; simplify_eq; [|by eauto].
  bind_step Hrun; apply raise_if_inv in Hm as [-> [[Hb ?]|[? ?]]]; simplify_eq; [|by eauto].
  apply negb_false_iff, andb_true_iff in Hb as [He%Z.eqb_eq Hroot%String.eqb_eq].
  bind_step Hrun; apply leaf_u32_inv in Hm as [-> [[? ?]|[Hn Hu]]]; simplify_eq; [|by eauto].
  bind_step Hrun; apply raise_if_inv in Hm as [-> [[Hc%Z.leb_gt ?]|[? ?]]]; simplify_eq; [|by eauto].
  bind_step Hrun; apply statement_inv in Hm as [-> Hm]; [clear Hm|by eauto].
  bind_step Hrun; [|discriminate Hm]. injection Hm as <- <-.
  assert (db !! as_str tree = Some {| row_epoch := row_epoch row; row_root := to_hex root; row_next_leaf := row_next_leaf row |}) as Hg
    by (rewrite Hrow, <- Hroot; by destruct row).
  rewrite (alter_insert_row _ _ _ _ Hg) in Hrun.
  bind_step Hrun; apply commit_inv in Hm as [[[? ?] ->]|[-> _]]; [discriminate| |by eauto|]; right; exists (row_next_leaf row).
  - apply mret_inv in Hrun as [-> ->]. repeat split; auto; apply Hu.
  - repeat split; eauto; apply Hu.
Qed.
Definition fresh_row (epoch : Z) (root : Felt252) : SignerRow :=
  {| row_epoch := epoch; row_root := to_hex root; row_next_leaf := 0 |}.

(** Opening a tree nobody else writes meanwhile leaves the table alone, or starts
    the row over for a tree that is new or of a later epoch. *)
Lemma ensure_tree_inv f tree epoch root db r db' : (∀ db, meanwhile f db = db) →
  ensure_tree f tree epoch root db = (r, db') →
  db' = db ∨ (db' = <[as_str tree := fresh_row epoch root]> db
              ∧ ∀ row, db !! as_str tree = Some row → (row_epoch row < epoch)%Z).
Proof.
  intros Hquiet. unfold ensure_tree. intros Hrun.
  bind_step Hrun; apply raise_if_inv in Hm as [-> Hm]; [clear Hm|by eauto].
  bind_step Hrun; apply statement_inv in Hm as [-> Hm]; [clear Hm|by eauto].
  bind_step Hrun; [|discriminate Hm]. injection Hm as <- <-.
  bind_step Hrun; [|discriminate Hm]. injection Hm as _ <-. rewrite Hquiet in Hrun.
  destruct (db !! as_str tree) as [row|] eqn:Hrow.
  - destruct (_ && _); [injection Hrun as _ <-; auto|].
    destruct (row_epoch row <? epoch)%Z eqn:He; simpl in Hrun; [|injection Hrun as _ <-; auto].
    destruct (negb _); [|injection Hrun as _ <-; auto]. apply Z.ltb_lt in He.
    bind_step Hrun; apply statement_inv in Hm as [-> Hm]; [clear Hm|by eauto].
    injection Hrun as _ <-. rewrite (alter_insert_row _ _ _ _ Hrow). right. split; [done|]. by intros ? [= <-].
  - bind_step Hrun; apply statement_inv in Hm as [-> Hm]; [clear Hm|by eauto].
    bind_step Hrun; [|discriminate Hm]. injection Hm as <- <-. rewrite Hrow in Hrun.
    injection Hrun as _ <-. right. split; [done|discriminate].
Qed.
End store_theory.

(** ** No leaf signs twice *)

Section once.
Context `{!FeltOps, !XmssOps, !SqliteText} (roots : SignerTree → Z → Felt252).

(** Each tree of each epoch has a root of its own. *)
Definition distinct_roots : Prop := ∀ t1 e1 t2 e2, in_u32 e1 → in_u32 e2 → roots t1 e1 = roots t2 e2 → t1 = t2 ∧ e1 = e2.
Context (Hroots : distinct_roots).

(** The table knows that the use's leaf is taken. *)
Definition remembers (db : Db) (u : Use) : Prop :=
  ∃ tree e row, in_u32 e ∧ use_root u = roots tree e ∧ db !! as_str tree = Some row
    ∧ (e ≤ row_epoch row)%Z ∧ (e = row_epoch row → (use_leaf u < row_next_leaf row)%Z).
Definition once (db : Db) (uses : list Use) : Prop := Forall (remembers db) uses ∧ NoDup (map leaf_key uses).

Lemma remembers_later db u tree row' : remembers db u →
  (∀ row, db !! as_str tree = Some row →
    (row_epoch row < row_epoch row')%Z ∨ (row_epoch row = row_epoch row' ∧ (row_next_leaf row ≤ row_next_leaf row')%Z)) →
  remembers (<[as_str tree := row']> db) u.
Proof.
  intros (t & e & row & He & Hroot & Hrow & Hle & Hlt) Hlater. unfold remembers, Db in *.
  destruct (decide (t = tree)) as [->|Hne].
  - exists tree, e, row'. rewrite lookup_insert_eq. apply Hlater in Hrow. split_and!; try done; [lia|intros; lia].
  - exists t, e, row. rewrite lookup_insert_ne; [done|]. intros Heq. by apply Hne, as_str_inj.
Qed.
Lemma once_later db uses tree row' : once db uses →
  (∀ row, db !! as_str tree = Some row →
    (row_epoch row < row_epoch row')%Z ∨ (row_epoch row = row_epoch row' ∧ (row_next_leaf row ≤ row_next_leaf row')%Z)) →
  once (<[as_str tree := row']> db) uses.
Proof. intros [Hf Hn] Hlater. split; [|done]. eapply Forall_impl; [exact Hf|]. intros u Hu. by apply remembers_later. Qed.

Lemma once_taken db uses tree e cap next message : once db uses → in_u32 e → grants tree e (roots tree e) cap next db →
  once (taken tree e (roots tree e) next db) uses
  ∧ once (taken tree e (roots tree e) next db) (uses ++ [{| use_root := roots tree e; use_leaf := next; use_message := message |}]).
Proof.
  intros Ho He (Hrow & _ & _). unfold taken.
  assert (once (<[as_str tree := {| row_epoch := e; row_root := to_hex (roots tree e); row_next_leaf := next + 1 |}]> db) uses) as Hlater.
  { apply once_later; [done|]. rewrite Hrow. intros ? [= <-]. right. simpl. lia. }
  split; [done|]. destruct Ho as [Hf Hn]. split.
  - apply Forall_app. split; [apply Hlater|]. constructor; [|constructor].
    exists tree, e. eexists. unfold Db. rewrite lookup_insert_eq. split_and!; try done; simpl; lia.
  - rewrite map_app. apply NoDup_app. split_and!; [done| |by apply NoDup_singleton].
    intros key (u & -> & Hu)%list_elem_of_fmap Hin. apply list_elem_of_singleton in Hin. injection Hin as Hr Hl.
    rewrite Forall_forall in Hf. destruct (Hf u Hu) as (t & e' & row & He' & Hroot & Hrow' & Hle & Hlt).
    rewrite Hr in Hroot. apply Hroots in Hroot as [<- <-]; [|done|done]. rewrite Hrow in Hrow'. injection Hrow' as <-.
    simpl in *. specialize (Hlt eq_refl). lia.
Qed.
Lemma once_fresh db uses tree e root : once db uses →
  (∀ row, db !! as_str tree = Some row → (row_epoch row < e)%Z) → once (<[as_str tree := fresh_row e root]> db) uses.
Proof. intros Ho Hlt. apply once_later; [done|]. intros row Hrow. left. by apply Hlt. Qed.

(** A signer over the table whose trees are those of its epochs. *)
Definition well_planned (signer : ServerSigner) : Prop :=
  durable_state signer = true
  ∧ ∀ tree, in_u32 (epoch_of tree signer) ∧ root_felt (keypair tree signer) = roots tree (epoch_of tree signer).
Definition sound (σ : Running) : Prop := well_planned (self σ) ∧ once (table σ) (used σ).
Definition keeps {A} (m : Prog Running A) : Prop :=
  ∀ σ r σ', sound σ → m σ = (r, σ') → self σ' = self σ ∧ once (table σ') (used σ').

Lemma keeps_reserve {A} f tree (message : Z → Felt252) (g : Z → XmssSignature → A) (k : Z → Prog Running A) σ r σ' :
  (∀ leaf σ, k leaf σ = (use_reserved tree leaf (message leaf) ≫= λ sig, mret (g leaf sig)) σ) → sound σ →
  (on_table (reserve_leaf f tree (epoch_of tree (self σ)) (root_felt (keypair tree (self σ))) (capacity (keypair tree (self σ))))
     ≫= k) σ = (r, σ') →
  self σ' = self σ ∧ once (table σ') (used σ').
Proof.
  intros Hk [[_ Hplan] Ho] Hrun. destruct (Hplan tree) as [He Hroot]. clear Hplan.
  bind_step Hrun; unfold on_table in Hm;
    destruct (reserve_leaf _ _ _ _ _ _) as [r1 db1] eqn:Hres; injection Hm as -> <-;
    apply reserve_leaf_inv in Hres as [[[? ?] ->]|(next & Hg & -> & Hr)]; simplify_eq; try done;
    rewrite Hroot in Hg; destruct (once_taken _ _ _ _ _ _ (message next) Ho He Hg) as [Hskip Huse]; rewrite <- Hroot in Hskip, Huse; [|split; [done|exact Hskip]].
  destruct Hr as [[= ->]|[? ?]]; [|done]. rewrite Hk in Hrun. bind_step Hrun.
  - apply mret_inv in Hrun as [-> _]. unfold use_reserved in Hm. cbn in Hm. destruct (sign_reserved _ _ _); [|discriminate].
    injection Hm as <- <-. unfold log_use. cbn. split; [done|exact Huse].
  - unfold use_reserved in Hm. cbn in Hm. destruct (sign_reserved _ _ _); [discriminate|]. injection Hm as _ <-. split; [done|exact Hskip].
Qed.

(** The three ways to sign reserve a leaf of their tree, use it once, and return. *)
Lemma keeps_locked {A B} f e (m : ServerSigner → Prog Running (XmssSignature * A)) (c : ServerSigner → XmssSignature * A → Prog Running B) :
  (∀ signer x σ, ∃ b, c signer x σ = (Ok b, σ)) →
  (∀ σ r σ', sound σ → m (self σ) σ = (r, σ') → self σ' = self σ ∧ once (table σ') (used σ')) →
  keeps (_ ← raise_if (op_lock_poisoned f) e; signer ← gets id; x ← m signer; c signer x).
Proof.
  intros Hc Hm0 σ r σ' Hs Hrun.
  bind_step Hrun; apply raise_if_inv in Hm as [-> Hm]; [clear Hm|by destruct Hs].
  bind_step Hrun; [|discriminate Hm]. injection Hm as <- <-.
  bind_step Hrun; [destruct (Hc (self σ) a0 s1) as [b Hb]; rewrite Hb in Hrun; injection Hrun as _ <-|]; by eapply Hm0.
Qed.
Ltac keeps_by tree ep message g :=
  refine (keeps_locked _ _ _ (λ signer x, mret (with_epoch (ep signer) x.1, x.2)) _ _);
  [intros; eexists; reflexivity|];
  intros σ r σ' Hs Hrun; rewrite (proj1 (proj1 Hs)) in Hrun; revert Hrun;
  refine (keeps_reserve _ tree message g _ _ _ _ _ Hs).
Lemma keeps_sign_state f message : keeps (sign_state f message).
Proof. by keeps_by StateTree state_epoch (λ _ : Z, message) (λ (leaf : Z) (sig : XmssSignature), (sig, leaf)). Qed.
Lemma keeps_sign_clearance f message : keeps (sign_clearance f message).
Proof. by keeps_by ClearTree clear_epoch (λ _ : Z, message) (λ (leaf : Z) (sig : XmssSignature), (sig, leaf)). Qed.
Lemma keeps_sign_next_state {T} f (build_message : Z → Felt252 * T) : keeps (sign_next_state f build_message).
Proof.
  keeps_by StateTree state_epoch (λ leaf, (build_message leaf).1) (λ (leaf : Z) (sig : XmssSignature), (sig, (build_message leaf).2)).
  intros leaf σ0. by destruct (build_message leaf).
Qed.
Lemma keeps_crash f tree :
  keeps (signer ← gets id;
         on_table (reserve_leaf f tree (epoch_of tree signer) (root_felt (keypair tree signer)) (capacity (keypair tree signer)))).
Proof.
  intros σ r σ' [[_ Hplan] Ho] Hrun. bind_step Hrun; [|discriminate Hm]. injection Hm as <- <-.
  unfold on_table in Hrun. destruct (reserve_leaf _ _ _ _ _ _) as [r1 db1] eqn:Hres. injection Hrun as _ <-.
  destruct (Hplan tree) as [He Hroot].
  apply reserve_leaf_inv in Hres as [[_ ->]|(next & Hg & -> & _)]; [done|]. split; [done|].
  change (id (self σ)) with (self σ) in *. rewrite Hroot in Hg |- *. by apply (once_taken _ _ _ _ _ _ (root_felt (keypair tree (self σ))) Ho He Hg).
Qed.

Definition good (s : System) : Prop := Forall well_planned (running s) ∧ once (disk s) (signed s).

(** Signers open the table one at a time, each with the trees of its epoch. *)
Definition planned (a : Action) : Prop :=
  match a with
  | Open f state_seed clear_seed epoch height =>
      (∀ db, meanwhile f db = db) ∧ in_u32 epoch
      ∧ root_felt (generate_with_height state_seed height) = roots StateTree epoch
      ∧ root_felt (generate_with_height clear_seed height) = roots ClearTree epoch
  | _ => True
  end.

Lemma good_call {A} i (m : Prog Running A) s : keeps m → good s → good (call i m s).
Proof.
  intros Hm [Hr Ho]. unfold call. destruct (running s !! i) as [signer|] eqn:Hi; [|done].
  destruct (m _) as [r σ] eqn:Hrun. rewrite Forall_lookup in Hr. pose proof (Hr _ _ Hi) as Hw.
  apply Hm in Hrun as [Hself Hos]; [|by split]. cbn in *. split; [|done]. cbn.
  apply Forall_insert; [by apply Forall_lookup|by rewrite Hself].
Qed.
Lemma good_stop i s : good s → good (stop i s).
Proof. intros [Hr Ho]. split; [|done]. by apply Forall_delete. Qed.

Lemma once_ensure f tree epoch root db uses r db' : (∀ db, meanwhile f db = db) → once db uses →
  ensure_tree f tree epoch root db = (r, db') → once db' uses.
Proof. intros Hq Ho Hrun. apply ensure_tree_inv in Hrun as [->|[-> Hlt]]; [done| |done]. by apply once_fresh. Qed.
Lemma good_open f state_seed clear_seed epoch height s : planned (Open f state_seed clear_seed epoch height) → good s →
  good (perform s (Open f state_seed clear_seed epoch height)).
Proof.
  intros (Hq & He & Hs & Hc) [Hr Ho]. unfold perform.
  destruct (with_height_durable _ _ _ _ _ _) as [r db] eqn:Hrun. unfold with_height_durable, store_new in Hrun.
  assert (once db (signed s) ∧ ∀ signer, r = Ok signer → well_planned signer) as [Hdb Hok].
  { bind_step Hrun; [apply mret_inv in Hrun as [-> ->]|].
    1: split; [|intros ? [= <-]; split; [done|by intros []]].
    2: split; [|done].
    all: bind_step Hm; apply statement_inv in Hm0 as [-> Hm0]; [clear Hm0|done..].
    all: bind_step Hm; apply statement_inv in Hm0 as [-> Hm0]; [clear Hm0|done..].
    all: bind_step Hm; (apply once_ensure with (uses := signed s) in Hm0; [|done..]); [|done..]; by eapply once_ensure. }
  split; [|done]. cbn. destruct r; [|done]. apply Forall_app. split; [done|]. constructor; [by apply Hok|constructor].
Qed.

Lemma good_perform s a : planned a → good s → good (perform s a).
Proof.
  intros Hp Hs. destruct a; cbn.
  - by apply good_open.
  - by apply good_stop.
  - apply good_call; [apply keeps_sign_state|done].
  - apply good_call; [apply keeps_sign_next_state|done].
  - apply good_call; [apply keeps_sign_clearance|done].
  - apply good_stop, good_call; [apply keeps_crash|done].
Qed.

(** C36: no leaf signs twice. Over any history of signers that open the same table
    one at a time, sign state, next-state and clearance messages, fail at any
    statement, even at a commit that took effect, crash between the commit of a
    leaf and its use, stop and start again and rotate to later epochs, no leaf of
    any XMSS tree is ever used for two signatures, as long as every epoch's trees
    are its own. *)
Theorem no_leaf_signs_twice actions : Forall planned actions → NoDup (map leaf_key (signed (history actions))).
Proof.
  intros Hp. assert (good (history actions)) as [_ [_ Hn]]; [|done].
  unfold history. assert (good blank) as Hb by (repeat constructor).
  revert Hb. generalize blank. induction Hp as [|a actions Ha _ IH]; intros s Hs; [done|]. by apply IH, good_perform.
Qed.
End once.

(** ** A restart is invisible *)

Section restart.
Context `{!FeltOps, !XmssOps, !XmssLaws, !SqliteText} {T : Type}.
Implicit Types (builds : list (Z → Felt252 * T)) (k : XmssKeypair).

Fixpoint sign_all builds (σ : Running) : list (result ServerError (XmssSignature * T)) * Running :=
  match builds with
  | [] => ([], σ)
  | build_message :: builds' =>
      let (r, σ') := sign_next_state no_faults build_message σ in
      let (rs, σ'') := sign_all builds' σ' in (r :: rs, σ'')
  end.

(** What a signer whose next leaf is [n] answers, and its next leaf afterwards. *)
Definition answer k (ep n : Z) (build_message : Z → Felt252 * T) : result ServerError (XmssSignature * T) :=
  match sign_reserved k n (build_message n).1 with
  | Some sig => if decide (n < capacity k)%Z then Ok (with_epoch ep sig, (build_message n).2) else Err CapacityExhausted
  | None => Err CapacityExhausted
  end.
Definition advance k (n : Z) : Z := if decide (n < capacity k)%Z then (n + 1)%Z else n.
Fixpoint answers k (ep n : Z) builds : list (result ServerError (XmssSignature * T)) :=
  match builds with
  | [] => []
  | build_message :: builds' => answer k ep n build_message :: answers k ep (advance k n) builds'
  end.
Fixpoint advances k (n : Z) builds : Z :=
  match builds with [] => n | _ :: builds' => advances k (advance k n) builds' end.

Lemma answers_app k ep n b1 b2 :
  answers k ep n (b1 ++ b2) = (answers k ep n b1 ++ answers k ep (advances k n b1) b2)%list.
Proof. revert n. induction b1 as [|b b1 IH]; intros n; [done|]. simpl. by rewrite IH. Qed.
Lemma answers_signed k m ep n builds : answers (sign k m).2 ep n builds = answers k ep n builds.
Proof.
  revert n. induction builds as [|b builds IH]; intros n; [done|]. simpl.
  unfold answer, advance. by rewrite sign_reserved_kept, sign_capacity, IH.
Qed.

(** A signer over the table, at the leaf the table has. *)
Definition at_leaf (signer : ServerSigner) (n : Z) (σ : Running) : Prop :=
  self σ = signer ∧ in_u32 n
  ∧ table σ !! as_str StateTree =
      Some {| row_epoch := state_epoch signer; row_root := to_hex (state_root signer); row_next_leaf := n |}
  ∧ table σ !! as_str ClearTree = Some (fresh_row (clear_epoch signer) (clear_root signer)).

Lemma advance_u32 k n : in_u32 n → in_u32 (advance k n).
Proof. pose proof (capacity_u32 k). unfold in_u32, advance in *. destruct (decide _); lia. Qed.

Lemma taken_same tree ep root n db :
  taken tree ep root n db !! as_str tree = Some {| row_epoch := ep; row_root := to_hex root; row_next_leaf := n + 1 |}.
Proof. unfold taken, Db. by rewrite lookup_insert_eq. Qed.
Lemma taken_other ep root n db : taken StateTree ep root n db !! as_str ClearTree = db !! as_str ClearTree.
Proof. unfold taken, Db. by rewrite lookup_insert_ne. Qed.
Lemma reserve_no_faults tree ep root cap n db :
  db !! as_str tree = Some {| row_epoch := ep; row_root := to_hex root; row_next_leaf := n |} → in_u32 n →
  reserve_leaf no_faults tree ep root cap db =
    (if decide (n < cap)%Z then (Ok n, taken tree ep root n db) else (Err CapacityExhausted, db)).
Proof.
  intros Hrow Hn. unfold reserve_leaf, query_row, leaf_u32, statement, conn_lock, mbind, Prog_bind, state. cbn.
  rewrite Hrow. cbn. rewrite Z.eqb_refl, String.eqb_refl. cbn. rewrite decide_True by done. cbn.
  destruct (Z.leb_spec cap n); [rewrite decide_False by lia|rewrite decide_True by lia]; [done|]. cbn.
  by rewrite (alter_insert_row _ _ _ _ Hrow).
Qed.

Lemma durable_step signer n build_message σ : durable_state signer = true → at_leaf signer n σ →
  ∃ σ', sign_next_state no_faults build_message σ = (answer (state_keypair signer) (state_epoch signer) n build_message, σ')
    ∧ at_leaf signer (advance (state_keypair signer) n) σ'.
Proof.
  intros Hd (Hself & Hn & Hrow & Hclear). unfold sign_next_state, gets, mbind, Prog_bind. cbn -[reserve_leaf]. rewrite Hself.
  unfold id. rewrite Hd. unfold on_table, state_root in *. rewrite (reserve_no_faults _ _ _ _ _ _ Hrow Hn).
  unfold answer, advance. destruct (decide _) as [Hlt|Hge]; cbn.
  - destruct (build_message n) as [message context]. cbn. unfold use_reserved. cbn. rewrite Hself.
    destruct (sign_reserved_some (state_keypair signer) n message) as (sig & Hsig & _); [unfold in_u32 in Hn; lia|].
    unfold keypair. rewrite Hsig. eexists. split; [done|]. 
    split_and!; [done| |by apply taken_same|by rewrite <- Hclear; apply taken_other].
    pose proof (capacity_u32 (state_keypair signer)). unfold in_u32 in *. lia.
  - eexists. split; [by destruct (sign_reserved _ _ _)|]. by split_and!.
Qed.
Lemma durable_answers signer n builds σ : durable_state signer = true → at_leaf signer n σ →
  (sign_all builds σ).1 = answers (state_keypair signer) (state_epoch signer) n builds
  ∧ at_leaf signer (advances (state_keypair signer) n builds) (sign_all builds σ).2.
Proof.
  intros Hd. revert n σ. induction builds as [|b builds IH]; intros n σ Hat; [done|]. simpl.
  destruct (durable_step _ _ b _ Hd Hat) as (σ' & -> & Hat'). apply IH in Hat' as [Ha Hat'].
  destruct (sign_all builds σ') as [rs σ'']. simpl in *. by rewrite Ha.
Qed.

Lemma memory_step n build_message σ : durable_state (self σ) = false → next_index (state_keypair (self σ)) = n → (0 ≤ n)%Z →
  ∃ m σ', sign_next_state no_faults build_message σ
      = (answer (state_keypair (self σ)) (state_epoch (self σ)) n build_message, σ')
    ∧ self σ' = set_keypair StateTree (sign (state_keypair (self σ)) m).2 (self σ).
Proof.
  intros Hd Hn Hpos. unfold sign_next_state, gets, mbind, Prog_bind. cbn. unfold id. rewrite Hd, Hn.
  unfold answer. destruct (build_message n) as [message context]. cbn. unfold use_next. cbn [keypair].
  rewrite sign_counter, Hn. destruct (decide _) as [Hlt|Hge]; cbn; exists message.
  - destruct (sign_reserved_some (state_keypair (self σ)) n message) as (sig & Hsig & _); [lia|]. rewrite Hsig. cbn.
    rewrite Z.eqb_refl. cbn. eexists. split; [done|by rewrite <- Hd].
  - eexists. split; [by destruct (sign_reserved _ _ _)|by rewrite <- Hd].
Qed.
Lemma memory_answers n builds σ : durable_state (self σ) = false → next_index (state_keypair (self σ)) = n → (0 ≤ n)%Z →
  (sign_all builds σ).1 = answers (state_keypair (self σ)) (state_epoch (self σ)) n builds.
Proof.
  revert n σ. induction builds as [|b builds IH]; intros n σ Hd Hn Hpos; [done|]. simpl.
  destruct (memory_step n b _ Hd Hn Hpos) as (m & σ' & -> & Hself).
  specialize (IH (advance (state_keypair (self σ)) n) σ'). rewrite Hself in IH. cbn in IH.
  destruct (sign_all builds σ') as [rs σ'']. simpl in *. f_equal. rewrite IH.
  - apply answers_signed.
  - done.
  - by rewrite sign_next, Hn.
  - unfold advance. destruct (decide _); lia.
Qed.

Lemma ensure_new tree ep root (db : Db) : db !! as_str tree = None →
  ensure_tree no_faults tree ep root db = (Ok tt, <[as_str tree := fresh_row ep root]> db).
Proof.
  intros Hnone. unfold ensure_tree, mbind, Prog_bind. cbn. rewrite Hnone. cbn. by rewrite Hnone.
Qed.
Lemma ensure_same tree ep root n (db : Db) :
  db !! as_str tree = Some {| row_epoch := ep; row_root := to_hex root; row_next_leaf := n |} →
  ensure_tree no_faults tree ep root db = (Ok tt, db).
Proof.
  intros Hrow. unfold ensure_tree, mbind, Prog_bind. cbn. rewrite Hrow. cbn. by rewrite Z.eqb_refl, String.eqb_refl.
Qed.
Lemma open_blank state_seed clear_seed ep height : let signer := new_signer state_seed clear_seed ep height true in
  ∃ db, with_height_durable no_faults state_seed clear_seed ep height ∅ = (Ok signer, db)
    ∧ at_leaf signer 0 {| self := signer; table := db; used := [] |}.
Proof.
  unfold with_height_durable, store_new, mbind, Prog_bind. cbn -[ensure_tree].
  rewrite (ensure_new StateTree) by done. rewrite (ensure_new ClearTree) by done. eexists. split; [done|].
  split; [done|]. split; [unfold in_u32, u32_MAX; lia|]. done.
Qed.
Lemma open_again state_seed clear_seed ep height n σ : let signer := new_signer state_seed clear_seed ep height true in
  at_leaf signer n σ → with_height_durable no_faults state_seed clear_seed ep height (table σ) = (Ok signer, table σ).
Proof.
  intros signer (_ & _ & Hs & Hc). unfold with_height_durable, store_new, mbind, Prog_bind. cbn -[ensure_tree].
  change (root_felt _) with (state_root signer) at 1. change (root_felt (generate_with_height clear_seed _)) with (clear_root signer).
  change ep with (state_epoch signer) at 1. rewrite (ensure_same _ _ _ _ _ Hs).
  change ep with (clear_epoch signer) at 1. by rewrite (ensure_same _ _ _ _ _ Hc).
Qed.

(** A restart is invisible. A durable signer that answers some requests for a
    next state, stops, and is opened again from the same table gives, before and
    after, the answers one in-memory signer of the same seeds gives to all the
    requests: the leaves in order, one for each request, the signature of each with
    its message built from its leaf, and [capacity_exhausted] from then on. *)
Theorem restart_is_invisible state_seed clear_seed ep height builds1 builds2 :
  let memory := with_height state_seed clear_seed ep height in
  ∃ signer db, with_height_durable no_faults state_seed clear_seed ep height ∅ = (Ok signer, db) ∧
  let stopped := sign_all builds1 {| self := signer; table := db; used := [] |} in
  ∃ signer' db', with_height_durable no_faults state_seed clear_seed ep height (table stopped.2) = (Ok signer', db') ∧
  let answered := (stopped.1 ++ (sign_all builds2 {| self := signer'; table := db'; used := used stopped.2 |}).1)%list in
  answered = (sign_all (builds1 ++ builds2) {| self := memory; table := ∅; used := [] |}).1
  ∧ answered = answers (generate_with_height state_seed height) ep 0 (builds1 ++ builds2).
Proof.
  intros memory. destruct (open_blank state_seed clear_seed ep height) as (db & Hopen & Hat).
  set (signer := new_signer state_seed clear_seed ep height true) in *.
  destruct (durable_answers signer 0 builds1 _ eq_refl Hat) as [Ha1 Hat1]. cbv zeta.
  exists signer, db. split; [exact Hopen|]. eexists _, _. split; [by eapply open_again|].
  rewrite (memory_answers 0 (builds1 ++ builds2) _) by (done || apply generated_index). rewrite !answers_app, Ha1.
  match goal with |- context [sign_all builds2 ?σ] =>
    destruct (durable_answers signer (advances (state_keypair signer) 0 builds1) builds2 σ eq_refl) as [Ha2 _] end.
  - split; [done|apply Hat1].
  - rewrite Ha2. split; reflexivity.
Qed.
End restart.

(** ** The message is built from the leaf that signs it *)

Section leaf.
Context `{!FeltOps, !XmssOps, !XmssLaws, !SqliteText} {T : Type}.

Lemma use_reserved_inv tree leaf message σ sig σ' : use_reserved tree leaf message σ = (Ok sig, σ') →
  sign_reserved (keypair tree (self σ)) leaf message = Some sig ∧ used σ' = log_use tree leaf message σ.
Proof. unfold use_reserved. destruct (sign_reserved _ _ _); [|done]. by intros [= <- <-]. Qed.
Lemma use_next_inv tree message σ sig leaf σ' : use_next tree message σ = (Ok (sig, leaf), σ') →
  leaf = next_index (keypair tree (self σ)) ∧ (leaf < capacity (keypair tree (self σ)))%Z
  ∧ sign_reserved (keypair tree (self σ)) leaf message = Some sig ∧ used σ' = log_use tree leaf message σ.
Proof.
  unfold use_next. rewrite sign_counter. destruct (decide _); [|done].
  destruct (sign_reserved _ _ _) eqn:Hs; [|done]. intros [= <- <- <-]. by rewrite Hs.
Qed.
Lemma sign_reserved_leaf k i m sig : (0 ≤ i < capacity k)%Z → sign_reserved k i m = Some sig → leaf_index sig = i.
Proof. intros Hi Hs. destruct (sign_reserved_some k i m Hi) as (sig' & Hs' & Hl). by rewrite Hs' in Hs; injection Hs as <-. Qed.

(** The message is built from the leaf that signs it. When [sign_next_state]
    returns, in memory or over the table and whatever else failed, it has used one
    leaf of the state tree: the one its builder was given, the signature's leaf
    index, for the message the builder made of it; and it returns the builder's
    context and the signer's epoch. *)
Theorem signature_matches_leaf f (build_message : Z → Felt252 * T) σ sig context σ' :
  (0 ≤ next_index (state_keypair (self σ)))%Z →
  sign_next_state f build_message σ = (Ok (sig, context), σ') →
  ∃ leaf, leaf_index sig = leaf ∧ (build_message leaf).2 = context ∧ sig_epoch sig = state_epoch (self σ)
    ∧ (0 ≤ leaf < capacity (state_keypair (self σ)))%Z
    ∧ used σ' = (used σ ++ [{| use_root := state_root (self σ); use_leaf := leaf; use_message := (build_message leaf).1 |}])%list.
Proof.
  intros Hpos Hrun. unfold sign_next_state in Hrun.
  bind_step Hrun. apply raise_if_inv in Hm as [-> _].
  bind_step Hrun. injection Hm as <- <-.
  bind_step Hrun. apply mret_inv in Hrun as [-> [= -> ->]].
  change (id (self σ)) with (self σ) in *. destruct (durable_state (self σ)).
  - bind_step Hm. unfold on_table in Hm0. destruct (reserve_leaf _ _ _ _ _ _) as [r db] eqn:Hres.
    injection Hm0 as -> <-. apply reserve_leaf_inv in Hres as [[[? ?] _]|(leaf & (_ & Hu & Hlt) & _ & [[= ->]|[? ?]])]; [done| |done].
    destruct (build_message leaf) as [message context'] eqn:Hb. bind_step Hm. apply mret_inv in Hm as [-> [= ->]].
    apply use_reserved_inv in Hm0 as [Hs Hl]. exists leaf. rewrite Hb. destruct Hu as [Hu _].
    split_and!; try done. by apply (sign_reserved_leaf _ _ _ _ (conj Hu Hlt) Hs).
  - destruct (build_message _) as [message context'] eqn:Hb. bind_step Hm.
    match type of Hm0 with _ = (Ok ?p, _) => destruct p as [sig0 leaf] end.
    apply use_next_inv in Hm0 as (-> & Hlt & Hs & Hl). cbn [keypair] in *.
    bind_step Hm. apply raise_if_inv in Hm0 as [-> _]. apply mret_inv in Hm as [-> [= ->]].
    eexists. rewrite Hb. split_and!; try done. by apply (sign_reserved_leaf _ _ _ _ (conj Hpos Hlt) Hs).
Qed.
End leaf.

(** ** Concrete keypairs

    The root names the seed and the height, a signature the root and the message. *)

From S2P Require Import Toy.

Record ToyKeypair := { toy_seed : string; toy_height : Z; toy_next : Z }.
Definition toy_capacity (k : ToyKeypair) : Z :=
  if (0 <=? toy_height k)%Z && (toy_height k <? 32)%Z then 2 ^ toy_height k else 0.
Definition toy_root (k : ToyKeypair) : @Felt252 toy_felt := "root at height " +:+ show_int (toy_height k) +:+ " of " +:+ toy_seed k.
Definition toy_sign_reserved (k : ToyKeypair) (i : Z) (m : @Felt252 toy_felt) : option XmssSignature :=
  if (0 <=? i)%Z && (i <? toy_capacity k)%Z
  then Some {| sig_epoch := 0; leaf_index := i; wots_sig := [m]; auth_path := [toy_root k] |} else None.
Definition toy_step (k : ToyKeypair) : ToyKeypair :=
  {| toy_seed := toy_seed k; toy_height := toy_height k;
     toy_next := if decide (toy_next k < toy_capacity k)%Z then (toy_next k + 1)%Z else toy_next k |}.
#[export] Instance toy_xmss : XmssOps := {|
  FieldElement := string;
  XmssKeypair := ToyKeypair;
  XMSS_TREE_HEIGHT := 10;
  generate_with_height := λ seed height, {| toy_seed := seed; toy_height := height; toy_next := 0 |};
  root_felt := toy_root;
  capacity := toy_capacity;
  next_index := toy_next;
  remaining := λ k, (toy_capacity k - toy_next k)%Z;
  sign := λ k m,
    (if decide (toy_next k < toy_capacity k)%Z
     then (λ sig, (sig, toy_next k)) <$> toy_sign_reserved k (toy_next k) m else None, toy_step k);
  sign_reserved := toy_sign_reserved;
  felt_display := λ x, x;
|}.
#[export] Instance toy_xmss_laws : XmssLaws.
Proof.
  split; cbn; try done.
  - intros k. unfold in_u32, u32_MAX, toy_capacity. destruct (_ && _) eqn:Hh; [|lia].
    apply andb_true_iff in Hh as [H1%Z.leb_le H2%Z.ltb_lt].
    pose proof (Z.pow_le_mono_r 2 (toy_height k) 31). pose proof (Z.pow_nonneg 2 (toy_height k)). lia.
  - intros k i m Hi. unfold toy_sign_reserved.
    rewrite (proj2 (Z.leb_le _ _)), (proj2 (Z.ltb_lt _ _)) by lia. by eexists.
  - intros k m. by destruct (decide _).
Qed.

(** An epoch's seeds, and its trees' roots. *)
Definition seed (tree : SignerTree) (ep : Z) : string := as_str tree +:+ show_uint ep.
Definition toy_roots (tree : SignerTree) (ep : Z) : @Felt252 toy_felt :=
  root_felt (generate_with_height (seed tree ep : FieldElement) 2).
Lemma toy_roots_distinct : distinct_roots toy_roots.
Proof.
  intros t1 e1 t2 e2 [He1 _] [He2 _] Heq. injection Heq as Heq.
  assert (t1 = t2) as <- by (by destruct t1, t2). split; [done|].
  apply show_uint_inj; [done..|]. by destruct t1; injection Heq.
Qed.
Definition open_at (f : Faults) (ep : Z) : Action :=
  Open f (seed StateTree ep : FieldElement) (seed ClearTree ep : FieldElement) ep 2.
Lemma open_at_planned f ep : (∀ db, meanwhile f db = db) → in_u32 ep → planned toy_roots (open_at f ep).
Proof. done. Qed.
Definition failing (q : Statement) : Faults :=
  {| op_lock_poisoned := false; conn_lock_poisoned := false;
     fails := λ q', if (match q, q' with Commit, Commit | RotateTree, RotateTree => true | _, _ => false end) then Some "disk I/O error" else None;
     commit_lands := true; meanwhile := λ db, db |}.

(** A signer that signs, meets a failing commit and a crash, starts again, and
    rotates at the second attempt. *)
Definition eventful : list Action :=
  [open_at no_faults 3; SignNextState 0 no_faults (λ leaf, show_uint leaf); SignState 0 (failing Commit) "lost";
   CrashSigning 0 no_faults StateTree; open_at no_faults 3; SignState 0 no_faults "m"; SignClearance 0 no_faults "c";
   Stop 0; open_at (failing RotateTree) 4; open_at no_faults 4; SignState 0 no_faults "n"; SignState 0 no_faults "o"].
Lemma eventful_leaves : map leaf_key (signed (history eventful)) =
  [(toy_roots StateTree 3, 0%Z); (toy_roots StateTree 3, 3%Z); (toy_roots ClearTree 3, 0%Z);
   (toy_roots StateTree 4, 0%Z); (toy_roots StateTree 4, 1%Z)].
Proof. vm_compute. reflexivity. Qed.
Lemma no_leaf_signs_twice_witness :
  Forall (planned toy_roots) eventful ∧ NoDup (map leaf_key (signed (history eventful))).
Proof.
  assert (Forall (planned toy_roots) eventful) as Hp.
  { repeat apply Forall_cons_2; try apply Forall_nil_2; try exact I; apply open_at_planned; try done; vm_compute; split; discriminate. }
  split; [exact Hp|]. by apply (no_leaf_signs_twice toy_roots toy_roots_distinct eventful).
Defined.

Definition seeded (s : string) : @FieldElement toy_felt toy_xmss := s.
Definition three_requests : list (Z → @Felt252 toy_felt * Z) := replicate 3 (λ leaf, (show_uint leaf : @Felt252 toy_felt, leaf)).
Lemma restart_is_invisible_witness :
  let answered := answers (generate_with_height (seeded "s") 2) 3 0 (three_requests ++ three_requests) in
  map (map_err error_to_string) (map (fmap snd) answered)
    = [Ok 0%Z; Ok 1%Z; Ok 2%Z; Ok 3%Z; Err "capacity exhausted"; Err "capacity exhausted"]
  ∧ ∃ signer db, with_height_durable no_faults (seeded "s") (seeded "c") 3 2 ∅ = (Ok signer, db)
      ∧ let stopped := sign_all three_requests {| self := signer; table := db; used := [] |} in
        ∃ signer' db', with_height_durable no_faults (seeded "s") (seeded "c") 3 2 (table stopped.2) = (Ok signer', db')
          ∧ (stopped.1 ++ (sign_all three_requests {| self := signer'; table := db'; used := used stopped.2 |}).1)%list = answered.
Proof.
  split; [vm_compute; reflexivity|].
  destruct (restart_is_invisible (seeded "s") (seeded "c") 3 2 three_requests three_requests)
    as (signer & db & Hopen & signer' & db' & Hagain & _ & Ha).
  exists signer, db. split; [exact Hopen|]. by exists signer', db'.
Defined.

(** Rotating to a later epoch with the tree of an earlier one starts its counter
    over: the tree's first leaf signs a second message. *)
Definition rotated_back : list Action :=
  [Open no_faults (seeded "a") (seeded "ca") 1 2; SignState 0 no_faults "first"; Stop 0;
   Open no_faults (seeded "b") (seeded "cb") 2 2; Stop 0;
   Open no_faults (seeded "a") (seeded "ca") 3 2; SignState 0 no_faults "second"].
Lemma rotation_back_reuses_a_leaf : ∃ u1 u2, signed (history rotated_back) = [u1; u2]
  ∧ leaf_key u1 = leaf_key u2 ∧ use_message u1 = "first" ∧ use_message u2 = "second".
Proof. do 2 eexists. split; [vm_compute; reflexivity|]. by split_and!. Qed.

(** Two processes that rotate to the same epoch at once: the second reads the row
    before the first rotates it and writes it after the first has signed, so that
    both sign with the first leaf of the new tree. *)
Definition before_rotation : System := history [open_at no_faults 3; Stop 0].
Definition first_process : System := foldl perform before_rotation [open_at no_faults 4; SignState 0 no_faults "first"].
Definition interleaved : Faults :=
  {| op_lock_poisoned := false; conn_lock_poisoned := false; fails := λ _, None; commit_lands := true;
     meanwhile := λ db, if bool_decide (row_epoch <$> db !! as_str StateTree = Some 3%Z) then disk first_process else db |}.
Definition second_process : System := foldl perform before_rotation [open_at interleaved 4; SignState 0 no_faults "second"].
Lemma racing_rotations_reuse_a_leaf : ∃ u1 u2, signed first_process = [u1] ∧ signed second_process = [u2]
  ∧ leaf_key u1 = leaf_key u2 ∧ use_message u1 = "first" ∧ use_message u2 = "second".
Proof. do 2 eexists. split; [vm_compute; reflexivity|]. split; [vm_compute; reflexivity|]. by split_and!. Qed.
