(* ===== verification/AuthWitnesses.v ===== *)
(** * A toy curve

    A field of eleven elements with a group of order seven, its points integers up
    to congruence: the laws hold at it, and the properties of the schemes are
    evaluated there. *)

From Stdlib Require Import ZArith Lia.
From stdpp Require Import base tactics decidable numbers list strings fin.
From S2P Require Import Prelude Text Float64 Json Types Store Toy AuthScheme Scalar BlindSchnorr.
From S2P Require Import CredentialScheme BlindScheme AnchorScheme.

Local Open Scope Z_scope.

Definition felt (z : Z) : fin 11 := nat_to_fin (Nat.mod_upper_bound (Z.to_nat (z mod 11)) 11 (Nat.neq_succ_0 10)).

#[export] Instance toy_stark : StarkFelt := {|
  Felt := fin 11;
  felt_prime := 11;
  curve_order := 7;
  to_uint x := Z.of_nat (fin_to_nat x);
  felt_from_bytes_be s := felt (be_value 0 s);
  felt_to_bytes_be x := be_bytes 32 (Z.of_nat (fin_to_nat x));
  felt_to_bits_le x := map (Z.testbit (Z.of_nat (fin_to_nat x))) [0; 1; 2; 3];
|}.
#[export] Instance toy_stark_laws : StarkFeltLaws.
Proof.
  split.
  - cbn. lia.
  - intros x. cbn. pose proof (fin_to_nat_lt x). lia.
  - intros x y Hxy. cbn in Hxy. apply (inj fin_to_nat). lia.
  - intros s _. change (Z.of_nat (fin_to_nat (felt (be_value 0 s))) = be_value 0 s mod 11).
    unfold felt. rewrite fin_to_nat_to_fin.
    pose proof (Z.mod_pos_bound (be_value 0 s) 11 ltac:(lia)). rewrite Nat.mod_small by lia. lia.
  - intros x. change (fin 11) in x. do 11 (inv_fin x; [reflexivity|intros x]). inv_fin x.
Qed.

#[export] Instance toy_sha3 : Sha3 := {| keccak_digest := λ s, (s +:+ "x")%string |}.

#[export] Instance toy_curve : CurveOps := {|
  ProjectivePoint := Z;
  point_equiv P Q := P mod 7 = Q mod 7;
  identity := 0;
  generator := 1;
  point_add := Z.add;
  point_neg := Z.opp;
  is_identity P := P mod 7 =? 0;
  affine_x P := if P mod 7 =? 0 then None else Some (felt (P mod 7));
|}.
Lemma toy_times n P : times n P = Z.of_nat n * P.
Proof. induction n as [|n IH]; [done|]. cbn [times]. rewrite IH. cbn. lia. Qed.
#[export] Instance toy_curve_laws : CurveLaws.
Proof.
  assert (∀ a b c d, a mod 7 = b mod 7 → c mod 7 = d mod 7 → (a + c) mod 7 = (b + d) mod 7) as Hadd.
  { intros a b c d Hab Hcd. by rewrite (Zplus_mod a), (Zplus_mod b), Hab, Hcd. }
  split; cbn.
  - split; [by intros x|by intros x y ->|by intros x y z -> ->].
  - intros a b Hab c d Hcd. by apply Hadd.
  - intros a b Hab. hnf in *. rewrite <- !Z.sub_0_l. by rewrite (Zminus_mod 0 a), (Zminus_mod 0 b), Hab.
  - intros a b Hab. hnf in Hab. by rewrite Hab.
  - intros a b Hab. hnf in Hab. by rewrite Hab.
  - intros P Q R. hnf. f_equal. lia.
  - intros P Q. hnf. f_equal. lia.
  - done.
  - intros P. hnf. by rewrite Z.add_opp_diag_r.
  - intros P. hnf. rewrite toy_times. change (Z.of_nat (Z.to_nat 7)) with 7. by rewrite Z.mul_comm, Z_mod_mult.
  - intros P. by destruct (P mod 7 =? 0).
Qed.

Definition elt (z : Z) : Felt := felt z.
Definition point (z : Z) : ProjectivePoint := z.
Definition draw (n : nat) : string := bytes [n + 2]%nat.

Lemma scalar_mul_is_multiple_witness : scalar_mul (point 3) (elt 10) ≡ times 3 (point 3).
Proof. exact (scalar_mul_is_multiple (point 3) (elt 10)). Defined.

Definition toy_key : SigningKey := key_from_secret (elt 4).
Definition toy_sig : Signature := {| c_prime := elt 4; s_prime := elt 4 |}.

Lemma blind_issue_verifies_witness :
  blind_verify (public toy_key) (elt 5) {| c_prime := elt 6; s_prime := elt 0 |} = Some true.
Proof.
  destruct (blind_issue_verifies (elt 4) (elt 5) (draw 0) (draw 1) (draw 3)) as [Hv _].
  assert (blind_issue toy_key (elt 5) (draw 0) (draw 1) (draw 3) = Some {| c_prime := elt 6; s_prime := elt 0 |})
    as Hi by (refine (bool_decide_eq_true_1 _ _); vm_compute; reflexivity).
  unfold toy_key in Hi |- *. rewrite Hi in Hv. exact Hv.
Defined.

Lemma issuance_is_blind_witness :
  ∃ draw_a draw_b state,
    client_blind (commitment (server_commit (draw 5))) (public toy_key) (elt 5) draw_a draw_b = Some (state, elt 6)
    ∧ client_unblind state (server_respond (server_commit (draw 5)) toy_key (elt 6)) = Some toy_sig.
Proof.
  destruct (issuance_is_blind (elt 4) (draw 5) (elt 6) (elt 5) toy_sig) as (a & b & st & H1 & H2 & _).
  - vm_compute. reflexivity.
  - vm_compute. reflexivity.
  - vm_compute. reflexivity.
  - exists a, b, st. split; [exact H1|exact H2].
Defined.

(** ** Lives of credentials *)

#[export] Instance toy_anchor : AnchorOps := {|
  XmssSignature := string;
  XmssKeypair := Z;
  felt_to_field f := from_bytes_reduced f;
  field_to_felt x := show_uint (to_uint x);
  felt_as_bytes f := f;
  GENESIS_ANCHOR := "genesis"%string;
  pedersen_coords b r := (from_uint b, r);
  add_blinding := scalar_add;
  compute_nullifier s a := (s +:+ "/" +:+ a)%string;
  compute_next_anchor r n x y i := ("next:" +:+ n +:+ show_uint i)%string;
  compute_blind_delta r n i := show_uint i;
  compute_state_message v c k x y a := (x +:+ "," +:+ y +:+ "," +:+ a)%string;
  xmss_next_index k := k;
  xmss_sign k m := (Some (m, k), k + 1);
  xmss_root _ := "root"%string;
  xmss_with_epoch σ _ := σ;
  xmss_verify r m σ := (String.eqb r "root" && String.eqb m σ)%string;
|}.
#[export] Instance toy_anchor_laws : AnchorLaws.
Proof.
  split; [|done]. intros k m σ i k' [= <- <- <-]. cbn. by rewrite String.eqb_refl.
Qed.

Definition toy_blind : BlindSignatureScheme := blind_new toy_key.
Definition toy_state_anchor : StateAnchorScheme := anchor_new 0 1 1 31337 ("0xca7e"%string : @Felt252 toy_felt).
Definition toy_requests : list (Z * Z) := [(10, 3); (10, 4)].
Definition toy_rng0 (k : nat) : string := draw (4 * k).
Definition toy_rng (n m k : nat) : string := draw (n + m + 4 * k).

(** Whether a run returned. *)
Definition returned {S A} (r : option (result AuthError A * S)) : bool :=
  match r with Some (Ok _, _) => true | _ => false end.
Lemma returned_Ok {S A} (r : option (result AuthError A * S)) :
  returned r = true → ∃ a s, r = Some (Ok a, s).
Proof. destruct r as [[[a|e] s]|]; try discriminate. by exists a, s. Qed.

Lemma life_conserves_witness :
  (∃ ps w s', life toy_rng0 toy_rng (elt 3) 100 toy_requests toy_blind = Some (Ok (93, ps, w), s')
     ∧ NoDup (withdrawal_key w :: map key ps))
  ∧ ∃ ps w s', life toy_rng0 toy_rng (elt 3) 100 toy_requests toy_state_anchor = Some (Ok (93, ps, w), s')
     ∧ NoDup (withdrawal_key w :: map key ps).
Proof.
  assert (Forall (λ p : Z * Z, 0 ≤ p.2) toy_requests) as Hl by (repeat constructor; cbn; lia).
  split.
  - destruct (returned_Ok (life toy_rng0 toy_rng (elt 3) 100 toy_requests toy_blind)) as (((z & ps) & w) & s' & Hr);
      [vm_compute; reflexivity|].
    destruct (life_conserves toy_rng0 toy_rng (elt 3) 100 toy_requests toy_blind z ps w s') as (Hz & _ & _ & Hn & _);
      [by exists (elt 4)|lia|exact Hl|exact Hr|].
    exists ps, w, s'. split; [|exact Hn]. rewrite Hr, Hz. reflexivity.
  - destruct (returned_Ok (life toy_rng0 toy_rng (elt 3) 100 toy_requests toy_state_anchor)) as (((z & ps) & w) & s' & Hr);
      [vm_compute; reflexivity|].
    destruct (life_conserves toy_rng0 toy_rng (elt 3) 100 toy_requests toy_state_anchor z ps w s') as (Hz & _ & _ & Hn & _);
      [exact I|lia|exact Hl|exact Hr|].
    exists ps, w, s'. split; [|exact Hn]. rewrite Hr, Hz. reflexivity.
Defined.
