(* ===== verification/StoreTheory.v ===== *)
(** * The store's behaviour under any sequence of operations

    [StoreOp] lists the operations other code can call; [store_step] runs one of
    them at any time with any database fault. The file proves that the tables
    stay keyed and well formed, that rows only ever move forward, and the
    consequences the processor relies on. *)

From Stdlib Require Import ZArith Lia.
From stdpp Require Import base tactics decidable numbers list strings gmap relations sorting.
From S2P Require Import Prelude Float64 Json Types Errors Store.

(** ** Steps *)

Section steps.
Context `{!FeltOps, !WireTypes, !WireOps, !SqliteText}.

Inductive StoreOp :=
| OpReserve (nullifier : Felt252) (cid : string) (payload_hash : Felt252)
| OpReserveV2 (request : ApiRequestV2)
| OpReserveLease (request : ApiRequestV2)
| OpFinalize (nullifier : Felt252) (transcript : TranscriptRecord)
| OpReserveClearance (nullifier : Felt252)
| OpCreateLease (request : ApiRequestV2) (key_source : string)
    (issued_at expires_at settle_after : Z) (spending_limit_usd : f64)
| OpLeaseTiming (cid : string) (expires_at settle_after : Z)
| OpActivateLease (cid key_hash : string)
| OpRemoveLease (cid : string)
| OpLeaseError (cid error : string)
| OpFinalizeLease (cid : string) (usage_usd : f64) (charge_applied : Z)
| OpBackfill (select_fault : option BackfillFault) (update_faults : list (option string)).

Definition run (fault : option DbFault) (now : Z) (op : StoreOp) (s : NullifierStore)
    : result ServerError unit * NullifierStore :=
  match op with
  | OpReserve n cid ph => reserve fault now n cid ph s
  | OpReserveV2 req => reserve_v2 fault now req s
  | OpReserveLease req => reserve_openrouter_lease fault now req s
  | OpFinalize n t => finalize fault now n t s
  | OpReserveClearance n => reserve_clearance fault now n s
  | OpCreateLease req src i e a limit => create_openrouter_lease fault now req src i e a limit s
  | OpLeaseTiming cid e a => update_openrouter_lease_timing fault now cid e a s
  | OpActivateLease cid h => activate_openrouter_lease fault now cid h s
  | OpRemoveLease cid => remove_failed_openrouter_lease fault cid s
  | OpLeaseError cid e => record_openrouter_lease_error fault now cid e s
  | OpFinalizeLease cid u c => finalize_openrouter_lease fault now cid u c s
  | OpBackfill sf uf => backfill_openrouter_request_bindings sf uf s
  end.

Definition store_step (s s' : NullifierStore) : Prop :=
  ∃ fault now op, (run fault now op s).2 = s'.
Definition store_steps : relation NullifierStore := rtc store_step.

(** ** How one row of [nullifiers] can change *)

Inductive row_step (r : NullifierRow) : NullifierRow → Prop :=
| row_bound b : n_api_request_binding r = None → row_step r (bound_row b r)
| row_finalized now t : n_status r = status_to_str Reserved → row_step r (finalized_row now t r).
Definition row_evolves : relation NullifierRow := rtc row_step.
#[export] Instance row_evolves_preorder : PreOrder row_evolves.
Proof. unfold row_evolves. apply _. Qed.

(** A row as the two INSERTs write it. *)
Definition is_new_row (r : NullifierRow) : Prop :=
  ∃ now n, 
    (∃ kind cid ph b, r = new_row (to_hex n) (status_to_str Reserved) kind (Some cid) (Some (to_hex ph)) b now)
    ∨ r = new_row (to_hex n) (status_to_str ClearanceReserved) "proxy" None None None now.

(** One statement on the table [nullifiers]. *)
Inductive table_step (l : list NullifierRow) : list NullifierRow → Prop :=
| table_insert r : n_nullifier r ∉ map n_nullifier l → is_new_row r → table_step l (l ++ [r])
| table_update p f : (∀ r, p r = true → row_step r (f r)) → table_step l (update_where p f l).2.
Definition table_steps : relation (list NullifierRow) := rtc table_step.
#[export] Instance table_steps_preorder : PreOrder table_steps.
Proof. unfold table_steps. apply _. Qed.

(** The table keeps its rows in place and appends new ones. *)
Definition table_evolves (l l' : list NullifierRow) : Prop :=
  ∃ l1 l2, l' = (l1 ++ l2)%list ∧ Forall2 row_evolves l l1.

#[export] Instance table_evolves_preorder : PreOrder table_evolves.
Proof.
  split.
  - intros l. exists l, []. split; [by rewrite app_nil_r | done].
  - intros l ? ? (l1 & l2 & -> & Hl1) (l3 & l4 & -> & Hl3).
    apply Forall2_app_inv_l in Hl3 as (k1 & k2 & Hk1 & Hk2 & ->).
    exists k1, (k2 ++ l4)%list. split; [by rewrite app_assoc|]. by transitivity l1.
Qed.

Lemma table_step_evolves l l' : table_step l l' → table_evolves l l'.
Proof.
  destruct 1 as [r _ _|p f Hf]; [by exists l, [r]|].
  exists (update_where p f l).2, []. split; [by rewrite app_nil_r|].
  simpl. induction l as [|r l IH]; constructor; [|done].
  destruct (p r) eqn:Hp; [by apply rtc_once, Hf | done].
Qed.

Lemma table_steps_evolves l l' : table_steps l l' → table_evolves l l'.
Proof.
  induction 1 as [|l l1 l' Hl _ IH]; [done|]. by transitivity l1; [apply table_step_evolves|].
Qed.

Lemma table_steps_keyed l l' :
  table_steps l l' → NoDup (map n_nullifier l) → NoDup (map n_nullifier l').
Proof.
  induction 1 as [|l l1 l' Hl _ IH]; [done|]. intros Hnd. apply IH.
  destruct Hl as [r Hr _|p f Hf].
  - rewrite map_app. apply NoDup_app. split; [done|]. split; [|apply NoDup_singleton].
    intros k Hk ->%list_elem_of_singleton. done.
  - rewrite update_where_key; [done|]. by intros r Hr%Hf; destruct Hr.
Qed.

(** ** Every operation moves the table forward *)

Lemma with_conn_elim {A} (P : NullifierStore → Prop) fault msg s
    (body : result ServerError A * NullifierStore) :
  P s → P body.2 → P (with_conn fault msg s body).2.
Proof. intros. by destruct fault as [[]|]. Qed.

Lemma insert_nullifier_Ok row s s' :
  insert_nullifier row s = Ok s' →
  nullifiers s' = (nullifiers s ++ [row])%list ∧ leases s' = leases s
  ∧ n_nullifier row ∉ map n_nullifier (nullifiers s).
Proof.
  unfold insert_nullifier. destruct (existsb _ _) eqn:He; intros [= <-]. repeat split.
  intros (r & Hk & Hr)%list_elem_of_fmap. apply not_true_iff_false in He. apply He, existsb_exists.
  exists r. split; [by apply list_elem_of_In | by apply String.eqb_eq].
Qed.

Lemma insert_nullifier_Err row s e :
  insert_nullifier row s = Err e → ∃ r, r ∈ nullifiers s ∧ n_nullifier r = n_nullifier row.
Proof.
  unfold insert_nullifier. destruct (existsb _ _) eqn:He; intros [= <-].
  apply existsb_exists in He as (r & Hr & Hk). exists r.
  split; [by apply list_elem_of_In | by apply String.eqb_eq].
Qed.

Lemma reserve_with_kind_steps fault now n cid ph kind b s :
  table_steps (nullifiers s) (nullifiers (reserve_with_kind fault now n cid ph kind b s).2).
Proof.
  apply (with_conn_elim (λ s', table_steps (nullifiers s) (nullifiers s'))); [done|].
  destruct (insert_nullifier _ _) as [s'|e] eqn:Hi; [simpl|done].
  apply insert_nullifier_Ok in Hi as (-> & _ & Hk). apply rtc_once, table_insert; [done|].
  eexists _, _. left. by eexists _, _, _, _.
Qed.

Lemma backfill_lease_steps uf o l l' : backfill_lease uf o l = Ok l' → table_steps l l'.
Proof.
  unfold backfill_lease. intros Hb.
  destruct (request_from_json _) as [req|]; [|by simplify_eq].
  destruct (_ || _); [by simplify_eq|]. apply bind_Ok in Hb as (b & _ & Hb).
  destruct uf; [done|]. injection Hb as <-. apply rtc_once, (table_update _ (backfill_pred _ _ _) (bound_row b)).
  intros r Hp. constructor. unfold backfill_pred in Hp.
  rewrite !andb_true_iff, !bool_decide_eq_true in Hp. tauto.
Qed.

Lemma backfill_loop_steps ufs os l : table_steps l (backfill_loop ufs os l).2.
Proof.
  revert ufs l. induction os as [|o os IH]; intros ufs l; simpl; [done|].
  destruct (backfill_lease _ o l) as [l'|e] eqn:Hb; [|done].
  apply backfill_lease_steps in Hb. by transitivity l'.
Qed.

Lemma run_steps fault now op s : table_steps (nullifiers s) (nullifiers (run fault now op s).2).
Proof.
  set (P := λ s', table_steps (nullifiers s) (nullifiers s')).
  destruct op; simpl.
  - apply reserve_with_kind_steps.
  - unfold reserve_v2, reserve_bound_v2. destruct (api_request_binding _); simpl; [|reflexivity].
    apply reserve_with_kind_steps.
  - unfold reserve_openrouter_lease, reserve_bound_v2. destruct (api_request_binding _); simpl; [|reflexivity].
    apply reserve_with_kind_steps.
  - apply (with_conn_elim P); unfold P; [done|].
    destruct (update_where _ _ _) as [rows l] eqn:Hu.
    apply (f_equal snd) in Hu. simpl in Hu.
    assert (table_steps (nullifiers s) l) as Hl.
    { rewrite <- Hu. apply rtc_once, (table_update _ (finalize_pred _)). intros r Hp.
      apply andb_true_iff in Hp as [_ Hp]. constructor. by apply String.eqb_eq. }
    by destruct (Nat.eqb rows 0).
  - apply (with_conn_elim P); unfold P; [done|].
    destruct (insert_nullifier _ _) as [s'|e] eqn:Hi; [simpl|done].
    apply insert_nullifier_Ok in Hi as (-> & _ & Hk). apply rtc_once, table_insert; [done|].
    eexists _, _. by right.
  - unfold create_openrouter_lease. destruct (request_to_json _); [|done].
    apply (with_conn_elim P); unfold P; [done|]. destruct (bind_real _); [|done].
    by destruct (lease_conflict _ _).
  - apply (with_conn_elim P); unfold P; [done|]. destruct (update_where _ _ _). by destruct (negb _).
  - apply (with_conn_elim P); unfold P; [done|]. destruct (key_hash_taken _ _ _); [done|].
    destruct (update_where _ _ _). by destruct (negb _).
  - by apply (with_conn_elim P); unfold P.
  - by apply (with_conn_elim P); unfold P.
  - by apply (with_conn_elim P); unfold P.
  - unfold backfill_openrouter_request_bindings. destruct select_fault; [done|].
    destruct (backfill_loop _ _ _) as [r l] eqn:Hb. simpl.
    pose proof (backfill_loop_steps update_faults (leases s) (nullifiers s)) as Hl.
    by rewrite Hb in Hl.
Qed.

Lemma store_steps_table s s' :
  store_steps s s' → table_steps (nullifiers s) (nullifiers s').
Proof.
  induction 1 as [|s1 s2 s3 (fault & now & op & <-) _ IH]; [done|].
  etransitivity; [apply run_steps | exact IH].
Qed.
End steps.

(** ** Well-formed tables *)

Section wf.
Context `{!FeltOps, !WireTypes, !WireOps, !SqliteText}.

(** The columns a row in each state has. *)
Definition row_wf (r : NullifierRow) : Prop :=
  (n_status r = status_to_str Reserved ∧ is_Some (n_client_request_id r) ∧ is_Some (n_payload_hash r)
   ∧ n_charge_applied r = None ∧ n_next_state_sig_json r = None ∧ n_finalized_at r = None)
  ∨ (n_status r = status_to_str Finalized ∧ is_Some (n_client_request_id r)
     ∧ is_Some (n_payload_hash r) ∧ is_Some (n_finalized_at r))
  ∨ (n_status r = status_to_str ClearanceReserved ∧ n_client_request_id r = None
     ∧ n_reservation_kind r = "proxy"%string ∧ n_next_state_sig_json r = None
     ∧ n_finalized_at r = None).

(** The life of a lease: no key before activation, a charge from settlement on. *)
Definition lease_wf (o : LeaseRow) : Prop :=
  (o_status o = "provisioning"%string ∧ o_key_hash o = None ∧ o_charge_applied o = None)
  ∨ (o_status o = "active"%string ∧ is_Some (o_key_hash o) ∧ o_charge_applied o = None)
  ∨ (o_status o = "finalized"%string ∧ is_Some (o_charge_applied o)).

Definition key_hashes_unique (l : list LeaseRow) : Prop :=
  ∀ o o' h, o ∈ l → o' ∈ l → o_key_hash o = Some h → o_key_hash o' = Some h →
    o_client_request_id o = o_client_request_id o'.

Record store_wf (s : NullifierStore) : Prop := {
  wf_keyed : NoDup (map n_nullifier (nullifiers s));
  wf_rows : ∀ r, r ∈ nullifiers s → row_wf r;
  wf_lease_ids : NoDup (map o_client_request_id (leases s));
  wf_lease_nullifiers : NoDup (map o_request_nullifier (leases s));
  wf_key_hashes : key_hashes_unique (leases s);
  wf_leases : ∀ o, o ∈ leases s → lease_wf o;
}.

Lemma row_step_wf r r' : row_step r r' → row_wf r → row_wf r'.
Proof.
  unfold row_wf. destruct 1 as [b Hb|now t Hs]; [done|].
  intros [(_ & ? & ? & _)|[(Hd & _)|(Hd & _)]]; [|by rewrite Hs in Hd..].
  right. left. simpl. eauto.
Qed.

Lemma table_steps_rows_wf l l' :
  table_steps l l' → (∀ r, r ∈ l → row_wf r) → ∀ r, r ∈ l' → row_wf r.
Proof.
  induction 1 as [|l l1 l' Hl _ IH]; [done|]. intros Hwf. apply IH.
  destruct Hl as [r0 _ (now & n & Hr0)|p f Hf]; intros r Hr.
  - apply elem_of_app in Hr as [Hr| ->%list_elem_of_singleton]; [by apply Hwf|].
    unfold row_wf. destruct Hr0 as [(kind & cid & ph & b & ->)| ->]; simpl; eauto 10.
  - apply update_where_rows_inv in Hr as (r1 & Hr1 & [[Hp ->]|[_ ->]]); [|by apply Hwf].
    eapply row_step_wf; [by apply Hf | by apply Hwf].
Qed.

(** *** One statement on [openrouter_leases] *)

Inductive lease_table_step (l : list LeaseRow) : list LeaseRow → Prop :=
| lease_insert o : o_client_request_id o ∉ map o_client_request_id l →
    o_request_nullifier o ∉ map o_request_nullifier l →
    o_status o = "provisioning"%string → o_key_hash o = None → o_charge_applied o = None →
    lease_table_step l (l ++ [o])
| lease_activate now cid h : key_hash_taken cid h l = false →
    lease_table_step l (update_where (lease_in cid "provisioning") (activated_row now h) l).2
| lease_timing now cid e a :
    lease_table_step l (update_where (lease_in cid "provisioning") (timing_row now e a) l).2
| lease_error now cid e :
    lease_table_step l (update_where (lease_in cid "active") (error_row now e) l).2
| lease_settle now cid u c :
    lease_table_step l (update_where (λ r, String.eqb (o_client_request_id r) cid) (settled_row now u c) l).2
| lease_remove cid : lease_table_step l (delete_where (removable cid) l).

Lemma lease_conflict_None row l :
  lease_conflict row l = None →
  (o_client_request_id row ∉ map o_client_request_id l)
  ∧ (o_request_nullifier row ∉ map o_request_nullifier l).
Proof.
  unfold lease_conflict. destruct (existsb _ _) eqn:He1; [done|].
  destruct (existsb (λ r, String.eqb (o_request_nullifier r) _) _) eqn:He2; [done|]. intros _.
  split; intros (r & Hk & Hr)%list_elem_of_fmap.
  - apply not_true_iff_false in He1. apply He1, existsb_exists. exists r.
    split; [by apply list_elem_of_In | by apply String.eqb_eq].
  - apply not_true_iff_false in He2. apply He2, existsb_exists. exists r.
    split; [by apply list_elem_of_In | by apply String.eqb_eq].
Qed.

Lemma run_leases fault now op s :
  leases (run fault now op s).2 = leases s
  ∨ lease_table_step (leases s) (leases (run fault now op s).2).
Proof.
  set (P := λ s', leases s' = leases s ∨ lease_table_step (leases s) (leases s')).
  assert (∀ s', leases s' = leases s → P s') as Hsame by (intros s' Hs'; by left).
  change (P (run fault now op s).2).
  assert (∀ n cid ph kind b, P (reserve_with_kind fault now n cid ph kind b s).2) as Hreserve.
  { intros. apply (with_conn_elim P); [by apply Hsame|].
    destruct (insert_nullifier _ _) eqn:Hi; [|by apply Hsame].
    apply insert_nullifier_Ok in Hi as (_ & Hi & _). by apply Hsame. }
  destruct op; simpl.
  - apply Hreserve.
  - unfold reserve_v2, reserve_bound_v2. destruct (api_request_binding _); [apply Hreserve | by apply Hsame].
  - unfold reserve_openrouter_lease, reserve_bound_v2.
    destruct (api_request_binding _); [apply Hreserve | by apply Hsame].
  - apply (with_conn_elim P); [by apply Hsame|].
    destruct (update_where _ _ _). destruct (Nat.eqb _ 0); by apply Hsame.
  - apply (with_conn_elim P); [by apply Hsame|].
    destruct (insert_nullifier _ _) eqn:Hi; [|by apply Hsame].
    apply insert_nullifier_Ok in Hi as (_ & Hi & _). by apply Hsame.
  - unfold create_openrouter_lease. destruct (request_to_json _); [|by apply Hsame].
    apply (with_conn_elim P); [by apply Hsame|]. destruct (bind_real _); [|by apply Hsame].
    destruct (lease_conflict _ _) eqn:Hc; [by apply Hsame|].
    apply lease_conflict_None in Hc as [??]. right. by apply lease_insert.
  - apply (with_conn_elim P); [by apply Hsame|].
    destruct (update_where _ _ _) as [n l] eqn:Hu. apply (f_equal snd) in Hu. simpl snd in Hu at 2.
    subst l. assert (P (with_leases (update_where (lease_in cid "provisioning")
      (timing_row now expires_at settle_after) (leases s)).2 s)) by (right; apply lease_timing).
    by destruct (negb _).
  - apply (with_conn_elim P); [by apply Hsame|].
    destruct (key_hash_taken _ _ _) eqn:Hk; [by apply Hsame|].
    destruct (update_where _ _ _) as [n l] eqn:Hu. apply (f_equal snd) in Hu. simpl snd in Hu at 2.
    subst l. assert (P (with_leases (update_where (lease_in cid "provisioning")
      (activated_row now key_hash) (leases s)).2 s)) by (right; by apply lease_activate).
    by destruct (negb _).
  - apply (with_conn_elim P); [by apply Hsame|]. right. apply lease_remove.
  - apply (with_conn_elim P); [by apply Hsame|]. right. apply lease_error.
  - apply (with_conn_elim P); [by apply Hsame|]. right. apply lease_settle.
  - unfold backfill_openrouter_request_bindings. destruct select_fault; [by apply Hsame|].
    destruct (backfill_loop _ _ _). by apply Hsame.
Qed.

Lemma lease_step_ids {K} (k : LeaseRow → K) l l' :
  lease_table_step l l' →
  (∀ now h r, k (activated_row now h r) = k r) → (∀ now e a r, k (timing_row now e a r) = k r) →
  (∀ now e r, k (error_row now e r) = k r) → (∀ now u c r, k (settled_row now u c r) = k r) →
  (∀ o, l' = (l ++ [o])%list → k o ∉ map k l) → NoDup (map k l) → NoDup (map k l').
Proof.
  intros Hl Ha Ht He Hs Hi Hnd. destruct Hl; rewrite ?update_where_key; auto.
  - rewrite map_app. apply NoDup_app. split; [done|]. split; [|apply NoDup_singleton].
    intros x Hx ->%list_elem_of_singleton. by eapply Hi.
  - by apply delete_where_key.
Qed.

Lemma lease_insert_inv l l' : lease_table_step l l' → ∀ o, l' = (l ++ [o])%list →
  (o_client_request_id o ∉ map o_client_request_id l)
  ∧ (o_request_nullifier o ∉ map o_request_nullifier l).
Proof.
  intros Hl o Heq. assert (length l' = S (length l)) as Hlen by (rewrite Heq, length_app; simpl; lia).
  destruct Hl as [o' ? ? _ _ _| | | | |]; simpl in Hlen; rewrite ?length_map in Hlen; try lia.
  - apply app_inv_head in Heq as [= ->]. done.
  - pose proof (length_filter (λ r, removable cid r = false) l). unfold delete_where in Hlen. lia.
Qed.

Lemma lease_step_wf l l' :
  lease_table_step l l' → (∀ o, o ∈ l → lease_wf o) → ∀ o, o ∈ l' → lease_wf o.
Proof.
  intros Hl Hwf o Ho. destruct Hl.
  - apply elem_of_app in Ho as [Ho| ->%list_elem_of_singleton]; [by apply Hwf | by left].
  - apply update_where_rows_inv in Ho as (o1 & Ho1 & [[Hp ->]|[_ ->]]); [|by apply Hwf].
    right. left. specialize (Hwf _ Ho1) as Hwf1. apply andb_true_iff in Hp as [_ Hp%String.eqb_eq].
    unfold lease_wf in Hwf1. rewrite Hp in Hwf1. simpl.
    destruct Hwf1 as [(_ & _ & Hc)|[(Hc & _)|(Hc & _)]]; [by eauto | discriminate Hc..].
  - apply update_where_rows_inv in Ho as (o1 & Ho1 & [[Hp ->]|[_ ->]]); by apply Hwf in Ho1.
  - apply update_where_rows_inv in Ho as (o1 & Ho1 & [[Hp ->]|[_ ->]]); by apply Hwf in Ho1.
  - apply update_where_rows_inv in Ho as (o1 & Ho1 & [[Hp ->]|[_ ->]]); [|by apply Hwf].
    right. right. by eauto.
  - apply elem_of_delete_where in Ho as [Ho _]. by apply Hwf.
Qed.

(** A step that keeps key hashes and ids keeps the hashes unique. *)
Lemma key_hashes_weaken l l' :
  (∀ o, o ∈ l' → ∃ o1, o1 ∈ l ∧ o_client_request_id o1 = o_client_request_id o
                     ∧ (o_key_hash o = o_key_hash o1 ∨ o_key_hash o = None)) →
  key_hashes_unique l → key_hashes_unique l'.
Proof.
  intros Hl Hu o o' h Ho Ho' Hh Hh'.
  destruct (Hl _ Ho) as (o1 & Hin & <- & [He|He]); [|congruence].
  destruct (Hl _ Ho') as (o1' & Hin' & <- & [He'|He']); [|congruence].
  apply (Hu o1 o1' h); [done | done | congruence..].
Qed.

Lemma activate_key_hashes now cid h l :
  key_hash_taken cid h l = false → key_hashes_unique l →
  key_hashes_unique (update_where (lease_in cid "provisioning") (activated_row now h) l).2.
Proof.
  intros Hk Hu.
  assert (∀ o o', o ∈ l → lease_in cid "provisioning" o = true → o' ∈ l →
            o_key_hash o' = Some h → lease_in cid "provisioning" o' = true) as Hfree.
  { intros o o' Ho Hp Ho' Hh. apply not_false_iff_true. intros Hn.
    apply andb_false_iff in Hk as [Hk|Hk]; apply not_true_iff_false in Hk; apply Hk, existsb_exists.
    - exists o'. split; [by apply list_elem_of_In|]. by rewrite Hn, bool_decide_eq_true_2.
    - exists o. split; [by apply list_elem_of_In | done]. }
  assert (∀ o, lease_in cid "provisioning" o = true → o_client_request_id o = cid) as Hcid.
  { intros o [Hp _]%andb_true_iff. by apply String.eqb_eq. }
  intros o o' h' Ho Ho' Hh Hh'.
  apply update_where_rows_inv in Ho as (o1 & Ho1 & [[Hp ->]|[Hp ->]]);
    apply update_where_rows_inv in Ho' as (o1' & Ho1' & [[Hp' ->]|[Hp' ->]]); simpl in *.
  - by rewrite (Hcid _ Hp), (Hcid _ Hp').
  - simplify_eq. by rewrite (Hfree _ _ Ho1 Hp Ho1' Hh') in Hp'.
  - simplify_eq. by rewrite (Hfree _ _ Ho1' Hp' Ho1 Hh) in Hp.
  - by eapply Hu.
Qed.

Lemma lease_step_key_hashes l l' :
  lease_table_step l l' → key_hashes_unique l → key_hashes_unique l'.
Proof.
  intros Hl Hu. destruct Hl as [o Hid _ _ Hh _|now cid h Hk|now cid e a|now cid e|now cid u c|cid].
  - intros o1 o2 h Ho1 Ho2 Hh1 Hh2.
    apply elem_of_app in Ho1 as [Ho1| ->%list_elem_of_singleton]; [|congruence].
    apply elem_of_app in Ho2 as [Ho2| ->%list_elem_of_singleton]; [|congruence]. by eapply Hu.
  - by apply activate_key_hashes.
  - revert Hu. apply key_hashes_weaken.
    intros o (o1 & ? & [[_ ->]|[_ ->]])%update_where_rows_inv; eauto.
  - revert Hu. apply key_hashes_weaken.
    intros o (o1 & ? & [[_ ->]|[_ ->]])%update_where_rows_inv; eauto.
  - revert Hu. apply key_hashes_weaken.
    intros o (o1 & ? & [[_ ->]|[_ ->]])%update_where_rows_inv; eauto.
  - revert Hu. apply key_hashes_weaken. intros o [Ho _]%elem_of_delete_where; eauto.
Qed.

Lemma run_wf fault now op s : store_wf s → store_wf (run fault now op s).2.
Proof.
  intros [Hk Hr Hi Hn Hh Hl]. pose proof (run_steps fault now op s) as Hsteps.
  destruct (run_leases fault now op s) as [Heq|Hls].
  - split; rewrite ?Heq; eauto using table_steps_keyed, table_steps_rows_wf.
  - split; eauto using table_steps_keyed, table_steps_rows_wf, lease_step_wf, lease_step_key_hashes.
    + eapply lease_step_ids; eauto. intros o Ho. by eapply lease_insert_inv.
    + eapply lease_step_ids; eauto. intros o Ho. by eapply lease_insert_inv.
Qed.

Lemma empty_store_wf : store_wf empty_store.
Proof.
  split; simpl; try apply NoDup_nil_2; repeat intros ?;
    match goal with H : _ ∈ [] |- _ => by apply not_elem_of_nil in H end.
Qed.
End wf.
