(* ===== verification/StoreProps.v ===== *)
(** * What the store promises

    The theorems about [NullifierStore] that its clients and its operators rely
    on: its state machine, durability of finalized transcripts, round trips
    through the SQLite columns, the lease life cycle and the binding migration. *)

From Stdlib Require Import ZArith Lia.
From stdpp Require Import base tactics decidable numbers list strings gmap relations sorting.
From S2P Require Import Prelude Float64 Json Types Errors Store StoreTheory Toy.

(** ** Specification *)

Section spec.
Context `{!FeltOps, !WireTypes, !WireOps, !SqliteText}.

(** The store as clients see it: the status of each nullifier. *)
Definition abs (s : NullifierStore) : gmap string NullifierStatus :=
  list_to_map (map (λ r, (n_nullifier r, str_to_status (n_status r))) (nullifiers s)).

Definition spec_insert (k : string) (st : NullifierStatus) (taken : ServerError)
    (m : gmap string NullifierStatus) : result ServerError unit * gmap string NullifierStatus :=
  match m !! k with
  | Some _ => (Err taken, m)
  | None => (Ok tt, <[k := st]> m)
  end.

Definition spec_reserve_bound (request : ApiRequestV2) (m : gmap string NullifierStatus) :=
  match api_request_binding request with
  | Err e => (Err e, m)
  | Ok _ => spec_insert (to_hex (request_nullifier (public_inputs request))) Reserved Replay m
  end.

(** The state machine of a nullifier: absent, reserved, finalized, or reserved
    for clearance. [None]: the operation is not about nullifiers. *)
Definition spec_run (op : StoreOp) (m : gmap string NullifierStatus)
    : option (result ServerError unit * gmap string NullifierStatus) :=
  match op with
  | OpReserve n _ _ => Some (spec_insert (to_hex n) Reserved Replay m)
  | OpReserveV2 request | OpReserveLease request => Some (spec_reserve_bound request m)
  | OpFinalize n _ =>
      Some (if decide (m !! to_hex n = Some Reserved)
            then (Ok tt, <[to_hex n := Finalized]> m)
            else (Err (Internal "nullifier not in Reserved state or does not exist"), m))
  | OpReserveClearance n => Some (spec_insert (to_hex n) ClearanceReserved NullifierUsed m)
  | _ => None
  end.

(** What [row_to_record] keeps of a transcript that [finalize] stored over a
    reservation: the reservation's identity, the transcript's results. *)
Definition stored_transcript (now : Z) (old t : TranscriptRecord) : TranscriptRecord := {|
  t_nullifier := t_nullifier old;
  t_status := Finalized;
  t_reservation_kind := t_reservation_kind old;
  t_client_request_id := t_client_request_id old;
  t_payload_hash := t_payload_hash old;
  t_charge_applied := t_charge_applied t;
  t_response_code := t_response_code t;
  t_response_payload := t_response_payload t;
  t_response_hash := t_response_hash t;
  t_next_commitment_x := t_next_commitment_x t;
  t_next_commitment_y := t_next_commitment_y t;
  t_next_anchor := t_next_anchor t;
  t_blind_delta_srv := t_blind_delta_srv t;
  t_next_state_sig_epoch := t_next_state_sig_epoch t;
  t_next_state_sig_root := t_next_state_sig_root t;
  t_next_state_sig := t_next_state_sig t;
  t_policy_reason_code := t_policy_reason_code t;
  t_policy_evidence_hash := t_policy_evidence_hash t;
  t_proof_blob := t_proof_blob t;
  t_request_inputs_json := t_request_inputs_json t;
  t_api_request_binding := t_api_request_binding old;
  t_created_at := t_created_at old;
  t_finalized_at := Some now;
|}.

Definition with_binding (b : option string) (t : TranscriptRecord) : TranscriptRecord := {|
  t_nullifier := t_nullifier t;
  t_status := t_status t;
  t_reservation_kind := t_reservation_kind t;
  t_client_request_id := t_client_request_id t;
  t_payload_hash := t_payload_hash t;
  t_charge_applied := t_charge_applied t;
  t_response_code := t_response_code t;
  t_response_payload := t_response_payload t;
  t_response_hash := t_response_hash t;
  t_next_commitment_x := t_next_commitment_x t;
  t_next_commitment_y := t_next_commitment_y t;
  t_next_anchor := t_next_anchor t;
  t_blind_delta_srv := t_blind_delta_srv t;
  t_next_state_sig_epoch := t_next_state_sig_epoch t;
  t_next_state_sig_root := t_next_state_sig_root t;
  t_next_state_sig := t_next_state_sig t;
  t_policy_reason_code := t_policy_reason_code t;
  t_policy_evidence_hash := t_policy_evidence_hash t;
  t_proof_blob := t_proof_blob t;
  t_request_inputs_json := t_request_inputs_json t;
  t_api_request_binding := b;
  t_created_at := t_created_at t;
  t_finalized_at := t_finalized_at t;
|}.

(** The values the INTEGER columns hold exactly. *)
Definition storable (t : TranscriptRecord) : Prop :=
  (∀ c, t_charge_applied t = Some c → 0 ≤ c < 2 ^ 63)%Z
  ∧ (∀ c, t_response_code t = Some c → in_u16 c)
  ∧ (∀ e, t_next_state_sig_epoch t = Some e → in_u32 e)
  ∧ (∀ c, t_policy_reason_code t = Some c → in_u32 c).
End spec.

(** ** Reads of a keyed table *)

Section reads.
Context `{!FeltOps, !WireTypes, !WireOps, !SqliteText}.

Lemma lookup_by_nullifier_Some s n rec :
  lookup_by_nullifier None n s = Some rec →
  ∃ r, r ∈ nullifiers s ∧ n_nullifier r = to_hex n ∧ rec = row_to_record r.
Proof.
  unfold lookup_by_nullifier, query_row. intros (r & Hr & [= <-])%bind_Some.
  apply head_select_where in Hr as [Hr Hk%String.eqb_eq]. eauto.
Qed.

Lemma lookup_by_nullifier_row s r n :
  NoDup (map n_nullifier (nullifiers s)) → r ∈ nullifiers s → n_nullifier r = to_hex n →
  lookup_by_nullifier None n s = Some (row_to_record r).
Proof.
  intros Hnd Hr Hk. unfold lookup_by_nullifier, query_row.
  by rewrite (select_where_key n_nullifier (to_hex n) _ r).
Qed.

Lemma lookup_by_nullifier_None s n :
  lookup_by_nullifier None n s = None → ∀ r, r ∈ nullifiers s → n_nullifier r ≠ to_hex n.
Proof.
  unfold lookup_by_nullifier, query_row. intros Hn r Hr Hk%String.eqb_eq.
  destruct (head _) eqn:Hh; [done|]. by rewrite (head_select_where_None _ _ Hh r Hr) in Hk.
Qed.

Lemma str_to_status_to_str st : str_to_status (status_to_str st) = st.
Proof. by destruct st. Qed.

Lemma row_wf_status r : row_wf r → n_status r = status_to_str (str_to_status (n_status r)).
Proof. intros [(-> & _)|[(-> & _)|(-> & _)]]; done. Qed.

(** Rows in the state a record reports. *)
Lemma row_status_of_record r st : row_wf r → t_status (row_to_record r) = st → n_status r = status_to_str st.
Proof. intros Hwf <-. by apply row_wf_status. Qed.

Lemma abs_Some s k st :
  NoDup (map n_nullifier (nullifiers s)) →
  abs s !! k = Some st ↔ ∃ r, r ∈ nullifiers s ∧ n_nullifier r = k ∧ str_to_status (n_status r) = st.
Proof.
  intros Hnd. unfold abs. rewrite <- elem_of_list_to_map.
  - rewrite list_elem_of_fmap. split; [intros (r & [= -> ->] & Hr); eauto | intros (r & ? & <- & <-); eauto].
  - by rewrite <- list_fmap_compose.
Qed.

Lemma abs_None s k :
  NoDup (map n_nullifier (nullifiers s)) →
  abs s !! k = None ↔ k ∉ map n_nullifier (nullifiers s).
Proof.
  intros Hnd. rewrite eq_None_not_Some. split.
  - intros Hn (r & -> & Hr)%list_elem_of_fmap. apply Hn. eexists. apply abs_Some; eauto.
  - intros Hn [st (r & Hr & <- & _)%abs_Some]; [|done]. by apply Hn, list_elem_of_fmap_2.
Qed.

Lemma abs_insert row s s' :
  insert_nullifier row s = Ok s' → NoDup (map n_nullifier (nullifiers s)) →
  abs s' = <[n_nullifier row := str_to_status (n_status row)]> (abs s).
Proof.
  intros (Hs' & _ & Hni)%insert_nullifier_Ok Hnd. unfold abs. rewrite Hs', map_app. simpl.
  apply list_to_map_snoc. by rewrite <- list_fmap_compose.
Qed.

(** The INSERT of the model is the insertion of the specification. *)
Lemma insert_refines row s k st taken :
  NoDup (map n_nullifier (nullifiers s)) → n_nullifier row = k → str_to_status (n_status row) = st →
  ∃ r s', spec_insert k st taken (abs s) = (r, abs s') ∧
    match insert_nullifier row s with Ok s' => (Ok tt, s') | Err _ => (Err taken, s) end = (r, s').
Proof.
  intros Hnd <- <-. unfold spec_insert. destruct (insert_nullifier row s) as [s'|e] eqn:Hi.
  - pose proof Hi as (_ & _ & Hni)%insert_nullifier_Ok. apply abs_None in Hni; [|done].
    rewrite Hni. exists (Ok tt), s'. by rewrite (abs_insert _ _ _ Hi).
  - apply insert_nullifier_Err in Hi as (r & Hr & Hk).
    destruct (abs s !! _) eqn:Hn; [by eexists _, _|].
    apply abs_None in Hn; [|done]. destruct Hn. rewrite <- Hk. by apply list_elem_of_fmap_2.
Qed.

Lemma finalize_pred_abs s n r :
  store_wf s → r ∈ nullifiers s → n_nullifier r = to_hex n →
  finalize_pred (to_hex n) r = bool_decide (abs s !! to_hex n = Some Reserved).
Proof.
  intros Hwf Hr Hk. apply eq_true_iff_eq.
  rewrite bool_decide_eq_true, abs_Some by apply Hwf.
  unfold finalize_pred. rewrite andb_true_iff, !String.eqb_eq. split.
  - intros [_ Hst]. exists r. by rewrite Hst, str_to_status_to_str.
  - intros (r' & Hr' & Hk' & Hst). assert (r = r') as <-.
    { eapply (key_unique n_nullifier); [apply Hwf|done..|congruence]. }
    split; [done|]. rewrite <- Hst. by apply row_wf_status, Hwf.
Qed.

Lemma abs_finalize now n t s :
  store_wf s → abs s !! to_hex n = Some Reserved →
  abs {| nullifiers := (update_where (finalize_pred (to_hex n)) (finalized_row now t) (nullifiers s)).2;
         leases := leases s |} = <[to_hex n := Finalized]> (abs s).
Proof.
  intros Hwf Hn. apply map_eq. intros k. apply option_eq. intros st.
  rewrite abs_Some by (cbn [nullifiers]; rewrite update_where_key; [apply Hwf|done]).
  rewrite lookup_insert_Some, abs_Some by apply Hwf. split.
  - intros (r & Hr & <- & <-). apply update_where_rows_inv in Hr as (r0 & Hr0 & [[Hp ->]|[Hp ->]]).
    + left. apply andb_true_iff in Hp as [Hp%String.eqb_eq _]. done.
    + right. split; [|eauto]. intros Hk. rewrite (finalize_pred_abs s n r0) in Hp by auto.
      by rewrite bool_decide_eq_true_2 in Hp.
  - intros [[<- <-]|[Hk (r & Hr & <- & <-)]].
    + apply abs_Some in Hn as (r & Hr & Hk & Hst); [|apply Hwf].
      exists (finalized_row now t r). split; [|done].
      apply (update_where_rows_hit (finalize_pred _)); [done|].
      rewrite (finalize_pred_abs s n r) by auto. apply bool_decide_eq_true_2, abs_Some; [apply Hwf|eauto].
    + exists r. split; [|done]. apply (update_where_rows_keep (finalize_pred _)); [done|].
      apply andb_false_iff. left. apply String.eqb_neq. congruence.
Qed.

Lemma finalize_count n s t now :
  store_wf s →
  Nat.eqb (update_where (finalize_pred (to_hex n)) (finalized_row now t) (nullifiers s)).1 0
  = negb (bool_decide (abs s !! to_hex n = Some Reserved)).
Proof.
  intros Hwf. apply eq_true_iff_eq. rewrite negb_true_iff, bool_decide_eq_false, Nat.eqb_eq. split.
  - intros Hz Hn. pose proof Hn as (r & Hr & Hk & _)%abs_Some; [|apply Hwf].
    pose proof (update_where_count_zero _ _ _ Hz r Hr) as Hp.
    by rewrite (finalize_pred_abs s n r), bool_decide_eq_true_2 in Hp by auto.
  - intros Hn. rewrite update_where_none; [done|]. intros r Hr. apply not_true_iff_false. intros Hp.
    pose proof Hp as [Hk%String.eqb_eq _]%andb_true_iff.
    rewrite (finalize_pred_abs s n r), bool_decide_eq_true in Hp by auto. done.
Qed.

(** A clearance holds the nullifier. *)
Definition cleared (s : NullifierStore) (n : Felt252) : Prop :=
  ∃ rec, lookup_by_nullifier None n s = Some rec ∧ t_status rec = ClearanceReserved.
Lemma reserve_clearance_run fault now n s s' :
  store_wf s → run fault now (OpReserveClearance n) s = (Ok tt, s') →
  store_wf s' ∧ cleared s' n ∧ ∀ rec, lookup_by_nullifier None n s ≠ Some rec.
Proof.
  intros Hwf Hrun. pose proof (run_wf fault now (OpReserveClearance n) s Hwf) as Hwf'.
  rewrite Hrun in Hwf'. simpl in Hwf', Hrun. unfold reserve_clearance, with_conn in Hrun.
  destruct fault as [[]|]; [discriminate..|].
  destruct (insert_nullifier _ s) as [s1|e] eqn:Hi; [|discriminate]. injection Hrun as <-.
  apply insert_nullifier_Ok in Hi as (Hn & _ & Hni). split; [done|split].
  - eexists. split; [apply lookup_by_nullifier_row; [apply Hwf'|rewrite Hn; apply elem_of_app; right;
      by apply list_elem_of_singleton|done]|done].
  - intros rec (r & Hr & Hk & _)%lookup_by_nullifier_Some. apply Hni. simpl. rewrite <- Hk.
    by apply list_elem_of_fmap_2.
Qed.
End reads.

(** ** Rows over time *)

Section evolution.
Context `{!FeltOps, !WireTypes, !WireOps, !SqliteText}.

Lemma finalized_evolves r r' :
  row_evolves r r' → n_status r = status_to_str Finalized →
  r' = r ∨ ∃ b, n_api_request_binding r = None ∧ r' = bound_row b r.
Proof.
  induction 1 as [|r r1 r2 Hstep _ IH]; [by left|]. intros Hst.
  destruct Hstep as [b Hb|now t Hr]; [|by rewrite Hst in Hr].
  destruct (IH Hst) as [->|(b' & Hb' & ->)]; [by eauto | done].
Qed.

(** What no operation changes, and what only moves forward. *)
Record row_forward (r r' : NullifierRow) : Prop := {
  fwd_nullifier : n_nullifier r' = n_nullifier r;
  fwd_kind : n_reservation_kind r' = n_reservation_kind r;
  fwd_client : n_client_request_id r' = n_client_request_id r;
  fwd_payload : n_payload_hash r' = n_payload_hash r;
  fwd_created : n_created_at r' = n_created_at r;
  fwd_binding : n_api_request_binding r = None
                ∨ n_api_request_binding r' = n_api_request_binding r;
  fwd_status : n_status r' = n_status r
               ∨ (n_status r = status_to_str Reserved ∧ n_status r' = status_to_str Finalized);
}.

Lemma row_evolves_forward r r' : row_evolves r r' → row_forward r r'.
Proof.
  induction 1 as [|r r1 r2 Hstep _ [? ? ? ? ? Hb Hs]]; [split; auto|].
  destruct Hstep; simpl in *; split; simpl in *; auto; try congruence.
  right. split; [done|]. by destruct Hs as [?|[? _]].
Qed.

Lemma steps_row s s' r :
  store_steps s s' → r ∈ nullifiers s → ∃ r', r' ∈ nullifiers s' ∧ row_evolves r r'.
Proof.
  intros (l1 & l2 & -> & HF)%store_steps_table%table_steps_evolves Hr.
  destruct (Forall2_elem_l _ _ _ _ HF Hr) as (r' & ? & ?). exists r'. rewrite elem_of_app. auto.
Qed.

(** The first row of a client id stays its first row. *)
Lemma head_select_forward p l l' r :
  (∀ r r', row_forward r r' → p r' = p r) → table_evolves l l' →
  head (select_where p l) = Some r →
  ∃ r', head (select_where p l') = Some r' ∧ row_evolves r r'.
Proof.
  intros Hp (l1 & l2 & -> & HF) Hh.
  assert (∃ r', head (select_where p l1) = Some r' ∧ row_evolves r r') as (r' & Hr' & ?).
  { unfold select_where in *. induction HF as [|x y l l1 Hxy HF IH]; [done|].
    rewrite filter_cons in Hh |- *. pose proof (Hp _ _ (row_evolves_forward _ _ Hxy)) as Hpy.
    repeat case_decide; simpl in *; simplify_eq; try congruence; eauto. }
  exists r'. split; [by apply head_select_where_app | done].
Qed.
End evolution.

(** ** Leases over time *)

Section lease_evolution.
Context `{!FeltOps, !WireTypes, !WireOps, !SqliteText}.

(** Everything a lease with a key is bound to. *)
Record lease_fixed (o o' : LeaseRow) : Prop := {
  fix_id : o_client_request_id o' = o_client_request_id o;
  fix_nullifier : o_request_nullifier o' = o_request_nullifier o;
  fix_request : o_api_request_json o' = o_api_request_json o;
  fix_key_hash : o_key_hash o' = o_key_hash o;
  fix_source : o_key_source o' = o_key_source o;
  fix_issued : o_issued_at o' = o_issued_at o;
  fix_expires : o_expires_at o' = o_expires_at o;
  fix_settle : o_settle_after o' = o_settle_after o;
  fix_limit : o_spending_limit_usd o' = o_spending_limit_usd o;
  fix_status : o_status o' = o_status o
               ∨ (o_status o = "active"%string ∧ o_status o' = "finalized"%string);
}.

Lemma lease_fixed_refl o : lease_fixed o o.
Proof. split; auto. Qed.

Lemma lease_fixed_trans o1 o2 o3 : lease_fixed o1 o2 → lease_fixed o2 o3 → lease_fixed o1 o3.
Proof.
  intros [? ? ? ? ? ? ? ? ? Hs] [? ? ? ? ? ? ? ? ? Hs']. split; try congruence.
  destruct Hs as [Hs|[??]], Hs' as [Hs'|[??]]; rewrite ?Hs in *; auto; right; split; congruence.
Qed.

(** A lease with a key is past provisioning. *)
Lemma keyed_lease_status o h :
  lease_wf o → o_key_hash o = Some h → o_status o = "active"%string ∨ o_status o = "finalized"%string.
Proof. intros [(_ & Hk & _)|[[? _]|[? _]]] Hh; [congruence|auto|auto]. Qed.

Lemma keyed_lease_not_provisioning cid o h :
  lease_wf o → o_key_hash o = Some h → lease_in cid "provisioning" o = false.
Proof.
  intros Hwf Hh. apply andb_false_iff. right.
  by destruct (keyed_lease_status o h Hwf Hh) as [->| ->].
Qed.

Lemma lease_step_fixed l l' o h :
  lease_table_step l l' → o ∈ l → lease_wf o → o_key_hash o = Some h →
  ∃ o', o' ∈ l' ∧ lease_fixed o o'.
Proof.
  intros Hl Ho Hwf Hh.
  assert (∀ cid f, ∃ o', o' ∈ (update_where (lease_in cid "provisioning") f l).2 ∧ lease_fixed o o') as Hkeep.
  { intros cid f. exists o. split; [|apply lease_fixed_refl].
    apply (update_where_rows_keep (lease_in cid "provisioning")); [done|].
    by eapply keyed_lease_not_provisioning. }
  destruct Hl as [o' _ _ _ _ _|now cid k Hk|now cid e a|now cid e|now cid u c|cid]; auto.
  - exists o. split; [|apply lease_fixed_refl]. apply elem_of_app. by left.
  - eexists. split; [by apply (update_where_rows_intro (lease_in cid "active"))|].
    destruct (lease_in cid "active" o); split; auto.
  - eexists. split; [by apply (update_where_rows_intro (λ r, String.eqb (o_client_request_id r) cid))|].
    destruct (String.eqb _ _); [|apply lease_fixed_refl]. split; auto. simpl.
    destruct (keyed_lease_status o h Hwf Hh) as [?|Hs]; [by auto | by left; rewrite Hs].
  - exists o. split; [|apply lease_fixed_refl]. apply elem_of_delete_where. split; [done|].
    unfold removable. rewrite Hh. by rewrite (keyed_lease_not_provisioning cid o h).
Qed.

Lemma steps_lease_fixed s s' o h :
  store_wf s → store_steps s s' → o ∈ leases s → o_key_hash o = Some h →
  ∃ o', o' ∈ leases s' ∧ lease_fixed o o'.
Proof.
  intros Hwf Hsteps. revert o. induction Hsteps as [s|s1 s2 s3 (fault & now & op & <-) _ IH];
    intros o Ho Hh; [exists o; split; [done|apply lease_fixed_refl]|].
  assert (∃ o', o' ∈ leases (run fault now op s1).2 ∧ lease_fixed o o') as (o' & Ho' & Hf).
  { destruct (run_leases fault now op s1) as [->|Hl]; [exists o; split; [done|apply lease_fixed_refl]|].
    eapply lease_step_fixed; [done|done|by apply Hwf|done]. }
  destruct (IH (run_wf fault now op s1 Hwf) o' Ho') as (o'' & Ho'' & Hf').
  { by rewrite (fix_key_hash _ _ Hf). }
  exists o''. split; [done|]. by eapply lease_fixed_trans.
Qed.

Lemma lookup_lease_Some s cid rec :
  lookup_openrouter_lease None cid s = Some rec →
  ∃ o, o ∈ leases s ∧ o_client_request_id o = cid ∧ row_to_openrouter_lease o = Some rec.
Proof.
  unfold lookup_openrouter_lease, query_row. intros (o & Ho & Hrec)%bind_Some.
  apply head_select_where in Ho as [Ho Hk%String.eqb_eq]. eauto.
Qed.

Lemma lookup_lease_row s cid o :
  NoDup (map o_client_request_id (leases s)) → o ∈ leases s → o_client_request_id o = cid →
  lookup_openrouter_lease None cid s = row_to_openrouter_lease o.
Proof.
  intros Hnd Ho Hk. unfold lookup_openrouter_lease, query_row.
  by rewrite (select_where_key o_client_request_id cid _ o).
Qed.

Lemma row_to_lease_inv o rec :
  row_to_openrouter_lease o = Some rec →
  l_client_request_id rec = o_client_request_id o ∧ l_key_hash rec = o_key_hash o
  ∧ l_status rec = o_status o ∧ l_settle_after rec = cast_u64 (o_settle_after o).
Proof. by intros (req & _ & [= <-])%bind_Some. Qed.
End lease_evolution.

(** ** The binding migration *)

Section backfill.
Context `{!FeltOps, !WireTypes, !WireOps, !SqliteText}.

(** The lease [o] authenticates the reservation [r]: a decodable request whose
    id and nullifier are the lease's, and the reservation's columns. *)
Definition lease_request (o : LeaseRow) (req : ApiRequestV2) : Prop :=
  request_from_json (o_api_request_json o) = Ok req
  ∧ client_request_id req = o_client_request_id o
  ∧ to_hex (request_nullifier (public_inputs req)) = o_request_nullifier o.

Definition reservation_of (req : ApiRequestV2) (r : NullifierRow) : Prop :=
  n_nullifier r = to_hex (request_nullifier (public_inputs req))
  ∧ n_client_request_id r = Some (client_request_id req)
  ∧ n_payload_hash r = Some (to_hex (payload_hash req))
  ∧ n_reservation_kind r = "openrouter_lease"%string.

Definition backfilled (os : list LeaseRow) (r r' : NullifierRow) : Prop :=
  r' = r ∨ ∃ o req b, o ∈ os ∧ lease_request o req ∧ api_request_binding req = Ok b
                      ∧ reservation_of req r ∧ n_api_request_binding r = None ∧ r' = bound_row b r.

Lemma backfill_pred_spec req r :
  backfill_pred (to_hex (request_nullifier (public_inputs req))) (client_request_id req)
    (to_hex (payload_hash req)) r = true
  ↔ reservation_of req r ∧ n_api_request_binding r = None.
Proof.
  unfold backfill_pred, reservation_of.
  rewrite !andb_true_iff, !bool_decide_eq_true, !String.eqb_eq. tauto.
Qed.

(** An iteration either skips the lease or runs its UPDATE. *)
Lemma backfill_lease_Ok uf o l l' :
  backfill_lease uf o l = Ok l' →
  (l' = l ∧ ∀ req, ¬ lease_request o req)
  ∨ ∃ req b, lease_request o req ∧ api_request_binding req = Ok b
      ∧ l' = (update_where (backfill_pred (to_hex (request_nullifier (public_inputs req)))
                 (client_request_id req) (to_hex (payload_hash req))) (bound_row b) l).2.
Proof.
  unfold backfill_lease, lease_request. intros Hb.
  destruct (request_from_json _) as [req|]; [|left; split; [by simplify_eq|by intros ? [? _]]].
  destruct (_ || _) eqn:Hg.
  - left. split; [by simplify_eq|]. intros req' (Heq & Hc & Hn). injection Heq as <-.
    rewrite Hc, Hn, !String.eqb_refl in Hg. done.
  - apply orb_false_iff in Hg as [Hc%negb_false_iff%String.eqb_eq Hn%negb_false_iff%String.eqb_eq].
    apply bind_Ok in Hb as (b & Hbind & Hb). destruct uf; [done|]. injection Hb as <-.
    right. exists req, b. rewrite Hc, Hn. auto.
Qed.

Lemma update_where_Forall2 {A} (R : relation A) p f l :
  Reflexive R → (∀ r, p r = true → R r (f r)) → Forall2 R l (update_where p f l).2.
Proof.
  intros HR Hf. simpl. induction l as [|r l IH]; constructor; [|done].
  destruct (p r) eqn:Hp; [by apply Hf | done].
Qed.

Lemma backfill_lease_rows uf o os l l' :
  backfill_lease uf o l = Ok l' → o ∈ os → Forall2 (backfilled os) l l'.
Proof.
  intros [[-> _]|(req & b & Hreq & Hb & ->)]%backfill_lease_Ok Ho.
  - apply Forall2_refl. by intros r; left.
  - apply update_where_Forall2; [by intros r; left|].
    intros r [? ?]%backfill_pred_spec. right. exists o, req, b. auto 10.
Qed.

Lemma backfilled_trans os r1 r2 r3 : backfilled os r1 r2 → backfilled os r2 r3 → backfilled os r1 r3.
Proof.
  intros [->|(o & req & b & ? & ? & ? & ? & ? & ->)] Hr; [done|].
  destruct Hr as [->|(? & ? & ? & _ & _ & _ & _ & Hn & _)]; [|done].
  right. exists o, req, b. auto 10.
Qed.

Lemma backfill_loop_rows ufs os os' l :
  (∀ o, o ∈ os' → o ∈ os) → Forall2 (backfilled os) l (backfill_loop ufs os' l).2.
Proof.
  revert ufs l. induction os' as [|o os' IH]; intros ufs l Hin; simpl;
    [apply Forall2_refl; by intros r; left|].
  destruct (backfill_lease _ o l) as [l'|e] eqn:Hb;
    [|apply Forall2_refl; by intros r; left].
  eapply Forall2_compose; [apply backfilled_trans|eapply backfill_lease_rows; [done|apply Hin; by left]|].
  apply IH. intros o' Ho'. apply Hin. by right.
Qed.

(** No reservation the lease authenticates is left unbound. *)
Definition bound_for (o : LeaseRow) (l : list NullifierRow) : Prop :=
  ∀ req r, lease_request o req → r ∈ l → reservation_of req r → n_api_request_binding r ≠ None.

Lemma bound_for_update o p b l : bound_for o l → bound_for o (update_where p (bound_row b) l).2.
Proof.
  intros Hl req r Hreq Hr Hres.
  apply update_where_rows_inv in Hr as (r0 & Hr0 & [[_ ->]|[_ ->]]); [done|]. by eapply Hl.
Qed.

Lemma backfill_lease_bound uf o l l' : backfill_lease uf o l = Ok l' → bound_for o l'.
Proof.
  intros [[-> Hno]|(req & b & Hreq & Hb & ->)]%backfill_lease_Ok req' r Hreq' Hr Hres; [by destruct (Hno req')|].
  assert (req' = req) as -> by (destruct Hreq as [Hr1 _], Hreq' as [Hr2 _]; congruence).
  apply update_where_rows_inv in Hr as (r0 & Hr0 & [[_ ->]|[Hp ->]]); [done|].
  intros Hn. apply not_true_iff_false in Hp. apply Hp. by apply backfill_pred_spec.
Qed.

Lemma backfill_lease_bound_other uf o o' l l' :
  backfill_lease uf o l = Ok l' → bound_for o' l → bound_for o' l'.
Proof.
  intros [[-> _]|(req & b & _ & _ & ->)]%backfill_lease_Ok Hl; [done|]. by apply bound_for_update.
Qed.

Lemma backfill_loop_bound_other o' ufs os l l' :
  backfill_loop ufs os l = (Ok tt, l') → bound_for o' l → bound_for o' l'.
Proof.
  revert ufs l. induction os as [|o os IH]; intros ufs l; simpl; [by intros [= ->]|].
  destruct (backfill_lease _ o l) as [l1|e] eqn:Hb; [|done]. intros Hl Hbf.
  eapply IH; [exact Hl|]. by eapply backfill_lease_bound_other.
Qed.

Lemma backfill_loop_bound ufs os l l' o :
  backfill_loop ufs os l = (Ok tt, l') → o ∈ os → bound_for o l'.
Proof.
  revert ufs l. induction os as [|o1 os IH]; intros ufs l; simpl;
    [by intros _ ?%not_elem_of_nil|].
  destruct (backfill_lease _ o1 l) as [l1|e] eqn:Hb; [|done].
  intros Hl [->|Ho]%elem_of_cons; [|by eapply IH].
  eapply backfill_loop_bound_other; [exact Hl|]. by eapply backfill_lease_bound.
Qed.

(** Re-running an iteration on a table it left nothing to do on. *)
Lemma backfill_lease_again uf o l l' l2 :
  backfill_lease uf o l = Ok l' → bound_for o l2 → backfill_lease None o l2 = Ok l2.
Proof.
  unfold backfill_lease. intros Hb Hbf. unfold bound_for, lease_request in Hbf.
  destruct (request_from_json _) as [req|]; [|done]. destruct (_ || _) eqn:Hg; [done|].
  apply orb_false_iff in Hg as [Hc%negb_false_iff%String.eqb_eq Hn%negb_false_iff%String.eqb_eq].
  apply bind_Ok in Hb as (b & -> & _). simpl. f_equal.
  change (map _ l2) with (update_where (backfill_pred (o_request_nullifier o) (o_client_request_id o)
    (to_hex (payload_hash req))) (bound_row b) l2).2.
  rewrite update_where_none; [done|]. intros r Hr. apply not_true_iff_false.
  rewrite <- Hc, <- Hn. intros [Hres Hnone]%backfill_pred_spec.
  by apply (Hbf req r).
Qed.

Lemma backfill_loop_again ufs os l l' l2 :
  backfill_loop ufs os l = (Ok tt, l') → (∀ o, o ∈ os → bound_for o l2) →
  backfill_loop [] os l2 = (Ok tt, l2).
Proof.
  revert ufs l. induction os as [|o os IH]; intros ufs l; simpl; [done|].
  destruct (backfill_lease _ o l) as [l1|e] eqn:Hb; [|done]. intros Hl Hbf.
  rewrite (backfill_lease_again _ _ _ _ l2 Hb) by (apply Hbf; by left).
  eapply IH; [exact Hl|]. intros o' Ho'. apply Hbf. by right.
Qed.
End backfill.

(** ** The theorems *)

Section theorems.
Context `{!FeltOps, !WireTypes, !WireOps, !SqliteText}.

(** C33: with a working database the store implements the nullifier state
    machine: every reservation, clearance and finalization returns exactly
    what the specification returns on the abstract map of statuses, and leaves
    the abstract map it leaves. *)
Theorem store_refines_state_machine now op s r m :
  store_wf s → spec_run op (abs s) = Some (r, m) →
  (run None now op s).1 = r ∧ abs (run None now op s).2 = m.
Proof.
  intros Hwf Hspec. pose proof (wf_keyed s Hwf) as Hnd.
  assert (∀ row k st taken, n_nullifier row = k → str_to_status (n_status row) = st →
    spec_insert k st taken (abs s) = (r, m) →
    let out := match insert_nullifier row s with Ok s' => (Ok tt, s') | Err _ => (Err taken, s) end in
    out.1 = r ∧ abs out.2 = m) as Hins.
  { intros row k st taken Hk Hst Hi out.
    destruct (insert_refines row s k st taken Hnd Hk Hst) as (r' & s' & Hs & Ho).
    unfold out. rewrite Ho. rewrite Hs in Hi. by simplify_eq. }
  destruct op; cbn [run spec_run] in *; simplify_eq.
  - by eapply Hins.
  - unfold spec_reserve_bound in *. unfold reserve_v2, reserve_bound_v2.
    destruct (api_request_binding _); [by eapply Hins | by simplify_eq].
  - unfold spec_reserve_bound in *. unfold reserve_openrouter_lease, reserve_bound_v2.
    destruct (api_request_binding _); [by eapply Hins | by simplify_eq].
  - unfold finalize, with_conn.
    pose proof (finalize_count nullifier s transcript now Hwf) as Hc.
    destruct (update_where _ _ _) as [rows l] eqn:Hu. simpl in Hc. rewrite Hc.
    pose proof (f_equal snd Hu) as Hl. cbn [snd] in Hl. subst l. clear Hu Hc.
    case_decide as Hd; simplify_eq.
    + rewrite bool_decide_eq_true_2 by done. cbn [negb fst snd]. split; [done|]. by apply abs_finalize.
    + rewrite bool_decide_eq_false_2 by done. cbn [negb fst snd]. split; [done|].
      rewrite update_where_none; [by destruct s|]. intros r Hr. apply not_true_iff_false. intros Hp.
      pose proof Hp as [Hk%String.eqb_eq _]%andb_true_iff.
      by rewrite (finalize_pred_abs s nullifier r), bool_decide_eq_true in Hp by auto.
  - by eapply Hins.
Qed.

Lemma store_steps_wf s s' : store_wf s → store_steps s s' → store_wf s'.
Proof.
  intros Hwf Hsteps. induction Hsteps as [|s1 s2 s3 (fault & now & op & <-) _ IH]; [done|].
  apply IH. by apply run_wf.
Qed.

(** C34: the tables are well formed in every store reachable from an empty
    database by operations at any times and with any database faults: nullifiers, lease ids, lease nullifiers and key
    hashes are unique, every row has the columns of its state. *)
Theorem store_wf_reachable s : store_steps empty_store s → store_wf s.
Proof. apply store_steps_wf, empty_store_wf. Qed.

(** a finalized transcript is immutable: after any operations whatever the
    lookup returns the same record, every column equal, except that the
    binding migration may fill in a binding that was missing. *)
Theorem finalized_immutable s s' n rec :
  store_wf s → store_steps s s' →
  lookup_by_nullifier None n s = Some rec → t_status rec = Finalized →
  ∃ b, lookup_by_nullifier None n s' = Some (with_binding b rec)
       ∧ (t_api_request_binding rec ≠ None → b = t_api_request_binding rec).
Proof.
  intros Hwf Hsteps (r & Hr & Hk & ->)%lookup_by_nullifier_Some Hst.
  apply row_status_of_record in Hst; [|by apply Hwf].
  destruct (steps_row _ _ _ Hsteps Hr) as (r' & Hr' & Hev).
  pose proof (store_steps_wf _ _ Hwf Hsteps) as Hwf'.
  assert (lookup_by_nullifier None n s' = Some (row_to_record r')) as ->.
  { apply lookup_by_nullifier_row; [apply Hwf'|done|].
    rewrite (fwd_nullifier _ _ (row_evolves_forward _ _ Hev)). done. }
  destruct (finalized_evolves _ _ Hev Hst) as [->|(b & Hb & ->)].
  - exists (n_api_request_binding r). by split.
  - exists (Some b). split; [done|]. simpl. by rewrite Hb.
Qed.

(** recovery by client request id is stable: the record a client id finds
    first stays the one it finds first, with the same nullifier, payload hash,
    kind and creation time; its status never goes back. *)
Theorem client_id_recovery_stable s s' cid rec :
  store_wf s → store_steps s s' → lookup_by_client_id None cid s = Some rec →
  ∃ rec', lookup_by_client_id None cid s' = Some rec'
    ∧ t_nullifier rec' = t_nullifier rec ∧ t_payload_hash rec' = t_payload_hash rec
    ∧ t_reservation_kind rec' = t_reservation_kind rec ∧ t_created_at rec' = t_created_at rec
    ∧ t_client_request_id rec' = Some cid
    ∧ (t_status rec' = t_status rec ∨ (t_status rec = Reserved ∧ t_status rec' = Finalized)).
Proof.
  intros Hwf Hsteps Hl. unfold lookup_by_client_id, query_row in *.
  apply bind_Some in Hl as (r & Hr & [= <-]).
  destruct (head_select_forward (λ r, bool_decide (n_client_request_id r = Some cid))
    (nullifiers s) (nullifiers s') r) as (r' & Hr' & Hev); [..|done|].
  { intros x y [? ? Hc ? ? ? ?]. by rewrite Hc. }
  { by apply table_steps_evolves, store_steps_table. }
  exists (row_to_record r'). rewrite Hr'. split; [done|].
  apply head_select_where in Hr' as [_ Hcid%bool_decide_eq_true].
  destruct (row_evolves_forward _ _ Hev) as [Hn Hk Hc Hp Ht _ Hs]. simpl.
  rewrite Hn, Hk, Hp, Ht. repeat split; [done|]. destruct Hs as [->|[-> ->]]; auto.
Qed.

Lemma parse_opt_felt_to_hex `{!FeltLaws} x : parse_opt_felt (to_hex <$> x) = x.
Proof. destruct x as [x|]; [|done]. unfold parse_opt_felt. simpl. by rewrite from_hex_to_hex. Qed.

Lemma fmap_roundtrip (f g : Z → Z) (P : Z → Prop) o :
  (∀ c, P c → g (f c) = c) → (∀ c, o = Some c → P c) → g <$> (f <$> o) = o.
Proof. intros Hgf Ho. destruct o as [c|]; [|done]. simpl. by rewrite Hgf by auto. Qed.

Lemma sig_json_roundtrip `{!WireLaws} t :
  (sig_json t ≫= λ json, ok (sig_from_json json)) = t_next_state_sig t.
Proof.
  unfold sig_json. destruct (t_next_state_sig t) as [σ|]; [|done].
  destruct (sig_roundtrip σ) as (js & Hto & Hfrom). simpl. by rewrite Hto; simpl; rewrite Hfrom.
Qed.

Lemma finalized_row_record `{!FeltLaws, !WireLaws} now t r :
  storable t → in_u64 now →
  row_to_record (finalized_row now t r) = stored_transcript now (row_to_record r) t.
Proof.
  intros (Hc & Hr & He & Hp) Hnow. unfold row_to_record, stored_transcript. cbn -[parse_opt_felt fmap mbind cast_u64 cast_i64 cast_u128 cast_u16 cast_u32 cast_i32 sig_json].
  rewrite !parse_opt_felt_to_hex, sig_json_roundtrip.
  change (cast_u64 <$> Some (cast_i64 now)) with (Some (cast_u64 (cast_i64 now))).
  rewrite (u64_i64_roundtrip now) by done.
  rewrite (fmap_roundtrip cast_i64 cast_u128 _ _ u128_i64_roundtrip Hc).
  rewrite (fmap_roundtrip cast_i32 cast_u16 _ _ u16_i32_roundtrip Hr).
  rewrite (fmap_roundtrip cast_i32 cast_u32 _ _ u32_i32_roundtrip He).
  by rewrite (fmap_roundtrip cast_i32 cast_u32 _ _ u32_i32_roundtrip Hp).
Qed.

(** The UPDATE of [finalize] on a reserved row. *)
Lemma finalize_reserved_row now n t s r :
  store_wf s → r ∈ nullifiers s → n_nullifier r = to_hex n → n_status r = status_to_str Reserved →
  ∃ s', finalize None now n t s = (Ok tt, s')
    ∧ lookup_by_nullifier None n s' = Some (row_to_record (finalized_row now t r)).
Proof.
  intros Hwf Hr Hk Hst. assert (finalize_pred (to_hex n) r = true) as Hp.
  { unfold finalize_pred. rewrite Hk, Hst. by rewrite !String.eqb_refl. }
  exists {| nullifiers := (update_where (finalize_pred (to_hex n)) (finalized_row now t) (nullifiers s)).2;
            leases := leases s |}.
  unfold finalize, with_conn. destruct (update_where _ _ _) as [rows l] eqn:Hu.
  pose proof (update_where_count_pos _ (finalized_row now t) _ _ Hr Hp) as Hrows.
  pose proof (update_where_rows_hit _ (finalized_row now t) _ _ Hr Hp) as Hin.
  assert (NoDup (map n_nullifier l)) as Hnd.
  { apply (f_equal snd) in Hu. cbn [snd] in Hu. rewrite <- Hu, update_where_key; [apply Hwf|done]. }
  rewrite Hu in Hrows, Hin. cbn [fst snd] in *.
  destruct (Nat.eqb_spec rows 0) as [->|_]; [done|]. split; [done|].
  by rewrite (lookup_by_nullifier_row _ (finalized_row now t r)).
Qed.

(** [finalize] succeeds only on a reserved row. *)
Lemma finalize_Ok_reserved fault now n t s s' :
  finalize fault now n t s = (Ok tt, s') →
  fault = None ∧ ∃ r, r ∈ nullifiers s ∧ n_nullifier r = to_hex n ∧ n_status r = status_to_str Reserved.
Proof.
  unfold finalize, with_conn. destruct fault as [[]|]; [discriminate..|].
  destruct (select_where (finalize_pred (to_hex n)) (nullifiers s)) as [|r l] eqn:Hsel.
  - rewrite update_where_none; [discriminate|]. intros r Hr. apply not_true_iff_false. intros Hp.
    assert (r ∈ select_where (finalize_pred (to_hex n)) (nullifiers s)) as Hin
      by by apply elem_of_select_where.
    rewrite Hsel in Hin. by apply not_elem_of_nil in Hin.
  - intros _. split; [done|]. exists r.
    assert (r ∈ select_where (finalize_pred (to_hex n)) (nullifiers s)) as [Hr Hp]%elem_of_select_where
      by (rewrite Hsel; by left).
    apply andb_true_iff in Hp as [Hk%String.eqb_eq Hst%String.eqb_eq]. done.
Qed.

(** a finalized transcript reads back exactly: finalizing a reserved
    nullifier succeeds, and the lookup then returns every column of the
    transcript unchanged, together with the reservation's own identity columns
    and the finalization time. *)
Theorem finalize_lookup_roundtrip `{!FeltLaws, !WireLaws} now n t s old :
  store_wf s → lookup_by_nullifier None n s = Some old → t_status old = Reserved →
  storable t → in_u64 now →
  ∃ s', finalize None now n t s = (Ok tt, s')
    ∧ lookup_by_nullifier None n s' = Some (stored_transcript now old t).
Proof.
  intros Hwf (r & Hr & Hk & ->)%lookup_by_nullifier_Some Hst Ht Hnow.
  apply row_status_of_record in Hst; [|by apply Hwf].
  destruct (finalize_reserved_row now n t s r) as (s' & Hf & Hl); [done..|].
  exists s'. by rewrite Hl, finalized_row_record.
Qed.

(** C35: the charge column: a [u128] charge written as [i64] and read back is
    the same charge exactly when it is below 2^63 or within 2^63 of 2^128. *)
Theorem charge_column_exact_iff t c r now :
  t_charge_applied t = Some c → in_u128 c →
  t_charge_applied (row_to_record (finalized_row now t r)) = Some c
  ↔ (c < 2 ^ 63 ∨ 2 ^ 128 - 2 ^ 63 ≤ c)%Z.
Proof.
  intros Ht Hc. cbn. rewrite Ht. cbn -[cast_u128 cast_i64].
  rewrite <- u128_i64_roundtrip_iff by done.
  split; [by intros [= ->] | by intros ->].
Qed.

(** a lease whose key was issued is never lost, re-keyed or re-budgeted:
    whatever operations follow, its lookup still answers, with the same bound
    request, key hash, source, issue time, deadlines and spending limit, and
    its status is the same or has gone from active to finalized. *)
Theorem issued_lease_persists s s' cid rec h :
  store_wf s → store_steps s s' →
  lookup_openrouter_lease None cid s = Some rec → l_key_hash rec = Some h →
  ∃ rec', lookup_openrouter_lease None cid s' = Some rec'
    ∧ l_api_request rec' = l_api_request rec ∧ l_request_nullifier rec' = l_request_nullifier rec
    ∧ l_key_hash rec' = Some h ∧ l_key_source rec' = l_key_source rec
    ∧ l_issued_at rec' = l_issued_at rec ∧ l_expires_at rec' = l_expires_at rec
    ∧ l_settle_after rec' = l_settle_after rec
    ∧ l_spending_limit_usd rec' = l_spending_limit_usd rec
    ∧ (l_status rec' = l_status rec
       ∨ (l_status rec = "active"%string ∧ l_status rec' = "finalized"%string)).
Proof.
  intros Hwf Hsteps (o & Ho & Hcid & Hrec)%lookup_lease_Some Hh.
  pose proof (row_to_lease_inv _ _ Hrec) as (_ & Hk & _). rewrite Hk in Hh.
  destruct (steps_lease_fixed _ _ _ _ Hwf Hsteps Ho Hh) as (o' & Ho' & [Hi Hn Hj Hkh Hs He Hx Ha Hl Hst]).
  pose proof (store_steps_wf _ _ Hwf Hsteps) as Hwf'.
  rewrite (lookup_lease_row s' cid o'); [|apply Hwf'|done|congruence].
  unfold row_to_openrouter_lease in *. rewrite Hj, Hn, Hkh, Hs, He, Hx, Ha, Hl.
  apply bind_Some in Hrec as (req & Hreq & [= <-]). rewrite Hreq. simpl.
  eexists. split; [reflexivity|]. by repeat split.
Qed.

#[local] Instance settle_after_le_total : Total settle_after_le.
Proof. intros x y. unfold settle_after_le. lia. Qed.
#[local] Instance settle_after_le_trans : Transitive settle_after_le.
Proof. intros x y z. unfold settle_after_le. lia. Qed.

Lemma omap_sorted {A B} (R : relation A) (Q : relation B) (f : A → option B) l :
  (∀ x y x' y', R x y → x ∈ l → y ∈ l → f x = Some x' → f y = Some y' → Q x' y') →
  StronglySorted R l → StronglySorted Q (omap f l).
Proof.
  intros HQ Hl. induction Hl as [|x l Hl IH Hx]; simpl; [constructor|].
  assert (StronglySorted Q (omap f l)) as Hs.
  { apply IH. intros ????????. eapply HQ; eauto; by right. }
  destruct (f x) as [x'|] eqn:Hfx; [|done]. constructor; [done|].
  apply Forall_forall. intros y' (y & Hy & Hfy)%list_elem_of_omap.
  eapply HQ; [by eapply (proj1 (Forall_forall _ _) Hx)|by left|by right|done..].
Qed.

(** the settlement scan: on a working database it returns exactly the
    decodable active leases whose deadline has passed, each once, in deadline
    order. *)
Theorem due_leases_spec now s :
  in_u64 now → (now < 2 ^ 63)%Z → (∀ o, o ∈ leases s → (0 ≤ o_settle_after o < 2 ^ 63)%Z) →
  (due_openrouter_leases None now s
     ≡ₚ omap row_to_openrouter_lease (select_where (due now) (leases s)))
  ∧ (∀ o, o ∈ leases s → due now o = true ↔
       o_status o = "active"%string ∧ (cast_u64 (o_settle_after o) ≤ now)%Z)
  ∧ StronglySorted (λ a b, (l_settle_after a ≤ l_settle_after b)%Z) (due_openrouter_leases None now s).
Proof.
  intros Hnow Hlt Hset. unfold in_u64 in Hnow.
  assert (∀ o, o ∈ leases s → cast_u64 (o_settle_after o) = o_settle_after o) as Hcast.
  { intros o Ho%Hset. apply as_unsigned_small. lia. }
  split; [|split].
  - unfold due_openrouter_leases. by rewrite merge_sort_Permutation.
  - intros o Ho. unfold due. rewrite andb_true_iff, String.eqb_eq, Z.leb_le, Hcast by done.
    unfold cast_i64. by rewrite as_signed_small by lia.
  - apply (omap_sorted settle_after_le).
    + intros x y x' y' Hxy Hx Hy (_ & _ & _ & ->)%row_to_lease_inv (_ & _ & _ & ->)%row_to_lease_inv.
      rewrite merge_sort_Permutation, elem_of_select_where in Hx, Hy.
      destruct Hx, Hy. by rewrite !Hcast.
    + apply (StronglySorted_merge_sort settle_after_le).
Qed.

(** the binding migration changes a row only by binding an unbound lease
    reservation to the digest of a request a stored lease holds for exactly
    that nullifier, client id and payload hash; when it succeeds no such
    reservation is left unbound, and running it again changes nothing. *)
Theorem backfill_binds_and_is_idempotent ufs s res s' :
  backfill_openrouter_request_bindings None ufs s = (res, s') →
  leases s' = leases s
  ∧ Forall2 (backfilled (leases s)) (nullifiers s) (nullifiers s')
  ∧ (res = Ok tt → (∀ o, o ∈ leases s → bound_for o (nullifiers s'))
       ∧ backfill_openrouter_request_bindings None [] s' = (Ok tt, s')).
Proof.
  unfold backfill_openrouter_request_bindings.
  destruct (backfill_loop ufs _ _) as [r l] eqn:Hloop. intros [= <- <-]. simpl.
  split; [done|]. split.
  - pose proof (backfill_loop_rows ufs (leases s) (leases s) (nullifiers s) (λ _ H, H)) as Hrows.
    by rewrite Hloop in Hrows.
  - intros ->. assert (∀ o, o ∈ leases s → bound_for o l) as Hbf
      by (intros o; by eapply backfill_loop_bound).
    split; [done|]. by rewrite (backfill_loop_again _ _ _ _ l Hloop).
Qed.
End theorems.

(** ** Witnesses *)

Definition reserved_store : NullifierStore := (run None 1000 (OpReserveV2 (toy_request "n1")) empty_store).2.
Definition finalized_store : NullifierStore :=
  (run None 1001 (OpFinalize ("n1" : @Felt252 toy_felt) (toy_transcript "n1")) reserved_store).2.
Definition lease_store : NullifierStore :=
  (run None 1001 (OpActivateLease "req-1" "hash-1")
    (run None 1000 (OpCreateLease (toy_request "n1") "openrouter" 1000 2000 2060 (f64_of_Z 5))
      (run None 1000 (OpReserveLease (toy_request "n1")) empty_store).2).2).2.

Lemma reachable_wf (ops : list (Z * StoreOp)) :
  store_wf (fold_left (λ s '(now, op), (run None now op s).2) ops empty_store).
Proof.
  assert (∀ s, store_wf s → store_wf (fold_left (λ s '(now, op), (run None now op s).2) ops s)) as H;
    [|apply H, empty_store_wf].
  induction ops as [|[now op] ops IH]; intros s Hs; simpl; [done|]. by apply IH, run_wf.
Qed.
Lemma finalized_store_wf : store_wf finalized_store.
Proof.
  apply (reachable_wf [(1000, OpReserveV2 (toy_request "n1"));
    (1001, OpFinalize ("n1" : @Felt252 toy_felt) (toy_transcript "n1"))]%Z).
Qed.
Lemma lease_store_wf : store_wf lease_store.
Proof.
  apply (reachable_wf [(1000, OpReserveLease (toy_request "n1"));
    (1000, OpCreateLease (toy_request "n1") "openrouter" 1000 2000 2060 (f64_of_Z 5));
    (1001, OpActivateLease "req-1" "hash-1")]%Z).
Qed.
Lemma one_step s fault now op : store_steps s (run fault now op s).2.
Proof. apply rtc_once. by exists fault, now, op. Qed.

Lemma store_refines_state_machine_witness :
  (run None 1001 (OpReserveV2 (toy_request "n1")) reserved_store).1 = Err Replay
  ∧ abs (run None 1001 (OpReserveV2 (toy_request "n1")) reserved_store).2 = {["n1"%string := Reserved]}.
Proof.
  apply (store_refines_state_machine 1001 (OpReserveV2 (toy_request "n1")) reserved_store).
  - apply (reachable_wf [(1000, OpReserveV2 (toy_request "n1"))]%Z).
  - vm_compute. reflexivity.
Defined.

Lemma store_wf_reachable_witness : store_wf reserved_store.
Proof. apply (store_wf_reachable reserved_store). apply one_step. Defined.

Lemma finalized_immutable_witness :
  ∃ b, lookup_by_nullifier None ("n1" : @Felt252 toy_felt)
         (run None 1002 (OpFinalize ("n1" : @Felt252 toy_felt) (toy_transcript "n2")) finalized_store).2
       = Some (with_binding b (stored_transcript 1001
                 (row_to_record (new_row "n1" "Reserved" "proxy" (Some "req-1") (Some "hhello") b 1000))
                 (toy_transcript "n1")))%string
       ∧ (Some "x"%string ≠ None → b = b).
Proof.
  destruct (finalized_immutable finalized_store
    (run None 1002 (OpFinalize ("n1" : @Felt252 toy_felt) (toy_transcript "n2")) finalized_store).2
    ("n1" : @Felt252 toy_felt) (default (toy_transcript "n1") (lookup_by_nullifier None ("n1" : @Felt252 toy_felt) finalized_store)))
    as (b & Hb & Hsame).
  - apply finalized_store_wf.
  - apply one_step.
  - vm_compute. reflexivity.
  - vm_compute. reflexivity.
  - exists b. split; [|done]. rewrite Hb.
    rewrite Hsame by (vm_compute; discriminate). vm_compute. reflexivity.
Defined.

Lemma client_id_recovery_stable_witness :
  ∃ rec', lookup_by_client_id None "req-1"
      (run None 1003 (OpReserve ("n2" : @Felt252 toy_felt) "req-1" ("h" : @Felt252 toy_felt)) finalized_store).2
    = Some rec' ∧ t_nullifier rec' = ("n1" : @Felt252 toy_felt).
Proof.
  destruct (client_id_recovery_stable finalized_store
    (run None 1003 (OpReserve ("n2" : @Felt252 toy_felt) "req-1" ("h" : @Felt252 toy_felt)) finalized_store).2
    "req-1" (default (toy_transcript "n1") (lookup_by_client_id None "req-1" finalized_store)))
    as (rec' & Hrec & Hn & _).
  - apply finalized_store_wf.
  - apply one_step.
  - vm_compute. reflexivity.
  - exists rec'. split; [done|]. rewrite Hn. vm_compute. reflexivity.
Defined.

Lemma finalize_lookup_roundtrip_witness :
  ∃ s', finalize None 1001 ("n1" : @Felt252 toy_felt) (toy_transcript "n1") reserved_store = (Ok tt, s')
    ∧ (t_charge_applied <$> lookup_by_nullifier None ("n1" : @Felt252 toy_felt) s') = Some (Some 42%Z).
Proof.
  destruct (finalize_lookup_roundtrip 1001 ("n1" : @Felt252 toy_felt) (toy_transcript "n1") reserved_store
    (default (toy_transcript "n1") (lookup_by_nullifier None ("n1" : @Felt252 toy_felt) reserved_store)))
    as (s' & Hf & Hl).
  - apply (reachable_wf [(1000, OpReserveV2 (toy_request "n1"))]%Z).
  - vm_compute. reflexivity.
  - vm_compute. reflexivity.
  - split; [|split; [|split]]; intros c; simpl; intros [= <-]; unfold in_u16, u16_MAX; lia.
  - unfold in_u64, u64_MAX. lia.
  - exists s'. split; [done|]. by rewrite Hl.
Defined.

Lemma charge_column_exact_iff_witness :
  t_charge_applied (row_to_record (finalized_row 0 (toy_transcript "n1") (new_row "n1" "Reserved" "proxy" None None None 0)))
    = Some 42%Z
  ↔ (42 < 2 ^ 63 ∨ 2 ^ 128 - 2 ^ 63 ≤ 42)%Z.
Proof. apply (charge_column_exact_iff (toy_transcript "n1")); [reflexivity | unfold in_u128, u128_MAX; lia]. Defined.

Lemma issued_lease_persists_witness :
  ∃ rec', lookup_openrouter_lease None "req-1" (run None 3000 (OpFinalizeLease "req-1" (f64_of_Z 1) 7) lease_store).2
    = Some rec' ∧ l_key_hash rec' = Some "hash-1"%string ∧ l_settle_after rec' = 2060%Z.
Proof.
  destruct (lookup_openrouter_lease None "req-1" lease_store) as [rec|] eqn:Hrec; [|by vm_compute in Hrec].
  destruct (issued_lease_persists lease_store
    (run None 3000 (OpFinalizeLease "req-1" (f64_of_Z 1) 7) lease_store).2 "req-1" rec "hash-1")
    as (rec' & Hl & _ & _ & Hk & _ & _ & _ & Ha & _).
  - apply lease_store_wf.
  - apply one_step.
  - exact Hrec.
  - vm_compute in Hrec. by injection Hrec as <-.
  - exists rec'. split; [done|]. split; [done|]. rewrite Ha. vm_compute in Hrec. by injection Hrec as <-.
Defined.

Lemma due_leases_spec_witness :
  StronglySorted (λ a b, (l_settle_after a ≤ l_settle_after b)%Z) (due_openrouter_leases None 2060 lease_store)
  ∧ length (due_openrouter_leases None 2060 lease_store) = 1%nat.
Proof.
  split; [|vm_compute; reflexivity].
  apply (due_leases_spec 2060 lease_store).
  - unfold in_u64, u64_MAX. lia.
  - lia.
  - intros o Ho. vm_compute in Ho. apply list_elem_of_singleton in Ho as ->. simpl. lia.
Defined.

(** A lease reservation written by a release that had no binding column. *)
Definition unbound_store : NullifierStore := {|
  nullifiers := [new_row "n1" "Reserved" "openrouter_lease" (Some "req-1") (Some "hhello") None 1000]%string;
  leases := leases lease_store |}.

Lemma backfill_binds_and_is_idempotent_witness :
  backfill_openrouter_request_bindings None []
    (backfill_openrouter_request_bindings None [] unbound_store).2
  = (Ok tt, (backfill_openrouter_request_bindings None [] unbound_store).2)
  ∧ (n_api_request_binding <$> nullifiers (backfill_openrouter_request_bindings None [] unbound_store).2)
    = [Some (default ""%string (ok (api_request_binding (toy_request "n1"))))].
Proof.
  split; [|vm_compute; reflexivity].
  apply (backfill_binds_and_is_idempotent [] unbound_store (Ok tt)); vm_compute; reflexivity.
Defined.
