(* ===== verification/ProcessorV1.v ===== *)
(** * The version-1 request processor: [zkapi-serverd/src/processor.rs]

    [lib.rs] builds [processor_v2.rs] in place of this file, and the functions of it
    that store or return a version-1 signature do not fit [nullifier_store.rs] any
    more, whose field [next_state_sig] has another type. This is what does fit:
    validation, admission, the charge's cap, the next state under [SignerV1], and
    clearance. *)

From Stdlib Require Import ZArith Lia.
From stdpp Require Import base tactics decidable numbers list gmap strings.
From S2P Require Import Prelude Float64 Json Types AuthScheme Config Errors Store StoreTheory StoreProps SignerV1.

Local Open Scope string_scope.

(** ** The version-1 wire types, as far as they are read *)

Record PublicInputsV1 `{!FeltOps} := {
  v1_protocol_version : Z;
  v1_chain_id : Z;
  v1_contract_address : Felt252;
  v1_active_root : Felt252;
  v1_expiry_ts : Z;
  v1_solvency_bound : Z;
  v1_statement_type : Z;
  v1_state_sig_epoch : Z;
  v1_state_sig_root : Felt252;
  v1_nullifier : Felt252;
  v1_anon_commitment_x : Felt252;
  v1_anon_commitment_y : Felt252;
}.
Record ProofArtifactWire `{!FeltOps, !WireTypes} := {
  pa_backend : ProofBackendWire;
  pa_public_output_hash : Felt252;
  pa_proof : string;
}.
Record ApiRequestV1 `{!FeltOps, !WireTypes} := {
  r1_client_request_id : string;
  r1_payload : string;
  r1_payload_hash : Felt252;
  r1_public_inputs : PublicInputsV1;
  r1_proof : ProofArtifactWire;
}.

(** The submodule's functions and constants of version 1. [verify_artifact] is
    [ScarbStwoProver]'s, for a Cairo directory. *)
Class V1Core `{!FeltOps, !WireTypes} := {
  CurvePoint : Type;
  EpochRootsV1 : Type;
  StwoCairo : ProofBackendWire;
  STATEMENT_TYPE_REQUEST : Z;
  DOMAIN_ANCHOR : Felt252;
  DOMAIN_BLIND : Felt252;
  felt_from_u64 : Z → Felt252;
  poseidon_hash : Felt252 → Felt252 → Felt252 → Felt252;
  compute_blind_delta : Felt252 → Felt252 → Z → Felt252;
  compute_next_anchor : Felt252 → Felt252 → Felt252 → Felt252 → Z → Felt252;
  point_from_affine : Felt252 → Felt252 → option CurvePoint;
  pedersen_server_update : CurvePoint → Z → Felt252 → Felt252 * Felt252;
  lookup_state_root : list EpochRootsV1 → Z → option Felt252;
  public_output_hash : PublicInputsV1 → Felt252;
  base64_decode : string → result string string;
  verify_artifact : string → Felt252 → string → result string unit;
}.

Section processor.
Context `{!FeltOps, !WireTypes, !WireOps, !CoreOps, !SqliteText, !XmssOps, !V1Core}.

(** The configuration's retired fields beside the ones [ServerConfig] has. *)
Record ConfigV1 := {
  config : ServerConfig;
  trusted_epoch_roots : list EpochRootsV1;
  proof_mode : string;
  cairo_dir : string;
}.

(** ** Validation *)

Definition validate_state_sig_root (cfg : ConfigV1) (signer : ServerSigner) (epoch : Z) (root : Felt252)
    : result ServerError unit :=
  if (epoch =? 0)%Z then fail_if (negb (bool_decide (root = ZERO))) (InvalidRequest "genesis state_sig_root must be zero")
  else if (epoch =? SignerV1.epoch signer)%Z && bool_decide (root = state_root signer) then Ok tt
  else if bool_decide (lookup_state_root (trusted_epoch_roots cfg) epoch = Some root) then Ok tt
  else Err (InvalidRequest "state_sig_root is not trusted for state_sig_epoch").

Definition required_solvency_bound (cfg : ServerConfig) : Z :=
  if c_policy_enabled cfg then c_policy_charge_cap cfg else c_request_charge_cap cfg.

(** Steps 1 to 9 at a root and a time, without the feature
    [dev-witness-envelope]: the decoded proof. *)
Definition validate_request (cfg : ConfigV1) (signer : ServerSigner) (root : Felt252) (now : Z) (request : ApiRequestV1)
    : result ServerError string :=
  let pi := r1_public_inputs request in
  let base := config cfg in
  _ ← fail_if (negb (bool_decide (r1_payload_hash request = canonical_payload_hash (r1_payload request))))
        (InvalidRequest "payload_hash does not match actual payload bytes");
  _ ← fail_if (negb (v1_protocol_version pi =? c_protocol_version base)%Z)
        (ProtocolMismatch ("expected protocol_version=" +:+ show_uint (c_protocol_version base) +:+ ", got "
                           +:+ show_uint (v1_protocol_version pi)));
  _ ← fail_if (negb (v1_chain_id pi =? c_chain_id base)%Z)
        (ProtocolMismatch ("expected chain_id=" +:+ show_uint (c_chain_id base) +:+ ", got " +:+ show_uint (v1_chain_id pi)));
  _ ← fail_if (negb (bool_decide (v1_contract_address pi = c_contract_address base)))
        (ProtocolMismatch ("contract_address mismatch: expected " +:+ felt_display (c_contract_address base) +:+ ", got "
                           +:+ felt_display (v1_contract_address pi)));
  _ ← fail_if (negb (bool_decide (v1_active_root pi = root))) (StaleRoot (to_hex root));
  _ ← fail_if (v1_expiry_ts pi <=? now)%Z NoteExpired;
  _ ← fail_if (v1_solvency_bound pi <? required_solvency_bound base)%Z
        (InvalidRequest ("solvency_bound " +:+ show_uint (v1_solvency_bound pi) +:+ " is less than request_charge_cap "
                         +:+ show_uint (required_solvency_bound base)));
  _ ← fail_if (negb (v1_statement_type pi =? STATEMENT_TYPE_REQUEST)%Z)
        (InvalidRequest ("expected statement_type=" +:+ show_uint STATEMENT_TYPE_REQUEST +:+ ", got "
                         +:+ show_uint (v1_statement_type pi)));
  _ ← validate_state_sig_root cfg signer (v1_state_sig_epoch pi) (v1_state_sig_root pi);
  let artifact := r1_proof request in
  _ ← fail_if (negb (bool_decide (pa_backend artifact = StwoCairo))) (InvalidProof "unsupported proof backend");
  _ ← fail_if (negb (bool_decide (pa_public_output_hash artifact = public_output_hash pi)))
        (InvalidProof "proof public_output_hash does not match request public inputs");
  proof_bytes ← map_err (λ e, InvalidProof ("invalid base64 proof: " +:+ e)) (base64_decode (pa_proof artifact));
  _ ← (if String.eqb (proof_mode cfg) "dev_witness_envelope"
       then Err (InvalidProof "dev_witness_envelope is unavailable in this build")
       else map_err InvalidProof (verify_artifact (cairo_dir cfg) (pa_public_output_hash artifact) proof_bytes));
  Ok proof_bytes.

(** Step 10: the transcript to answer from, or [None] to go on under the
    reservation. *)
Definition admit_request (fault : option DbFault) (now : Z) (request : ApiRequestV1) (s : NullifierStore)
    : result ServerError (option TranscriptRecord) * NullifierStore :=
  let pi := r1_public_inputs request in
  match lookup_by_nullifier fault (v1_nullifier pi) s with
  | Some existing =>
      let same := bool_decide (t_client_request_id existing = Some (r1_client_request_id request))
                  && bool_decide (t_payload_hash existing = Some (r1_payload_hash request)) in
      if same && bool_decide (t_status existing = Finalized) then (Ok (Some existing), s)
      else if same && bool_decide (t_status existing = Types.Reserved) then (Ok None, s)
      else (Err Replay, s)
  | None =>
      let (r, s') := reserve fault now (v1_nullifier pi) (r1_client_request_id request) (r1_payload_hash request) s in
      (_ ← r; Ok None, s')
  end.

(** Step 12. *)
Definition check_charge (cfg : ServerConfig) (policy_reason_code : option Z) (charge : Z) : result ServerError unit :=
  let policy_charged := c_policy_enabled cfg && match policy_reason_code with Some _ => true | None => false end in
  let max_charge := if policy_charged then c_policy_charge_cap cfg else c_request_charge_cap cfg in
  fail_if (max_charge <? charge)%Z
    (Internal ("provider charge " +:+ show_uint charge +:+ " exceeds cap " +:+ show_uint max_charge)).

(** ** The next state *)

Definition generate_server_rng (nullifier : Felt252) : Felt252 := poseidon_hash DOMAIN_ANCHOR nullifier (felt_from_u64 1).
Definition generate_server_rng2 (nullifier : Felt252) : Felt252 := poseidon_hash DOMAIN_BLIND nullifier (felt_from_u64 2).

Record PreparedNextState := {
  blind_delta_felt : Felt252;
  next_anchor : Felt252;
  next_cx : Felt252;
  next_cy : Felt252;
}.
(** The closure handed to the signer. *)
Definition prepare_next_state (cfg : ServerConfig) (pi : PublicInputsV1) (anon_point : CurvePoint) (charge leaf : Z)
    : Felt252 * PreparedNextState :=
  let blind := compute_blind_delta (generate_server_rng2 (v1_nullifier pi)) (v1_nullifier pi) leaf in
  let '(cx, cy) := pedersen_server_update anon_point charge blind in
  let anchor := compute_next_anchor (generate_server_rng (v1_nullifier pi)) (v1_nullifier pi) cx cy leaf in
  (core_state_message (c_protocol_version cfg) (c_chain_id cfg) (c_contract_address cfg) cx cy anchor,
   {| blind_delta_felt := blind; next_anchor := anchor; next_cx := cx; next_cy := cy |}).
(** Steps 12 to 16; [None] is the panic on a point that is not on the curve. *)
Definition charge_and_sign (f : Faults) (cfg : ServerConfig) (pi : PublicInputsV1) (policy_reason_code : option Z) (charge : Z)
    (σ : Running) : option (result ServerError (XmssSignature * PreparedNextState) * Running) :=
  match check_charge cfg policy_reason_code charge with
  | Err e => Some (Err e, σ)
  | Ok _ =>
      (λ anon_point, sign_next_state f (prepare_next_state cfg pi anon_point charge) σ)
        <$> point_from_affine (v1_anon_commitment_x pi) (v1_anon_commitment_y pi)
  end.

Definition empty_xmss_sig (WOTS_LEN XMSS_TREE_HEIGHT : nat) : XmssSignature :=
  {| sig_epoch := 0; leaf_index := 0; wots_sig := replicate WOTS_LEN ZERO; auth_path := replicate XMSS_TREE_HEIGHT ZERO |}.

(** ** Clearance *)

Record ClearanceResponseV1 := {
  cr1_status : string;
  cr1_withdrawal_nullifier : Felt252;
  cr1_clear_sig_epoch : Z;
  cr1_clear_sig_root : Felt252;
  cr1_clear_sig : XmssSignature;
}.
(** The store's fault at the lookup and at the reservation, and the signer's. *)
Definition process_clearance (lookup_fault reserve_fault : option DbFault) (f : Faults) (now : Z) (cfg : ServerConfig)
    (nullifier : Felt252) (s : NullifierStore) (σ : Running)
    : result ServerError ClearanceResponseV1 * NullifierStore * Running :=
  match lookup_by_nullifier lookup_fault nullifier s with
  | Some _ => (Err NullifierUsed, s, σ)
  | None =>
      let clear_msg := core_clearance_message (c_protocol_version cfg) (c_chain_id cfg) (c_contract_address cfg) nullifier in
      let (signed, σ') := sign_clearance f clear_msg σ in
      match signed with
      | Err e => (Err e, s, σ')
      | Ok (clear_sig, _) =>
          let (reserved, s') := reserve_clearance reserve_fault now nullifier s in
          (_ ← reserved;
           Ok {| cr1_status := "ok"; cr1_withdrawal_nullifier := nullifier; cr1_clear_sig_epoch := sig_epoch clear_sig;
                 cr1_clear_sig_root := clear_root (self σ'); cr1_clear_sig := clear_sig |}, s', σ')
      end
  end.
End processor.

(** ** What it promises *)

Section theorems.
Context `{!FeltOps, !WireTypes, !WireOps, !CoreOps, !SqliteText, !XmssOps, !XmssLaws, !V1Core}.
Implicit Types (cfg : ServerConfig) (pi : PublicInputsV1).

(** A request that passes validation states a bound its charge stays within: on a
    deployment whose policy cap is not below the request cap, no next state is
    signed for a charge above the stated bound. *)
Theorem charge_within_bound conf signer root now request proof_bytes f reason charge σ signed σ' :
  (c_policy_enabled (config conf) = true → (c_request_charge_cap (config conf) ≤ c_policy_charge_cap (config conf))%Z) →
  validate_request conf signer root now request = Ok proof_bytes →
  charge_and_sign f (config conf) (r1_public_inputs request) reason charge σ = Some (Ok signed, σ') →
  (charge ≤ v1_solvency_bound (r1_public_inputs request))%Z.
Proof.
  intros Hcaps Hv Hs.
  assert (required_solvency_bound (config conf) ≤ v1_solvency_bound (r1_public_inputs request))%Z as Hb.
  { unfold validate_request in Hv. do 6 apply bind_Ok in Hv as (? & _ & Hv).
    apply bind_Ok in Hv as (? & Hb%fail_if_Ok & _). lia. }
  unfold charge_and_sign in Hs. destruct (check_charge _ _ _) as [[]|] eqn:Hc; [|by injection Hs].
  unfold check_charge in Hc. apply fail_if_Ok, Z.ltb_ge in Hc. unfold required_solvency_bound in Hb.
  destruct (c_policy_enabled (config conf)); [specialize (Hcaps eq_refl)|]; destruct reason; cbn in Hc; lia.
Qed.

(** The blinding and the anchor of a next state are derived from the leaf that
    signs it: the signature's leaf index is the one both were computed with, the
    leaf has signed the state message over exactly them, and nothing else was
    signed. *)
Theorem next_state_bound_to_leaf f cfg pi reason charge σ sig prepared σ' :
  (0 ≤ next_index (state_keypair (self σ)))%Z →
  charge_and_sign f cfg pi reason charge σ = Some (Ok (sig, prepared), σ') →
  blind_delta_felt prepared = compute_blind_delta (generate_server_rng2 (v1_nullifier pi)) (v1_nullifier pi) (leaf_index sig)
  ∧ next_anchor prepared = compute_next_anchor (generate_server_rng (v1_nullifier pi)) (v1_nullifier pi)
                             (next_cx prepared) (next_cy prepared) (leaf_index sig)
  ∧ used σ' = (used σ ++ [{| use_root := state_root (self σ); use_leaf := leaf_index sig;
      use_message := core_state_message (c_protocol_version cfg) (c_chain_id cfg) (c_contract_address cfg)
                       (next_cx prepared) (next_cy prepared) (next_anchor prepared) |}])%list.
Proof.
  intros Hpos Hs. unfold charge_and_sign in Hs. destruct (check_charge _ _ _); [|by injection Hs].
  destruct (point_from_affine _ _) as [point|]; [|done]. injection Hs as Hs.
  apply signature_matches_leaf in Hs as (leaf & -> & <- & _ & _ & ->); [|done].
  unfold prepare_next_state. destruct (pedersen_server_update _ _ _) as [cx cy]. done.
Qed.

(** A clearance signature leaves the server only for a nullifier the store had not
    seen and holds for clearance afterwards. *)
Theorem clearance_reserves lookup_fault reserve_fault f now cfg nullifier s σ response s' σ' :
  store_wf s → process_clearance lookup_fault reserve_fault f now cfg nullifier s σ = (Ok response, s', σ') →
  (∀ rec, lookup_by_nullifier None nullifier s ≠ Some rec) ∧ cleared s' nullifier ∧ store_wf s'
  ∧ cr1_withdrawal_nullifier response = nullifier ∧ cr1_clear_sig_epoch response = sig_epoch (cr1_clear_sig response).
Proof.
  intros Hwf Hrun. unfold process_clearance in Hrun. destruct (lookup_by_nullifier _ _ _); [done|].
  destruct (sign_clearance _ _ _) as [[[clear_sig leaf]|e] σ1]; [|done].
  destruct (reserve_clearance _ _ _ _) as [r s1] eqn:Hres. injection Hrun as Hr <- <-.
  destruct r as [[]|]; [|done]. injection Hr as <-.
  destruct (reserve_clearance_run reserve_fault now nullifier s s1 Hwf Hres) as (Hwf' & Hc & Hn). by split_and!.
Qed.
End theorems.
