(* ===== verification/Watcher.v ===== *)
(** * The challenge watcher: [zkapi-serverd/src/watcher.rs]

    From a pending withdrawal's nullifier to the challenge that disputes it. The
    version-1 public inputs it parses are a type of the [protocol] submodule, a
    parameter here. *)

From Stdlib Require Import ZArith Lia.
From stdpp Require Import base tactics decidable numbers list strings relations.
From S2P Require Import Prelude Float64 Json Types Errors Store StoreTheory StoreProps.

Local Open Scope string_scope.

Class V1Inputs `{!FeltOps} := {
  RequestPublicInputs : Type;
  v1_request_nullifier : RequestPublicInputs → Felt252;
  v1_inputs_from_json : string → result string RequestPublicInputs;
}.

Section watcher.
Context `{!FeltOps, !WireTypes, !WireOps, !SqliteText, !V1Inputs}.

Record ChallengeAction := {
  ca_note_id : Z;
  ca_request_inputs : RequestPublicInputs;
  ca_proof_artifact : string;
  ca_siblings : list Felt252;
}.

(** [lookup_by_nullifier(..)?] then [(status == Finalized).then_some(record)]. *)
Definition finalized_transcript (fault : option DbFault) (s : NullifierStore) (nullifier : Felt252)
    : option TranscriptRecord :=
  record ← lookup_by_nullifier fault nullifier s;
  if decide (t_status record = Finalized) then Some record else None.

Definition build_challenge_action (fault : option DbFault) (s : NullifierStore) (note_id : Z)
    (nullifier : Felt252) (siblings : list Felt252) : result string ChallengeAction :=
  record ← ok_or "no finalized transcript for nullifier" (finalized_transcript fault s nullifier);
  request_inputs_json ← ok_or "missing archived request inputs" (t_request_inputs_json record);
  request_inputs ← map_err (λ e, "invalid archived request inputs: " +:+ e)
                     (v1_inputs_from_json request_inputs_json);
  _ ← fail_if (negb (bool_decide (v1_request_nullifier request_inputs = nullifier)))
        "archived request nullifier mismatch";
  proof_artifact ← ok_or "missing archived proof blob" (t_proof_blob record);
  Ok {| ca_note_id := note_id; ca_request_inputs := request_inputs;
        ca_proof_artifact := proof_artifact; ca_siblings := siblings |}.

(** A challenge is built exactly from a finalized archive. The action for a
    nullifier exists, and is the given one, if and only if the store can be read,
    holds a finalized transcript for that nullifier, and its archive holds inputs
    that parse, that carry the same nullifier, and a proof; the action bears those
    inputs, that proof, and the caller's note and siblings unchanged. *)
Theorem challenge_iff_archived fault s note_id nullifier siblings action :
  build_challenge_action fault s note_id nullifier siblings = Ok action ↔
  fault = None ∧ ca_note_id action = note_id ∧ ca_siblings action = siblings
  ∧ v1_request_nullifier (ca_request_inputs action) = nullifier
  ∧ ∃ record json, lookup_by_nullifier None nullifier s = Some record ∧ t_status record = Finalized
      ∧ t_request_inputs_json record = Some json
      ∧ v1_inputs_from_json json = Ok (ca_request_inputs action)
      ∧ t_proof_blob record = Some (ca_proof_artifact action).
Proof.
  unfold build_challenge_action, finalized_transcript. split.
  - intros (record & Hr & (json & Hj & (inputs & Hi & (u & Hn & (blob & Hb & [= <-])%bind_Ok)%bind_Ok)%bind_Ok)%bind_Ok)%bind_Ok.
    apply ok_or_Ok in Hr, Hj, Hb. apply fail_if_Ok, negb_false_iff, bool_decide_eq_true in Hn.
    apply bind_Some in Hr as (r & Hl & Hst). destruct (decide _) as [Hfin|]; [|discriminate].
    injection Hst as ->. destruct fault; [discriminate Hl|].
    unfold map_err in Hi. destruct (v1_inputs_from_json json) as [i|] eqn:Hp; [|discriminate].
    injection Hi as ->. simpl. repeat (split; [done|]). by exists record, json.
  - intros (-> & <- & <- & <- & record & json & Hl & Hst & Hj & Hi & Hb). rewrite Hl. simpl.
    rewrite decide_True by done. simpl. rewrite Hj. simpl. rewrite Hi. simpl.
    rewrite bool_decide_eq_true_2 by done. simpl. rewrite Hb. simpl. by destruct action.
Qed.
End watcher.
