(* ===== verification/ProviderTypes.v ===== *)
(** * What a provider returns: the data of [zkapi-serverd/src/provider.rs] *)

From Stdlib Require Import ZArith.
From stdpp Require Import base tactics decidable numbers list strings.
From S2P Require Import Prelude Float64 Json Types.

Record UsageInfo := {
  prompt_tokens : Z;
  completion_tokens : Z;
  total_tokens : Z;
  usage_cost_usd : f64;
  cost_source : string;
}.

Section response.
Context `{!FeltOps}.

Record ProviderResponse := {
  status_code : Z;
  response_payload : string;
  charge_applied : Z;
  policy_reason_code : option Z;
  policy_evidence_hash : option Felt252;
  usage : option UsageInfo;
  upstream_model : option string;
  billing_label : string;
}.

Definition unmetered (status_code : Z) (payload : string) (charge_applied : Z) (billing_label : string)
    (policy_reason_code : option Z) (policy_evidence_hash : option Felt252) : ProviderResponse := {|
  status_code := status_code;
  response_payload := payload;
  charge_applied := charge_applied;
  policy_reason_code := policy_reason_code;
  policy_evidence_hash := policy_evidence_hash;
  usage := None;
  upstream_model := None;
  billing_label := billing_label;
|}.
End response.
