(* ===== verification/Dashboard.v ===== *)
(** * The dashboard feed: [zkapi-serverd/src/dashboard.rs]

    The bounded ring of recent events with its running totals, the decoding of
    a request payload for display, and the redaction of bearer keys. *)

From Stdlib Require Import ZArith Lia Ascii.
From stdpp Require Import base tactics decidable numbers list strings.
From S2P Require Import Prelude Float64 Json Types Pricing ProviderTypes.

Local Open Scope string_scope.

(** ** Events and the hub *)

Record ChatMessageView := { role : string; content : string }.

Section hub.
Context `{!FeltOps}.

Record DashboardEvent := {
  e_seq : Z;
  e_ts_ms : Z;
  e_client_request_id : string;
  e_billing_label : string;
  e_upstream_model : option string;
  e_request_nullifier : Felt252;
  e_active_root : Felt252;
  e_anon_commitment : CurvePointWire;
  e_solvency_bound : Z;
  e_solvency_bound_usd : f64;
  e_statement_type : Z;
  e_state_sig_epoch_in : Z;
  e_proof_backend : string;
  e_proof_public_output_hash : Felt252;
  e_proof_size_bytes : Z;
  e_request_path : string;
  e_request_model : option string;
  e_request_messages : list ChatMessageView;
  e_request_raw : string;
  e_response_code : Z;
  e_response_text : string;
  e_response_hash : Felt252;
  e_usage : option UsageInfo;
  e_charge_applied : Z;
  e_charge_usd : f64;
  e_next_commitment : CurvePointWire;
  e_next_anchor : Felt252;
  e_blind_delta_srv : Felt252;
  e_next_state_sig_epoch : Z;
  e_next_state_sig_leaf_index : Z;
  e_next_state_sig_root : Felt252;
  e_upstream_ms : Z;
  e_total_ms : Z;
}.

Record DashboardTotals := {
  request_count : Z;
  total_credits_charged : Z;
  total_cost_usd : f64;
  total_prompt_tokens : Z;
  total_completion_tokens : Z;
  total_total_tokens : Z;
}.

Definition DashboardTotals_default : DashboardTotals := {|
  request_count := 0; total_credits_charged := 0; total_cost_usd := f64_zero;
  total_prompt_tokens := 0; total_completion_tokens := 0; total_total_tokens := 0 |}.

(** [sent] is what the broadcast channel was given, oldest first. *)
Record DashboardHub := {
  sent : list DashboardEvent;
  recent : list DashboardEvent;
  totals : DashboardTotals;
  seq : Z;
  capacity : nat;
  started_ms : Z;
}.

Definition hub_new (capacity : nat) (now_ms : Z) : DashboardHub := {|
  sent := []; recent := []; totals := DashboardTotals_default; seq := 0;
  capacity := capacity; started_ms := now_ms |}.

(** A counter that reaches the end of its type wraps in a release build. *)
Definition next_seq (self : DashboardHub) : Z * DashboardHub :=
  let n := cast_u64 (seq self + 1) in
  (n, {| sent := sent self; recent := recent self; totals := totals self; seq := n;
         capacity := capacity self; started_ms := started_ms self |}).

Definition add_usage (u : option UsageInfo) (f : UsageInfo → Z) (n : Z) : Z :=
  match u with Some u => u64_add n (f u) | None => n end.

Definition record_totals (event : DashboardEvent) (t : DashboardTotals) : DashboardTotals := {|
  request_count := cast_u64 (request_count t + 1);
  total_credits_charged := u128_add (total_credits_charged t) (e_charge_applied event);
  total_cost_usd := f64_add (total_cost_usd t) (e_charge_usd event);
  total_prompt_tokens := add_usage (e_usage event) prompt_tokens (total_prompt_tokens t);
  total_completion_tokens := add_usage (e_usage event) completion_tokens (total_completion_tokens t);
  total_total_tokens := add_usage (e_usage event) total_tokens (total_total_tokens t);
|}.

(** [pop_front] when full, then [push_back]. *)
Definition push_recent (cap : nat) (event : DashboardEvent) (l : list DashboardEvent) : list DashboardEvent :=
  ((if (cap <=? length l)%nat then tail l else l) ++ [event])%list.

Definition record (self : DashboardHub) (event : DashboardEvent) : DashboardHub := {|
  sent := (sent self ++ [event])%list;
  recent := push_recent (capacity self) event (recent self);
  totals := record_totals event (totals self);
  seq := seq self;
  capacity := capacity self;
  started_ms := started_ms self;
|}.
End hub.

Definition charge_usd (credits : Z) : f64 := credits_to_usd credits.

(** ** Decoding a payload for display *)

Section decode.
Context `{!JsonText}.

Definition part_text (part : Value) : string :=
  match value_get "text" part ≫= as_str with
  | Some text => text
  | None =>
      match value_get "type" part ≫= as_str with
      | Some kind => "[" +:+ kind +:+ "]"
      | None => ""
      end
  end.

Definition stringify_content (content : option Value) : string :=
  match content with
  | Some (Str s) => s
  | Some (Array parts) => fold_left (λ out part, out +:+ part_text part) parts ""
  | Some other => json_print other
  | None => ""
  end.

Definition chat_path : string := "/v1/chat/completions".

(** The [{method,path,headers,body}] envelope, or a bare body. *)
Definition split_envelope (value : Value) : string * Value :=
  match value_get "path" value, value_get "body" value with
  | Some path, Some body => (default chat_path (as_str path), body)
  | _, _ => (chat_path, value)
  end.

Definition message_view (msg : Value) : ChatMessageView := {|
  role := default "" (value_get "role" msg ≫= as_str);
  content := stringify_content (value_get "content" msg);
|}.

Definition decode_request_view (payload : string) : string * option string * list ChatMessageView :=
  match json_parse payload with
  | Err _ => (chat_path, None, [])
  | Ok value =>
      let '(path, body) := split_envelope value in
      let model := value_get "model" body ≫= as_str in
      let messages := default [] (value_get "messages" body ≫= as_array) in
      (path, model, map message_view messages)
  end.
End decode.

(** ** Redaction *)

(** [s.split_at(s.find(p)?)]. *)
Fixpoint split_find (p s : string) : option (string * string) :=
  if starts_with p s then Some ("", s)
  else match s with
       | EmptyString => None
       | String c s' => '(before, after) ← split_find p s'; Some (String c before, after)
       end.

(** The longest prefix whose characters satisfy [f], and the rest. *)
Fixpoint span (f : ascii → bool) (s : string) : string * string :=
  match s with
  | EmptyString => ("", "")
  | String c s' =>
      if f c then let '(a, b) := span f s' in (String c a, b) else ("", s)
  end.

Definition is_key_char (c : ascii) : bool :=
  is_ascii_alphanumeric c || Ascii.eqb c "-"%char || Ascii.eqb c "_"%char.

(** One match: [after] starts with ["sk-"]; what is written for it and what is left. *)
Definition redact_token (after : string) : string * string :=
  match strip_prefix "sk-" after with
  | None => (after, "")
  | Some body =>
      let '(key, rest) := span is_key_char body in
      let token := "sk-" +:+ key in
      ((if 12 <? String.length token then "sk-***REDACTED***" else token)%nat, rest)
  end.

Fixpoint redact_loop (fuel : nat) (rest result : string) : string :=
  match split_find "sk-" rest with
  | None => result +:+ rest
  | Some (before, after) =>
      match fuel with
      | O => result +:+ rest
      | S fuel' =>
          let '(out, rest') := redact_token after in
          redact_loop fuel' rest' (result +:+ before +:+ out)
      end
  end.

Definition redact_secrets (input : string) : string := redact_loop (String.length input) input "".

(** ** The feed *)

Section feed.
Context `{!FeltOps}.

(** The last [n] elements. *)
Definition last_n {A} (n : nat) (l : list A) : list A := drop (length l - n) l.

Lemma push_recent_last cap (event : DashboardEvent) l :
  push_recent cap event (last_n (Nat.max 1 cap) l) = last_n (Nat.max 1 cap) (l ++ [event])%list.
Proof.
  unfold push_recent, last_n. rewrite length_drop, length_app. change (length [event]) with 1%nat.
  set (n := Nat.max 1 cap). assert (1 ≤ n ∧ cap ≤ n ∧ (n = cap ∨ (cap = 0 ∧ n = 1)))%nat as (Hn1 & Hcap & Hn) by lia.
  clearbody n. destruct (Nat.leb_spec cap (length l - (length l - n))) as [Hle|Hgt].
  - rewrite tail_drop. destruct (decide (length l < n)%nat) as [Hs|Hs].
    + destruct l; [|simpl in *; lia]. simpl. destruct n as [|[|n]]; [lia|done|done].
    + rewrite drop_app_le by lia. f_equal. f_equal. lia.
  - rewrite drop_app_le by lia. f_equal. f_equal. lia.
Qed.

Definition total_charged (events : list DashboardEvent) : Z := foldr (λ e n, e_charge_applied e + n)%Z 0%Z events.

Lemma total_charged_app l e : total_charged (l ++ [e])%list = (total_charged l + e_charge_applied e)%Z.
Proof. unfold total_charged. induction l as [|x l IH]; simpl in *; lia. Qed.

Definition feed_inv (cap : nat) (events : list DashboardEvent) (h : DashboardHub) : Prop :=
  sent h = events ∧ capacity h = cap ∧ recent h = last_n (Nat.max 1 cap) events
  ∧ request_count (totals h) = cast_u64 (Z.of_nat (length events))
  ∧ total_credits_charged (totals h) = Z.min (total_charged events) u128_MAX.

Lemma record_feed_inv cap events h e :
  (0 ≤ e_charge_applied e)%Z → feed_inv cap events h → feed_inv cap (events ++ [e])%list (record h e).
Proof.
  intros He (Hs & Hc & Hr & Hn & Ht). unfold feed_inv. simpl.
  rewrite Hs, Hc, Hr, Hn, Ht. repeat split.
  - apply push_recent_last.
  - unfold cast_u64, as_unsigned. rewrite Z.add_mod_idemp_l by lia. f_equal.
    rewrite length_app. simpl. lia.
  - rewrite total_charged_app. unfold u128_add, saturating_add. lia.
Qed.

(** the dashboard feed: after any sequence of events the ring holds exactly
    the most recent ones, at most its capacity (at least one), in order; every
    event was broadcast once; the request count is their number and the credits
    total their sum, saturating at the top of [u128]. *)
Theorem dashboard_feed_exact cap now events :
  (∀ e, e ∈ events → (0 ≤ e_charge_applied e)%Z) →
  feed_inv cap events (fold_left record events (hub_new cap now)).
Proof.
  induction events as [|e events IH] using rev_ind; intros He.
  - repeat split.
  - rewrite fold_left_app. simpl. apply record_feed_inv.
    + apply He, elem_of_app. right. by apply list_elem_of_singleton.
    + apply IH. intros e' He'. apply He, elem_of_app. by left.
Qed.
End feed.

(** ** No long bearer token survives redaction *)

(** At no position does a ["sk-"] start a run of more than twelve key characters. *)
Fixpoint no_long_key (s : string) : Prop :=
  (starts_with "sk-" s = true → (String.length (span is_key_char s).1 ≤ 12)%nat)
  ∧ match s with EmptyString => True | String _ s' => no_long_key s' end.

(** Not starting with a key character. *)
Definition key_boundary (s : string) : Prop :=
  match s with EmptyString => True | String c _ => is_key_char c = false end.

Lemma span_app k r :
  str_forall is_key_char k = true → key_boundary r → span is_key_char (k +:+ r) = (k, r).
Proof.
  induction k as [|c k IH]; simpl.
  - intros _. destruct r as [|c r]; simpl; [done|]. by intros ->.
  - intros [Hc Hk]%andb_true_iff Hr. change (String c k +:+ r) with (String c (k +:+ r)). simpl.
    by rewrite Hc, (IH Hk Hr).
Qed.

Lemma span_spec f s : s = (span f s).1 +:+ (span f s).2 ∧ str_forall f (span f s).1 = true.
Proof.
  induction s as [|c s [IH1 IH2]]; simpl; [done|].
  destruct (f c) eqn:Hc; [|done]. destruct (span f s) as [a b]. simpl in *.
  rewrite Hc, IH2. split; [|done]. by rewrite IH1.
Qed.

Lemma span_boundary s : key_boundary (span is_key_char s).2.
Proof.
  induction s as [|c s IH]; simpl; [done|]. destruct (is_key_char c) eqn:Hc; [|done].
  by destruct (span is_key_char s).
Qed.

Lemma no_long_key_short k r :
  str_forall is_key_char k = true → (String.length k ≤ 12)%nat → key_boundary r → no_long_key r →
  no_long_key (k +:+ r).
Proof.
  induction k as [|c k IH]; intros Hk Hlen Hb Hr; [done|].
  change (String c k +:+ r) with (String c (k +:+ r)). split.
  - intros _. change (String c (k +:+ r)) with (String c k +:+ r). by rewrite span_app.
  - simpl in Hk, Hlen. apply andb_true_iff in Hk as [_ Hk]. apply IH; [done|lia|done|done].
Qed.

Lemma no_long_key_redacted r : no_long_key r → no_long_key ("sk-***REDACTED***" +:+ r).
Proof.
  intros Hr. cbn -[span is_key_char]. repeat split; try discriminate; [|exact Hr].
  intros _. vm_compute. lia.
Qed.

Lemma split_find_spec p s before after :
  split_find p s = Some (before, after) → s = before +:+ after ∧ starts_with p after = true.
Proof.
  revert before. induction s as [|c s IH]; intros before; cbn [split_find].
  - destruct (starts_with p "") eqn:Hp; [|done]. by intros [= <- <-].
  - destruct (starts_with p (String c s)) eqn:Hp; [by intros [= <- <-]|].
    destruct (split_find p s) as [[b a]|] eqn:Hs; [|done]. intros [= <- <-].
    destruct (IH b eq_refl) as [-> Ha]. done.
Qed.

Lemma no_long_key_absent s : split_find "sk-" s = None → no_long_key s.
Proof.
  induction s as [|c s IH]; cbn [split_find]; [done|].
  destruct (starts_with "sk-" (String c s)) eqn:Hp; [done|].
  destruct (split_find "sk-" s) as [[]|]; [done|]. intros _. split; [rewrite Hp; discriminate|]. by apply IH.
Qed.

(** Whether a match starts before the one found does not depend on what follows it. *)
Lemma starts_with_before c b x y :
  starts_with "sk-" (String c (b +:+ "sk-" +:+ x)) = starts_with "sk-" (String c (b +:+ "sk-" +:+ y)).
Proof.
  apply eq_true_iff_eq. rewrite !starts_with_spec.
  destruct b as [|c1 [|c2 b]]; split; intros [r Hr]; try discriminate Hr;
    injection Hr as -> -> -> _; by eexists.
Qed.

Lemma no_long_key_before s before after x :
  split_find "sk-" s = Some (before, after) → no_long_key ("sk-" +:+ x) →
  no_long_key (before +:+ "sk-" +:+ x).
Proof.
  revert before. induction s as [|c s IH]; intros before; cbn [split_find]; [done|].
  destruct (starts_with "sk-" (String c s)) eqn:Hp; [by intros [= <- _]|].
  destruct (split_find "sk-" s) as [[b a]|] eqn:Hs; [|done]. intros [= <- <-] Hx.
  change (String c b +:+ "sk-" +:+ x) with (String c (b +:+ "sk-" +:+ x)). split; [|by apply (IH b)].
  apply split_find_spec in Hs as [-> (y & ->)%starts_with_spec].
  rewrite (starts_with_before c b x y), Hp. discriminate.
Qed.

Lemma redact_loop_acc fuel rest acc : redact_loop fuel rest acc = acc +:+ redact_loop fuel rest "".
Proof.
  revert rest acc. induction fuel as [|fuel IH]; intros rest acc; simpl.
  - by destruct (split_find "sk-" rest) as [[]|].
  - destruct (split_find "sk-" rest) as [[before after]|]; [|done].
    destruct (redact_token after) as [out rest'].
    rewrite IH, (IH rest' ("" +:+ _)). by rewrite !str_app_assoc.
Qed.

Lemma key_boundary_app a b : a ≠ "" → key_boundary (a +:+ b) ↔ key_boundary a.
Proof. by destruct a. Qed.

Lemma redact_loop_boundary fuel rest : key_boundary rest → key_boundary (redact_loop fuel rest "").
Proof.
  intros Hb. destruct fuel as [|fuel]; simpl; destruct (split_find "sk-" rest) as [[before after]|] eqn:Hs;
    [done..| |done].
  destruct (redact_token after) as [out rest']. rewrite redact_loop_acc.
  apply split_find_spec in Hs as [-> (y & ->)%starts_with_spec].
  destruct before as [|c before]; [by simpl in Hb|]. exact Hb.
Qed.

(** What [redact_token] writes begins with ["sk-"] and is safe before [r]. *)
Lemma redact_token_clean after out rest :
  starts_with "sk-" after = true → redact_token after = (out, rest) →
  (String.length rest + 3 ≤ String.length after)%nat ∧ key_boundary rest
  ∧ (∃ x, out = "sk-" +:+ x)
  ∧ ∀ r, key_boundary r → no_long_key r → no_long_key (out +:+ r).
Proof.
  intros (y & ->)%starts_with_spec. unfold redact_token.
  rewrite (proj2 (strip_prefix_spec "sk-" ("sk-" +:+ y) y) eq_refl).
  destruct (span_spec is_key_char y) as [Hy Hk]. pose proof (span_boundary y) as Hb.
  destruct (span is_key_char y) as [key r0]. cbn [fst snd] in *. intros Heq. apply pair_equal_spec in Heq as [<- <-].
  split; [|split; [done|split]].
  - rewrite Hy, !str_length_app. simpl. lia.
  - destruct (12 <? _)%nat; by eexists.
  - intros r Hr Hclean. destruct (Nat.ltb_spec 12 (String.length ("sk-" +:+ key))) as [_|Hlen].
    + by apply no_long_key_redacted.
    + apply (no_long_key_short ("sk-" +:+ key)); [exact Hk|exact Hlen|done|done].
Qed.

Lemma redact_loop_clean fuel rest :
  (String.length rest ≤ fuel)%nat → no_long_key (redact_loop fuel rest "").
Proof.
  revert rest. induction fuel as [|fuel IH]; intros rest Hlen; simpl;
    destruct (split_find "sk-" rest) as [[before after]|] eqn:Hs;
    [|by apply no_long_key_absent| |by apply no_long_key_absent].
  - apply split_find_spec in Hs as [-> (y & ->)%starts_with_spec].
    rewrite !str_length_app in Hlen. simpl in Hlen. lia.
  - pose proof Hs as [Hrest Ha]%split_find_spec.
    destruct (redact_token after) as [out rest'] eqn:Ht.
    destruct (redact_token_clean _ _ _ Ha Ht) as (Hl & Hb & (x & ->) & Hclean).
    rewrite redact_loop_acc, !str_app_assoc. simpl.
    change (String "s" (String "k" (String "-" x)) +:+ redact_loop fuel rest' "")
      with ("sk-" +:+ x +:+ redact_loop fuel rest' "").
    eapply no_long_key_before; [exact Hs|].
    change ("sk-" +:+ x +:+ redact_loop fuel rest' "") with (("sk-" +:+ x) +:+ redact_loop fuel rest' "").
    apply Hclean; [by apply redact_loop_boundary|].
    apply IH. rewrite Hrest, str_length_app in Hlen. lia.
Qed.

Lemma no_long_key_suffix a t : no_long_key (a +:+ t) → no_long_key t.
Proof. induction a as [|c a IH]; [done|]. intros [_ H]. by apply IH. Qed.

(** redaction: wherever ["sk-"] occurs in what reaches the feed, the run of
    key characters it starts is at most twelve characters long, so no bearer
    token of more than twelve characters is ever shown; the loop always ends
    with the whole input consumed. *)
Theorem redact_secrets_safe input a t :
  redact_secrets input = a +:+ t → starts_with "sk-" t = true →
  (String.length (span is_key_char t).1 ≤ 12)%nat.
Proof.
  intros Hs Ht. assert (no_long_key t) as Hc.
  { apply (no_long_key_suffix a). rewrite <- Hs. by apply redact_loop_clean. }
  destruct t as [|c t]; [done|]. by apply Hc.
Qed.
