(* ===== verification/World.v ===== *)
(** * Running a handler of the server

    The handlers of [zkapi-serverd] run concurrently on a shared store, a shared
    current root and the dashboard hub, and talk to the clock, the random
    generator and remote HTTP services. A handler is a program of the state and
    error monad [M]. The world is a parameter: it answers each call, chooses the
    database faults, and before every access to shared data it may run any other
    handler's operations ([env_interfere]). *)

From Stdlib Require Import ZArith.
From stdpp Require Import base tactics decidable numbers list strings relations.
From S2P Require Import Prelude Float64 Json Http Types Errors Store StoreTheory ProviderTypes Dashboard.

(** ** Shared state and the world *)

Section world.
Context `{!FeltOps, !WireTypes, !WireOps, !SqliteText}.

Record Shared := {
  store : NullifierStore;
  root : Felt252;
  hub : option DashboardHub;
}.

Class Env := {
  World : Type;
  env_interfere : World → Shared → Shared * World;
  env_fault : World → option DbFault * World;
  env_clock_ms : World → Z * World;
  env_elapsed_ms : World → Z * World;
  env_random : World → Felt252 * World;
  env_http : World → HttpRequest → result string HttpResponse * World;
  status_text : Z → string;
}.

(** Other handlers reach the store through its operations only; the clock is a
    [u64] of milliseconds and an HTTP status a [u16]. *)
Class EnvLaws `{!Env} := {
  interfere_store w σ : store_steps (store σ) (store (env_interfere w σ).1);
  clock_range w : in_u64 (env_clock_ms w).1;
  status_range w request response : (env_http w request).1 = Ok response → in_u16 (http_status response);
}.

(** What the handler asked the outside to do, oldest first. *)
Inductive Call :=
| CallProvider (client_request_id payload : string) (payload_hash : Felt252)
| CallHttp (request : HttpRequest).

Context `{!Env}.

(** [writes] are the store operations the handler itself has run, oldest first. *)
Record State := { shared : Shared; world : World; calls : list Call; writes : list StoreOp }.

Definition with_shared (sh : Shared) (σ : State) : State :=
  {| shared := sh; world := world σ; calls := calls σ; writes := writes σ |}.
Definition with_world (w : World) (σ : State) : State :=
  {| shared := shared σ; world := w; calls := calls σ; writes := writes σ |}.
Definition with_store (s : NullifierStore) (σ : State) : State :=
  with_shared {| store := s; root := root (shared σ); hub := hub (shared σ) |} σ.

(** ** The monad *)

Definition M (A : Type) : Type := State → result ServerError A * State.

#[export] Instance M_ret : MRet M := λ A a σ, (Ok a, σ).
#[export] Instance M_bind : MBind M := λ A B f m σ,
  match m σ with
  | (Ok a, σ') => f a σ'
  | (Err e, σ') => (Err e, σ')
  end.

(** [r?] *)
Definition lift {A} (r : result ServerError A) : M A := λ σ, (r, σ).
Definition throw {A} (e : ServerError) : M A := lift (Err e).
(** A panic ends the handler's task; nobody sees the error it is modelled as. *)
Definition panic {A} (m : string) : M A := throw (Internal ("panicked: " +:+ m)%string).
(** A [u128] in [json!]: [serde_json] has no number above [u64::MAX]. *)
Definition json_u128 (n : Z) : M Value :=
  if (n <=? u64_MAX)%Z then mret (Num (PosInt n)) else panic "number out of range".
(** The outcome as a value: [match m { Ok .. Err .. }], [let _ = m]. *)
Definition try {A} (m : M A) : M (result ServerError A) := λ σ, let '(r, σ') := m σ in (Ok r, σ').
Definition guard_err (b : bool) (e : ServerError) : M unit := lift (fail_if b e).

Definition state {A} (f : State → result ServerError A * State) : M A := f.
Definition draw {A} (f : World → A * World) : M A := λ σ,
  let '(a, w) := f (world σ) in (Ok a, with_world w σ).

Definition interfere : M unit := λ σ,
  let '(sh, w) := env_interfere (world σ) (shared σ) in
  (Ok tt, with_world w (with_shared sh σ)).

Definition current_timestamp_ms : M Z := draw env_clock_ms.
Definition current_timestamp : M Z := ms ← current_timestamp_ms; mret (ms / 1000)%Z.
(** [Instant::now().elapsed().as_millis() as u64] of some earlier instant. *)
Definition elapsed_ms : M Z := draw env_elapsed_ms.
Definition random : M Felt252 := draw env_random.

Definition log_call (c : Call) : M unit := λ σ,
  (Ok tt, {| shared := shared σ; world := world σ; calls := (calls σ ++ [c])%list; writes := writes σ |}).
Definition log_write (op : StoreOp) : M unit := λ σ,
  (Ok tt, {| shared := shared σ; world := world σ; calls := calls σ; writes := (writes σ ++ [op])%list |}).

Definition http (request : HttpRequest) : M (result string HttpResponse) :=
  _ ← log_call (CallHttp request);
  draw (λ w, env_http w request).

(** A store operation that reads. *)
Definition db_read {A} (f : option DbFault → NullifierStore → A) : M A :=
  _ ← interfere;
  fault ← draw env_fault;
  state (λ σ, (Ok (f fault (store (shared σ))), σ)).

(** A store operation that writes, at the clock it reads itself. *)
Definition db_op (op : StoreOp) : M unit :=
  _ ← interfere;
  _ ← log_write op;
  fault ← draw env_fault;
  now ← current_timestamp;
  state (λ σ, let '(r, s) := run fault now op (store (shared σ)) in (r, with_store s σ)).

Definition read_root : M Felt252 :=
  _ ← interfere;
  state (λ σ, (Ok (root (shared σ)), σ)).

(** [if let Some(hub) = &self.dashboard]. *)
Definition with_hub {A} (f : DashboardHub → A * DashboardHub) : M (option A) :=
  _ ← interfere;
  state (λ σ, match hub (shared σ) with
       | None => (Ok None, σ)
       | Some h =>
           let '(a, h') := f h in
           (Ok (Some a), with_shared {| store := store (shared σ); root := root (shared σ); hub := Some h' |} σ)
       end).

Fixpoint for_each {A} (l : list A) (f : A → M unit) : M unit :=
  match l with
  | [] => mret tt
  | x :: l' => _ ← f x; for_each l' f
  end.
End world.
