(* ===== verification/WorldTheory.v ===== *)
(** * Reasoning about handlers

    What a program of [World.M] can do to the shared store ([safe]: any sequence
    of store operations), to the outside ([quiet]: no external call) and by itself
    ([silent]: no store operation of its own), closed under the program constructs, and the inversion of a run that returned. *)

From Stdlib Require Import ZArith Lia.
From stdpp Require Import base tactics decidable numbers list strings relations.
From S2P Require Import Prelude Float64 Json Types Errors Store StoreTheory StoreProps.
From S2P Require Import ProviderTypes Dashboard World.

Section theory.
Context `{!FeltOps, !WireTypes, !WireOps, !SqliteText, !Env, !EnvLaws}.

Definition safe {A} (m : M A) : Prop :=
  ∀ σ, store_steps (store (shared σ)) (store (shared (m σ).2)).
Definition quiet {A} (m : M A) : Prop := ∀ σ, calls (m σ).2 = calls σ.
Definition silent {A} (m : M A) : Prop := ∀ σ, writes (m σ).2 = writes σ.

#[export] Instance store_steps_preorder : PreOrder store_steps.
Proof. unfold store_steps. apply _. Qed.

(** ** Runs that returned *)

Lemma bind_M_Ok {A B} (m : M A) (f : A → M B) σ b σ' :
  (m ≫= f) σ = (Ok b, σ') → ∃ a σ1, m σ = (Ok a, σ1) ∧ f a σ1 = (Ok b, σ').
Proof. unfold mbind, M_bind. destruct (m σ) as [[a|e] σ1]; [eauto | discriminate]. Qed.

(** A run of a bind, whatever its outcome. *)
Lemma bind_M_inv {A B} (m : M A) (f : A → M B) σ r σ' :
  (m ≫= f) σ = (r, σ') →
  (∃ e, m σ = (Err e, σ') ∧ r = Err e) ∨ (∃ a σ1, m σ = (Ok a, σ1) ∧ f a σ1 = (r, σ')).
Proof. unfold mbind, M_bind. destruct (m σ) as [[a|e] σ1]; [eauto | intros [= <- <-]; eauto]. Qed.

Lemma bind_M_run {A B} (m : M A) (f : A → M B) σ a σ1 :
  m σ = (Ok a, σ1) → (m ≫= f) σ = f a σ1.
Proof. unfold mbind, M_bind. by intros ->. Qed.

Lemma lift_Ok {A} (r : result ServerError A) σ a σ' : lift r σ = (Ok a, σ') → r = Ok a ∧ σ' = σ.
Proof. by intros [= -> ->]. Qed.

Lemma mret_Ok {A} (a b : A) (σ σ' : State) : (mret a : M A) σ = (Ok b, σ') → b = a ∧ σ' = σ.
Proof. by intros [= -> ->]. Qed.

Lemma guard_err_Ok b e u σ σ' : guard_err b e σ = (Ok u, σ') → b = false ∧ σ' = σ.
Proof. by destruct b; intros [=]. Qed.

Lemma throw_Ok {A} e (a : A) σ σ' : throw e σ = (Ok a, σ') → False.
Proof. by intros [=]. Qed.

Lemma try_Ok {A} (m : M A) r σ σ' : try m σ = (Ok r, σ') → m σ = (r, σ').
Proof. unfold try. destruct (m σ). by intros [= -> ->]. Qed.

Lemma interfere_spec σ :
  ∃ σ', interfere σ = (Ok tt, σ') ∧ calls σ' = calls σ ∧ writes σ' = writes σ
    ∧ store_steps (store (shared σ)) (store (shared σ')).
Proof.
  unfold interfere. pose proof (interfere_store (world σ) (shared σ)) as Hs.
  destruct (env_interfere _ _) as [sh w]. by eexists.
Qed.

(** A run of [draw]: a value of the world, shared data untouched. *)
Lemma draw_Ok {A} (f : World → A * World) a σ σ' :
  draw f σ = (Ok a, σ') →
  a = (f (world σ)).1 ∧ shared σ' = shared σ ∧ calls σ' = calls σ ∧ writes σ' = writes σ.
Proof. unfold draw. destruct (f (world σ)). by intros [= -> <-]. Qed.

Lemma current_timestamp_Ok now σ σ' :
  current_timestamp σ = (Ok now, σ') →
  in_u64 now ∧ shared σ' = shared σ ∧ calls σ' = calls σ ∧ writes σ' = writes σ.
Proof.
  intros (ms & σ1 & Hms & Hret)%bind_M_Ok. apply draw_Ok in Hms as (-> & Hs & Hc & Hw).
  apply mret_Ok in Hret as [-> ->]. split; [|done].
  pose proof (clock_range (world σ)) as [Hl Hu]. split; [by apply Z.div_pos|].
  etransitivity; [|exact Hu]. apply Z.div_le_upper_bound; lia.
Qed.

(** A read sees, under some fault, the store the run ends with. *)
Lemma db_read_Ok {A} (f : option DbFault → NullifierStore → A) x σ σ' :
  db_read f σ = (Ok x, σ') →
  ∃ fault, x = f fault (store (shared σ')) ∧ calls σ' = calls σ ∧ writes σ' = writes σ
    ∧ store_steps (store (shared σ)) (store (shared σ')).
Proof.
  intros (u & σ1 & Hi & (fault & σ2 & Hf & Hx)%bind_M_Ok)%bind_M_Ok.
  destruct (interfere_spec σ) as (σ1' & Hi' & Hc & Hw & Hs). rewrite Hi' in Hi. injection Hi as _ ->.
  apply draw_Ok in Hf as (_ & Hsh & Hc' & Hw'). injection Hx as <- <-.
  exists fault. rewrite Hsh. split; [done|]. split; [congruence|]. split; [congruence|done].
Qed.

(** A write ran its operation, at some clock and under some fault, on a store
    other handlers may have moved to. *)
Lemma db_op_run op r σ σ' :
  db_op op σ = (r, σ') →
  ∃ fault now s, run fault now op s = (r, store (shared σ')) ∧ in_u64 now
    ∧ store_steps (store (shared σ)) s ∧ calls σ' = calls σ ∧ writes σ' = (writes σ ++ [op])%list.
Proof.
  unfold db_op. destruct (interfere_spec σ) as (σ1 & Hi & Hc & Hw & Hs).
  rewrite (bind_M_run _ _ _ _ _ Hi). rewrite (bind_M_run (log_write op) _ σ1 tt _ eq_refl).
  set (σ2 := {| shared := shared σ1; world := world σ1; calls := calls σ1; writes := _ |}).
  destruct (draw env_fault σ2) as [[fault|e] σ3] eqn:Hf; [|by unfold draw in Hf; destruct (env_fault _)].
  rewrite (bind_M_run _ _ _ _ _ Hf). apply draw_Ok in Hf as (_ & Hsh & Hc3 & Hw3).
  destruct (current_timestamp σ3) as [[now|e] σ4] eqn:Hn;
    [|unfold current_timestamp, current_timestamp_ms, draw, mbind, M_bind in Hn;
      by destruct (env_clock_ms _)].
  rewrite (bind_M_run _ _ _ _ _ Hn). apply current_timestamp_Ok in Hn as (Hr & Hsh4 & Hc4 & Hw4).
  unfold state. destruct (run fault now op _) as [r' s'] eqn:Hrun. intros [= <- <-].
  exists fault, now, (store (shared σ1)). rewrite Hsh4, Hsh in Hrun.
  split; [done|]. split; [done|]. split; [done|]. simpl. rewrite Hc4, Hc3, Hw4, Hw3. simpl.
  by rewrite Hc, Hw.
Qed.

(** ** Closure *)

Lemma bind_safe {A B} (m : M A) (f : A → M B) : safe m → (∀ a, safe (f a)) → safe (m ≫= f).
Proof.
  intros Hm Hf σ. specialize (Hm σ). unfold mbind, M_bind.
  destruct (m σ) as [[a|e] σ1]; [|done]. etransitivity; [exact Hm | apply Hf].
Qed.
Lemma bind_quiet {A B} (m : M A) (f : A → M B) : quiet m → (∀ a, quiet (f a)) → quiet (m ≫= f).
Proof.
  intros Hm Hf σ. specialize (Hm σ). unfold mbind, M_bind.
  destruct (m σ) as [[a|e] σ1]; [|done]. simpl in *. by rewrite Hf.
Qed.

Lemma bind_silent {A B} (m : M A) (f : A → M B) : silent m → (∀ a, silent (f a)) → silent (m ≫= f).
Proof.
  intros Hm Hf σ. specialize (Hm σ). unfold mbind, M_bind.
  destruct (m σ) as [[a|e] σ1]; [|done]. simpl in *. by rewrite Hf.
Qed.

Lemma mret_silent {A} (a : A) : silent (mret a : M A). Proof. by intros σ. Qed.
Lemma lift_silent {A} (r : result ServerError A) : silent (lift r). Proof. by intros σ. Qed.
Lemma throw_silent {A} e : silent (throw (A := A) e). Proof. by intros σ. Qed.
Lemma guard_err_silent b e : silent (guard_err b e). Proof. by intros σ. Qed.
Lemma draw_silent {A} (f : World → A * World) : silent (draw f).
Proof. intros σ. unfold draw. by destruct (f (world σ)). Qed.
Lemma interfere_silent : silent interfere.
Proof. intros σ. unfold interfere. by destruct (env_interfere _ _). Qed.
Lemma try_silent {A} (m : M A) : silent m → silent (try m).
Proof. intros Hm σ. specialize (Hm σ). unfold try. by destruct (m σ). Qed.
Lemma log_call_silent c : silent (log_call c). Proof. by intros σ. Qed.
Lemma log_write_safe op : safe (log_write op). Proof. by intros σ. Qed.
Lemma log_write_quiet op : quiet (log_write op). Proof. by intros σ. Qed.
Lemma mret_safe {A} (a : A) : safe (mret a : M A). Proof. by intros σ. Qed.
Lemma mret_quiet {A} (a : A) : quiet (mret a : M A). Proof. by intros σ. Qed.
Lemma lift_safe {A} (r : result ServerError A) : safe (lift r). Proof. by intros σ. Qed.
Lemma lift_quiet {A} (r : result ServerError A) : quiet (lift r). Proof. by intros σ. Qed.
Lemma throw_safe {A} e : safe (throw (A := A) e). Proof. by intros σ. Qed.
Lemma throw_quiet {A} e : quiet (throw (A := A) e). Proof. by intros σ. Qed.
Lemma guard_err_safe b e : safe (guard_err b e). Proof. by intros σ. Qed.
Lemma guard_err_quiet b e : quiet (guard_err b e). Proof. by intros σ. Qed.
Lemma draw_safe {A} (f : World → A * World) : safe (draw f).
Proof. intros σ. unfold draw. by destruct (f (world σ)). Qed.
Lemma draw_quiet {A} (f : World → A * World) : quiet (draw f).
Proof. intros σ. unfold draw. by destruct (f (world σ)). Qed.
Lemma interfere_safe : safe interfere.
Proof. intros σ. destruct (interfere_spec σ) as (σ' & -> & _ & _ & Hs). exact Hs. Qed.
Lemma interfere_quiet : quiet interfere.
Proof. intros σ. unfold interfere. by destruct (env_interfere _ _). Qed.
Lemma try_safe {A} (m : M A) : safe m → safe (try m).
Proof. intros Hm σ. specialize (Hm σ). unfold try. by destruct (m σ). Qed.
Lemma try_quiet {A} (m : M A) : quiet m → quiet (try m).
Proof. intros Hm σ. specialize (Hm σ). unfold try. by destruct (m σ). Qed.
Lemma log_call_safe c : safe (log_call c). Proof. by intros σ. Qed.

Lemma db_op_safe op : safe (db_op op).
Proof.
  intros σ. destruct (db_op op σ) as [r σ'] eqn:Hop.
  apply db_op_run in Hop as (fault & now & s & Hrun & _ & Hs & _ & _). simpl.
  etransitivity; [exact Hs|]. apply rtc_once. exists fault, now, op. by rewrite Hrun.
Qed.
Lemma db_op_quiet op : quiet (db_op op).
Proof.
  unfold db_op, current_timestamp, current_timestamp_ms.
  repeat (apply bind_quiet; [|intros ?]); auto using interfere_quiet, draw_quiet, mret_quiet, log_write_quiet.
  intros σ. unfold state. by destruct (run _ _ _ _).
Qed.
End theory.

Create HintDb handlers discriminated.
#[export] Hint Resolve bind_safe bind_quiet mret_safe mret_quiet lift_safe lift_quiet throw_safe
  throw_quiet guard_err_safe guard_err_quiet draw_safe draw_quiet interfere_safe interfere_quiet
  try_safe try_quiet log_call_safe db_op_safe db_op_quiet bind_silent mret_silent lift_silent
  throw_silent guard_err_silent draw_silent interfere_silent try_silent log_call_silent : handlers.

(** Prove [safe m], [quiet m] or [silent m] of a program by its structure. *)
Ltac program :=
  repeat match goal with
  | |- safe (mbind _ _) => apply bind_safe; [|intros ?]
  | |- quiet (mbind _ _) => apply bind_quiet; [|intros ?]
  | |- silent (mbind _ _) => apply bind_silent; [|intros ?]
  | |- silent (match ?x with _ => _ end) => destruct x
  | |- safe (match ?x with _ => _ end) => destruct x
  | |- quiet (match ?x with _ => _ end) => destruct x
  | _ => progress (auto with handlers)
  end.

Section shared.
Context `{!FeltOps, !WireTypes, !WireOps, !SqliteText, !Env, !EnvLaws}.

Lemma current_timestamp_safe : safe current_timestamp. Proof. unfold current_timestamp, current_timestamp_ms. program. Qed.
Lemma current_timestamp_quiet : quiet current_timestamp. Proof. unfold current_timestamp, current_timestamp_ms. program. Qed.

Lemma db_read_safe {A} (f : option DbFault → NullifierStore → A) : safe (db_read f).
Proof. unfold db_read. program. by intros σ. Qed.
Lemma db_read_quiet {A} (f : option DbFault → NullifierStore → A) : quiet (db_read f).
Proof. unfold db_read. program. by intros σ. Qed.
Lemma read_root_safe : safe read_root.
Proof. unfold read_root. program. by intros σ. Qed.
Lemma read_root_quiet : quiet read_root.
Proof. unfold read_root. program. by intros σ. Qed.
Lemma with_hub_safe {A} (f : DashboardHub → A * DashboardHub) : safe (with_hub f).
Proof.
  unfold with_hub. program. intros σ. unfold state.
  destruct (hub (shared σ)) as [h|]; [by destruct (f h) | done].
Qed.
Lemma with_hub_quiet {A} (f : DashboardHub → A * DashboardHub) : quiet (with_hub f).
Proof.
  unfold with_hub. program. intros σ. unfold state.
  destruct (hub (shared σ)) as [h|]; [by destruct (f h) | done].
Qed.
Lemma current_timestamp_silent : silent current_timestamp.
Proof. unfold current_timestamp, current_timestamp_ms. program. Qed.
Lemma db_read_silent {A} (f : option DbFault → NullifierStore → A) : silent (db_read f).
Proof. unfold db_read. program. by intros σ. Qed.
Lemma read_root_silent : silent read_root.
Proof. unfold read_root. program. by intros σ. Qed.
Lemma with_hub_silent {A} (f : DashboardHub → A * DashboardHub) : silent (with_hub f).
Proof.
  unfold with_hub. program. intros σ. unfold state.
  destruct (hub (shared σ)) as [h|]; [by destruct (f h) | done].
Qed.
Lemma http_safe request : safe (http request).
Proof. unfold http. program. Qed.
Lemma json_u128_safe n : safe (json_u128 n).
Proof. unfold json_u128, panic. program. Qed.
Lemma json_u128_quiet n : quiet (json_u128 n).
Proof. unfold json_u128, panic. program. Qed.
Lemma for_each_safe {A} (l : list A) f : (∀ x, safe (f x)) → safe (for_each l f).
Proof. intros Hf. induction l as [|x l IH]; simpl; program. Qed.
End shared.
#[export] Hint Resolve current_timestamp_safe current_timestamp_quiet db_read_safe db_read_quiet
  read_root_safe read_root_quiet with_hub_safe with_hub_quiet http_safe json_u128_safe json_u128_quiet
  for_each_safe current_timestamp_silent db_read_silent read_root_silent with_hub_silent : handlers.

Section runs.
Context `{!FeltOps, !WireTypes, !WireOps, !SqliteText, !Env, !EnvLaws}.

Lemma safe_run {A} (m : M A) σ r σ' :
  safe m → m σ = (r, σ') → store_steps (store (shared σ)) (store (shared σ')).
Proof. intros Hm Hr. specialize (Hm σ). by rewrite Hr in Hm. Qed.
Lemma safe_run_wf {A} (m : M A) σ r σ' :
  safe m → m σ = (r, σ') → store_wf (store (shared σ)) → store_wf (store (shared σ')).
Proof. intros Hm Hr Hwf. eapply store_steps_wf; [exact Hwf|]. by eapply safe_run. Qed.
Lemma quiet_run {A} (m : M A) σ r σ' : quiet m → m σ = (r, σ') → calls σ' = calls σ.
Proof. intros Hm Hr. specialize (Hm σ). by rewrite Hr in Hm. Qed.
Lemma silent_run {A} (m : M A) σ r σ' : silent m → m σ = (r, σ') → writes σ' = writes σ.
Proof. intros Hm Hr. specialize (Hm σ). by rewrite Hr in Hm. Qed.
End runs.

(** Carry the store's steps forward along every run in the context: afterwards
    each run [m σ = (_, σ')] has its [store_steps]. *)
Ltac run_steps :=
  repeat match goal with
  | H : ?m ?σ = (_, ?σ') |- _ =>
      lazymatch goal with
      | _ : store_steps (store (shared σ)) (store (shared σ')) |- _ => fail
      | |- _ => assert (store_steps (store (shared σ)) (store (shared σ')))
                  by (eapply safe_run; [|exact H]; program)
      end
  end.
(** The same for the handler's own writes, along its silent runs. *)
Ltac run_writes :=
  repeat match goal with
  | H : ?m ?σ = (_, ?σ') |- _ =>
      lazymatch goal with
      | _ : writes σ' = writes σ |- _ => fail
      | |- _ => assert (writes σ' = writes σ) by (eapply silent_run; [|exact H]; solve [program])
      end
  end.
(** The same for the external calls, along its quiet runs. *)
Ltac run_calls :=
  repeat match goal with
  | H : ?m ?σ = (_, ?σ') |- _ =>
      lazymatch goal with
      | _ : calls σ' = calls σ |- _ => fail
      | |- _ => assert (calls σ' = calls σ) by (eapply quiet_run; [|exact H]; solve [program])
      end
  end.
(** Split a run, whatever its outcome, at each step it may have stopped at. *)
Ltac inv_any H :=
  repeat match type of H with
  | mbind _ _ _ = _ =>
      let Hm := fresh "Hm" in
      apply bind_M_inv in H as [(? & Hm & ->)|(? & ? & Hm & H)]
  | (match ?x with _ => _ end) _ = _ => destruct x eqn:?
  end.
(** Well-formedness along those steps. *)
Ltac wf_steps :=
  repeat match goal with
  | Hwf : store_wf ?s, H : store_steps ?s ?s' |- _ =>
      lazymatch goal with
      | _ : store_wf s' |- _ => fail
      | |- _ => pose proof (store_steps_wf _ _ Hwf H)
      end
  end.
(** Compose the steps in the context. *)
Ltac steps :=
  first [eassumption | reflexivity
        | match goal with
          | H : store_steps ?s _ |- store_steps ?s _ => etransitivity; [exact H|]; clear H; steps
          end].

(** Invert a run [m σ = (Ok a, σ')] of a program step by step. *)
Ltac inv_run :=
  repeat match goal with
  | H : mbind _ _ _ = (Ok _, _) |- _ => apply bind_M_Ok in H as (? & ? & ? & ?)
  | H : lift _ _ = (Ok _, _) |- _ => apply lift_Ok in H as [? ->]
  | H : guard_err _ _ _ = (Ok _, _) |- _ => apply guard_err_Ok in H as [? ->]
  | H : mret _ _ = (Ok _, _) |- _ => apply mret_Ok in H as [? ->]
  | H : throw _ _ = (Ok _, _) |- _ => apply throw_Ok in H; destruct H
  | H : try _ _ = (Ok _, _) |- _ => apply try_Ok in H
  | u : unit |- _ => destruct u
  end.
