(* ===== verification/Progress.v ===== *)
(** * Runs that complete

    Total correctness of handler programs in calm worlds: worlds, closed under
    everything a handler asks, where no other handler interferes and the database
    does not fail. [completes φ m ψ]: from a state whose shared data satisfies
    [φ], the program returns, with a value and shared data related by [ψ]. *)

From Stdlib Require Import ZArith Lia.
From stdpp Require Import base tactics decidable numbers list strings relations.
From S2P Require Import Prelude Float64 Json Types Errors Store StoreTheory StoreProps.
From S2P Require Import ProviderTypes Dashboard World WorldTheory.

Section progress.
Context `{!FeltOps, !WireTypes, !WireOps, !SqliteText, !Env, !EnvLaws}.

Class Calm (P : World → Prop) := {
  calm_interfere w sh : P w → (env_interfere w sh).1 = sh ∧ P (env_interfere w sh).2;
  calm_fault w : P w → (env_fault w).1 = None ∧ P (env_fault w).2;
  calm_clock w : P w → P (env_clock_ms w).2;
  calm_elapsed w : P w → P (env_elapsed_ms w).2;
  calm_random w : P w → P (env_random w).2;
}.

Context (P : World → Prop) `{!Calm P}.

Definition completes {A} (φ : Shared → Prop) (m : M A) (ψ : A → Shared → Prop) : Prop :=
  ∀ σ, P (world σ) → φ (shared σ) →
    ∃ a σ', m σ = (Ok a, σ') ∧ P (world σ') ∧ ψ a (shared σ').

Lemma completes_ret {A} (a : A) φ (ψ : A → Shared → Prop) :
  (∀ sh, φ sh → ψ a sh) → completes φ (mret a : M A) ψ.
Proof. intros Hψ σ Hw Hs. exists a, σ. split; [done|]. auto. Qed.

Lemma completes_bind {A B} φ (m : M A) χ (f : A → M B) ψ :
  completes φ m χ → (∀ a, completes (χ a) (f a) ψ) → completes φ (m ≫= f) ψ.
Proof.
  intros Hm Hf σ Hw Hs. destruct (Hm σ Hw Hs) as (a & σ1 & Hrun & Hw1 & Hs1).
  rewrite (bind_M_run _ _ _ _ _ Hrun). by apply Hf.
Qed.

Lemma completes_pure {A} (φ : Shared → Prop) (m : M A) ψ (p : Prop) :
  (p → completes φ m ψ) → completes (λ sh, p ∧ φ sh) m ψ.
Proof. intros Hm σ Hw [Hp Hs]. by apply Hm. Qed.

(** Name the shared data a program starts from. *)
Lemma completes_at {A} (φ : Shared → Prop) (m : M A) ψ :
  (∀ sh, φ sh → completes (eq sh) m ψ) → completes φ m ψ.
Proof. intros Hm σ Hw Hs. by apply (Hm _ Hs σ Hw). Qed.
Lemma completes_world {A} (φ : Shared → Prop) (m : M A) ψ :
  (∀ w, P w → completes φ m ψ) → completes φ m ψ.
Proof. intros Hm σ Hw Hs. by apply (Hm _ Hw σ Hw). Qed.

Lemma completes_lift {A} (r : result ServerError A) φ (ψ : A → Shared → Prop) :
  (∃ a, r = Ok a ∧ ∀ sh, φ sh → ψ a sh) → completes φ (lift r) ψ.
Proof. intros (a & -> & Hψ) σ Hw Hs. exists a, σ. split; [done|]. auto. Qed.

Lemma completes_guard b e φ : b = false → completes φ (guard_err b e) (λ _, φ).
Proof. intros -> σ Hw Hs. exists tt, σ. split; [reflexivity|done]. Qed.

Lemma completes_draw {A} (f : World → A * World) φ :
  (∀ w, P w → P (f w).2) → completes φ (draw f) (λ a sh, (∃ w, P w ∧ a = (f w).1) ∧ φ sh).
Proof.
  intros Hf σ Hw Hs. specialize (Hf _ Hw) as Hw'. exists (f (world σ)).1, (with_world (f (world σ)).2 σ).
  split; [|split; [done|]].
  - unfold draw. by destruct (f (world σ)).
  - split; [by exists (world σ)|done].
Qed.

Lemma completes_interfere φ : completes φ interfere (λ _, φ).
Proof.
  intros σ Hw Hs. destruct (calm_interfere _ (shared σ) Hw) as [Hsh Hw'].
  unfold interfere. destruct (env_interfere _ _) as [sh w]. simpl in *. subst sh.
  eexists _, _. split; [done|]. by destruct σ.
Qed.

Lemma completes_timestamp φ :
  completes φ current_timestamp
    (λ now sh, (in_u64 now ∧ ∃ w, P w ∧ now = ((env_clock_ms w).1 / 1000)%Z) ∧ φ sh).
Proof.
  intros σ Hw Hs. destruct (completes_draw env_clock_ms φ calm_clock σ Hw Hs) as (ms & σ1 & Hd & Hw1 & (w & Hpw & ->) & Hs1).
  assert (current_timestamp σ = (Ok ((env_clock_ms w).1 / 1000)%Z, σ1)) as Hrun.
  { unfold current_timestamp, current_timestamp_ms. by rewrite (bind_M_run _ _ _ _ _ Hd). }
  eexists _, σ1. split; [exact Hrun|]. apply current_timestamp_Ok in Hrun as [Hr _]. eauto 10.
Qed.

Lemma calm_fault_draw (φ : Shared → Prop) σ :
  P (world σ) → φ (shared σ) → ∃ σ1, draw env_fault σ = (Ok None, σ1) ∧ P (world σ1) ∧ φ (shared σ1).
Proof.
  intros Hw Hs. destruct (calm_fault _ Hw) as [Hf Hw']. exists (with_world (env_fault (world σ)).2 σ).
  split; [|done]. rewrite <- Hf. unfold draw. by destruct (env_fault (world σ)).
Qed.

Lemma completes_read {A} (f : option DbFault → NullifierStore → A) φ :
  completes φ (db_read f) (λ a sh, a = f None (store sh) ∧ φ sh).
Proof.
  eapply completes_bind; [apply (completes_interfere φ)|]. intros ?; cbn beta.
  intros σ Hw Hs. destruct (calm_fault_draw φ σ Hw Hs) as (σ1 & Hd & Hw1 & Hs1).
  rewrite (bind_M_run _ _ _ _ _ Hd). exists (f None (store (shared σ1))), σ1. split; [reflexivity|]. auto.
Qed.

Lemma completes_op op φ (ψ : Shared → Prop) :
  (∀ sh now, φ sh → in_u64 now → ∃ s', run None now op (store sh) = (Ok tt, s')
     ∧ ψ {| store := s'; root := root sh; hub := hub sh |}) →
  completes φ (db_op op) (λ _, ψ).
Proof.
  intros Hrun σ Hw Hs. unfold db_op.
  destruct (completes_interfere φ σ Hw Hs) as (u & σ1 & Hi & Hw1 & Hs1). rewrite (bind_M_run _ _ _ _ _ Hi).
  rewrite (bind_M_run (log_write op) _ σ1 tt _ eq_refl).
  set (σ2 := {| shared := shared σ1; world := world σ1; calls := calls σ1; writes := _ |}).
  destruct (calm_fault_draw φ σ2 Hw1 Hs1) as (σ3 & Hd & Hw2 & Hs2). rewrite (bind_M_run _ _ _ _ _ Hd).
  destruct (completes_timestamp φ σ3 Hw2 Hs2) as (now & σ4 & Hn & Hw4 & (Hr & _) & Hs4).
  rewrite (bind_M_run _ _ _ _ _ Hn). destruct (Hrun _ _ Hs4 Hr) as (s' & Hop & Hψ).
  unfold state. rewrite Hop. eexists _, _. split; [reflexivity|]. auto.
Qed.

Lemma completes_root φ : completes φ read_root (λ r sh, r = root sh ∧ φ sh).
Proof.
  eapply completes_bind; [apply (completes_interfere φ)|]. intros ?; cbn beta.
  intros σ Hw Hs. exists (root (shared σ)), σ. split; [reflexivity|]. auto.
Qed.

(** The dashboard hub may or may not be there; the rest of the data stays. *)
Definition hub_free (φ : Shared → Prop) : Prop :=
  ∀ sh h, φ sh → φ {| store := store sh; root := root sh; hub := h |}.
Lemma completes_hub {A} (f : DashboardHub → A * DashboardHub) φ :
  hub_free φ → completes φ (with_hub f) (λ _, φ).
Proof.
  intros Hφ. eapply completes_bind; [apply (completes_interfere φ)|]. intros ?; cbn beta.
  intros σ Hw Hs. unfold state. destruct (hub (shared σ)) as [h|]; [destruct (f h)|]; eexists _, _;
    (split; [reflexivity|]); [|done]. split; [exact Hw|]. by apply Hφ.
Qed.

Lemma completes_weaken {A} (φ φ' : Shared → Prop) (m : M A) (ψ ψ' : A → Shared → Prop) :
  (∀ sh, φ sh → φ' sh) → (∀ a sh, ψ' a sh → ψ a sh) → completes φ' m ψ' → completes φ m ψ.
Proof. intros Hφ Hψ Hm σ Hw Hs. destruct (Hm σ Hw (Hφ _ Hs)) as (a & σ' & ? & ? & ?). eauto 10. Qed.
End progress.

(** One step of a program, by the rule for its head; then name the data again. *)
Ltac step rule := eapply completes_bind; [rule|intros ?; apply completes_at; intros ?; cbn beta].
