(* ===== verification/OpenRouter.v ===== *)
(** * The OpenRouter management client: [zkapi-serverd/src/openrouter.rs]

    Creating, reading, deleting and reconciling runtime keys over HTTP. *)

From Stdlib Require Import ZArith Lia Ascii.
From stdpp Require Import base tactics decidable numbers list strings.
From S2P Require Import Prelude Float64 Json Http Types Errors Store StoreTheory World.

Local Open Scope string_scope.

(** ** Timestamps *)

(** Days since the epoch to the civil date, and the time of day. *)
Definition civil_from_days (days : Z) : Z * Z * Z :=
  (let z := days + 719468 in
   let era := (if 0 <=? z then z else z - 146096) ÷ 146097 in
   let doe := z - era * 146097 in
   let yoe := (doe - doe ÷ 1460 + doe ÷ 36524 - doe ÷ 146096) ÷ 365 in
   let y := yoe + era * 400 in
   let doy := doe - (365 * yoe + yoe ÷ 4 - yoe ÷ 100) in
   let mp := (5 * doy + 2) ÷ 153 in
   let day := doy - (153 * mp + 2) ÷ 5 + 1 in
   let month := if mp <? 10 then mp + 3 else mp - 9 in
   let year := if month <=? 2 then y + 1 else y in
   (year, month, day))%Z.

Definition unix_to_iso8601 (secs : Z) : string :=
  let days := cast_i64 (secs / 86400) in
  let rem := (secs mod 86400)%Z in
  let '(hour, min, sec) := (rem / 3600, (rem mod 3600) / 60, rem mod 60)%Z in
  let '(year, month, day) := civil_from_days days in
  show_padded 4 year +:+ "-" +:+ show_padded 2 month +:+ "-" +:+ show_padded 2 day +:+ "T"
    +:+ show_padded 2 hour +:+ ":" +:+ show_padded 2 min +:+ ":" +:+ show_padded 2 sec +:+ "Z".

Definition openrouter_expiry_matches (actual expected : string) : bool :=
  String.eqb actual expected
  || match strip_suffix "Z" expected with
     | Some prefix => String.eqb actual (prefix +:+ ".000Z")
     | None => false
     end.

(** The last character boundary at or before byte [i]. *)
Definition is_continuation (c : ascii) : bool := (128 <=? N_of_ascii c)%N && (N_of_ascii c <? 192)%N.
Fixpoint floor_boundary (s : string) (i : nat) : nat :=
  match i with
  | O => O
  | S i' =>
      match String.get i s with
      | Some c => if is_continuation c then floor_boundary s i' else i
      | None => floor_boundary s i'
      end
  end.
Definition truncate (value : string) (max : nat) : string :=
  if (String.length value <=? max)%nat then value
  else String.substring 0 (floor_boundary value max) value +:+ bytes [226; 128; 166].

(** ** Wire data *)

Record CreatedKey := { created_key : string; created_hash : string }.
Record KeyUsage := { usage_usd : f64 }.
Record OpenRouterProvisioner := { management_key : string; base : string }.

Record KeyData := {
  kd_hash : string;
  kd_usage : f64;
  kd_byok_usage : f64;
  kd_name : string;
  kd_limit : option f64;
  kd_expires_at : option string;
  kd_include_byok_in_limit : bool;
}.

Definition decode_KeyData (v : Value) : option KeyData :=
  m ← as_object v;
  hash ← field_default as_str "" "hash" m;
  usage ← field_default as_f64 f64_zero "usage" m;
  byok_usage ← field_default as_f64 f64_zero "byok_usage" m;
  name ← field_default as_str "" "name" m;
  limit ← field_opt as_f64 "limit" m;
  expires_at ← field_opt as_str "expires_at" m;
  include_byok_in_limit ← field_default as_bool false "include_byok_in_limit" m;
  Some {| kd_hash := hash; kd_usage := usage; kd_byok_usage := byok_usage; kd_name := name;
          kd_limit := limit; kd_expires_at := expires_at;
          kd_include_byok_in_limit := include_byok_in_limit |}.

Definition decode_CreateKeyEnvelope (v : Value) : option (string * KeyData) :=
  m ← as_object v;
  key ← field_req as_str "key" m;
  data ← field_req decode_KeyData "data" m;
  Some (key, data).
Definition decode_GetKeyEnvelope (v : Value) : option KeyData :=
  m ← as_object v; field_req decode_KeyData "data" m.
Definition decode_ListKeysEnvelope (v : Value) : option (list KeyData) :=
  m ← as_object v; l ← field_req as_array "data" m; mapM decode_KeyData l.

Definition provisioner_new (client : result string unit) (management_key base : string)
    : result ServerError OpenRouterProvisioner :=
  _ ← map_err (λ error, Internal ("failed to build OpenRouter client: " +:+ error)) client;
  Ok {| management_key := management_key; base := trim_end_matches "/" base |}.

Section client.
Context `{!FeltOps, !WireTypes, !WireOps, !SqliteText, !JsonText, !SerdeText, !Env}.
Implicit Types (self : OpenRouterProvisioner).

Definition inference_base self : string := base self +:+ "/v1".
Definition keys_url self : string := base self +:+ "/v1/keys".
Definition key_url self (hash : string) : string := base self +:+ "/v1/keys/" +:+ hash.

(** A management request with the bearer key. *)
Definition management_request self (method url : string) (query : list (string * string))
    (body : HttpBody) : HttpRequest := {|
  http_method := method;
  http_url := url;
  http_bearer := Some (management_key self);
  http_headers := [];
  http_query := query;
  http_body := body;
|}.

(** [send().await.map_err(..)?] *)
Definition send (request : HttpRequest) (failed : string) : M HttpResponse :=
  response ← http request;
  lift (map_err (λ error, Internal (failed +:+ error)) response).

(** Read the body, then require a success status: the text. *)
Definition read_success (response : HttpResponse) (read_failed returned : string) (max : nat) : M string :=
  text ← lift (map_err (λ error, Internal (read_failed +:+ error)) (http_text response));
  _ ← guard_err (negb (is_success (http_status response)))
        (Internal (returned +:+ status_text (http_status response) +:+ ": " +:+ truncate text max));
  mret text.

Definition delete_key self (hash : string) : M unit :=
  response ← send (management_request self "DELETE" (key_url self hash) [] NoBody)
               "OpenRouter key deletion failed: ";
  if negb (is_success (http_status response)) then
    let text := default "" (ok (http_text response)) in
    throw (Internal ("OpenRouter key deletion returned " +:+ status_text (http_status response)
                     +:+ ": " +:+ truncate text 200))
  else mret tt.

(** The limit the provider reports is the one asked for, up to rounding. *)
Definition limit_matches (limit : option f64) (limit_usd : f64) : bool :=
  match limit with
  | Some limit =>
      f64_leb (f64_abs (f64_sub limit limit_usd))
        (f64_max f64_epsilon (f64_mul limit_usd (f64_lit 1 9)))
  | None => false
  end.
Definition expiry_matches (expires_at : option string) (expected : string) : bool :=
  match expires_at with
  | Some actual => openrouter_expiry_matches actual expected
  | None => false
  end.

Definition create_body (name : string) (limit_usd : f64) (expires_at_iso : string) : Value :=
  json_object [("name", Str name); ("limit", json_f64 limit_usd);
               ("expires_at", Str expires_at_iso); ("include_byok_in_limit", Bool true)].

Definition create_key self (name : string) (limit_usd : f64) (expires_at : Z) : M CreatedKey :=
  let expires_at_iso := unix_to_iso8601 expires_at in
  response ← send (management_request self "POST" (keys_url self) []
                     (JsonBody (create_body name limit_usd expires_at_iso)))
               "OpenRouter key creation failed: ";
  text ← read_success response "OpenRouter key response failed: "
           "OpenRouter key creation returned " 300;
  '(key, data) ← lift (map_err (λ error, Internal ("invalid OpenRouter key response: " +:+ error))
                   (from_str decode_CreateKeyEnvelope text));
  _ ← guard_err (String.eqb key "" || String.eqb (kd_hash data) "")
        (Internal "OpenRouter returned an incomplete key response");
  if negb (limit_matches (kd_limit data) limit_usd)
     || negb (expiry_matches (kd_expires_at data) expires_at_iso)
     || negb (kd_include_byok_in_limit data)
  then
    _ ← try (delete_key self (kd_hash data));
    throw (Internal "OpenRouter did not apply the requested key limit and expiry")
  else mret {| created_key := key; created_hash := kd_hash data |}.

Definition get_key_usage self (hash : string) : M KeyUsage :=
  response ← send (management_request self "GET" (key_url self hash) [] NoBody)
               "OpenRouter usage read failed: ";
  text ← read_success response "OpenRouter usage response failed: "
           "OpenRouter usage read returned " 300;
  data ← lift (map_err (λ error, Internal ("invalid OpenRouter usage response: " +:+ error))
           (from_str decode_GetKeyEnvelope text));
  mret {| usage_usd := f64_add (f64_max (kd_usage data) f64_zero)
                         (f64_max (kd_byok_usage data) f64_zero) |}.

Definition usize_add (a b : Z) : Z := saturating_add u64_MAX a b.

(** One page of the key listing. *)
Definition list_page self (offset : Z) : M (list KeyData) :=
  response ← send (management_request self "GET" (keys_url self)
                     [("offset", show_uint offset)] NoBody)
               "OpenRouter key listing failed: ";
  text ← read_success response "OpenRouter key-list response failed: "
           "OpenRouter key listing returned " 300;
  lift (map_err (λ error, Internal ("invalid OpenRouter key-list response: " +:+ error))
    (from_str decode_ListKeysEnvelope text)).

Definition matching (name : string) (data : list KeyData) : list string :=
  map kd_hash (filter (λ key, (String.eqb (kd_name key) name && negb (String.eqb (kd_hash key) "")) = true) data).

(** The listing loop; [fuel] bounds the pages read. *)
Fixpoint list_matching self (name : string) (fuel : nat) (offset : Z) (hashes : list string)
    : M (list string) :=
  match fuel with
  | O => throw (Internal "unreachable")
  | S fuel' =>
      data ← list_page self offset;
      match data with
      | [] => mret hashes
      | _ =>
          let offset := usize_add offset (Z.of_nat (length data)) in
          let hashes := (hashes ++ matching name data)%list in
          if (10000 <? offset)%Z
          then throw (Internal "OpenRouter key reconciliation exceeded 10,000 keys")
          else list_matching self name fuel' offset hashes
      end
  end.

Definition list_fuel : nat := Z.to_nat 10001.

Definition delete_keys_named self (name : string) : M unit :=
  hashes ← list_matching self name list_fuel 0 [];
  for_each hashes (delete_key self).
End client.
