(* ===== verification/OpenRouterTheory.v ===== *)
(** * The OpenRouter management client: dates, limits and the listing loop *)

From Stdlib Require Import ZArith Lia Ascii SpecFloat.
From stdpp Require Import base tactics decidable numbers list strings relations.
From S2P Require Import Prelude Float64 Json Http Types Errors Store StoreTheory StoreProps.
From S2P Require Import ProviderTypes Dashboard World WorldTheory OpenRouter.

Local Open Scope string_scope.

(** ** Civil dates *)

Definition leap (y : Z) : bool :=
  ((y mod 4 =? 0) && (negb (y mod 100 =? 0) || (y mod 400 =? 0)))%Z.
Definition month_length (y m : Z) : Z :=
  (if m =? 2 then if leap y then 29 else 28
   else if (m =? 4) || (m =? 6) || (m =? 9) || (m =? 11) then 30 else 31)%Z.
Definition valid_date (date : Z * Z * Z) : bool :=
  let '(y, m, d) := date in ((1 <=? m) && (m <=? 12) && (1 <=? d) && (d <=? month_length y m))%Z.

(** Days from the epoch to a date of the proleptic Gregorian calendar: whole
    years, whole months, days. *)
Definition days_before_year (y : Z) : Z := (365 * (y - 1) + (y - 1) / 4 - (y - 1) / 100 + (y - 1) / 400)%Z.
Definition days_before_month (y m : Z) : Z :=
  (if m <=? 2 then 31 * (m - 1) else (153 * m - 457) / 5 + 59 + (if leap y then 1 else 0))%Z.
Definition date_days (date : Z * Z * Z) : Z :=
  let '(y, m, d) := date in (days_before_year y + days_before_month y m + d - 1 - 719162)%Z.

Definition sum_to (f : Z → Z) (n : nat) : Z := foldr (λ k a, f (Z.of_nat k + 1) + a)%Z 0%Z (List.seq 0 n).
(** [days_before_month] is the sum of the month lengths. *)
Lemma days_before_month_sum y m :
  (1 ≤ m ≤ 12)%Z → days_before_month y m = sum_to (month_length y) (Z.to_nat (m - 1)).
Proof.
  intros Hm. assert (m = 1 ∨ m = 2 ∨ m = 3 ∨ m = 4 ∨ m = 5 ∨ m = 6 ∨ m = 7 ∨ m = 8 ∨ m = 9 ∨ m = 10
    ∨ m = 11 ∨ m = 12)%Z as Hc by lia.
  repeat destruct Hc as [->|Hc]; [..|subst m]; unfold days_before_month, sum_to, month_length; simpl;
    destruct (leap y); reflexivity.
Qed.

Lemma days_before_year_step y :
  days_before_year (y + 1) = (days_before_year y + 365 + (if leap y then 1 else 0))%Z.
Proof.
  unfold days_before_year, leap. replace (y + 1 - 1)%Z with y by lia.
  destruct (Z.eqb_spec (y mod 4) 0), (Z.eqb_spec (y mod 100) 0), (Z.eqb_spec (y mod 400) 0); simpl;
    Z.div_mod_to_equations; lia.
Qed.

(** The year of the era a day falls in, as the sources compute it, and the first
    day of a year of the era (years begin on 1 March). *)
Definition year_of_era (doe : Z) : Z := ((doe - doe / 1460 + doe / 36524 - doe / 146096) / 365)%Z.
Definition year_start (yoe : Z) : Z := (365 * yoe + yoe / 4 - yoe / 100)%Z.

Lemma year_of_era_step doe : (0 ≤ doe < 146096)%Z → (year_of_era doe ≤ year_of_era (doe + 1))%Z.
Proof. intros Hd. unfold year_of_era. apply Z.div_le_mono; [lia|]. Z.div_mod_to_equations. lia. Qed.

Lemma year_of_era_mono d d' : (0 ≤ d ≤ d')%Z → (d' < 146097)%Z → (year_of_era d ≤ year_of_era d')%Z.
Proof.
  intros Hd. replace d' with (d + Z.of_nat (Z.to_nat (d' - d)))%Z by lia.
  generalize (Z.to_nat (d' - d)). intros n. induction n as [|n IH]; intros Hn.
  - by rewrite Z.add_0_r.
  - etransitivity; [apply IH; lia|]. replace (d + Z.of_nat (S n))%Z with (d + Z.of_nat n + 1)%Z by lia.
    apply year_of_era_step. lia.
Qed.

(** The formula is right at both ends of every year of the era. *)
Fixpoint ends_ok (n : nat) (yoe : Z) : bool :=
  match n with
  | O => true
  | S n' => (year_of_era (year_start yoe) =? yoe)%Z
            && (year_of_era (Z.min (year_start (yoe + 1) - 1) 146096) =? yoe)%Z && ends_ok n' (yoe + 1)
  end.
Lemma ends_ok_spec n y0 : ends_ok n y0 = true → ∀ y, (y0 ≤ y < y0 + Z.of_nat n)%Z →
  year_of_era (year_start y) = y ∧ year_of_era (Z.min (year_start (y + 1) - 1) 146096) = y.
Proof.
  revert y0. induction n as [|n IH]; intros y0; simpl; [lia|].
  intros [[Ha Hb]%andb_true_iff Hn]%andb_true_iff y Hy. destruct (decide (y = y0)) as [->|].
  - by apply Z.eqb_eq in Ha, Hb.
  - apply (IH _ Hn). lia.
Qed.
Lemma year_ends y : (0 ≤ y < 400)%Z →
  year_of_era (year_start y) = y ∧ year_of_era (Z.min (year_start (y + 1) - 1) 146096) = y.
Proof. intros Hy. apply (ends_ok_spec 400 0); [vm_compute; reflexivity|lia]. Qed.

Lemma year_start_mono y y' : (y ≤ y')%Z → (year_start y ≤ year_start y')%Z.
Proof.
  intros Hy. destruct (decide (y = y')) as [->|]; [done|].
  unfold year_start. Z.div_mod_to_equations. lia.
Qed.

Lemma year_of_era_spec doe :
  (0 ≤ doe < 146097)%Z →
  (0 ≤ year_of_era doe < 400)%Z ∧ (year_start (year_of_era doe) ≤ doe)%Z
  ∧ (year_of_era doe = 399 ∨ doe < year_start (year_of_era doe + 1))%Z.
Proof.
  intros Hd. remember (year_of_era doe) as y eqn:Hyd.
  assert (0 ≤ y < 400)%Z as Hy.
  { pose proof (year_of_era_mono 0 doe ltac:(lia) ltac:(lia)) as Hlo.
    pose proof (year_of_era_mono doe 146096 ltac:(lia) ltac:(lia)) as Hhi.
    change (year_of_era 0) with 0%Z in Hlo. change (year_of_era 146096) with 399%Z in Hhi. lia. }
  split; [done|]. split.
  - apply Z.nlt_ge. intros Hlt. destruct (decide (y = 0)%Z) as [Hy0|].
    { rewrite Hy0 in Hlt. change (year_start 0) with 0%Z in Hlt. lia. }
    destruct (year_ends (y - 1) ltac:(lia)) as [_ He]. replace (y - 1 + 1)%Z with y in He by lia.
    pose proof (year_of_era_mono doe (Z.min (year_start y - 1) 146096) ltac:(lia) ltac:(lia)). lia.
  - destruct (decide (y = 399)%Z) as [->|]; [by left|right].
    apply Z.nle_gt. intros Hge. destruct (year_ends (y + 1) ltac:(lia)) as [He _].
    pose proof (year_start_mono 0 (y + 1) ltac:(lia)) as H0. change (year_start 0) with 0%Z in H0.
    pose proof (year_of_era_mono (year_start (y + 1)) doe ltac:(lia) ltac:(lia)). lia.
Qed.

(** What the algorithm computes from the era and the day in it. *)
Definition date_of_era (era doe : Z) : Z * Z * Z :=
  (let yoe := year_of_era doe in
   let y := yoe + era * 400 in
   let doy := doe - year_start yoe in
   let mp := (5 * doy + 2) / 153 in
   let day := doy - (153 * mp + 2) / 5 + 1 in
   let month := if mp <? 10 then mp + 3 else mp - 9 in
   (if month <=? 2 then y + 1 else y, month, day))%Z.

Lemma civil_from_days_era days :
  (- 719468 ≤ days)%Z →
  civil_from_days days = date_of_era ((days + 719468) / 146097) ((days + 719468) mod 146097).
Proof.
  intros Hd. unfold civil_from_days, date_of_era.
  destruct (Z.leb_spec 0 (days + 719468)) as [_|]; [|lia].
  set (z := (days + 719468)%Z).
  assert (0 ≤ z)%Z as Hz by (subst z; lia).
  rewrite (Z.quot_div_nonneg z 146097) by lia.
  replace (z - z / 146097 * 146097)%Z with (z mod 146097)%Z by (pose proof (Z.div_mod z 146097); lia).
  pose proof (Z.mod_pos_bound z 146097 ltac:(lia)) as Hdoe. set (doe := (z mod 146097)%Z) in *.
  destruct (year_of_era_spec doe Hdoe) as (Hy & Hs & _).
  rewrite (Z.quot_div_nonneg doe 1460), (Z.quot_div_nonneg doe 36524), (Z.quot_div_nonneg doe 146096) by lia.
  rewrite (Z.quot_div_nonneg _ 365); [|Z.div_mod_to_equations; lia|lia].
  change ((doe - doe / 1460 + doe / 36524 - doe / 146096) / 365)%Z with (year_of_era doe).
  rewrite (Z.quot_div_nonneg (year_of_era doe) 4), (Z.quot_div_nonneg (year_of_era doe) 100) by lia.
  replace (doe - (365 * year_of_era doe + year_of_era doe / 4 - year_of_era doe / 100))%Z
    with (doe - year_start (year_of_era doe))%Z by (unfold year_start; lia).
  set (doy := (doe - year_start (year_of_era doe))%Z). assert (0 ≤ doy)%Z by (subst doy; lia).
  rewrite (Z.quot_div_nonneg (5 * doy + 2) 153) by lia.
  assert (0 ≤ (5 * doy + 2) / 153)%Z by (apply Z.div_pos; lia).
  rewrite (Z.quot_div_nonneg (153 * _ + 2) 5) by lia. reflexivity.
Qed.

(** The leap years of the era: the day of year 365 exists exactly in the years
    that end with a leap February. *)
Lemma era_leap era yoe :
  (0 ≤ yoe < 400)%Z →
  (yoe < 399 ∧ year_start (yoe + 1) = year_start yoe + 365 + (if leap (yoe + era * 400 + 1) then 1 else 0)
   ∨ yoe = 399 ∧ leap (yoe + era * 400 + 1) = true)%Z.
Proof.
  intros Hy. unfold year_start, leap.
  replace ((yoe + era * 400 + 1) mod 4)%Z with ((yoe + 1) mod 4)%Z by (Z.div_mod_to_equations; lia).
  replace ((yoe + era * 400 + 1) mod 100)%Z with ((yoe + 1) mod 100)%Z by (Z.div_mod_to_equations; lia).
  replace ((yoe + era * 400 + 1) mod 400)%Z with ((yoe + 1) mod 400)%Z by (Z.div_mod_to_equations; lia).
  destruct (Z.eqb_spec ((yoe + 1) mod 4) 0), (Z.eqb_spec ((yoe + 1) mod 100) 0),
    (Z.eqb_spec ((yoe + 1) mod 400) 0); simpl; Z.div_mod_to_equations; lia.
Qed.

(** Days before the March that begins year [yoe] of the era. *)
Lemma year_start_days era yoe :
  (0 ≤ yoe < 400)%Z →
  (days_before_year (yoe + era * 400) + 59 + (if leap (yoe + era * 400) then 1 else 0)
   = era * 146097 + year_start yoe - 306)%Z.
Proof.
  intros Hy. unfold days_before_year, year_start, leap.
  replace ((yoe + era * 400) mod 4)%Z with (yoe mod 4)%Z by (Z.div_mod_to_equations; lia).
  replace ((yoe + era * 400) mod 100)%Z with (yoe mod 100)%Z by (Z.div_mod_to_equations; lia).
  replace ((yoe + era * 400) mod 400)%Z with (yoe mod 400)%Z by (Z.div_mod_to_equations; lia).
  destruct (Z.eqb_spec (yoe mod 4) 0), (Z.eqb_spec (yoe mod 100) 0), (Z.eqb_spec (yoe mod 400) 0);
    simpl; Z.div_mod_to_equations; lia.
Qed.

Lemma date_of_era_correct era doe :
  (0 ≤ doe < 146097)%Z →
  valid_date (date_of_era era doe) = true
  ∧ date_days (date_of_era era doe) = (era * 146097 + doe - 719468)%Z.
Proof.
  intros Hd. destruct (year_of_era_spec doe Hd) as (Hy & Hs & Hn).
  unfold date_of_era. generalize dependent (year_of_era doe). intros yoe Hy Hs Hn.
  pose proof (year_start_days era yoe Hy) as Hstart.
  pose proof (days_before_year_step (yoe + era * 400)) as Hstep.
  assert (0 ≤ doe - year_start yoe ≤ 364 + (if leap (yoe + era * 400 + 1) then 1 else 0))%Z as Hdoy.
  { destruct (era_leap era yoe Hy) as [|[-> ->]]; [|change (year_start 399) with 145731%Z in *; lia].
    destruct Hn as [->|]; lia. }
  remember (doe - year_start yoe)%Z as doy eqn:Hdoe.
  assert (0 ≤ (5 * doy + 2) / 153 ≤ 11)%Z as Hmp.
  { assert (0 ≤ doy ≤ 365)%Z by (destruct (leap (yoe + era * 400 + 1)); lia).
    split; [apply Z.div_pos; lia|]. apply Z.lt_succ_r, Z.div_lt_upper_bound; lia. }
  pose proof (Z.div_mod (5 * doy + 2) 153 ltac:(lia)) as Hdiv.
  pose proof (Z.mod_pos_bound (5 * doy + 2) 153 ltac:(lia)) as Hmod.
  generalize dependent ((5 * doy + 2) mod 153)%Z. generalize dependent ((5 * doy + 2) / 153)%Z.
  intros mp Hmp r Hdiv Hr.
  assert (mp = 0 ∨ mp = 1 ∨ mp = 2 ∨ mp = 3 ∨ mp = 4 ∨ mp = 5 ∨ mp = 6 ∨ mp = 7 ∨ mp = 8 ∨ mp = 9
    ∨ mp = 10 ∨ mp = 11)%Z as Hc by lia.
  unfold valid_date, date_days, days_before_month, month_length.
  repeat destruct Hc as [->|Hc]; [..|subst mp]; simpl;
    rewrite ?andb_true_iff, ?Z.leb_le; destruct (leap (yoe + era * 400 + 1)), (leap (yoe + era * 400));
    Z.div_mod_to_equations; lia.
Qed.

(** The expiry sent to OpenRouter is the right instant. For every [u64] of
    seconds, [unix_to_iso8601] prints a date of the Gregorian calendar that
    exists and a time of day, in the fixed ISO-8601 layout, and they denote
    exactly that many seconds since the epoch: nothing wraps or is off by a day,
    in leap years and centuries included. *)
Theorem unix_to_iso8601_correct secs :
  in_u64 secs →
  ∃ year month day hour min sec,
    unix_to_iso8601 secs = show_padded 4 year +:+ "-" +:+ show_padded 2 month +:+ "-" +:+ show_padded 2 day
      +:+ "T" +:+ show_padded 2 hour +:+ ":" +:+ show_padded 2 min +:+ ":" +:+ show_padded 2 sec +:+ "Z"
    ∧ valid_date (year, month, day) = true
    ∧ (0 ≤ hour < 24 ∧ 0 ≤ min < 60 ∧ 0 ≤ sec < 60)%Z
    ∧ secs = (date_days (year, month, day) * 86400 + hour * 3600 + min * 60 + sec)%Z.
Proof.
  unfold in_u64, u64_MAX. intros Hs. unfold unix_to_iso8601.
  assert (0 ≤ secs / 86400 < 2 ^ 63)%Z as Hd by (Z.div_mod_to_equations; lia).
  unfold cast_i64. rewrite as_signed_small by lia. rewrite civil_from_days_era by lia.
  pose proof (Z.mod_pos_bound (secs / 86400 + 719468) 146097 ltac:(lia)) as Hm.
  destruct (date_of_era_correct ((secs / 86400 + 719468) / 146097) _ Hm) as [Hv He].
  destruct (date_of_era _ _) as [[year month] day].
  exists year, month, day, (secs mod 86400 / 3600)%Z, ((secs mod 86400) mod 3600 / 60)%Z, ((secs mod 86400) mod 60)%Z.
  split; [reflexivity|]. split; [done|]. rewrite He. clear He Hv Hm. split; Z.div_mod_to_equations; lia.
Qed.
Lemma unix_to_iso8601_correct_witness :
  unix_to_iso8601 951827696 = "2000-02-29T12:34:56Z"
  ∧ ∃ year month day hour min sec,
      (951827696 = date_days (year, month, day) * 86400 + hour * 3600 + min * 60 + sec)%Z.
Proof.
  split; [vm_compute; reflexivity|].
  destruct (unix_to_iso8601_correct 951827696) as (y & mo & d & h & mi & s & _ & _ & _ & Hsecs).
  - unfold in_u64, u64_MAX. lia.
  - by exists y, mo, d, h, mi, s.
Defined.

Section client.
Context `{!FeltOps, !WireTypes, !WireOps, !SqliteText, !JsonText, !SerdeText, !Env, !EnvLaws}.
Implicit Types (self : OpenRouterProvisioner).

(** ** The listing loop *)

Lemma list_matching_fuel self name fuel offset hashes σ :
  (0 ≤ offset ≤ 10000)%Z → (10001 - offset ≤ Z.of_nat fuel)%Z →
  list_matching self name (S fuel) offset hashes σ = list_matching self name fuel offset hashes σ.
Proof.
  revert offset hashes σ. induction fuel as [|fuel IH]; intros offset hashes σ Ho Hf; [lia|].
  cbn [list_matching]. unfold mbind, M_bind.
  destruct (list_page self offset σ) as [[data|e] σ1]; [|done].
  destruct data as [|k data]; [done|].
  assert (offset < usize_add offset (Z.of_nat (length (k :: data))))%Z as Hlt.
  { unfold usize_add, saturating_add, u64_MAX. simpl. lia. }
  destruct (Z.ltb_spec 10000 (usize_add offset (Z.of_nat (length (k :: data))))); [done|].
  apply IH; lia.
Qed.

(** Reconciliation reads a bounded number of pages. The listing loop ends on
    its own: it asks for at most 10,001 pages, whatever the service answers, so
    that giving the model's loop more fuel never changes its run; each page moves
    the offset by the number of keys it held, and past 10,000 keys it gives up. *)
Theorem listing_terminates self name extra σ :
  list_matching self name (list_fuel + extra) 0 [] σ = list_matching self name list_fuel 0 [] σ.
Proof.
  induction extra as [|extra IH]; [by rewrite Nat.add_0_r|].
  rewrite Nat.add_succ_r, list_matching_fuel; [exact IH|lia|unfold list_fuel; lia].
Qed.

(** ** Creation *)

(** What the service reported for a new key. *)
Definition key_bounded (limit_usd : f64) (expires_at : Z) (data : KeyData) : Prop :=
  limit_matches (kd_limit data) limit_usd = true
  ∧ expiry_matches (kd_expires_at data) (unix_to_iso8601 expires_at) = true
  ∧ kd_include_byok_in_limit data = true.

Lemma read_success_Ok response a b n σ text σ' :
  read_success response a b n σ = (Ok text, σ') → http_text response = Ok text ∧ is_success (http_status response) = true ∧ σ' = σ.
Proof.
  unfold read_success. intros. inv_run. subst.
  match goal with H : negb _ = false |- _ => apply negb_false_iff in H end.
  match goal with H : map_err _ ?x = Ok _ |- _ => destruct x; [injection H as ->|discriminate H] end. done.
Qed.

Lemma send_calls request failed σ r σ' :
  send request failed σ = (r, σ') → calls σ' = (calls σ ++ [CallHttp request])%list.
Proof.
  unfold send, http, mbind, M_bind, log_call, draw, lift. simpl.
  destruct (env_http _ _). by intros [= _ <-].
Qed.
Lemma delete_key_calls self hash σ r σ' :
  delete_key self hash σ = (r, σ') →
  calls σ' = (calls σ ++ [CallHttp (management_request self "DELETE" (key_url self hash) [] NoBody)])%list.
Proof.
  unfold delete_key. intros [(e & Hs & ->)|(resp & σ1 & Hs & Hr)]%bind_M_inv; apply send_calls in Hs; [done|].
  assert (σ' = σ1) as -> by (destruct (negb _); by injection Hr as _ <-). done.
Qed.

Definition creation_request self (name : string) (limit_usd : f64) (expires_at : Z) : HttpRequest :=
  management_request self "POST" (keys_url self) []
    (JsonBody (create_body name limit_usd (unix_to_iso8601 expires_at))).

(** A key is handed out only with its limits in force. [create_key] posts one
    creation request, bearing exactly the requested limit and expiry. If it
    returns a key, the service confirmed that key, with its hash, at that limit
    (up to rounding), that expiry and with the customer's own keys counted. If
    the service created a key without them, the key is deleted, by exactly one
    request for its hash, and the call fails. *)
Theorem key_created_with_limits self name limit_usd expires_at σ r σ' :
  create_key self name limit_usd expires_at σ = (r, σ') →
  let posted := (calls σ ++ [CallHttp (creation_request self name limit_usd expires_at)])%list in
  (∃ e, r = Err e ∧ calls σ' = posted)
  ∨ (∃ text data created, r = Ok created ∧ calls σ' = posted
       ∧ from_str decode_CreateKeyEnvelope text = Ok (created_key created, data)
       ∧ created_hash created = kd_hash data ∧ created_key created ≠ "" ∧ kd_hash data ≠ ""
       ∧ key_bounded limit_usd expires_at data)
  ∨ (∃ e text key data, r = Err e ∧ from_str decode_CreateKeyEnvelope text = Ok (key, data)
       ∧ ¬ key_bounded limit_usd expires_at data
       ∧ calls σ' = (posted ++ [CallHttp (management_request self "DELETE" (key_url self (kd_hash data)) [] NoBody)])%list).
Proof.
  intros Hr. cbn zeta. unfold create_key in Hr.
  apply bind_M_inv in Hr as [(e & Hs & ->)|(resp & σ1 & Hs & Hr)]; apply send_calls in Hs; [left; eauto|].
  fold (creation_request self name limit_usd expires_at) in Hs.
  apply bind_M_inv in Hr as [(e & Ht & ->)|(text & σ2 & Ht & Hr)].
  { left. exists e. split; [done|]. rewrite <- Hs. eapply quiet_run; [|exact Ht]. unfold read_success. program. }
  apply read_success_Ok in Ht as (_ & _ & ->).
  apply bind_M_inv in Hr as [(e & Hd & ->)|([key data] & σ2 & Hd & Hr)].
  { injection Hd as _ <-. left. eauto. }
  apply lift_Ok in Hd as [Hd ->].
  apply bind_M_inv in Hr as [(e & Hg & ->)|(u & σ2 & Hg & Hr)].
  { unfold guard_err in Hg. injection Hg as _ <-. left. eauto. }
  apply guard_err_Ok in Hg as [[Hk Hh]%orb_false_iff ->].
  assert (from_str decode_CreateKeyEnvelope text = Ok (key, data)) as Hdec.
  { unfold map_err in Hd. destruct (from_str _ _); congruence. }
  right. destruct (limit_matches (kd_limit data) limit_usd) eqn:Hl,
    (expiry_matches (kd_expires_at data) (unix_to_iso8601 expires_at)) eqn:He,
    (kd_include_byok_in_limit data) eqn:Hb; simpl in Hr.
  1: { left. injection Hr as <- <-. exists text, data. eexists. split; [reflexivity|].
       repeat (split; [done || by apply String.eqb_neq|]). by apply String.eqb_neq in Hk, Hh. }
  all: right; apply bind_M_inv in Hr as [(e & Ht & ->)|(? & σ2 & Ht & Hr)];
    [exfalso; unfold try in Ht; by destruct (delete_key _ _ _)|];
    apply try_Ok in Ht; apply delete_key_calls in Ht; injection Hr as <- <-;
    do 4 eexists; split; [reflexivity|]; split; [exact Hdec|];
    (split; [intros (? & ? & ?); congruence|by rewrite Ht, Hs]).
Qed.
End client.
