(* ===== verification/OaOrg.v ===== *)
(** * The OA org client: [zkapi-serverd/src/oa_org.rs]

    Key issuance and usage receipts over HTTP, their validation, and the
    classification of rate-limit replies. *)

From Stdlib Require Import ZArith Lia Ascii.
From stdpp Require Import base tactics decidable numbers list strings.
From S2P Require Import Prelude Float64 Json Http Types Errors Store StoreTheory World OpenRouter.

Local Open Scope string_scope.

Definition DEFAULT_OA_RETRY_AFTER_SECONDS : Z := 60.
Definition OA_RATE_LIMITED : string := "oa_rate_limited".
Definition OA_HOURLY_ISSUANCE_BUDGET : string := "oa_hourly_issuance_budget".
Definition OA_MINUTE_REQUEST_LIMIT : string := "oa_minute_request_limit".

(** ** Data *)

Record OaKeyVerificationEvidence := {
  verifier_url : string;
  ev_station_id : string;
  station_recently_attested : bool;
  key_valid_till : Z;
  ev_station_signature : string;
  ev_org_signature : string;
}.

Section issued.
Context `{!FeltOps}.

Record IssuedOpenRouterLease := {
  il_lease : OpenRouterLeaseResponse;
  il_key_source : string;
  il_verification : option OaKeyVerificationEvidence;
}.
End issued.

Record OaOrgCreatedKey := {
  oa_key : string;
  oa_hash : string;
  oa_expires_at : Z;
  oa_openrouter_api_base : string;
  oa_verification : OaKeyVerificationEvidence;
}.

Record OaOrgFinalUsage := {
  fu_usage_credits : Z;
  fu_expires_at : Z;
  fu_closed_at : Z;
  fu_finalized_at : Z;
  fu_station_id : string;
  fu_station_signature : string;
  fu_org_signature : string;
}.

Inductive OaOrgUsage :=
| UsagePending (retry_after_seconds : Z)
| UsageFinalized (receipt : OaOrgFinalUsage).

Record OaOrgUsageExpectation := {
  ex_credit_limit_usd : f64;
  ex_duration_minutes : Z;
  ex_limit_credits : Z;
  ex_minimum_expires_at : Z;
  ex_maximum_expires_at : Z;
}.

Record OaOrgProvisioner := { oa_base_url : string; oa_shared_secret : string }.

Record OaOrgKeyResponse := {
  kr_source : string;
  kr_key : string;
  kr_key_hash : string;
  kr_credit_limit : f64;
  kr_duration_minutes : Z;
  kr_expires_at_unix : Z;
  kr_station_id : string;
  kr_station_recently_attested : bool;
  kr_station_signature : string;
  kr_org_signature : string;
  kr_verifier_url : string;
  kr_openrouter_api_base : string;
}.

Record OaOrgUsageResponse := {
  ur_source : string;
  ur_version : Z;
  ur_status : string;
  ur_client_request_id : string;
  ur_station_request_id : string;
  ur_key_hash : string;
  ur_retry_after_seconds : option Z;
  ur_usage_credits : option Z;
  ur_credit_limit_credits : option Z;
  ur_expires_at_unix : option Z;
  ur_closed_at_unix : option Z;
  ur_finalized_at_unix : option Z;
  ur_station_id : option string;
  ur_station_signature : option string;
  ur_org_signature : option string;
}.

Definition decode_OaOrgKeyResponse (v : Value) : option OaOrgKeyResponse :=
  m ← as_object v;
  source ← field_req as_str "source" m;
  key ← field_req as_str "key" m;
  key_hash ← field_req as_str "key_hash" m;
  credit_limit ← field_req as_f64 "credit_limit" m;
  duration_minutes ← field_req as_u64 "duration_minutes" m;
  expires_at_unix ← field_req as_u64 "expires_at_unix" m;
  station_id ← field_req as_str "station_id" m;
  attested ← field_req as_bool "station_recently_attested" m;
  station_signature ← field_req as_str "station_signature" m;
  org_signature ← field_req as_str "org_signature" m;
  verifier_url ← field_req as_str "verifier_url" m;
  openrouter_api_base ← field_req as_str "openrouter_api_base" m;
  Some {| kr_source := source; kr_key := key; kr_key_hash := key_hash;
          kr_credit_limit := credit_limit; kr_duration_minutes := duration_minutes;
          kr_expires_at_unix := expires_at_unix; kr_station_id := station_id;
          kr_station_recently_attested := attested; kr_station_signature := station_signature;
          kr_org_signature := org_signature; kr_verifier_url := verifier_url;
          kr_openrouter_api_base := openrouter_api_base |}.

Definition decode_OaOrgUsageResponse (v : Value) : option OaOrgUsageResponse :=
  m ← as_object v;
  source ← field_req as_str "source" m;
  version ← field_req as_u64 "version" m;
  status ← field_req as_str "status" m;
  client_request_id ← field_req as_str "client_request_id" m;
  station_request_id ← field_req as_str "station_request_id" m;
  key_hash ← field_req as_str "key_hash" m;
  retry_after_seconds ← field_opt as_u64 "retry_after_seconds" m;
  usage_credits ← field_opt as_u128 "usage_credits" m;
  credit_limit_credits ← field_opt as_u128 "credit_limit_credits" m;
  expires_at_unix ← field_opt as_u64 "expires_at_unix" m;
  closed_at_unix ← field_opt as_u64 "closed_at_unix" m;
  finalized_at_unix ← field_opt as_u64 "finalized_at_unix" m;
  station_id ← field_opt as_str "station_id" m;
  station_signature ← field_opt as_str "station_signature" m;
  org_signature ← field_opt as_str "org_signature" m;
  Some {| ur_source := source; ur_version := version; ur_status := status;
          ur_client_request_id := client_request_id; ur_station_request_id := station_request_id;
          ur_key_hash := key_hash; ur_retry_after_seconds := retry_after_seconds;
          ur_usage_credits := usage_credits; ur_credit_limit_credits := credit_limit_credits;
          ur_expires_at_unix := expires_at_unix; ur_closed_at_unix := closed_at_unix;
          ur_finalized_at_unix := finalized_at_unix; ur_station_id := station_id;
          ur_station_signature := station_signature; ur_org_signature := org_signature |}.

(** ** Validation *)

Definition is_hex_signature (value : string) : bool :=
  (String.length value =? 128)%nat && str_forall is_ascii_hexdigit value.

Definition is_secure_or_loopback_url (value : string) : bool :=
  starts_with "https://" value
  || starts_with "http://127.0.0.1:" value
  || starts_with "http://localhost:" value.

Definition unusable_key : ServerError := Internal "OA org returned unusable or unbounded key evidence".

Definition validate_response (now : Z) (response : OaOrgKeyResponse) (requested_limit_usd : f64)
    (requested_duration_minutes ttl_seconds : Z) : result ServerError unit :=
  let limit_matches :=
    is_finite (kr_credit_limit response)
    && f64_leb (f64_abs (f64_sub (kr_credit_limit response) requested_limit_usd))
         (f64_max f64_epsilon (f64_mul requested_limit_usd (f64_lit 1 9))) in
  let expected_expiry := u64_add now ttl_seconds in
  let expiry_is_bounded :=
    (saturating_sub expected_expiry 30 <=? kr_expires_at_unix response)%Z
    && (kr_expires_at_unix response <=? u64_add expected_expiry 30)%Z in
  let verifier_is_secure := is_secure_or_loopback_url (kr_verifier_url response) in
  let inference_is_secure := is_secure_or_loopback_url (kr_openrouter_api_base response) in
  let signatures_are_hex :=
    is_hex_signature (kr_station_signature response) && is_hex_signature (kr_org_signature response) in
  fail_if (negb (String.eqb (kr_source response) "oa_org")
           || String.eqb (kr_key response) ""
           || String.eqb (kr_key_hash response) ""
           || String.eqb (kr_station_id response) ""
           || negb (kr_duration_minutes response =? requested_duration_minutes)%Z
           || negb limit_matches
           || negb expiry_is_bounded
           || negb verifier_is_secure
           || negb inference_is_secure
           || negb signatures_are_hex)
    unusable_key.

Definition final_usage (response : OaOrgUsageResponse) : option (Z * OaOrgFinalUsage) :=
  usage_credits ← ur_usage_credits response;
  credit_limit_credits ← ur_credit_limit_credits response;
  expires_at ← ur_expires_at_unix response;
  closed_at ← ur_closed_at_unix response;
  finalized_at ← ur_finalized_at_unix response;
  station_id ← ur_station_id response;
  station_signature ← ur_station_signature response;
  org_signature ← ur_org_signature response;
  Some (credit_limit_credits,
    {| fu_usage_credits := usage_credits; fu_expires_at := expires_at; fu_closed_at := closed_at;
       fu_finalized_at := finalized_at; fu_station_id := station_id;
       fu_station_signature := station_signature; fu_org_signature := org_signature |}).

Definition usage_common_matches (response : OaOrgUsageResponse) (client_request_id key_hash : string) : bool :=
  String.eqb (ur_source response) "oa_org"
  && (ur_version response =? 1)%Z
  && String.eqb (ur_client_request_id response) client_request_id
  && String.eqb (ur_key_hash response) key_hash
  && (String.length (ur_station_request_id response) =? 64)%nat
  && str_forall is_ascii_hexdigit (ur_station_request_id response).

Definition validate_usage_response (response : OaOrgUsageResponse) (client_request_id key_hash : string)
    (expected_limit_credits minimum_expires_at maximum_expires_at pending_retry_after_seconds : Z)
    : result ServerError OaOrgUsage :=
  _ ← fail_if (negb (usage_common_matches response client_request_id key_hash))
        (Internal "OA org returned mismatched usage evidence");
  if String.eqb (ur_status response) "pending"
  then Ok (UsagePending (Z.max pending_retry_after_seconds 1))
  else
    '(credit_limit_credits, receipt) ←
      ok_or (Internal "OA org returned incomplete final usage evidence") (final_usage response);
    _ ← fail_if (negb (String.eqb (ur_status response) "finalized")
                 || (expected_limit_credits <? fu_usage_credits receipt)%Z
                 || negb (credit_limit_credits =? expected_limit_credits)%Z
                 || (fu_expires_at receipt <? minimum_expires_at)%Z
                 || (maximum_expires_at <? fu_expires_at receipt)%Z
                 || (fu_expires_at receipt <? fu_closed_at receipt)%Z
                 || (fu_finalized_at receipt <? fu_closed_at receipt)%Z
                 || String.eqb (fu_station_id receipt) ""
                 || negb (is_hex_signature (fu_station_signature receipt))
                 || negb (is_hex_signature (fu_org_signature receipt)))
          (Internal "OA org returned usage outside the issued lease bounds");
    Ok (UsageFinalized receipt).

(** ** Rate limits *)

Definition classify_rate_limit_text (value : string) : option string :=
  let value := to_ascii_lowercase value in
  let hourly := str_contains "hourly" value || str_contains "per hour" value
                || str_contains "per_hour" value || str_contains "hour_limit" value in
  if hourly && (str_contains "issuance" value || str_contains "budget" value
                || str_contains "credit" value || str_contains "limit" value)
  then Some OA_HOURLY_ISSUANCE_BUDGET
  else if str_contains "requests per minute" value || str_contains "requests_per_minute" value
          || str_contains "per-minute request" value || str_contains "request rate" value
  then Some OA_MINUTE_REQUEST_LIMIT
  else None.

(** The first of the listed members that yields something. *)
Definition first_some {A B} (f : A → option B) : list A → option B :=
  fix go l := match l with
  | [] => None
  | x :: l' => match f x with Some y => Some y | None => go l' end
  end.

(** [values.get(k).and_then(f)], as a recursion through the members. *)
Definition at_member {A} (f : Value → option A) (k : string) : list (string * Value) → option A :=
  fix go m := match m with
  | [] => None
  | (k', v) :: m' => if String.eqb k k' then f v else go m'
  end.

Fixpoint classify_rate_limit_value (value : Value) : option string :=
  match value with
  | Str s => classify_rate_limit_text s
  | Object values =>
      first_some (λ k, at_member classify_rate_limit_value k values)
        ["reason"; "code"; "error_code"; "type"; "message"; "error"; "detail"]
  | Array values => first_some classify_rate_limit_value values
  | _ => None
  end.

(** The UTF-8 characters of a string, as far as [take] and the ASCII tests see
    them: a leading byte with its continuation bytes dropped. *)
Fixpoint chars (s : string) : list ascii :=
  match s with
  | EmptyString => []
  | String c s' => if is_continuation c then chars s' else c :: chars s'
  end.

(** The loop of [normalize_machine_reason]. *)
Fixpoint normalize_loop (cs : list ascii) (normalized : string) (separator_pending : bool) : string :=
  match cs with
  | [] => normalized
  | c :: cs' =>
      let '(normalized, separator_pending) :=
        if is_ascii_alphanumeric c then
          let normalized :=
            if separator_pending && negb (String.eqb normalized "") then normalized +:+ "_" else normalized in
          (normalized +:+ String (ascii_lower c) "", false)
        else if negb (String.eqb normalized "") then (normalized, true)
        else (normalized, separator_pending) in
      if (80 <=? String.length normalized)%nat then normalized
      else normalize_loop cs' normalized separator_pending
  end.

Definition minute_reasons : list string :=
  ["minute_request_limit"; "oa_minute_request_limit"; "requests_per_minute_exceeded"; "request_rate_exceeded"].
Definition hourly_reasons : list string :=
  ["hourly_issuance_budget"; "oa_hourly_issuance_budget"; "hourly_issuance_budget_exceeded"].

Definition normalize_machine_reason (value : string) : option string :=
  let normalized := trim_end_matches "_" (normalize_loop (take 160 (chars value)) "" false) in
  if String.eqb normalized "" then None
  else if existsb (String.eqb normalized) minute_reasons then Some OA_MINUTE_REQUEST_LIMIT
  else if existsb (String.eqb normalized) hourly_reasons then Some OA_HOURLY_ISSUANCE_BUDGET
  else Some OA_RATE_LIMITED.

Fixpoint machine_rate_limit_reason (value : Value) : option string :=
  match value with
  | Object values =>
      let at_key k := (map_get k values ≫= as_str) ≫= normalize_machine_reason in
      match at_key "reason" with
      | Some reason => Some reason
      | None =>
          match at_member machine_rate_limit_reason "detail" values with
          | Some reason => Some reason
          | None => first_some at_key ["code"; "error_code"; "type"]
          end
      end
  | _ => None
  end.

Definition retry_after_scalar (value : Value) : option Z :=
  match value with
  | Num _ => as_u64 value
  | Str s => parse_u64 (trim s)
  | _ => None
  end.

Fixpoint retry_after_value (value : Value) : option Z :=
  match value with
  | Object values =>
      match first_some (λ k, map_get k values ≫= retry_after_scalar)
              ["retry_after_seconds"; "retryAfterSeconds"; "retry_after"; "retryAfter"] with
      | Some retry_after => Some retry_after
      | None =>
          at_member retry_after_value "detail" values
      end
  | _ => None
  end.

Definition retry_after_header (headers : list (string * result string string)) : option Z :=
  value ← header "retry-after" headers;
  value ← ok value;
  parse_u64 (trim value).

Section client.
Context `{!FeltOps, !WireTypes, !WireOps, !SqliteText, !JsonText, !SerdeText, !Env}.
Implicit Types (self : OaOrgProvisioner).

Definition parse_oa_rate_limit (headers : list (string * result string string)) (body : string) : ServerError :=
  let parsed := ok (json_parse body) in
  let reason :=
    match parsed ≫= machine_rate_limit_reason with
    | Some reason => reason
    | None =>
        match parsed ≫= classify_rate_limit_value with
        | Some reason => reason
        | None => default OA_RATE_LIMITED (classify_rate_limit_text body)
        end
    end in
  let retry_after_seconds :=
    match retry_after_header headers with
    | Some seconds => seconds
    | None => default DEFAULT_OA_RETRY_AFTER_SECONDS (parsed ≫= retry_after_value)
    end in
  OaRateLimited reason retry_after_seconds.

(** [reqwest::Url], as far as [new] inspects it. *)
Record ParsedUrl := {
  url_as_str : string;
  url_username : string;
  url_password : option string;
  url_query : option string;
  url_fragment : option string;
}.

Definition url_acceptable (parsed : ParsedUrl) : bool :=
  is_secure_or_loopback_url (url_as_str parsed)
  && String.eqb (url_username parsed) ""
  && bool_decide (url_password parsed = None)
  && bool_decide (url_query parsed = None)
  && bool_decide (url_fragment parsed = None).

Definition oa_new (parse_url : string → option ParsedUrl) (client : result string unit)
    (base_url shared_secret : string) : result ServerError OaOrgProvisioner :=
  parsed ← ok_or (InvalidRequest "invalid OA org URL") (parse_url base_url);
  _ ← fail_if (negb (url_acceptable parsed))
        (InvalidRequest "OA org URL must be HTTPS (or explicit loopback HTTP) without credentials, query, or fragment");
  _ ← map_err (λ error, Internal ("failed to build OA org client: " +:+ error)) client;
  Ok {| oa_base_url := trim_end_matches "/" base_url; oa_shared_secret := shared_secret |}.

Definition oa_request self (path : string) (body : Value) : HttpRequest := {|
  http_method := "POST";
  http_url := oa_base_url self +:+ path;
  http_bearer := Some (oa_shared_secret self);
  http_headers := [];
  http_query := [];
  http_body := JsonBody body;
|}.

(** Send, map a 429 to its rate limit, require a success status: the text. *)
Definition oa_exchange self (path : string) (body : Value) (failed read_failed returned : string)
    : M (HttpResponse * string) :=
  response ← send (oa_request self path body) failed;
  _ ← guard_err (http_status response =? 429)%Z
        (parse_oa_rate_limit (http_response_headers response) (default "" (ok (http_text response))));
  text ← lift (map_err (λ error, Internal (read_failed +:+ error)) (http_text response));
  _ ← guard_err (negb (is_success (http_status response)))
        (Internal (returned +:+ status_text (http_status response)));
  mret (response, text).

Definition oa_create_key self (client_request_id : string) (limit_usd : f64)
    (limit_credits ttl_seconds : Z) : M OaOrgCreatedKey :=
  _ ← guard_err ((ttl_seconds =? 0)%Z || negb (ttl_seconds mod 60 =? 0)%Z)
        (InvalidRequest "OA org lease TTL must be a positive whole number of minutes");
  let duration_minutes := (ttl_seconds / 60)%Z in
  limit_credits ← json_u128 limit_credits;
  '(_, text) ← oa_exchange self "/api/zkapi/request_key"
    (json_object [("client_request_id", Str client_request_id);
                  ("credit_limit", json_f64 limit_usd);
                  ("credit_limit_credits", limit_credits);
                  ("duration_minutes", Num (PosInt duration_minutes))])
    "OA org key request failed: " "OA org key response failed: " "OA org key request returned ";
  response ← lift (map_err (λ error, Internal ("invalid OA org key response: " +:+ error))
               (from_str decode_OaOrgKeyResponse text));
  now ← current_timestamp;
  _ ← lift (validate_response now response limit_usd duration_minutes ttl_seconds);
  mret {|
    oa_key := kr_key response;
    oa_hash := kr_key_hash response;
    oa_expires_at := kr_expires_at_unix response;
    oa_openrouter_api_base := kr_openrouter_api_base response;
    oa_verification := {|
      verifier_url := kr_verifier_url response;
      ev_station_id := kr_station_id response;
      station_recently_attested := kr_station_recently_attested response;
      key_valid_till := kr_expires_at_unix response;
      ev_station_signature := kr_station_signature response;
      ev_org_signature := kr_org_signature response |} |}.

Definition oa_get_key_usage self (client_request_id key_hash : string)
    (expectation : OaOrgUsageExpectation) : M OaOrgUsage :=
  limit_credits ← json_u128 (ex_limit_credits expectation);
  '(http_response, text) ← oa_exchange self "/api/zkapi/key_usage"
    (json_object [("client_request_id", Str client_request_id);
                  ("key_hash", Str key_hash);
                  ("credit_limit", json_f64 (ex_credit_limit_usd expectation));
                  ("credit_limit_credits", limit_credits);
                  ("duration_minutes", Num (PosInt (ex_duration_minutes expectation)));
                  ("expires_at_unix", Num (PosInt (ex_maximum_expires_at expectation)))])
    "OA org usage request failed: " "OA org usage response failed: " "OA org usage request returned ";
  response ← lift (map_err (λ error, Internal ("invalid OA org usage response: " +:+ error))
               (from_str decode_OaOrgUsageResponse text));
  let pending_retry_after_seconds :=
    Z.max (match retry_after_header (http_response_headers http_response) with
           | Some seconds => seconds
           | None => default 1%Z (ur_retry_after_seconds response)
           end) 1 in
  lift (validate_usage_response response client_request_id key_hash (ex_limit_credits expectation)
          (ex_minimum_expires_at expectation) (ex_maximum_expires_at expectation)
          pending_retry_after_seconds).
End client.
