(* ===== verification/OaOrgTheory.v ===== *)
(** * The OA organization client: what it accepts

    The evidence a key or a usage receipt must carry, and the classification of
    a rate-limit reply. *)

From Stdlib Require Import ZArith Lia Ascii SpecFloat.
From stdpp Require Import base tactics decidable numbers list strings relations.
From S2P Require Import Prelude Float64 Json Http Types Errors Store StoreTheory StoreProps Pricing.
From S2P Require Import ProviderTypes Dashboard World WorldTheory OpenRouter OaOrg.

Local Open Scope string_scope.

(** ** Usage receipts *)

(** The evidence common to a pending and a final answer. *)
Definition usage_identity (response : OaOrgUsageResponse) (cid key_hash : string) : Prop :=
  ur_source response = "oa_org" ∧ ur_version response = 1%Z
  ∧ ur_client_request_id response = cid ∧ ur_key_hash response = key_hash
  ∧ String.length (ur_station_request_id response) = 64%nat
  ∧ str_forall is_ascii_hexdigit (ur_station_request_id response) = true.

Lemma usage_common_matches_spec response cid key_hash :
  usage_common_matches response cid key_hash = true ↔ usage_identity response cid key_hash.
Proof.
  unfold usage_common_matches, usage_identity.
  rewrite !andb_true_iff, !String.eqb_eq, Z.eqb_eq, Nat.eqb_eq. tauto.
Qed.

(** The fields of a receipt are those of the answer, all of them present. *)
Definition receipt_of (response : OaOrgUsageResponse) (limit : Z) (receipt : OaOrgFinalUsage) : Prop :=
  ur_usage_credits response = Some (fu_usage_credits receipt)
  ∧ ur_credit_limit_credits response = Some limit
  ∧ ur_expires_at_unix response = Some (fu_expires_at receipt)
  ∧ ur_closed_at_unix response = Some (fu_closed_at receipt)
  ∧ ur_finalized_at_unix response = Some (fu_finalized_at receipt)
  ∧ ur_station_id response = Some (fu_station_id receipt)
  ∧ ur_station_signature response = Some (fu_station_signature receipt)
  ∧ ur_org_signature response = Some (fu_org_signature receipt).

Lemma final_usage_spec response limit receipt :
  final_usage response = Some (limit, receipt) ↔ receipt_of response limit receipt.
Proof.
  unfold final_usage, receipt_of. split.
  - intros H. repeat apply bind_Some in H as (? & ? & H). injection H as <- <-. done.
  - destruct receipt. simpl. intros (-> & -> & -> & -> & -> & -> & -> & ->). done.
Qed.

(** What a receipt must satisfy against the issued lease. *)
Record receipt_bounds (limit minimum maximum : Z) (receipt : OaOrgFinalUsage) : Prop := {
  rb_usage : (fu_usage_credits receipt ≤ limit)%Z;
  rb_expires : (minimum ≤ fu_expires_at receipt ≤ maximum)%Z;
  rb_closed : (fu_closed_at receipt ≤ fu_expires_at receipt)%Z;
  rb_finalized : (fu_closed_at receipt ≤ fu_finalized_at receipt)%Z;
  rb_station : fu_station_id receipt ≠ "";
  rb_station_signature : is_hex_signature (fu_station_signature receipt) = true;
  rb_org_signature : is_hex_signature (fu_org_signature receipt) = true;
}.

Lemma receipt_check_spec status limit limit' minimum maximum receipt :
  negb (String.eqb status "finalized")
  || (limit <? fu_usage_credits receipt)%Z
  || negb (limit' =? limit)%Z
  || (fu_expires_at receipt <? minimum)%Z
  || (maximum <? fu_expires_at receipt)%Z
  || (fu_expires_at receipt <? fu_closed_at receipt)%Z
  || (fu_finalized_at receipt <? fu_closed_at receipt)%Z
  || String.eqb (fu_station_id receipt) ""
  || negb (is_hex_signature (fu_station_signature receipt))
  || negb (is_hex_signature (fu_org_signature receipt)) = false
  ↔ status = "finalized" ∧ limit' = limit ∧ receipt_bounds limit minimum maximum receipt.
Proof.
  rewrite !orb_false_iff, !negb_false_iff, !Z.ltb_ge, String.eqb_eq, String.eqb_neq, Z.eqb_eq.
  split; [intros H; destruct_and!; split; [done|split; [done|by split]]|].
  intros (-> & -> & [? [? ?] ? ? ? ? ?]). done.
Qed.

Lemma usage_answer_iff response cid key_hash limit minimum maximum retry usage :
  validate_usage_response response cid key_hash limit minimum maximum retry = Ok usage ↔
  usage_identity response cid key_hash ∧
  match usage with
  | UsagePending seconds => ur_status response = "pending" ∧ seconds = Z.max retry 1
  | UsageFinalized receipt =>
      ur_status response = "finalized" ∧ receipt_of response limit receipt
      ∧ receipt_bounds limit minimum maximum receipt
  end.
Proof.
  unfold validate_usage_response. rewrite <- usage_common_matches_spec.
  destruct (usage_common_matches response cid key_hash); simpl; [|split; [discriminate|intros [[=] _]]].
  destruct (String.eqb_spec (ur_status response) "pending") as [Hp|Hp].
  { destruct usage; split; [intros [= <-]|intros (_ & _ & ->)|discriminate|intros (_ & Hs & _)]; try done.
    by rewrite Hp in Hs. }
  destruct (final_usage response) as [[limit' receipt']|] eqn:Hf; simpl.
  - apply final_usage_spec in Hf.
    destruct (fail_if _ _) as [[]|e] eqn:Hg; simpl.
    + apply fail_if_Ok, receipt_check_spec in Hg as (Hst & -> & Hb).
      split; [intros [= <-]; done|]. destruct usage as [|receipt]; [by intros (_ & ? & _)|].
      intros (_ & _ & Hr & _). apply final_usage_spec in Hf, Hr. congruence.
    + split; [discriminate|]. destruct usage as [|receipt]; [by intros (_ & ? & _)|].
      intros (_ & Hst & Hr & Hb). apply final_usage_spec in Hf, Hr. rewrite Hf in Hr. injection Hr as -> ->.
      rewrite (proj2 (receipt_check_spec _ _ _ _ _ _)) in Hg by done. discriminate.
  - split; [discriminate|]. destruct usage as [|receipt]; [by intros (_ & ? & _)|].
    intros (_ & _ & Hr & _). apply final_usage_spec in Hr. congruence.
Qed.

(** A usage answer is accepted exactly when its evidence matches. For a final
    receipt: the answer carries this lease's source, version, client request id,
    key hash and a 64-digit station request id, its status is ["finalized"], all
    receipt fields are present, its credit limit is the lease's, the usage is at
    most that limit, the expiry lies in the expected window, the key was closed
    no later than it expired and finalized no earlier than it closed, and both
    signatures are 128 hex digits. A pending answer needs the same identity, and
    its delay is at least one second. Anything else is an error. *)
Theorem usage_answer_accepted_iff response cid key_hash limit minimum maximum retry usage :
  validate_usage_response response cid key_hash limit minimum maximum retry = Ok usage ↔
  usage_identity response cid key_hash ∧
  match usage with
  | UsagePending seconds => ur_status response = "pending" ∧ seconds = Z.max retry 1
  | UsageFinalized receipt =>
      ur_status response = "finalized" ∧ receipt_of response limit receipt
      ∧ receipt_bounds limit minimum maximum receipt
  end.
Proof. apply usage_answer_iff. Qed.

(** ** Key evidence *)

Lemma fail_if_iff {E} b (e : E) : fail_if b e = Ok tt ↔ b = false.
Proof. by destruct b. Qed.

(** A key answer is accepted exactly when it is the bounded key asked for:
    from the OA org, with a key, a hash and a station, for the requested
    duration and (up to rounding) credit limit, expiring within thirty seconds of
    now plus the lease time (saturating at the bounds of [u64]), verifier and
    inference endpoints on HTTPS or explicit loopback, and two 128-digit hex
    signatures. *)
Theorem key_evidence_accepted_iff now response limit_usd duration ttl :
  validate_response now response limit_usd duration ttl = Ok tt ↔
  kr_source response = "oa_org" ∧ kr_key response ≠ "" ∧ kr_key_hash response ≠ "" ∧ kr_station_id response ≠ ""
  ∧ kr_duration_minutes response = duration
  ∧ is_finite (kr_credit_limit response) = true
  ∧ f64_leb (f64_abs (f64_sub (kr_credit_limit response) limit_usd))
      (f64_max f64_epsilon (f64_mul limit_usd (f64_lit 1 9))) = true
  ∧ (saturating_sub (u64_add now ttl) 30 ≤ kr_expires_at_unix response ≤ u64_add (u64_add now ttl) 30)%Z
  ∧ is_secure_or_loopback_url (kr_verifier_url response) = true
  ∧ is_secure_or_loopback_url (kr_openrouter_api_base response) = true
  ∧ is_hex_signature (kr_station_signature response) = true
  ∧ is_hex_signature (kr_org_signature response) = true.
Proof.
  unfold validate_response. rewrite fail_if_iff.
  rewrite !orb_false_iff, !negb_false_iff, !andb_true_iff, !Z.leb_le, !String.eqb_neq, String.eqb_eq, Z.eqb_eq.
  tauto.
Qed.

(** ** Rate limits *)

Definition known_reason (reason : string) : Prop :=
  reason ∈ [OA_RATE_LIMITED; OA_HOURLY_ISSUANCE_BUDGET; OA_MINUTE_REQUEST_LIMIT].

Lemma first_some_elem {A B} (f : A → option B) l y : first_some f l = Some y → ∃ x, x ∈ l ∧ f x = Some y.
Proof.
  induction l as [|x l IH]; simpl; [done|]. destruct (f x) eqn:Hx.
  - intros [= ->]. exists x. split; [left|done].
  - intros (x' & ? & ?)%IH. exists x'. split; [by right|done].
Qed.

Lemma classify_text_known s r : classify_rate_limit_text s = Some r → known_reason r.
Proof.
  unfold classify_rate_limit_text. repeat case_match; intros [=]; subst; unfold known_reason; set_solver.
Qed.
Lemma normalize_known s r : normalize_machine_reason s = Some r → known_reason r.
Proof.
  unfold normalize_machine_reason. repeat case_match; intros [=]; subst; unfold known_reason; set_solver.
Qed.

Lemma at_member_spec {A} (f : Value → option A) k m : at_member f k m = map_get k m ≫= f.
Proof. induction m as [|[k' v] m IH]; [done|]. simpl. by destruct (String.eqb k k'). Qed.

Lemma map_get_Forall (P : Value → Prop) k m v : Forall (λ kv, P kv.2) m → map_get k m = Some v → P v.
Proof.
  induction 1 as [|[k' v'] m Hv _ IH]; [done|]. simpl. destruct (String.eqb k k'); [by intros [= <-]|done].
Qed.

Lemma machine_reason_known v r : machine_rate_limit_reason v = Some r → known_reason r.
Proof.
  induction v as [| | | | |m IH] using Value_nested_ind; [done..|].
  set (at_key k := (map_get k m ≫= as_str) ≫= normalize_machine_reason).
  assert (∀ k r, at_key k = Some r → known_reason r) as Hat.
  { intros k r' (s & _ & Hs)%bind_Some. by eapply normalize_known. }
  change (match at_key "reason" with
          | Some reason => Some reason
          | None => match at_member machine_rate_limit_reason "detail" m with
                    | Some reason => Some reason
                    | None => first_some at_key ["code"; "error_code"; "type"]
                    end
          end = Some r → known_reason r).
  destruct (at_key "reason") eqn:Hr; [intros [= ->]; by eapply Hat|].
  rewrite at_member_spec. destruct (map_get "detail" m ≫= _) eqn:Hd.
  - intros [= ->]. apply bind_Some in Hd as (v & Hv & Hd).
    apply (map_get_Forall (λ v, machine_rate_limit_reason v = Some r → known_reason r) _ _ _ IH Hv Hd).
  - intros (k & _ & Hk)%first_some_elem. by eapply Hat.
Qed.

Lemma classify_value_known v r : classify_rate_limit_value v = Some r → known_reason r.
Proof.
  induction v as [| | |s|l IH|m IH] using Value_nested_ind; try done; cbn [classify_rate_limit_value].
  - apply classify_text_known.
  - intros (v & Hv & Hr)%first_some_elem. rewrite Forall_forall in IH. by eapply IH.
  - intros (k & _ & Hk)%first_some_elem. rewrite at_member_spec in Hk.
    apply bind_Some in Hk as (v & Hv & Hk).
    apply (map_get_Forall (λ v, classify_rate_limit_value v = Some r → known_reason r) _ _ _ IH Hv Hk).
Qed.

Section client.
Context `{!FeltOps, !WireTypes, !WireOps, !SqliteText, !JsonText, !SerdeText, !Env, !EnvLaws}.
Implicit Types (self : OaOrgProvisioner).

(** Every reply with status 429 becomes one typed error. Whatever its headers
    and body, an exchange whose reply has status 429 fails with [OaRateLimited],
    which is retriable, and whose reason is one of the three the clients know;
    the raw body never leaks into it. *)
Theorem rate_limit_is_typed self path body a b c σ response σ1 :
  send (oa_request self path body) a σ = (Ok response, σ1) → http_status response = 429%Z →
  ∃ reason seconds,
    oa_exchange self path body a b c σ = (Err (OaRateLimited reason seconds), σ1)
    ∧ known_reason reason ∧ is_retriable (OaRateLimited reason seconds) = true
    ∧ OaRateLimited reason seconds
      = parse_oa_rate_limit (http_response_headers response) (default "" (ok (http_text response))).
Proof.
  intros Hs H429. unfold oa_exchange. rewrite (bind_M_run _ _ _ _ _ Hs), H429. simpl.
  unfold mbind, M_bind, guard_err, lift, fail_if. unfold parse_oa_rate_limit. do 2 eexists.
  split; [reflexivity|]. split; [|done].
  destruct (ok (json_parse _) ≫= machine_rate_limit_reason) eqn:Hm.
  { apply bind_Some in Hm as (v & _ & Hv). by eapply machine_reason_known. }
  destruct (ok (json_parse _) ≫= classify_rate_limit_value) eqn:Hc.
  { apply bind_Some in Hc as (v & _ & Hv). by eapply classify_value_known. }
  destruct (classify_rate_limit_text _) eqn:Ht; simpl; [by eapply classify_text_known|].
  unfold known_reason. set_solver.
Qed.

(** The receipt of a usage call was validated against its expectation. *)
Lemma oa_get_key_usage_Ok self cid key_hash ex σ usage σ' :
  oa_get_key_usage self cid key_hash ex σ = (Ok usage, σ') →
  ∃ response retry text,
    from_str decode_OaOrgUsageResponse text = Ok response
    ∧ validate_usage_response response cid key_hash (ex_limit_credits ex) (ex_minimum_expires_at ex)
        (ex_maximum_expires_at ex) retry = Ok usage.
Proof.
  intros Hrun. unfold oa_get_key_usage in Hrun. inv_run.
  match goal with x : (HttpResponse * string)%type |- _ => destruct x as [resp text] end. inv_run.
  match goal with H : map_err _ (from_str _ _) = Ok ?r |- _ =>
    rename r into response; exists response; eexists; exists text; split; [|eassumption];
    unfold map_err in H; destruct (from_str _ _); congruence end.
Qed.

Lemma field_opt_u128_range k m n : field_opt as_u128 k m = Some (Some n) → in_u128 n.
Proof.
  unfold field_opt. destruct (map_get k m) as [v|]; [|discriminate].
  destruct v; try discriminate; intros (x & Hx & [= ->])%fmap_Some; by apply as_u128_range in Hx.
Qed.

Lemma decoded_usage_range text response receipt limit :
  from_str decode_OaOrgUsageResponse text = Ok response → receipt_of response limit receipt →
  in_u128 (fu_usage_credits receipt).
Proof.
  unfold from_str. intros Hd (Hu & _). destruct (json_parse text) as [v|]; [|discriminate].
  apply ok_or_Ok in Hd. unfold decode_OaOrgUsageResponse in Hd.
  repeat apply bind_Some in Hd as (? & ? & Hd). injection Hd as <-. simpl in Hu. subst.
  by eapply field_opt_u128_range.
Qed.

(** A final receipt a usage call returned: within the limit it was asked about. *)
Lemma oa_usage_within_limit self cid key_hash ex σ receipt σ' :
  oa_get_key_usage self cid key_hash ex σ = (Ok (UsageFinalized receipt), σ') →
  in_u128 (fu_usage_credits receipt)
  ∧ receipt_bounds (ex_limit_credits ex) (ex_minimum_expires_at ex) (ex_maximum_expires_at ex) receipt.
Proof.
  intros (response & retry & text & Hd & Hv)%oa_get_key_usage_Ok.
  apply usage_answer_iff in Hv as (_ & _ & Hr & Hb). split; [|done]. by eapply decoded_usage_range.
Qed.
End client.
