(* ===== verification/Provider.v ===== *)
(** * Upstream execution: [zkapi-serverd/src/provider.rs], [metered_provider.rs]

    The echo, HTTP-proxy and metered providers. A provider is a program of the
    handler monad from the request's id, payload and payload hash to its
    response. *)

From Stdlib Require Import ZArith Lia Ascii.
From stdpp Require Import base tactics decidable numbers list strings.
From S2P Require Import Prelude Float64 Json Http Types Errors Store StoreTheory Pricing ProviderTypes.
From S2P Require Import Dashboard World Config OpenRouter.

Local Open Scope string_scope.

Section providers.
Context `{!FeltOps, !WireTypes, !WireOps, !SqliteText, !JsonText, !SerdeText, !Env}.

(** [trait ApiProvider] *)
Definition ApiProvider : Type := string → string → Felt252 → M ProviderResponse.

(** ** Echo *)

Definition echo_execute (fixed_charge : Z) : ApiProvider := λ _ payload _,
  mret (unmetered 200 payload fixed_charge "echo" None None).
Definition echo_default_charge : Z := 1.

(** ** HTTP proxy *)

Definition guess_content_type (payload : string) : string :=
  let trimmed := trim_start payload in
  if starts_with "{" trimmed || starts_with "[" trimmed
  then "application/json" else "text/plain; charset=utf-8".

Definition parse_header_value (name : string) (value : result string string) : result ServerError string :=
  map_err (λ e, Internal ("invalid " +:+ name +:+ " header: " +:+ e)) value.

Definition parse_header {T} (headers : list (string * result string string)) (name : string)
    (parser : string → result string T) : result ServerError (option T) :=
  match header name headers with
  | None => Ok None
  | Some value =>
      value ← parse_header_value name value;
      map_err Internal (Some <$> parser value)
  end.

(** [value.parse::<uN>()], with the text of its error. *)
Definition parse_header_uint (max : Z) (name value : string) : result string Z :=
  match parse_uint 10 max value with
  | Some n => Ok n
  | None => Err ("invalid " +:+ name +:+ " header: " +:+ decode_error value)
  end.
Definition parse_header_u128 headers (name : string) : result ServerError (option Z) :=
  parse_header headers name (parse_header_uint u128_MAX name).
Definition parse_header_u32 headers (name : string) : result ServerError (option Z) :=
  parse_header headers name (parse_header_uint u32_MAX name).
Definition parse_header_felt headers (name : string) : result ServerError (option Felt252) :=
  parse_header headers name
    (λ value, map_err (λ e, "invalid " +:+ name +:+ " header: " +:+ e) (from_hex value)).

Definition proxy_execute (upstream_url : string) (default_charge : Z) : ApiProvider :=
  λ client_request_id payload payload_hash,
  response ← send {|
      http_method := "POST";
      http_url := upstream_url;
      http_bearer := None;
      http_headers := [("x-client-request-id", client_request_id);
                       ("x-idempotency-key", client_request_id);
                       ("x-zkapi-payload-hash", to_hex payload_hash);
                       ("content-type", guess_content_type payload)];
      http_query := [];
      http_body := TextBody payload;
    |} "proxy request failed: ";
  let headers := http_response_headers response in
  payload ← lift (map_err (λ e, Internal ("proxy response read failed: " +:+ e)) (http_text response));
  charge ← lift (parse_header_u128 headers "x-zkapi-charge-applied");
  reason ← lift (parse_header_u32 headers "x-zkapi-policy-reason-code");
  evidence ← lift (parse_header_felt headers "x-zkapi-policy-evidence-hash");
  mret {|
    status_code := http_status response;
    response_payload := payload;
    charge_applied := default default_charge charge;
    policy_reason_code := reason;
    policy_evidence_hash := evidence;
    usage := None;
    upstream_model := None;
    billing_label := "proxy";
  |}.

(** ** Metered *)

Inductive Upstream := OpenAi | OpenRouter.
#[export] Instance Upstream_eq_dec : EqDecision Upstream.
Proof. solve_decision. Defined.

Definition route_upstream (model : option string) : Upstream :=
  match model with
  | Some m => if str_contains "/" m then OpenRouter else OpenAi
  | None => OpenAi
  end.

Record UpstreamUsage := {
  up_prompt_tokens : Z;
  up_completion_tokens : Z;
  up_total_tokens : Z;
  up_cost : option f64;
}.
Definition UpstreamUsage_default : UpstreamUsage :=
  {| up_prompt_tokens := 0; up_completion_tokens := 0; up_total_tokens := 0; up_cost := None |}.

Definition decode_UpstreamUsage (v : Value) : option UpstreamUsage :=
  m ← as_object v;
  prompt_tokens ← field_default as_u64 0%Z "prompt_tokens" m;
  completion_tokens ← field_default as_u64 0%Z "completion_tokens" m;
  total_tokens ← field_default as_u64 0%Z "total_tokens" m;
  cost ← field_opt as_f64 "cost" m;
  Some {| up_prompt_tokens := prompt_tokens; up_completion_tokens := completion_tokens;
          up_total_tokens := total_tokens; up_cost := cost |}.

Definition clamp_charge (charge_cap_credits credits : Z) : Z :=
  if (charge_cap_credits <? credits)%Z then charge_cap_credits else credits.

Definition derive_cost (usage : UpstreamUsage) (model : option string) (upstream : Upstream) : f64 * string :=
  match upstream with
  | OpenRouter => (f64_max (default f64_zero (up_cost usage)) f64_zero, "openrouter_reported")
  | OpenAi =>
      match model with
      | Some model =>
          let '(cost, exact) :=
            openai_cost_usd model (up_prompt_tokens usage) (up_completion_tokens usage) in
          (cost, if exact then "openai_table" else "openai_table_fallback")
      | None => (f64_zero, "unknown")
      end
  end.

(** Copy the listed members that are present. *)
Definition copy_key (obj clean : list (string * Value)) (key : string) : list (string * Value) :=
  match map_get key obj with Some v => map_insert key v clean | None => clean end.

Definition safe_keys : list string :=
  ["model"; "temperature"; "max_tokens"; "top_p"; "stop"; "tools"; "tool_choice"; "response_format"; "usage"].

Definition request_messages (obj : list (string * Value)) : option Value :=
  match map_get "messages" obj with
  | Some messages => Some messages
  | None =>
      match map_get "input" obj with
      | Some (Str s) => Some (Array [json_object [("role", Str "user"); ("content", Str s)]])
      | other => other
      end
  end.

Definition map_options (obj clean : list (string * Value)) : list (string * Value) :=
  match map_get "options" obj with
  | Some (Object opts) =>
      let clean := match map_get "temperature" opts with
                   | Some t => or_insert "temperature" t clean | None => clean end in
      match map_get "num_predict" opts with
      | Some n => or_insert "max_tokens" n clean
      | None => clean
      end
  | _ => clean
  end.

Definition normalize_chat_request (path : string) (body : Value) : string * Value :=
  let obj := default [] (as_object body) in
  let messages := request_messages obj in
  if String.eqb path chat_path
  then (chat_path, Object (map_insert "stream" (Bool false) obj))
  else
    let clean := fold_left (copy_key obj) safe_keys [] in
    let clean := match messages with Some m => map_insert "messages" m clean | None => clean end in
    let clean := map_options obj clean in
    (chat_path, Object (map_insert "stream" (Bool false) clean)).

Definition decode_envelope (payload : string) : string * Value :=
  match json_parse payload with
  | Err _ => (chat_path, Null)
  | Ok value => split_envelope value
  end.

Definition openrouter_key (config : MeteredConfig) : result ServerError string :=
  ok_or (InvalidRequest "OpenRouter is not configured on this server (no inference key)")
    (match openrouter_inference_key config with
     | Some key => if String.eqb key "" then None else Some key
     | None => None
     end).

(** Base URL, key and forwarded body for the routed upstream. *)
Definition resolve_upstream (config : MeteredConfig) (upstream : Upstream) (body : Value)
    : result ServerError (string * string * Value) :=
  match upstream with
  | OpenRouter =>
      key ← openrouter_key config;
      Ok (trim_end_matches "/" (openrouter_api_base config), key,
          match body with
          | Object map => Object (map_insert "usage" (json_object [("include", Bool true)]) map)
          | _ => body
          end)
  | OpenAi =>
      key ← ok_or (InvalidRequest "OpenAI is not configured on this server (no OpenAI key)")
              (openai_api_key config);
      Ok (trim_end_matches "/" (openai_api_base config), key,
          match body with Object map => Object (or_insert "store" (Bool true) map) | _ => body end)
  end.

(** The response of [execute_passthrough] from the upstream's reply. *)
Definition passthrough_response (charge_cap_credits : Z) (upstream : Upstream)
    (request_model : option string) (status_code : Z) (text : string) : ProviderResponse :=
  let parsed := match json_parse text with Ok v => v | Err _ => Null end in
  let response_model :=
    match value_get "model" parsed ≫= as_str with Some m => Some m | None => request_model end in
  let usage_raw := default UpstreamUsage_default (value_get "usage" parsed ≫= decode_UpstreamUsage) in
  let '(cost_usd, cost_source) := derive_cost usage_raw response_model upstream in
  let credits := clamp_charge charge_cap_credits (usd_to_credits cost_usd) in
  {|
    status_code := status_code;
    response_payload := text;
    charge_applied := credits;
    policy_reason_code := None;
    policy_evidence_hash := None;
    usage := Some {|
      prompt_tokens := up_prompt_tokens usage_raw;
      completion_tokens := up_completion_tokens usage_raw;
      total_tokens :=
        if (0 <? up_total_tokens usage_raw)%Z then up_total_tokens usage_raw
        else cast_u64 (up_prompt_tokens usage_raw + up_completion_tokens usage_raw);
      usage_cost_usd := cost_usd;
      cost_source := cost_source |};
    upstream_model := response_model;
    billing_label := "passthrough:" +:+ match upstream with OpenAi => "openai" | OpenRouter => "openrouter" end;
  |}.

Definition execute_passthrough (config : MeteredConfig) (charge_cap_credits : Z) (path : string)
    (body : Value) : M ProviderResponse :=
  let '(upstream_path, body) := normalize_chat_request path body in
  let request_model := value_get "model" body ≫= as_str in
  let upstream := route_upstream request_model in
  '(base, api_key, body) ← lift (resolve_upstream config upstream body);
  resp ← send {|
      http_method := "POST";
      http_url := base +:+ upstream_path;
      http_bearer := Some api_key;
      http_headers := [("content-type", "application/json")];
      http_query := [];
      http_body := JsonBody body;
    |} "upstream request failed: ";
  text ← lift (map_err (λ e, Internal ("upstream read failed: " +:+ e)) (http_text resp));
  mret (passthrough_response charge_cap_credits upstream request_model (http_status resp) text).

Definition metered_execute (config : MeteredConfig) (charge_cap_credits : Z) : ApiProvider :=
  λ _ payload _,
  let '(path, body) := decode_envelope payload in
  execute_passthrough config charge_cap_credits path body.

(** ** Selection *)

(** [client] is the outcome of building the HTTP client. *)
Definition build_provider (client : result string unit) (config : ServerConfig) : result string ApiProvider :=
  match c_provider_kind config with
  | Echo => Ok (echo_execute (c_echo_fixed_charge config))
  | HttpProxy =>
      upstream_url ← ok_or "missing proxy_upstream_url for http-proxy provider" (c_proxy_upstream_url config);
      _ ← map_err (λ e, error_to_string (Internal ("failed to build proxy client: " +:+ e))) client;
      Ok (proxy_execute upstream_url (c_proxy_default_charge config))
  | Metered =>
      metered ← ok_or "missing metered config for metered provider" (c_metered config);
      _ ← map_err (λ e, error_to_string (Internal ("failed to build metered client: " +:+ e))) client;
      Ok (metered_execute metered (c_request_charge_cap config))
  end.
End providers.
