(* ===== verification/ProviderTheory.v ===== *)
(** * The providers: effects, contract, pricing and request shaping

    Every client of a remote service only uses the network. [ProviderContract] is
    what the processor relies on of its provider; every provider the server can
    be configured with satisfies it. *)

From Stdlib Require Import ZArith Lia Ascii SpecFloat.
From stdpp Require Import base tactics decidable numbers list strings relations.
From S2P Require Import Prelude Float64 Json Http Types Errors Store StoreTheory StoreProps Pricing.
From S2P Require Import ProviderTypes Dashboard World WorldTheory Config OpenRouter.
From S2P Require Import OpenRouterTheory OaOrg Provider.

Section handlers_safe.
Context `{!FeltOps, !WireTypes, !WireOps, !CoreOps, !SqliteText, !JsonText, !SerdeText, !Env, !EnvLaws}.

Lemma send_safe request failed : safe (send request failed).
Proof. unfold send. program. Qed.
Lemma read_success_safe response a b n : safe (read_success response a b n).
Proof. unfold read_success. program. Qed.
#[local] Hint Resolve send_safe read_success_safe : handlers.
Lemma delete_key_safe p h : safe (delete_key p h).
Proof. unfold delete_key. program. Qed.
#[local] Hint Resolve delete_key_safe : handlers.
Lemma create_key_safe p name limit e : safe (create_key p name limit e).
Proof. unfold create_key. program. Qed.
Lemma get_key_usage_safe p h : safe (get_key_usage p h).
Proof. unfold get_key_usage. program. Qed.
Lemma list_page_safe p offset : safe (list_page p offset).
Proof. unfold list_page. program. Qed.
#[local] Hint Resolve list_page_safe : handlers.
Lemma list_matching_safe p name fuel offset hashes : safe (list_matching p name fuel offset hashes).
Proof. revert offset hashes. induction fuel; intros; simpl; program. Qed.
#[local] Hint Resolve list_matching_safe : handlers.
Lemma delete_keys_named_safe p name : safe (delete_keys_named p name).
Proof. unfold delete_keys_named. program. Qed.
Lemma oa_exchange_safe p path body a b c : safe (oa_exchange p path body a b c).
Proof. unfold oa_exchange. program. Qed.
#[local] Hint Resolve oa_exchange_safe : handlers.
Lemma oa_create_key_safe p cid limit credits ttl : safe (oa_create_key p cid limit credits ttl).
Proof. unfold oa_create_key. program. Qed.
Lemma oa_get_key_usage_safe p cid h ex : safe (oa_get_key_usage p cid h ex).
Proof. unfold oa_get_key_usage. program. Qed.

(** The providers only use the network. *)
Lemma echo_execute_safe c cid payload ph : safe (echo_execute c cid payload ph).
Proof. unfold echo_execute. program. Qed.
Lemma proxy_execute_safe url c cid payload ph : safe (proxy_execute url c cid payload ph).
Proof. unfold proxy_execute. program. Qed.
Lemma metered_execute_safe cfg cap cid payload ph : safe (metered_execute cfg cap cid payload ph).
Proof. unfold metered_execute, execute_passthrough. program. Qed.
End handlers_safe.
#[export] Hint Resolve send_safe read_success_safe delete_key_safe create_key_safe get_key_usage_safe
  delete_keys_named_safe oa_create_key_safe oa_get_key_usage_safe : handlers.

(** ** The contract *)

Section contract.
Context `{!FeltOps, !WireTypes, !WireOps, !SqliteText, !JsonText, !SerdeText, !Env, !EnvLaws}.

(** The values a provider may return. *)
Definition response_valid (r : ProviderResponse) : Prop :=
  in_u128 (charge_applied r) ∧ in_u16 (status_code r)
  ∧ (∀ c, policy_reason_code r = Some c → in_u32 c).

(** A provider moves the store only through other handlers, and what it returns
    is in the range of the Rust types. *)
Class ProviderContract (p : ApiProvider) := {
  provider_safe cid payload ph : safe (p cid payload ph);
  provider_valid cid payload ph σ r σ' : p cid payload ph σ = (Ok r, σ') → response_valid r;
}.

Lemma echo_contract charge : in_u128 charge → ProviderContract (echo_execute charge).
Proof.
  intros Hc. split; intros; [unfold echo_execute; program|].
  unfold echo_execute in *. inv_run. subst. repeat split; simpl; try done; lia || apply Hc.
Qed.

Lemma send_Ok request failed σ response σ' :
  send request failed σ = (Ok response, σ') → in_u16 (http_status response).
Proof.
  unfold send, http. intros. inv_run.
  match goal with H : draw _ _ = _ |- _ => apply draw_Ok in H as (-> & _) end.
  match goal with H : map_err _ ?r = Ok _ |- _ => destruct r eqn:Hr; [|discriminate H]; injection H as -> end.
  by eapply status_range.
Qed.

Lemma parse_header_uint_range max headers name v :
  (0 ≤ max)%Z → parse_header headers name (parse_header_uint max name) = Ok (Some v) → (0 ≤ v ≤ max)%Z.
Proof.
  intros Hmax. unfold parse_header. destruct (header name headers) as [value|]; [|discriminate].
  intros (text & _ & Hp)%bind_Ok. unfold parse_header_uint in Hp.
  destruct (parse_uint 10 max text) as [n|] eqn:Hn; [|discriminate]. injection Hp as ->.
  by apply parse_uint_range in Hn.
Qed.

Lemma proxy_contract url charge : in_u128 charge → ProviderContract (proxy_execute url charge).
Proof.
  intros Hc. split; intros; [by apply proxy_execute_safe|].
  unfold proxy_execute in *. inv_run. subst.
  match goal with H : send _ _ _ = _ |- _ => apply send_Ok in H end.
  split; [|split; [done|]]; simpl.
  - match goal with H : parse_header_u128 _ _ = Ok ?c |- _ => destruct c; [|done];
      apply parse_header_uint_range in H; [done|unfold u128_MAX; lia] end.
  - intros c ->.
    match goal with H : parse_header_u32 _ _ = Ok _ |- _ =>
      apply parse_header_uint_range in H; [done|unfold u32_MAX; lia] end.
Qed.

Lemma f64_as_u128_range x : in_u128 (f64_as_u128 x).
Proof.
  unfold in_u128, f64_as_u128, f64_as_uint. assert (0 ≤ u128_MAX)%Z by (unfold u128_MAX; lia).
  destruct x as [s|s| |[] m e]; try lia.
  - by destruct s.
  - case_match; [pose proof (Z.pow_nonneg 2 e); lia|].
    pose proof (Z.div_pos (Zpos m) (2 ^ (- e)) ltac:(lia) ltac:(apply Z.pow_pos_nonneg; lia)). lia.
Qed.

Lemma usd_to_credits_range x : in_u128 (usd_to_credits x).
Proof.
  unfold usd_to_credits. repeat case_match; [| |apply f64_as_u128_range];
    unfold in_u128, u128_MAX; lia.
Qed.

Lemma clamp_charge_spec cap credits : clamp_charge cap credits = Z.min credits cap.
Proof. unfold clamp_charge. destruct (Z.ltb_spec cap credits); lia. Qed.

(** The response of a metered call: the charge is the upstream's cost in credits,
    clamped to the cap. *)
Lemma metered_execute_Ok cfg cap cid payload ph σ r σ' :
  metered_execute cfg cap cid payload ph σ = (Ok r, σ') →
  in_u16 (status_code r) ∧ policy_reason_code r = None ∧
  ∃ u, usage r = Some u ∧ charge_applied r = Z.min (usd_to_credits (usage_cost_usd u)) cap.
Proof.
  unfold metered_execute, execute_passthrough. destruct (decode_envelope payload) as [path body].
  destruct (normalize_chat_request path body) as [upstream_path body']. intros. inv_run.
  match goal with x : (string * string * Value)%type |- _ => destruct x as [[base key] fwd] end. inv_run.
  subst. match goal with H : send _ _ _ = _ |- _ => apply send_Ok in H end.
  unfold passthrough_response. destruct (derive_cost _ _ _) as [cost source]. simpl.
  rewrite clamp_charge_spec. eauto.
Qed.

Lemma metered_contract cfg cap : in_u128 cap → ProviderContract (metered_execute cfg cap).
Proof.
  intros Hc. split; [intros; by apply metered_execute_safe|]. intros cid payload ph σ r σ' Hrun.
  apply metered_execute_Ok in Hrun as (Hs & Hr & u & _ & Hcharge). split; [|split; [done|]].
  - rewrite Hcharge. pose proof (usd_to_credits_range (usage_cost_usd u)). unfold in_u128 in *. lia.
  - by rewrite Hr.
Qed.

Lemma build_provider_sound client cfg p :
  build_provider client cfg = Ok p →
  in_u128 (c_echo_fixed_charge cfg) → in_u128 (c_proxy_default_charge cfg) → in_u128 (c_request_charge_cap cfg) →
  ProviderContract p
  ∧ (c_provider_kind cfg = Metered → ∀ cid payload ph σ r σ', p cid payload ph σ = (Ok r, σ') →
       ∃ u, usage r = Some u
            ∧ charge_applied r = Z.min (usd_to_credits (usage_cost_usd u)) (c_request_charge_cap cfg)).
Proof.
  unfold build_provider. destruct (c_provider_kind cfg); intros Hb He Hp Hc.
  - injection Hb as <-. split; [by apply echo_contract|done].
  - apply bind_Ok in Hb as (url & _ & (? & _ & [= <-])%bind_Ok).
    split; [by apply proxy_contract|done].
  - apply bind_Ok in Hb as (metered & _ & (? & _ & [= <-])%bind_Ok).
    split; [by apply metered_contract|]. intros _ cid payload ph σ r σ' Hrun.
    apply metered_execute_Ok in Hrun as (_ & _ & Hu). exact Hu.
Qed.

(** Every provider the server can be configured with keeps the processor's
    contract. Whatever the upstream answers, a provider built by [build_provider]
    only uses the network and returns values in the ranges of their types; and a
    metered provider never charges more than the configured cap: its charge is
    the cost of the reported usage, rounded up to credits, or the cap if that is
    smaller. *)
Theorem build_provider_contract client cfg p :
  build_provider client cfg = Ok p →
  in_u128 (c_echo_fixed_charge cfg) → in_u128 (c_proxy_default_charge cfg) → in_u128 (c_request_charge_cap cfg) →
  ProviderContract p
  ∧ (c_provider_kind cfg = Metered → ∀ cid payload ph σ r σ', p cid payload ph σ = (Ok r, σ') →
       ∃ u, usage r = Some u
            ∧ charge_applied r = Z.min (usd_to_credits (usage_cost_usd u)) (c_request_charge_cap cfg)).
Proof. apply build_provider_sound. Qed.

(** ** What is forwarded upstream *)

Lemma normalize_stream path body path' body' :
  normalize_chat_request path body = (path', body') →
  path' = chat_path ∧ ∃ m, body' = Object m ∧ map_get "stream" m = Some (Bool false).
Proof.
  unfold normalize_chat_request.
  destruct (String.eqb path chat_path); intros [= <- <-]; (split; [done|]); eexists;
    (split; [reflexivity|]); apply map_get_insert.
Qed.

Lemma openrouter_key_Ok config key :
  openrouter_key config = Ok key → openrouter_inference_key config = Some key ∧ key ≠ ""%string.
Proof.
  unfold openrouter_key. intros Hk%ok_or_Ok.
  destruct (openrouter_inference_key config) as [k|]; [|discriminate].
  destruct (String.eqb_spec k ""); [discriminate|]. by injection Hk as <-.
Qed.

(** The base URL and key of an upstream. *)
Definition upstream_endpoint (config : MeteredConfig) (upstream : Upstream) : string * option string :=
  match upstream with
  | OpenRouter => (openrouter_api_base config, openrouter_inference_key config)
  | OpenAi => (openai_api_base config, openai_api_key config)
  end.

(** The one request a metered call sends to [upstream], with body [m]. *)
Definition forwarded (config : MeteredConfig) (upstream : Upstream) (m : list (string * Value))
    (q : HttpRequest) : Prop :=
  http_method q = "POST"%string
  ∧ http_url q = trim_end_matches "/" (upstream_endpoint config upstream).1 +:+ chat_path
  ∧ http_bearer q = (upstream_endpoint config upstream).2 ∧ http_bearer q ≠ None
  ∧ http_body q = JsonBody (Object m)
  ∧ map_get "stream" m = Some (Bool false)
  ∧ (upstream = OpenRouter → map_get "usage" m = Some (Object [("include"%string, Bool true)])).

Lemma resolve_upstream_Ok config upstream m base key body' :
  map_get "stream" m = Some (Bool false) →
  resolve_upstream config upstream (Object m) = Ok (base, key, body') →
  base = trim_end_matches "/" (upstream_endpoint config upstream).1
  ∧ (upstream_endpoint config upstream).2 = Some key
  ∧ ∃ m', body' = Object m' ∧ map_get "stream" m' = Some (Bool false)
      ∧ map_get "model" m' = map_get "model" m
      ∧ (upstream = OpenRouter → map_get "usage" m' = Some (Object [("include"%string, Bool true)])).
Proof.
  intros Hs. destruct upstream; simpl; intros (k & Hk & [= <- <- <-])%bind_Ok.
  - apply ok_or_Ok in Hk. split; [done|]. split; [done|]. eexists. split; [reflexivity|].
    rewrite !map_get_or_insert_ne by done. done.
  - apply openrouter_key_Ok in Hk as [Hk _]. split; [done|]. split; [done|]. eexists. split; [reflexivity|].
    rewrite !map_get_insert_ne by done. rewrite map_get_insert. done.
Qed.

(** A metered request goes to one upstream, with that upstream's key only. A
    run either sends nothing and fails, or sends exactly one request: to the chat
    endpoint of OpenRouter if the model id has a vendor prefix and of OpenAI
    otherwise, authorized by the key configured for that upstream and never the
    other's, never streaming whatever the client asked for, and, to OpenRouter,
    always asking for the usage its price is read from. *)
Theorem metered_request_shape config cap cid payload ph σ r σ' :
  metered_execute config cap cid payload ph σ = (r, σ') →
  (calls σ' = calls σ ∧ ∃ e, r = Err e)
  ∨ ∃ q m, calls σ' = (calls σ ++ [CallHttp q])%list
    ∧ forwarded config (route_upstream (map_get "model" m ≫= as_str)) m q.
Proof.
  unfold metered_execute, execute_passthrough. destruct (decode_envelope payload) as [path body].
  destruct (normalize_chat_request path body) as [path' body'] eqn:Hn.
  apply normalize_stream in Hn as (-> & m & -> & Hm). simpl (value_get _ _).
  set (upstream := route_upstream (map_get "model" m ≫= as_str)). intros Hr.
  apply bind_M_inv in Hr as [(e & Hl & ->)|([[base key] fwd] & σ1 & Hl & Hr)].
  { injection Hl as _ <-. left. eauto. }
  apply lift_Ok in Hl as [Hl ->]. apply resolve_upstream_Ok in Hl as (-> & Hk & m' & -> & Hs & Hmodel & Hu); [|done].
  match type of Hr with (mbind _ (send ?q _)) _ = _ => set (request := q) in Hr end.
  assert (calls σ' = (calls σ ++ [CallHttp request])%list) as Hc.
  { apply bind_M_inv in Hr as [(e & Hsend & ->)|(resp & σ1 & Hsend & Hr)]; apply send_calls in Hsend; [done|].
    rewrite <- Hsend. eapply quiet_run; [|exact Hr]. program. }
  right. exists request, m'. split; [exact Hc|]. rewrite Hmodel. fold upstream.
  repeat split; try done; simpl; congruence.
Qed.
End contract.
#[export] Hint Resolve provider_safe : handlers.
