(* ===== verification/Processor.v ===== *)
(** * The request processor: [zkapi-serverd/src/processor_v2.rs], [signer_v2.rs]

    Validation and reservation of a request, execution and finalization,
    clearance, recovery, and the life of a prompt-private key lease: issue,
    settlement and retirement. Every handler is a program of [World.M]. *)

From Stdlib Require Import ZArith Lia.
From stdpp Require Import base tactics decidable numbers list strings.
From S2P Require Import Prelude Float64 Json Types AuthScheme Config Errors Store StoreTheory.
From S2P Require Import Pricing ProviderTypes Dashboard World OpenRouter OaOrg Provider.

Local Open Scope string_scope.

Definition MAX_REQUEST_AGE_SECONDS : Z := 300.
Definition MAX_FUTURE_SKEW_SECONDS : Z := 30.
Definition OA_LEASE_EXPIRY_SAFETY_SECONDS : Z := 30.

Inductive ReservationKind := KindProxy | KindOpenRouterLease.
Definition kind_as_str (self : ReservationKind) : string :=
  match self with KindProxy => "proxy" | KindOpenRouterLease => "openrouter_lease" end.

Section processor.
Context `{!FeltOps, !WireTypes, !WireOps, !CoreOps, !SqliteText, !JsonText, !SerdeText, !Env}.

(** ** Signing: [signer_v2.rs] *)

Record ServerSigner := { signer_state : CompactSigner; signer_clearance : CompactSigner }.
Definition signer_new (state_seed clearance_seed : Felt252) : ServerSigner :=
  {| signer_state := signer_from_seed state_seed; signer_clearance := signer_from_seed clearance_seed |}.
Definition state_public_key (self : ServerSigner) : CurvePointWire := signer_public_key (signer_state self).
Definition clearance_public_key (self : ServerSigner) : CurvePointWire :=
  signer_public_key (signer_clearance self).
Definition sign_state (self : ServerSigner) (message : Felt252) : SchnorrSignature :=
  signer_sign (signer_state self) message.
Definition sign_clearance (self : ServerSigner) (message : Felt252) : SchnorrSignature :=
  signer_sign (signer_clearance self) message.

(** ** The processor *)

Record RequestProcessor := {
  config : ServerConfig;
  signer : ServerSigner;
  verifier : RequestVerifier;
  provider : ApiProvider;
  openrouter : option OpenRouterProvisioner;
  oa_org : option OaOrgProvisioner;
}.
Implicit Types (self : RequestProcessor).

(** [anyhow::ensure!] *)
Definition ensure (b : bool) (msg : string) : result string unit := fail_if (negb b) msg.
Definition is_multiple_of (n m : Z) : bool := (n mod m =? 0)%Z.

Definition ensure_lease_config (lease : OpenRouterLeaseConfig) : result string unit :=
  _ ← ensure (0 <? lc_ttl_seconds lease)%Z "OpenRouter lease TTL must be positive";
  match lc_source lease with
  | SourceOpenRouter management_key _ =>
      ensure (negb (String.eqb management_key "")) "OpenRouter management key cannot be empty"
  | SourceOaOrg org_base_url shared_secret =>
      _ ← ensure (negb (String.eqb org_base_url "")) "OA org URL cannot be empty";
      _ ← ensure (negb (String.eqb shared_secret "")) "OA org shared secret cannot be empty";
      ensure (is_multiple_of (lc_ttl_seconds lease) 60) "OA org lease TTL must be a whole number of minutes"
  end.

(** [load] is the outcome of loading the proof setup, [client] that of building
    an HTTP client, [parse_url] the URL parser. *)
Definition try_new (load : result string RequestVerifier) (client : result string unit)
    (parse_url : string → option ParsedUrl) (config : ServerConfig) (signer : ServerSigner)
    (provider : ApiProvider) : result string RequestProcessor :=
  _ ← match c_openrouter_leases config with
      | Some lease => ensure_lease_config lease
      | None => Ok tt
      end;
  verifier ← load;
  openrouter ← match lc_source <$> c_openrouter_leases config with
    | Some (SourceOpenRouter management_key api_base) =>
        Some <$> map_err error_to_string (provisioner_new client management_key api_base)
    | _ => Ok None
    end;
  oa_org ← match lc_source <$> c_openrouter_leases config with
    | Some (SourceOaOrg org_base_url shared_secret) =>
        Some <$> map_err error_to_string (oa_new parse_url client org_base_url shared_secret)
    | _ => Ok None
    end;
  Ok {| config := config; signer := signer; verifier := verifier; provider := provider;
        openrouter := openrouter; oa_org := oa_org |}.

Definition state_signing_key self : CurvePointWire := state_public_key (signer self).
Definition clearance_signing_key self : CurvePointWire := clearance_public_key (signer self).

(** [update_root], [current_root]; a poisoned lock ([poisoned]) drops the update
    and reads as zero. *)
Definition update_root (poisoned : bool) (new_root : Felt252) : M unit :=
  state (λ σ, (Ok tt, if poisoned then σ else
    with_shared {| store := store (shared σ); root := new_root; hub := hub (shared σ) |} σ)).
Definition current_root : M Felt252 := read_root.

(** ** Stored responses *)

Definition response_from_record (record : TranscriptRecord) (client_request_id : string)
    : result ServerError RequestResponseV2 :=
  signature ← ok_or (Internal "stored response lacks signature") (t_next_state_sig record);
  Ok {|
    resp_status := "ok";
    resp_client_request_id := client_request_id;
    resp_request_nullifier := t_nullifier record;
    resp_response_code := default 200%Z (t_response_code record);
    resp_response_payload := default "" (t_response_payload record);
    resp_response_hash := default ZERO (t_response_hash record);
    resp_charge_applied := default 0%Z (t_charge_applied record);
    resp_next_commitment := {| point_x := default ZERO (t_next_commitment_x record);
                               point_y := default ZERO (t_next_commitment_y record) |};
    resp_next_anchor := default ZERO (t_next_anchor record);
    resp_blind_delta_srv := default ZERO (t_blind_delta_srv record);
    resp_next_state_signature := signature;
    resp_policy_reason_code := t_policy_reason_code record;
    resp_policy_evidence_hash := t_policy_evidence_hash record;
  |}.

Definition recovery_from_record (record : TranscriptRecord) : RecoveryResponseV2 :=
  let status := match t_status record with
    | Reserved => "reserved"
    | Finalized => "finalized"
    | ClearanceReserved => "clearance_reserved"
    end in
  {|
    recovery_status := "ok";
    nullifier_status := status;
    request_response :=
      if decide (t_status record = Finalized)
      then ok (response_from_record record (default "" (t_client_request_id record)))
      else None;
  |}.

Definition not_found_recovery : RecoveryResponseV2 :=
  {| recovery_status := "not_found"; nullifier_status := "unknown"; request_response := None |}.

(** ** Validation and reservation *)

(** The stored row is this request's own reservation, by the same endpoint. *)
Definition same_request (existing : TranscriptRecord) (request : ApiRequestV2) (kind : ReservationKind)
    (request_binding : string) : bool :=
  bool_decide (t_client_request_id existing = Some (client_request_id request))
  && bool_decide (t_payload_hash existing = Some (payload_hash request))
  && String.eqb (t_reservation_kind existing) (kind_as_str kind)
  && bool_decide (t_api_request_binding existing = Some request_binding).

(** The retry of a request whose nullifier is already in the store. *)
Definition resume (existing : TranscriptRecord) (request : ApiRequestV2) (kind : ReservationKind)
    (request_binding : string) : result ServerError (option RequestResponseV2) :=
  _ ← fail_if (negb (same_request existing request kind request_binding)) Replay;
  match t_status existing with
  | Finalized => Some <$> response_from_record existing (client_request_id request)
  | Reserved => Ok None
  | ClearanceReserved => Err Replay
  end.

Definition deployment_mismatch self (public : RequestPublicInputsV2) : bool :=
  negb (protocol_version public =? c_protocol_version (config self))%Z
  || negb (chain_id public =? c_chain_id (config self))%Z
  || negb (bool_decide (contract_address public = c_contract_address (config self))).

Definition stale_time (now request_time : Z) : bool :=
  (u64_add request_time MAX_REQUEST_AGE_SECONDS <? now)%Z
  || (u64_add now MAX_FUTURE_SKEW_SECONDS <? request_time)%Z.

Definition required_solvency self : Z :=
  if c_policy_enabled (config self) then c_policy_charge_cap (config self)
  else c_request_charge_cap (config self).

(** The checks of a first attempt that read neither the root nor the clock. *)
Definition check_keys self (public : RequestPublicInputsV2) : result ServerError unit :=
  let state_key := state_signing_key self in
  fail_if (negb (bool_decide (state_signing_key_x public = point_x state_key))
           || negb (bool_decide (state_signing_key_y public = point_y state_key)))
    (InvalidRequest "state signing key does not match this deployment").

Definition check_proof self (request : ApiRequestV2) (payload_hash : Felt252) : result ServerError unit :=
  let public := public_inputs request in
  _ ← fail_if (solvency_bound public <? required_solvency self)%Z
        (InvalidRequest ("solvency_bound " +:+ show_uint (solvency_bound public)
           +:+ " is below required " +:+ show_uint (required_solvency self)));
  let context := canonical_request_context (client_request_id request) payload_hash in
  _ ← fail_if (negb (bool_decide (core_authorization_tag (request_nullifier public) context
                                  = authorization_tag public)))
        (InvalidProof "proof authorization tag does not bind this request id and payload");
  verified ← map_err InvalidProof (verify (verifier self) public (request_proof request));
  fail_if (negb verified) (InvalidProof "Groth16 verification returned false").

Definition validate_and_reserve self (request : ApiRequestV2) (kind : ReservationKind)
    : M (option RequestResponseV2) :=
  let public := public_inputs request in
  let computed_hash := canonical_payload_hash (payload request) in
  _ ← guard_err (negb (bool_decide (computed_hash = payload_hash request)))
        (InvalidRequest "payload_hash does not match payload bytes");
  _ ← guard_err (deployment_mismatch self public)
        (ProtocolMismatch "version, chain, or contract mismatch");
  request_binding ← lift (api_request_binding request);
  existing ← db_read (λ fault s, lookup_by_nullifier fault (request_nullifier public) s);
  match existing with
  | Some existing => lift (resume existing request kind request_binding)
  | None =>
      root ← current_root;
      _ ← guard_err (negb (bool_decide (active_root public = root))) (StaleRoot (to_hex root));
      _ ← lift (check_keys self public);
      now ← current_timestamp;
      _ ← guard_err (stale_time now (request_time public))
            (InvalidRequest "request_time is outside the accepted freshness window");
      _ ← lift (check_proof self request computed_hash);
      _ ← db_op (match kind with
                 | KindProxy => OpReserveV2 request
                 | KindOpenRouterLease => OpReserveLease request
                 end);
      mret None
  end.

(** ** Finalization *)

Definition charge_cap self (public : RequestPublicInputsV2) (reservation_kind : string)
    (provider_response : ProviderResponse) : Z :=
  let policy_charged :=
    c_policy_enabled (config self)
    && match policy_reason_code provider_response with Some _ => true | None => false end in
  if String.eqb reservation_kind (kind_as_str KindOpenRouterLease) then solvency_bound public
  else if policy_charged then c_policy_charge_cap (config self)
  else c_request_charge_cap (config self).

(** The next state the server signs: its commitment, anchor, blinding, signature. *)
Record NextState := {
  ns_commitment : CurvePointWire;
  ns_anchor : Felt252;
  ns_blind_delta : Felt252;
  ns_signature : SchnorrSignature;
}.

Definition anonymous_commitment (public : RequestPublicInputsV2) : CurvePointWire :=
  {| point_x := anonymous_commitment_x public; point_y := anonymous_commitment_y public |}.

Definition next_state self (public : RequestPublicInputsV2) (charge : Z) : M NextState :=
  blind_delta ← random;
  next_commitment ← lift (map_err InvalidProof
    (server_update (anonymous_commitment public) charge blind_delta));
  anchor_seed ← random;
  let next_anchor := core_next_anchor anchor_seed (request_nullifier public)
                       (point_x next_commitment) (point_y next_commitment) in
  let state_message := core_state_message (c_protocol_version (config self)) (c_chain_id (config self))
    (c_contract_address (config self)) (point_x next_commitment) (point_y next_commitment) next_anchor in
  mret {| ns_commitment := next_commitment; ns_anchor := next_anchor; ns_blind_delta := blind_delta;
          ns_signature := sign_state (signer self) state_message |}.

Definition transcript (request : ApiRequestV2) (provider_response : ProviderResponse) (ns : NextState)
    (reservation_kind binding proof_bytes : string) (created_at finalized_at : Z) : TranscriptRecord :=
  let public := public_inputs request in
  {|
    t_nullifier := request_nullifier public;
    t_status := Finalized;
    t_reservation_kind := reservation_kind;
    t_client_request_id := Some (client_request_id request);
    t_payload_hash := Some (payload_hash request);
    t_charge_applied := Some (charge_applied provider_response);
    t_response_code := Some (status_code provider_response);
    t_response_payload := Some (response_payload provider_response);
    t_response_hash := Some (canonical_response_hash (response_payload provider_response));
    t_next_commitment_x := Some (point_x (ns_commitment ns));
    t_next_commitment_y := Some (point_y (ns_commitment ns));
    t_next_anchor := Some (ns_anchor ns);
    t_blind_delta_srv := Some (ns_blind_delta ns);
    t_next_state_sig_epoch := None;
    t_next_state_sig_root := None;
    t_next_state_sig := Some (ns_signature ns);
    t_policy_reason_code := policy_reason_code provider_response;
    t_policy_evidence_hash := policy_evidence_hash provider_response;
    t_proof_blob := Some proof_bytes;
    t_request_inputs_json := ok (inputs_to_json public);
    t_api_request_binding := Some binding;
    t_created_at := created_at;
    t_finalized_at := Some finalized_at;
  |}.

Definition dashboard_event self (request : ApiRequestV2) (provider_response : ProviderResponse)
    (ns : NextState) (proof_bytes : string) (seq ts_ms upstream_ms total_ms : Z) : DashboardEvent :=
  let public := public_inputs request in
  let '(path, model, messages) := decode_request_view (payload request) in
  {|
    e_seq := seq;
    e_ts_ms := ts_ms;
    e_client_request_id := client_request_id request;
    e_billing_label := billing_label provider_response;
    e_upstream_model := upstream_model provider_response;
    e_request_nullifier := request_nullifier public;
    e_active_root := active_root public;
    e_anon_commitment := anonymous_commitment public;
    e_solvency_bound := solvency_bound public;
    e_solvency_bound_usd := credits_to_usd (solvency_bound public);
    e_statement_type := 1;
    e_state_sig_epoch_in := 0;
    e_proof_backend := "groth16_bn254";
    e_proof_public_output_hash := authorization_tag public;
    e_proof_size_bytes := Z.of_nat (String.length proof_bytes);
    e_request_path := path;
    e_request_model := model;
    e_request_messages := messages;
    e_request_raw := redact_secrets (payload request);
    e_response_code := status_code provider_response;
    e_response_text := redact_secrets (response_payload provider_response);
    e_response_hash := canonical_response_hash (response_payload provider_response);
    e_usage := usage provider_response;
    e_charge_applied := charge_applied provider_response;
    e_charge_usd := charge_usd (charge_applied provider_response);
    e_next_commitment := ns_commitment ns;
    e_next_anchor := ns_anchor ns;
    e_blind_delta_srv := ns_blind_delta ns;
    e_next_state_sig_epoch := 0;
    e_next_state_sig_leaf_index := 0;
    e_next_state_sig_root := point_x (state_signing_key self);
    e_upstream_ms := upstream_ms;
    e_total_ms := total_ms;
  |}.

(** [if let Some(hub) = &self.dashboard { hub.record(..) }] *)
Definition record_event (event : Z → Z → DashboardEvent) : M unit :=
  seq ← with_hub next_seq;
  match seq with
  | None => mret tt
  | Some seq =>
      ts_ms ← current_timestamp_ms;
      _ ← with_hub (λ h, (tt, record h (event seq ts_ms)));
      mret tt
  end.

Definition response_of (request : ApiRequestV2) (provider_response : ProviderResponse) (ns : NextState)
    : RequestResponseV2 := {|
  resp_status := "ok";
  resp_client_request_id := client_request_id request;
  resp_request_nullifier := request_nullifier (public_inputs request);
  resp_response_code := status_code provider_response;
  resp_response_payload := response_payload provider_response;
  resp_response_hash := canonical_response_hash (response_payload provider_response);
  resp_charge_applied := charge_applied provider_response;
  resp_next_commitment := ns_commitment ns;
  resp_next_anchor := ns_anchor ns;
  resp_blind_delta_srv := ns_blind_delta ns;
  resp_next_state_signature := ns_signature ns;
  resp_policy_reason_code := policy_reason_code provider_response;
  resp_policy_evidence_hash := policy_evidence_hash provider_response;
|}.

Definition finalize_request self (request : ApiRequestV2) (provider_response : ProviderResponse)
    (upstream_ms total_ms : Z) : M RequestResponseV2 :=
  let public := public_inputs request in
  existing ← db_read (λ fault s, lookup_by_nullifier fault (request_nullifier public) s);
  existing ← lift (ok_or (Internal "request nullifier is no longer reserved") existing);
  let reservation_kind := t_reservation_kind existing in
  let charge_cap := charge_cap self public reservation_kind provider_response in
  _ ← guard_err (charge_cap <? charge_applied provider_response)%Z
        (Internal ("provider charge " +:+ show_uint (charge_applied provider_response)
           +:+ " exceeds cap " +:+ show_uint charge_cap));
  ns ← next_state self public (charge_applied provider_response);
  proof_bytes ← lift (map_err InvalidProof (base64_decode (proof (request_proof request))));
  binding ← lift (api_request_binding request);
  created_at ← current_timestamp;
  finalized_at ← current_timestamp;
  _ ← db_op (OpFinalize (request_nullifier public)
        (transcript request provider_response ns reservation_kind binding proof_bytes
           created_at finalized_at));
  _ ← record_event (λ seq ts_ms,
        dashboard_event self request provider_response ns proof_bytes seq ts_ms upstream_ms total_ms);
  mret (response_of request provider_response ns).

(** ** Requests *)

Definition execute_provider self (request : ApiRequestV2) : M ProviderResponse :=
  _ ← log_call (CallProvider (client_request_id request) (payload request) (payload_hash request));
  provider self (client_request_id request) (payload request) (payload_hash request).

Definition process_request self (request : ApiRequestV2) : M RequestResponseV2 :=
  prior ← validate_and_reserve self request KindProxy;
  match prior with
  | Some response => mret response
  | None =>
      provider_response ← execute_provider self request;
      upstream_ms ← elapsed_ms;
      total_ms ← elapsed_ms;
      finalize_request self request provider_response upstream_ms total_ms
  end.

(** ** Clearance and recovery *)

Definition process_clearance self (request : ClearanceRequest) : M ClearanceResponseV2 :=
  let nullifier := withdrawal_nullifier request in
  existing ← db_read (λ fault s, lookup_by_nullifier fault nullifier s);
  already_reserved ← match existing with
    | Some record => if decide (t_status record = ClearanceReserved) then mret true else throw NullifierUsed
    | None => mret false
    end;
  let message := core_clearance_message (c_protocol_version (config self)) (c_chain_id (config self))
                   (c_contract_address (config self)) nullifier in
  let signature := sign_clearance (signer self) message in
  _ ← (if already_reserved : bool then mret tt else db_op (OpReserveClearance nullifier));
  mret {| clearance_status := "ok"; clearance_nullifier := nullifier; clearance_signature := signature |}.

Definition recover_by_client_id (client_request_id : string) : M RecoveryResponseV2 :=
  record ← db_read (λ fault s, lookup_by_client_id fault client_request_id s);
  mret (default not_found_recovery (recovery_from_record <$> record)).

Definition recover_by_nullifier (nullifier : Felt252) : M RecoveryResponseV2 :=
  record ← db_read (λ fault s, lookup_by_nullifier fault nullifier s);
  mret (default not_found_recovery (recovery_from_record <$> record)).
End processor.
