(* ===== verification/Leases.v ===== *)
(** * Prompt-private key leases: [zkapi-serverd/src/processor_v2.rs]

    Issue, settlement and retirement of a lease's runtime key. And what the handlers
    of [Processor] and of this file leave alone: each moves the store by store
    operations only; validation leaves the nullifier reserved, or finalized, for
    exactly the request it let pass. *)

From Stdlib Require Import ZArith Lia.
From stdpp Require Import base tactics decidable numbers list strings gmap relations.
From S2P Require Import Prelude Float64 Json Types AuthScheme Config Errors Store StoreTheory.
From S2P Require Import StoreProps Pricing ProviderTypes Dashboard World WorldTheory OpenRouter.
From S2P Require Import OaOrg Provider ProviderTheory Processor.

Local Open Scope string_scope.

Section leases.
Context `{!FeltOps, !WireTypes, !WireOps, !CoreOps, !SqliteText, !JsonText, !SerdeText, !Env}.
Implicit Types (self : RequestProcessor).

(** ** Issue *)

(** The checks before the lease lock is taken. *)
Definition authorize_lease self (request : ApiRequestV2) : result ServerError OpenRouterLeaseConfig :=
  authorization ← map_err
    (λ error, InvalidRequest ("invalid prompt-free OpenRouter lease authorization: " +:+ error))
    (authorization_from_json (payload request));
  _ ← fail_if (negb (bool_decide (authorization = OpenRouterLeaseAuthorization_default)))
        (InvalidRequest "unsupported OpenRouter lease authorization");
  lease_config ← ok_or
    (InvalidRequest "prompt-private OpenRouter leases are not enabled on this server")
    (c_openrouter_leases (config self));
  _ ← fail_if (c_policy_enabled (config self))
        (InvalidRequest "prompt-private leases cannot enforce server-side prompt policy");
  Ok lease_config.

Definition unavailable (what : string) : ServerError := Internal (what +:+ " lease provider is unavailable").

(** An existing lease row must be this request's, from the same source, and
    still waiting for its key. *)
Definition check_existing (lease_config : OpenRouterLeaseConfig) (request : ApiRequestV2)
    (existing : OpenRouterLeaseRecord) : result ServerError unit :=
  persisted_binding ← api_request_binding (l_api_request existing);
  binding_matches ←
    (if negb (bool_decide (l_request_nullifier existing = request_nullifier (public_inputs request)))
     then Ok false
     else (λ binding, String.eqb persisted_binding binding) <$> api_request_binding request);
  _ ← fail_if (negb binding_matches)
        (Internal "pending lease request does not match its nullifier reservation");
  let label := source_label (lc_source lease_config) in
  _ ← fail_if (negb (String.eqb (l_key_source existing) label))
        (Internal ("pending lease source " +:+ l_key_source existing
           +:+ " does not match configured source " +:+ label));
  fail_if (negb (String.eqb (l_status existing) "provisioning")
           || negb (bool_decide (l_key_hash existing = None)))
    LeasePending.

(** What the reconciliation of an existing row decides: the spending limit, the
    issue time, and whether the durable row is kept. *)
Record LeaseStart := {
  start_limit_usd : f64;
  start_resume : bool;
  start_issued_at : Z;
}.

Definition valid_limit (x : f64) : bool := is_finite x && f64_ltb f64_zero x.

Definition reconcile self (lease_config : OpenRouterLeaseConfig) (request : ApiRequestV2)
    (key_name : string) (start : LeaseStart) (existing : OpenRouterLeaseRecord) : M LeaseStart :=
  _ ← lift (check_existing lease_config request existing);
  match lc_source lease_config with
  | SourceOpenRouter _ _ =>
      provisioner ← lift (ok_or (unavailable "OpenRouter") (openrouter self));
      _ ← delete_keys_named provisioner key_name;
      _ ← db_op (OpRemoveLease (client_request_id request));
      mret start
  | SourceOaOrg _ _ =>
      let persisted_limit := credits_to_usd (solvency_bound (public_inputs (l_api_request existing))) in
      _ ← guard_err (negb (bool_decide (l_spending_limit_usd existing = persisted_limit))
                     || negb (valid_limit persisted_limit))
            (Internal "pending lease spending limit does not match its bound request");
      mret {| start_limit_usd := l_spending_limit_usd existing; start_resume := true;
              start_issued_at := l_issued_at existing |}
  end.

(** What provisioning returns: key, hash, inference base, usable end, evidence. *)
Record Provisioned := {
  pv_api_key : string;
  pv_key_hash : string;
  pv_openrouter_api_base : string;
  pv_expires_at : Z;
  pv_verification : option OaKeyVerificationEvidence;
}.

Definition provision_key self (lease_config : OpenRouterLeaseConfig) (request : ApiRequestV2)
    (key_name : string) (spending_limit_usd : f64) (requested_expires_at : Z) : M Provisioned :=
  match lc_source lease_config with
  | SourceOpenRouter _ _ =>
      provisioner ← lift (ok_or (unavailable "OpenRouter") (openrouter self));
      created ← try (create_key provisioner key_name spending_limit_usd requested_expires_at);
      match created with
      | Ok created => mret {|
          pv_api_key := created_key created; pv_key_hash := created_hash created;
          pv_openrouter_api_base := inference_base provisioner;
          pv_expires_at := requested_expires_at; pv_verification := None |}
      | Err error =>
          _ ← try (db_op (OpRemoveLease (client_request_id request)));
          throw error
      end
  | SourceOaOrg _ _ =>
      provisioner ← lift (ok_or (unavailable "OA org") (oa_org self));
      created ← oa_create_key provisioner (client_request_id request) spending_limit_usd
                  (solvency_bound (public_inputs request)) (lc_ttl_seconds lease_config);
      let usable_expires_at := saturating_sub (oa_expires_at created) OA_LEASE_EXPIRY_SAFETY_SECONDS in
      now ← current_timestamp;
      _ ← guard_err (usable_expires_at <=? now)%Z (Internal "OA org key has no safe usable lifetime");
      mret {|
        pv_api_key := oa_key created; pv_key_hash := oa_hash created;
        pv_openrouter_api_base := oa_openrouter_api_base created;
        pv_expires_at := usable_expires_at; pv_verification := Some (oa_verification created) |}
  end.

(** Activation; a key the store does not accept is deleted again. *)
Definition activate_lease self (lease_config : OpenRouterLeaseConfig) (cid key_hash : string) : M unit :=
  activated ← try (db_op (OpActivateLease cid key_hash));
  match activated with
  | Ok _ => mret tt
  | Err error =>
      _ ← match openrouter self, lc_source lease_config with
          | Some provisioner, SourceOpenRouter _ _ =>
              _ ← try (delete_key provisioner key_hash); mret tt
          | _, _ => mret tt
          end;
      throw error
  end.

Definition issued_lease (lease_config : OpenRouterLeaseConfig) (request : ApiRequestV2)
    (start : LeaseStart) (pv : Provisioned) (settle_after : Z) : IssuedOpenRouterLease := {|
  il_lease := {|
    lr_status := "active";
    lr_client_request_id := client_request_id request;
    lr_api_key := pv_api_key pv;
    lr_openrouter_api_base := pv_openrouter_api_base pv;
    lr_issued_at := start_issued_at start;
    lr_expires_at := pv_expires_at pv;
    lr_valid_for_seconds := saturating_sub (pv_expires_at pv) (start_issued_at start);
    lr_settle_after := settle_after;
    lr_spending_limit_usd := start_limit_usd start |};
  il_key_source := source_label (lc_source lease_config);
  il_verification := pv_verification pv;
|}.

Definition issue_openrouter_lease self (request : ApiRequestV2) : M IssuedOpenRouterLease :=
  lease_config ← lift (authorize_lease self request);
  prior ← validate_and_reserve self request KindOpenRouterLease;
  _ ← guard_err (match prior with Some _ => true | None => false end) Replay;
  let cid := client_request_id request in
  let key_name := "zkapi-" +:+ cid in
  let spending_limit_usd := credits_to_usd (solvency_bound (public_inputs request)) in
  _ ← guard_err (negb (valid_limit spending_limit_usd))
        (InvalidRequest "lease spending limit must be positive");
  issued_at ← current_timestamp;
  let start := {| start_limit_usd := spending_limit_usd; start_resume := false;
                  start_issued_at := issued_at |} in
  existing ← db_read (λ fault s, lookup_openrouter_lease fault cid s);
  start ← match existing with
          | Some existing => reconcile self lease_config request key_name start existing
          | None => mret start
          end;
  now ← current_timestamp;
  let requested_expires_at := u64_add now (lc_ttl_seconds lease_config) in
  _ ← (if start_resume start then mret tt
       else db_op (OpCreateLease request (source_label (lc_source lease_config)) (start_issued_at start)
              requested_expires_at
              (u64_add requested_expires_at (lc_settlement_grace_seconds lease_config))
              (start_limit_usd start)));
  pv ← provision_key self lease_config request key_name (start_limit_usd start) requested_expires_at;
  let settle_after := u64_add (pv_expires_at pv) (lc_settlement_grace_seconds lease_config) in
  _ ← db_op (OpLeaseTiming cid (pv_expires_at pv) settle_after);
  _ ← activate_lease self lease_config cid (pv_key_hash pv);
  mret (issued_lease lease_config request start pv settle_after).

(** ** Settlement *)

Definition finalized_record (nullifier : Felt252) : M (option TranscriptRecord) :=
  record ← db_read (λ fault s, lookup_by_nullifier fault nullifier s);
  mret (record ≫= λ record, if decide (t_status record = Finalized) then Some record else None).

(** A member of the stored settlement payload. *)
Definition payload_member {A} (record : TranscriptRecord) (k : string) (as_ : Value → option A) : option A :=
  payload ← t_response_payload record;
  value ← ok (json_parse payload);
  as_ (value_index k value).

Definition settlement_response (payload : string) (charge : Z) (usage_usd : f64)
    (source label : string) : ProviderResponse := {|
  status_code := 200;
  response_payload := payload;
  charge_applied := charge;
  policy_reason_code := None;
  policy_evidence_hash := None;
  usage := Some {| prompt_tokens := 0; completion_tokens := 0; total_tokens := 0;
                   usage_cost_usd := usage_usd; cost_source := source |};
  upstream_model := None;
  billing_label := label;
|}.

Definition oa_expectation (lease : OpenRouterLeaseRecord) (ttl_seconds : Z) : OaOrgUsageExpectation := {|
  ex_credit_limit_usd := l_spending_limit_usd lease;
  ex_duration_minutes := (ttl_seconds / 60)%Z;
  ex_limit_credits := solvency_bound (public_inputs (l_api_request lease));
  ex_minimum_expires_at := l_expires_at lease;
  ex_maximum_expires_at := u64_add (l_expires_at lease) OA_LEASE_EXPIRY_SAFETY_SECONDS;
|}.

Definition oa_settlement_payload (lease : OpenRouterLeaseRecord) (receipt : OaOrgFinalUsage)
    (usage_credits : Value) (usage_usd : f64) : string :=
  json_print (json_object [
    ("type", Str "oa_org_ephemeral_lease_settlement");
    ("issued_at", Num (PosInt (l_issued_at lease)));
    ("expires_at", Num (PosInt (l_expires_at lease)));
    ("usage_credits", usage_credits);
    ("usage_usd", json_f64 usage_usd);
    ("usage_receipt_expires_at", Num (PosInt (fu_expires_at receipt)));
    ("usage_receipt_closed_at", Num (PosInt (fu_closed_at receipt)));
    ("usage_finalized_at", Num (PosInt (fu_finalized_at receipt)));
    ("station_id", Str (fu_station_id receipt));
    ("station_signature", Str (fu_station_signature receipt));
    ("org_signature", Str (fu_org_signature receipt))]).

(** Fetch the final usage receipt of an OA lease. *)
Definition oa_receipt self (lease : OpenRouterLeaseRecord) : M OaOrgFinalUsage :=
  key_hash ← lift (ok_or (Internal "active OA org lease has no key hash") (l_key_hash lease));
  provisioner ← lift (ok_or (unavailable "OA org") (oa_org self));
  lease_config ← lift (ok_or (Internal "OA org lease configuration is unavailable")
                         (c_openrouter_leases (config self)));
  _ ← guard_err ((lc_ttl_seconds lease_config =? 0)%Z || negb (is_multiple_of (lc_ttl_seconds lease_config) 60))
        (Internal "OA org lease duration is not a positive whole number of minutes");
  receipt ← oa_get_key_usage provisioner (l_client_request_id lease) key_hash
              (oa_expectation lease (lc_ttl_seconds lease_config));
  receipt ← lift (match receipt with
    | UsageFinalized receipt => Ok receipt
    | UsagePending retry_after_seconds => Err (LeaseSettlementPending retry_after_seconds)
    end);
  _ ← guard_err (fu_closed_at receipt <? l_issued_at lease)%Z
        (Internal "OA org usage receipt predates the issued lease");
  mret receipt.

Definition settle_oa_org_lease self (lease : OpenRouterLeaseRecord) : M unit :=
  finalized ← finalized_record (l_request_nullifier lease);
  match finalized with
  | Some record =>
      let usage_credits := default 0%Z (payload_member record "usage_credits" as_u64) in
      db_op (OpFinalizeLease (l_client_request_id lease) (credits_to_usd usage_credits)
               (default 0%Z (t_charge_applied record)))
  | None =>
      receipt ← oa_receipt self lease;
      let charge := fu_usage_credits receipt in
      let usage_usd := credits_to_usd charge in
      usage_credits ← json_u128 charge;
      let payload := oa_settlement_payload lease receipt usage_credits usage_usd in
      _ ← finalize_request self (l_api_request lease)
            (settlement_response payload charge usage_usd "oa_org_signed_usage_receipt"
               "direct:oa-org-ephemeral") 0 0;
      db_op (OpFinalizeLease (l_client_request_id lease) usage_usd charge)
  end.

Definition openrouter_settlement_payload (lease : OpenRouterLeaseRecord) (usage_usd : f64) : string :=
  json_print (json_object [
    ("type", Str "openrouter_ephemeral_lease_settlement");
    ("issued_at", Num (PosInt (l_issued_at lease)));
    ("expires_at", Num (PosInt (l_expires_at lease)));
    ("usage_usd", json_f64 usage_usd)]).

Definition settle_openrouter_lease self (lease : OpenRouterLeaseRecord)
    (provisioner : OpenRouterProvisioner) : M unit :=
  finalized ← finalized_record (l_request_nullifier lease);
  match finalized with
  | Some record =>
      let usage_usd := default f64_zero (payload_member record "usage_usd" as_f64) in
      db_op (OpFinalizeLease (l_client_request_id lease) usage_usd
               (default 0%Z (t_charge_applied record)))
  | None =>
      key_hash ← lift (ok_or (Internal "active OpenRouter lease has no key hash") (l_key_hash lease));
      usage ← get_key_usage provisioner key_hash;
      let raw_charge := usd_to_credits (usage_usd usage) in
      let charge := Z.min raw_charge (solvency_bound (public_inputs (l_api_request lease))) in
      let payload := openrouter_settlement_payload lease (usage_usd usage) in
      _ ← finalize_request self (l_api_request lease)
            (settlement_response payload charge (usage_usd usage) "openrouter_key_aggregate"
               "direct:openrouter-ephemeral") 0 0;
      _ ← db_op (OpFinalizeLease (l_client_request_id lease) (usage_usd usage) charge);
      _ ← try (delete_key provisioner key_hash);
      mret tt
  end.

(** The settlement of one lease by the source that issued its key. *)
Definition settle_lease self (lease : OpenRouterLeaseRecord) : M unit :=
  if String.eqb (l_key_source lease) "openrouter" then
    match openrouter self with
    | Some provisioner => settle_openrouter_lease self lease provisioner
    | None => throw (Internal "direct OpenRouter settlement credential is unavailable")
    end
  else if String.eqb (l_key_source lease) "oa_org" then settle_oa_org_lease self lease
  else throw (Internal ("unsupported lease key source " +:+ l_key_source lease)).

Definition settle_one self (lease : OpenRouterLeaseRecord) : M unit :=
  result ← try (settle_lease self lease);
  match result with
  | Ok _ => mret tt
  | Err error =>
      _ ← try (db_op (OpLeaseError (l_client_request_id lease) (error_to_string error)));
      mret tt
  end.

Definition settle_due_openrouter_leases self : M unit :=
  now ← current_timestamp;
  leases ← db_read (λ fault s, due_openrouter_leases fault now s);
  for_each leases (settle_one self).

(** ** Status and retirement *)

Definition openrouter_leases_enabled self : bool :=
  match c_openrouter_leases (config self) with Some _ => true | None => false end.

Definition lease_status_response (lease : OpenRouterLeaseRecord) : OpenRouterLeaseStatusResponse := {|
  ls_status := l_status lease;
  ls_client_request_id := l_client_request_id lease;
  ls_issued_at := l_issued_at lease;
  ls_expires_at := l_expires_at lease;
  ls_settle_after := l_settle_after lease;
  ls_spending_limit_usd := l_spending_limit_usd lease;
  ls_usage_usd := l_usage_usd lease;
  ls_charge_applied := l_charge_applied lease;
  ls_last_error := l_last_error lease;
|}.

Definition openrouter_lease_status (client_request_id : string) : M (option OpenRouterLeaseStatusResponse) :=
  lease ← db_read (λ fault s, lookup_openrouter_lease fault client_request_id s);
  mret (lease_status_response <$> lease).

Definition retire_openrouter_lease self (cid : string) (request : ApiRequestV2)
    : M OpenRouterLeaseStatusResponse :=
  lease ← db_read (λ fault s, lookup_openrouter_lease fault cid s);
  lease ← lift (ok_or (InvalidRequest "unknown OpenRouter lease") lease);
  request_matches ← lift (map_err
    (λ error, Internal ("failed to compare lease retirement proof: " +:+ error))
    (presented ← request_to_value request;
     issued ← request_to_value (l_api_request lease);
     Ok (value_eqb presented issued)));
  _ ← guard_err (negb (String.eqb (client_request_id request) cid) || negb request_matches)
        (InvalidRequest "lease retirement proof does not match the issued lease");
  _ ← (if String.eqb (l_status lease) "finalized" then mret tt
       else if String.eqb (l_status lease) "active" then settle_lease self lease
       else throw LeasePending);
  status ← openrouter_lease_status cid;
  lift (ok_or (Internal "retired lease disappeared") status).
End leases.

(** ** Every handler is a sequence of store operations *)

Section processor_safe.
Context `{!FeltOps, !WireTypes, !WireOps, !CoreOps, !SqliteText, !JsonText, !SerdeText, !Env, !EnvLaws}.
Implicit Types (self : RequestProcessor).

Lemma validate_and_reserve_safe self request kind : safe (validate_and_reserve self request kind).
Proof. unfold validate_and_reserve, current_root. program. Qed.
Lemma validate_and_reserve_quiet self request kind : quiet (validate_and_reserve self request kind).
Proof. unfold validate_and_reserve, current_root. program. Qed.
Lemma next_state_safe self public c : safe (next_state self public c).
Proof. unfold next_state, random. program. Qed.
Lemma next_state_quiet self public c : quiet (next_state self public c).
Proof. unfold next_state, random. program. Qed.
Lemma next_state_silent self public c : silent (next_state self public c).
Proof. unfold next_state, random. program. Qed.
Lemma record_event_silent f : silent (record_event f).
Proof. unfold record_event, current_timestamp_ms. program. Qed.
Lemma record_event_safe f : safe (record_event f).
Proof. unfold record_event, current_timestamp_ms. program. Qed.
Lemma record_event_quiet f : quiet (record_event f).
Proof. unfold record_event, current_timestamp_ms. program. Qed.
#[local] Hint Resolve next_state_safe next_state_quiet record_event_safe record_event_quiet : handlers.
Lemma finalize_request_safe self request r u t : safe (finalize_request self request r u t).
Proof. unfold finalize_request. program. Qed.
Lemma finalize_request_quiet self request r u t : quiet (finalize_request self request r u t).
Proof. unfold finalize_request. program. Qed.
#[local] Hint Resolve validate_and_reserve_safe finalize_request_safe : handlers.
Lemma process_request_safe self request : ProviderContract (provider self) → safe (process_request self request).
Proof. intros Hp. unfold process_request, execute_provider, elapsed_ms. program. Qed.
Lemma process_clearance_safe self request : safe (process_clearance self request).
Proof. unfold process_clearance. program. Qed.
Lemma process_clearance_quiet self request : quiet (process_clearance self request).
Proof. unfold process_clearance. program. Qed.
Lemma reconcile_safe self cfg request name start existing : safe (reconcile self cfg request name start existing).
Proof. unfold reconcile. program. Qed.
Lemma provision_key_safe self cfg request name limit e : safe (provision_key self cfg request name limit e).
Proof. unfold provision_key. program. Qed.
Lemma activate_lease_safe self cfg cid h : safe (activate_lease self cfg cid h).
Proof. unfold activate_lease. program. Qed.
#[local] Hint Resolve reconcile_safe provision_key_safe activate_lease_safe : handlers.
Lemma issue_openrouter_lease_safe self request : safe (issue_openrouter_lease self request).
Proof. unfold issue_openrouter_lease. program. Qed.
Lemma finalized_record_safe n : safe (finalized_record n).
Proof. unfold finalized_record. program. Qed.
#[local] Hint Resolve finalized_record_safe : handlers.
Lemma oa_receipt_safe self lease : safe (oa_receipt self lease).
Proof. unfold oa_receipt. program. Qed.
#[local] Hint Resolve oa_receipt_safe : handlers.
Lemma settle_lease_safe self lease : safe (settle_lease self lease).
Proof. unfold settle_lease, settle_openrouter_lease, settle_oa_org_lease. program. Qed.
#[local] Hint Resolve settle_lease_safe : handlers.
Lemma settle_due_safe self : safe (settle_due_openrouter_leases self).
Proof.
  unfold settle_due_openrouter_leases, settle_one. program. apply for_each_safe. intros. program.
Qed.
Lemma openrouter_lease_status_safe cid : safe (openrouter_lease_status cid).
Proof. unfold openrouter_lease_status. program. Qed.
#[local] Hint Resolve openrouter_lease_status_safe : handlers.
Lemma retire_openrouter_lease_safe self cid request : safe (retire_openrouter_lease self cid request).
Proof. unfold retire_openrouter_lease. program. Qed.
End processor_safe.
#[export] Hint Resolve validate_and_reserve_safe validate_and_reserve_quiet next_state_safe
  next_state_quiet next_state_silent record_event_silent record_event_safe record_event_quiet finalize_request_safe finalize_request_quiet
  process_clearance_safe process_clearance_quiet reconcile_safe provision_key_safe
  activate_lease_safe issue_openrouter_lease_safe finalized_record_safe oa_receipt_safe
  settle_lease_safe settle_due_safe openrouter_lease_status_safe retire_openrouter_lease_safe : handlers.
