(* ===== verification/ToyWorld.v ===== *)
(** * A concrete world

    A calm instance of [World.Env] for evaluating handlers: a fixed clock, a
    fixed database fault (or none), a function for the remote services, and no
    other handler running; with a JSON codec that knows a table of documents. *)

From Stdlib Require Import ZArith Lia.
From stdpp Require Import base tactics decidable numbers list strings relations.
From S2P Require Import Prelude Float64 Json Http Types AuthScheme Config Errors Store StoreTheory.
From S2P Require Import Pricing ProviderTypes Dashboard World OpenRouter OaOrg Provider Processor.
From S2P Require Import Leases Toy.

Local Open Scope string_scope.

(** ** JSON *)

(** The documents the codec knows, by their text. *)
Definition documents : list (string * Value) := [
  ("null", Null);
  ("usage:0.5", Object [("data", Object [("usage", Num (Float (f64_lit 5 1)))])]);
  ("created", Object [("data", Object [("expires_at", Str (unix_to_iso8601 1610));
                                       ("hash", Str "h1");
                                       ("include_byok_in_limit", Bool true);
                                       ("limit", Num (Float (f64_of_Z 5)))]);
                      ("key", Str "sk-or-1")]);
  ("root:r2", Object [("root", Str "r2")]);
  ("hi", Object [("model", Str "gpt-4o"); ("messages", Array [])])
].

#[export] Instance toy_json_text : JsonText := {|
  json_parse := λ s, match head (select_where (λ d, String.eqb d.1 s) documents) with
                     | Some d => Ok d.2
                     | None => Err ("unknown document " +:+ s)
                     end;
  json_print := λ v, match head (select_where (λ d, value_eqb d.2 v) documents) with
                     | Some d => d.1
                     | None => "?"
                     end;
|}.
#[export] Instance toy_serde_text : SerdeText := {| decode_error := λ s, "cannot decode " +:+ s |}.

(** ** The world *)

Record ToyWorld := {
  tw_clock_ms : Z;
  tw_fault : option DbFault;
  tw_serve : HttpRequest → result string HttpResponse;
}.

#[export] Instance toy_env : Env := {|
  World := ToyWorld;
  env_interfere := λ w σ, (σ, w);
  env_fault := λ w, (tw_fault w, w);
  env_clock_ms := λ w, (cast_u64 (tw_clock_ms w), w);
  env_elapsed_ms := λ w, (7%Z, w);
  env_random := λ w, ("rnd" : @Felt252 toy_felt, w);
  env_http := λ w r, ((λ resp, {| http_status := cast_u16 (http_status resp);
    http_response_headers := http_response_headers resp; http_text := http_text resp |}) <$> tw_serve w r, w);
  status_text := show_uint;
|}.

#[export] Instance toy_env_laws : EnvLaws.
Proof.
  split; [done|intros w|intros w request response].
  - pose proof (Z.mod_pos_bound (tw_clock_ms w) (2 ^ 64) ltac:(done)).
    unfold in_u64. simpl. unfold cast_u64, as_unsigned, u64_MAX. lia.
  - simpl. destruct (tw_serve w request) as [resp|]; [|discriminate]. intros [= <-].
    pose proof (Z.mod_pos_bound (http_status resp) (2 ^ 16) ltac:(done)).
    unfold in_u16. simpl. unfold cast_u16, as_unsigned, u16_MAX. lia.
Qed.

Definition offline : HttpRequest → result string HttpResponse := λ _, Err "offline".
(** At [request_time] 1000 s, without faults. *)
Definition calm : ToyWorld :=
  {| tw_clock_ms := 1010000; tw_fault := None; tw_serve := offline |}.

Definition start (s : NullifierStore) : State :=
  {| shared := {| store := s; root := "root"; hub := None |}; world := calm; calls := []; writes := [] |}.

(** ** A processor *)

Definition toy_config (leases : option OpenRouterLeaseConfig) : ServerConfig := {|
  c_protocol_version := 2;
  c_chain_id := 1;
  c_contract_address := "0xc0";
  c_request_charge_cap := 1000000;
  c_policy_charge_cap := 2000000;
  c_policy_enabled := false;
  c_auth_scheme := StateAnchor;
  c_listen_addr := "0.0.0.0:3000";
  c_provider_kind := Echo;
  c_echo_fixed_charge := 42;
  c_proxy_default_charge := 1;
  c_proxy_upstream_url := None;
  c_proxy_timeout_ms := 30000;
  c_db_path := "zkapi.db";
  c_state_seed := "seed";
  c_clear_seed := "clear";
  c_initial_root := "root";
  c_indexer_url := None;
  c_root_poll_interval_ms := 1000;
  c_metered := None;
  c_openrouter_leases := leases;
  c_proof_setup_dir := "setup";
|}.

Definition toy_processor : RequestProcessor := {|
  config := toy_config None;
  signer := signer_new "seed" "clear";
  verifier := tt;
  provider := echo_execute 42;
  openrouter := None;
  oa_org := None;
|}.

(** A server that issues key leases of ten minutes, and its key service. *)
Definition lease_config : OpenRouterLeaseConfig := {|
  lc_source := SourceOpenRouter "mgmt" "https://or";
  lc_ttl_seconds := 600;
  lc_settlement_grace_seconds := 60;
  lc_settlement_poll_seconds := 5;
|}.
Definition key_service : HttpRequest → result string HttpResponse := λ r, Ok {|
  http_status := 200;
  http_response_headers := [];
  http_text := Ok (if String.eqb (http_method r) "POST" then "created"
                   else if String.eqb (http_method r) "GET" then "usage:0.5" else "");
|}.
Definition lease_processor : RequestProcessor := {|
  config := toy_config (Some lease_config);
  signer := signer_new "seed" "clear";
  verifier := tt;
  provider := echo_execute 42;
  openrouter := Some {| management_key := "mgmt"; base := "https://or" |};
  oa_org := None;
|}.
Definition lease_spend : ApiRequestV2 := {|
  client_request_id := "req-1";
  payload := "lease";
  payload_hash := ("hlease" : @Felt252 toy_felt);
  public_inputs := {|
    protocol_version := 2;
    chain_id := 1;
    contract_address := ("0xc0" : @Felt252 toy_felt);
    active_root := "root";
    state_signing_key_x := "seedx";
    state_signing_key_y := "seedy";
    request_time := 1000;
    solvency_bound := 5000000;
    request_nullifier := "n1";
    authorization_tag := "n1#req-1|hlease";
    anonymous_commitment_x := "ax";
    anonymous_commitment_y := "ay" |};
  request_proof := {| backend := (tt : @ProofBackendWire toy_types); proof := "good" |};
|}.
Definition lease_start (s : NullifierStore) : State :=
  {| shared := {| store := s; root := "root"; hub := None |};
     world := {| tw_clock_ms := 1010000; tw_fault := None; tw_serve := key_service |};
     calls := []; writes := [] |}.
Definition leased_state : State := (issue_openrouter_lease lease_processor lease_spend (lease_start empty_store)).2.

(** ** Running handlers *)

Lemma run_eq {A} (m : M A) σ r : (m σ).1 = r → m σ = (r, (m σ).2).
Proof. intros <-. apply surjective_pairing. Qed.
