(* ===== verification/Routes.v ===== *)
(** * The HTTP routes: [zkapi-serverd/src/routes.rs]

    The handlers behind the routes, the mapping of errors to HTTP replies, the
    root poller and the start of the server. A handler receives its decoded body and
    returns its status, headers and body value; [ServerRouter] has the routes. *)

From Stdlib Require Import ZArith Lia Ascii.
From stdpp Require Import base tactics decidable numbers list strings relations.
From S2P Require Import Prelude Float64 Json Http Types AuthScheme Config Errors Store StoreTheory.
From S2P Require Import StoreProps Pricing ProviderTypes Dashboard World WorldTheory OpenRouter.
From S2P Require Import OaOrg Provider ProviderTheory Processor Leases.

Local Open Scope string_scope.

(** ** Replies *)

Section routes.
Context `{!FeltOps, !WireTypes, !WireOps, !CoreOps, !SqliteText, !JsonText, !SerdeText, !Env}.
Implicit Types (processor : RequestProcessor).

Record ErrorHttpResponse := {
  eh_status : Z;
  eh_headers : list (string * string);
  eh_body : ErrorResponse;
}.

Definition error_status (err : ServerError) : Z :=
  match err with
  | InvalidProof _ | InvalidRequest _ | ProtocolMismatch _ => 400
  | StaleRoot _ => 409
  | Replay | NullifierUsed => 409
  | LeasePending | LeaseSettlementPending _ => 409
  | NoteExpired => 410
  | CapacityExhausted => 503
  | Internal _ | Database _ => 500
  | OaRateLimited _ _ => 429
  end.

Definition error_retry_after (err : ServerError) : option Z :=
  match err with
  | OaRateLimited _ retry_after_seconds | LeaseSettlementPending retry_after_seconds =>
      Some retry_after_seconds
  | _ => None
  end.

Definition build_error_response (err : ServerError) (client_request_id : string)
    (latest_root : option Felt252) (now_ms : Z) : ErrorHttpResponse := {|
  eh_status := error_status err;
  eh_headers := match error_retry_after err with
                | Some seconds => [("retry-after", show_uint seconds)]
                | None => []
                end;
  eh_body := {|
    er_status := "error";
    er_client_request_id := client_request_id;
    er_error_code := error_code err;
    er_error_message := error_to_string err;
    er_retriable := is_retriable err;
    er_latest_root := latest_root;
    er_server_time_ms := Some now_ms;
    er_retry_after_seconds := error_retry_after err |};
|}.

Definition error_to_response (err : ServerError) (client_request_id : string) : M ErrorHttpResponse :=
  latest_root ← match err with
                | StaleRoot _ => root ← current_root; mret (Some root)
                | _ => mret None
                end;
  now_ms ← current_timestamp_ms;
  mret (build_error_response err client_request_id latest_root now_ms).

(** A handler's reply: a status with a body, or an error reply. *)
Definition Reply (A : Type) : Type := result ErrorHttpResponse (Z * A).

(** [m.map(..).map_err(|e| error_to_response(..))] *)
Definition reply {A} (status : Z) (client_request_id : string) (m : M A) : M (Reply A) :=
  outcome ← try m;
  match outcome with
  | Ok body => mret (Ok (status, body))
  | Err e => response ← error_to_response e client_request_id; mret (Err response)
  end.

(** ** Handlers *)

Definition handle_request processor (api_request : ApiRequestV2) : M (Reply RequestResponseV2) :=
  reply 200 (client_request_id api_request) (process_request processor api_request).

Definition handle_openrouter_lease processor (api_request : ApiRequestV2)
    : M (Reply IssuedOpenRouterLease) :=
  reply 201 (client_request_id api_request) (issue_openrouter_lease processor api_request).

(** [Err] is the bare status. *)
Definition handle_openrouter_lease_status (client_request_id : string)
    : M (result Z OpenRouterLeaseStatusResponse) :=
  status ← openrouter_lease_status client_request_id;
  mret (ok_or 404%Z status).

Definition handle_openrouter_lease_retirement processor (client_request_id : string)
    (api_request : ApiRequestV2) : M (Reply OpenRouterLeaseStatusResponse) :=
  reply 200 client_request_id (retire_openrouter_lease processor client_request_id api_request).

Definition handle_clearance processor (clearance_req : ClearanceRequest) : M (Reply ClearanceResponseV2) :=
  reply 200 (to_hex (withdrawal_nullifier clearance_req)) (process_clearance processor clearance_req).

Definition handle_recovery_by_id (client_request_id : string) : M (Reply RecoveryResponseV2) :=
  reply 200 client_request_id (recover_by_client_id client_request_id).

Definition handle_recovery_by_nullifier (nullifier_hex : string) : M (Reply RecoveryResponseV2) :=
  match from_hex nullifier_hex with
  | Err e =>
      response ← error_to_response (InvalidRequest ("invalid nullifier hex: " +:+ e)) nullifier_hex;
      mret (Err response)
  | Ok nullifier => reply 200 nullifier_hex (recover_by_nullifier nullifier)
  end.

Definition provider_name (provider_kind : ProviderKind) : string :=
  match provider_kind with Echo => "echo" | HttpProxy => "http-proxy" | Metered => "metered" end.

Record HealthResponse := {
  h_status : string;
  h_protocol_version : Z;
  h_chain_id : Z;
  h_contract_address : Felt252;
  h_current_root : Felt252;
  h_provider : string;
  h_indexer_url : option string;
  h_policy_enabled : bool;
  h_auth_scheme : string;
  h_request_modes : list string;
}.

Definition handle_health processor : M HealthResponse :=
  let config := config processor in
  root ← current_root;
  mret {|
    h_status := "ok";
    h_protocol_version := c_protocol_version config;
    h_chain_id := c_chain_id config;
    h_contract_address := c_contract_address config;
    h_current_root := root;
    h_provider := provider_name (c_provider_kind config);
    h_indexer_url := c_indexer_url config;
    h_policy_enabled := c_policy_enabled config;
    h_auth_scheme := scheme_as_str (c_auth_scheme config);
    h_request_modes := if openrouter_leases_enabled processor then ["proxy"; "direct_openrouter"]
                       else ["proxy"];
  |}.

Record AttestationResponse := {
  at_status : string;
  at_protocol_version : Z;
  at_chain_id : Z;
  at_contract_address : Felt252;
  at_current_root : Felt252;
  at_state_signing_key : CurvePointWire;
  at_clearance_signing_key : CurvePointWire;
  at_auth_scheme : string;
}.

Definition handle_attestation processor : M AttestationResponse :=
  let config := config processor in
  root ← current_root;
  mret {|
    at_status := "ok";
    at_protocol_version := c_protocol_version config;
    at_chain_id := c_chain_id config;
    at_contract_address := c_contract_address config;
    at_current_root := root;
    at_state_signing_key := state_signing_key processor;
    at_clearance_signing_key := clearance_signing_key processor;
    at_auth_scheme := scheme_as_str (c_auth_scheme config);
  |}.

(** ** Dashboard routes *)

Record ServerIdentity := {
  si_protocol_version : Z;
  si_chain_id : Z;
  si_contract_address : Felt252;
  si_current_root : Felt252;
  si_provider : string;
  si_upstream_kind : option string;
  si_upstream_api_base : option string;
  si_auth_scheme : string;
  si_policy_enabled : bool;
  si_request_charge_cap : Z;
  si_request_charge_cap_usd : f64;
  si_credits_per_usd : f64;
  si_state_signing_key : CurvePointWire;
  si_clearance_signing_key : CurvePointWire;
  si_openrouter_leases_enabled : bool;
}.

Record DashboardSummary := {
  ds_server : ServerIdentity;
  ds_totals : DashboardTotals;
  ds_started_ms : Z;
  ds_recent_count : Z;
}.

Definition upstream_bases (m : MeteredConfig) : string :=
  let base (key : option string) (entry : string) : list string :=
    match key with Some _ => [entry] | None => [] end in
  String.concat ", " (base (openai_api_key m) ("openai=" +:+ openai_api_base m)
                      ++ base (openrouter_inference_key m) ("openrouter=" +:+ openrouter_api_base m))%list.

Definition handle_dashboard_summary processor : M DashboardSummary :=
  let config := config processor in
  root ← current_root;
  stats ← with_hub (λ h, ((totals h, started_ms h, Z.of_nat (length (recent h))), h));
  let '(totals, started_ms, recent_count) := default (DashboardTotals_default, 0%Z, 0%Z) stats in
  mret {|
    ds_server := {|
      si_protocol_version := c_protocol_version config;
      si_chain_id := c_chain_id config;
      si_contract_address := c_contract_address config;
      si_current_root := root;
      si_provider := provider_name (c_provider_kind config);
      si_upstream_kind := upstreams_label <$> c_metered config;
      si_upstream_api_base := upstream_bases <$> c_metered config;
      si_auth_scheme := scheme_as_str (c_auth_scheme config);
      si_policy_enabled := c_policy_enabled config;
      si_request_charge_cap := c_request_charge_cap config;
      si_request_charge_cap_usd := credits_to_usd (c_request_charge_cap config);
      si_credits_per_usd := CREDITS_PER_USD;
      si_state_signing_key := state_signing_key processor;
      si_clearance_signing_key := clearance_signing_key processor;
      si_openrouter_leases_enabled := openrouter_leases_enabled processor |};
    ds_totals := totals;
    ds_started_ms := started_ms;
    ds_recent_count := recent_count;
  |}.

Definition handle_dashboard_recent : M (list DashboardEvent) :=
  events ← with_hub (λ h, (recent h, h));
  mret (default [] events).

(** ** Background tasks and start *)

(** [fetch_indexer_root]; [decode_felt] is the [Deserialize] of [Felt252]. *)
Context (decode_felt : Value → option Felt252).

Definition decode_RootResponse (v : Value) : option Felt252 :=
  m ← as_object v; field_req decode_felt "root" m.

Definition fetch_indexer_root (indexer_url : string) : M (result string Felt252) :=
  response ← http {|
    http_method := "GET";
    http_url := trim_end_matches "/" indexer_url +:+ "/v1/tree/root";
    http_bearer := None;
    http_headers := [];
    http_query := [];
    http_body := NoBody |};
  mret (response ← response;
        _ ← fail_if (is_http_error (http_status response)) (status_text (http_status response));
        text ← http_text response;
        from_str decode_RootResponse text).

(** One tick of the root poller. *)
Definition poll_root (indexer_url : string) : M unit :=
  fetched ← fetch_indexer_root indexer_url;
  match fetched with
  | Ok root => update_root false root
  | Err _ => mret tt
  end.

(** One tick of the lease settler. *)
Definition settler_tick processor : M unit := settle_due_openrouter_leases processor.

Definition settler_interval_seconds (lease : OpenRouterLeaseConfig) : Z :=
  Z.max (lc_settlement_poll_seconds lease) 1.

(** [run_server] up to serving: the provider, the initial root, the processor
    with an empty dashboard hub of 500 events. *)
Definition start_server (load : result string RequestVerifier) (client : result string unit)
    (parse_url : string → option ParsedUrl) (config : ServerConfig) : M (result string RequestProcessor) :=
  let signer := signer_new (c_state_seed config) (c_clear_seed config) in
  match build_provider client config with
  | Err e => mret (Err e)
  | Ok provider =>
      initial_root ← match c_indexer_url config with
        | Some indexer_url =>
            fetched ← fetch_indexer_root indexer_url;
            mret (match fetched with Ok root => root | Err _ => c_initial_root config end)
        | None => mret (c_initial_root config)
        end;
      now_ms ← current_timestamp_ms;
      match try_new load client parse_url config signer provider with
      | Err e => mret (Err e)
      | Ok processor =>
          _ ← state (λ σ, (Ok tt, with_shared
                {| store := store (shared σ); root := initial_root; hub := Some (hub_new 500 now_ms) |} σ));
          mret (Ok processor)
      end
  end.
End routes.

(** ** Every request is answered *)

Section answers.
Context `{!FeltOps, !WireTypes, !WireOps, !CoreOps, !SqliteText, !JsonText, !SerdeText, !Env, !EnvLaws}.
Implicit Types (processor : RequestProcessor).

Lemma current_timestamp_ms_run σ : ∃ ms σ', current_timestamp_ms σ = (Ok ms, σ') ∧ shared σ' = shared σ
  ∧ calls σ' = calls σ ∧ writes σ' = writes σ.
Proof.
  unfold current_timestamp_ms, draw. destruct (env_clock_ms (world σ)) as [ms w]. by do 2 eexists.
Qed.

Lemma read_root_run σ : ∃ root σ', current_root σ = (Ok root, σ')
  ∧ calls σ' = calls σ ∧ writes σ' = writes σ ∧ store_steps (store (shared σ)) (store (shared σ')).
Proof.
  unfold current_root, read_root. destruct (interfere_spec σ) as (σ1 & Hi & Hc & Hw & Hs).
  rewrite (bind_M_run _ _ _ _ _ Hi). unfold state. by do 2 eexists.
Qed.

(** What an error reply says about its error. *)
Definition error_reply_of (e : ServerError) (client_request_id : string) (h : ErrorHttpResponse) : Prop :=
  eh_status h = error_status e
  ∧ er_client_request_id (eh_body h) = client_request_id
  ∧ er_error_code (eh_body h) = error_code e ∧ er_error_message (eh_body h) = error_to_string e
  ∧ er_retriable (eh_body h) = is_retriable e
  ∧ er_retry_after_seconds (eh_body h) = error_retry_after e
  ∧ eh_headers h = match er_retry_after_seconds (eh_body h) with
                   | Some s => [("retry-after", show_uint s)] | None => [] end
  ∧ (er_latest_root (eh_body h) ≠ None ↔ ∃ root, e = StaleRoot root).

Lemma error_to_response_run e cid σ :
  ∃ h σ', error_to_response e cid σ = (Ok h, σ') ∧ error_reply_of e cid h
    ∧ calls σ' = calls σ ∧ writes σ' = writes σ.
Proof.
  unfold error_to_response.
  assert (∃ latest σ1, (match e with StaleRoot _ => root ← current_root; mret (Some root) | _ => mret None end) σ
            = (Ok latest, σ1) ∧ calls σ1 = calls σ ∧ writes σ1 = writes σ
            ∧ (latest ≠ None ↔ ∃ root, e = StaleRoot root)) as (latest & σ1 & Hl & Hc1 & Hw1 & Hiff).
  { destruct (read_root_run σ) as (root & σ1 & Hr & Hc & Hw & _).
    destruct e; try (exists None, σ; do 3 (split; [done|]); split; [intros Hne; by destruct Hne|by intros [? [=]]]).
    exists (Some root), σ1. split; [exact (bind_M_run _ _ _ _ _ Hr)|]. do 2 (split; [done|]). split; eauto. }
  destruct (current_timestamp_ms_run σ1) as (ms & σ2 & Ht & _ & Hc2 & Hw2).
  rewrite (bind_M_run _ _ _ _ _ Hl), (bind_M_run _ _ _ _ _ Ht).
  do 2 eexists. split; [reflexivity|]. split; [|split; congruence].
  unfold error_reply_of, build_error_response. simpl. repeat (split; [reflexivity|]). exact Hiff.
Qed.

(** Every outcome is answered, faithfully. A handler that runs a processor
    operation always replies, whatever the operation does: its result with the
    success status, or an error whose HTTP status, code, text, retriability and
    retry delay are those of the error, whose [Retry-After] header is present
    exactly when the body gives a delay and then equals it, and which names the
    latest root exactly for a stale root. Replying makes no external call and no
    store write. A status of 429 means an OA rate limit, a retriable error never
    has a client-error status other than 409 or 429, and no error maps to a
    success. *)
Theorem every_outcome_is_answered {A} status cid (m : M A) σ out σ1 :
  m σ = (out, σ1) →
  ∃ answer σ', reply status cid m σ = (Ok answer, σ') ∧ calls σ' = calls σ1 ∧ writes σ' = writes σ1
    ∧ match out with
      | Ok body => answer = Ok (status, body)
      | Err e => ∃ h, answer = Err h ∧ error_reply_of e cid h
          ∧ (400 ≤ eh_status h < 600)%Z
          ∧ (eh_status h = 429%Z ↔ ∃ reason s, e = OaRateLimited reason s)
          ∧ (er_retriable (eh_body h) = true → eh_status h ∈ [409; 429; 500]%Z)
      end.
Proof.
  intros Hm. unfold reply. assert (try m σ = (Ok out, σ1)) as Ht by (unfold try; by rewrite Hm).
  rewrite (bind_M_run _ _ _ _ _ Ht). destruct out as [body|e]; [by do 2 eexists|].
  destruct (error_to_response_run e cid σ1) as (h & σ' & Hr & Hh & Hc & Hw).
  rewrite (bind_M_run _ _ _ _ _ Hr). do 2 eexists. split; [reflexivity|]. split; [done|]. split; [done|].
  exists h. split; [done|]. split; [done|].
  destruct Hh as (Hst & _ & _ & _ & Hret & _). rewrite Hst, Hret. clear.
  destruct e; simpl; (split; [lia|]);
    (split; [split; [intros [=]; eauto|intros (? & ? & [=]); done]|]); intros [=]; set_solver.
Qed.

(** ** The root poller *)

Lemma fetch_indexer_root_run decode_felt indexer_url σ :
  ∃ out σ', fetch_indexer_root decode_felt indexer_url σ = (Ok out, σ')
    ∧ shared σ' = shared σ ∧ writes σ' = writes σ
    ∧ (∃ q, calls σ' = (calls σ ++ [CallHttp q])%list
            ∧ http_url q = trim_end_matches "/" indexer_url +:+ "/v1/tree/root")
    ∧ ∀ root, out = Ok root →
        ∃ response text, is_http_error (http_status response) = false ∧ http_text response = Ok text
          ∧ from_str (decode_RootResponse decode_felt) text = Ok root.
Proof.
  unfold fetch_indexer_root. set (q := {| http_method := "GET" |}).
  destruct (http q σ) as [[resp|e] σ1] eqn:Hh; unfold http, mbind, M_bind, log_call, draw in Hh;
    destruct (env_http (world σ) q) as [resp' w] eqn:He; simpl in Hh; rewrite He in Hh; [|discriminate].
  injection Hh as <- <-. eexists _, _. split; [unfold http, mbind, M_bind, log_call, draw; simpl; by rewrite He|].
  do 2 (split; [done|]). split; [by exists q|].
  intros root (response & -> & (u & Hs & (text & Ht & Hd)%bind_Ok)%bind_Ok)%bind_Ok.
  apply fail_if_Ok in Hs. by exists response, text.
Qed.

(** The poller changes the root only to one the indexer served. A tick always
    returns, sends exactly one request, to the indexer's root endpoint, leaves the
    store and the dashboard alone, and either leaves the root as it was, or sets
    it to the root decoded from a reply whose status is not an error. *)
Theorem poll_root_sets_served_root decode_felt indexer_url σ r σ' :
  poll_root decode_felt indexer_url σ = (r, σ') →
  r = Ok tt ∧ writes σ' = writes σ ∧ store (shared σ') = store (shared σ) ∧ hub (shared σ') = hub (shared σ)
  ∧ (∃ q, calls σ' = (calls σ ++ [CallHttp q])%list
          ∧ http_url q = trim_end_matches "/" indexer_url +:+ "/v1/tree/root")
  ∧ (root (shared σ') = root (shared σ)
     ∨ ∃ response text, is_http_error (http_status response) = false ∧ http_text response = Ok text
         ∧ from_str (decode_RootResponse decode_felt) text = Ok (root (shared σ'))).
Proof.
  destruct (fetch_indexer_root_run decode_felt indexer_url σ) as (out & σ1 & Hf & Hsh & Hw & Hc & Hout).
  unfold poll_root. rewrite (bind_M_run _ _ _ _ _ Hf).
  destruct out as [served|e]; intros [= <- <-]; simpl; rewrite ?Hsh; repeat (split; [done|]).
  - right. by apply Hout.
  - by left.
Qed.

(** ** Start *)

(** The key source of the lease configuration is usable: its secrets are set, its
    times well-formed, and the client for it exists. *)
Definition lease_source_ready processor : Prop :=
  match c_openrouter_leases (config processor) with
  | None => True
  | Some lease =>
      (0 < lc_ttl_seconds lease)%Z ∧
      match lc_source lease with
      | SourceOpenRouter key _ => key ≠ "" ∧ openrouter processor ≠ None
      | SourceOaOrg url secret =>
          url ≠ "" ∧ secret ≠ "" ∧ (lc_ttl_seconds lease mod 60 = 0)%Z ∧ oa_org processor ≠ None
      end
  end.

Lemma ensure_Ok b msg u : ensure b msg = Ok u → b = true.
Proof. unfold ensure. intros Hg%fail_if_Ok. by apply negb_false_iff in Hg. Qed.

Lemma try_new_ready load client parse_url cfg signer p processor :
  try_new load client parse_url cfg signer p = Ok processor →
  config processor = cfg ∧ provider processor = p ∧ lease_source_ready processor.
Proof.
  unfold try_new. intros (u & Hlease & (v & _ & (o & Ho & (oa & Hoa & [= <-])%bind_Ok)%bind_Ok)%bind_Ok)%bind_Ok.
  split; [done|]. split; [done|]. unfold lease_source_ready. simpl.
  destruct (c_openrouter_leases cfg) as [lease|]; [|done]. simpl in Ho, Hoa.
  unfold ensure_lease_config in Hlease. apply bind_Ok in Hlease as (? & Httl%ensure_Ok & Hsrc).
  apply Z.ltb_lt in Httl. split; [done|].
  destruct (lc_source lease) as [key base|url secret].
  - apply ensure_Ok, negb_true_iff, String.eqb_neq in Hsrc. split; [done|].
    destruct (map_err _ _); [injection Ho as <-; done|discriminate].
  - apply bind_Ok in Hsrc as (? & Hu%ensure_Ok & (? & Hs%ensure_Ok & Hm%ensure_Ok)%bind_Ok).
    apply negb_true_iff, String.eqb_neq in Hu, Hs. apply Z.eqb_eq in Hm.
    do 3 (split; [done|]). destruct (map_err _ _); [injection Hoa as <-; done|discriminate].
Qed.

(** A server that starts can serve what it advertises. If [start_server]
    returns a processor, it runs the given configuration; its provider keeps the
    processor's contract (for charges in the range of their type); when leases
    are configured, their lifetime is positive, their credentials are set, for an
    OA organization the lifetime is a whole number of minutes, and the client of
    the configured source exists; the dashboard is empty with room for 500 events;
    and the current root is the configured one or one the indexer served. *)
Theorem started_server_is_ready decode_felt load client parse_url cfg σ processor σ' :
  start_server decode_felt load client parse_url cfg σ = (Ok (Ok processor), σ') →
  in_u128 (c_echo_fixed_charge cfg) → in_u128 (c_proxy_default_charge cfg) → in_u128 (c_request_charge_cap cfg) →
  config processor = cfg ∧ ProviderContract (provider processor) ∧ lease_source_ready processor
  ∧ (∃ now, hub (shared σ') = Some (hub_new 500 now)) ∧ store (shared σ') = store (shared σ)
  ∧ (root (shared σ') = c_initial_root cfg
     ∨ ∃ response text, is_http_error (http_status response) = false ∧ http_text response = Ok text
         ∧ from_str (decode_RootResponse decode_felt) text = Ok (root (shared σ'))).
Proof.
  intros Hs He Hp Hc. unfold start_server in Hs.
  destruct (build_provider client cfg) as [p|e] eqn:Hb; [|discriminate].
  apply build_provider_sound in Hb as [Hcontract _]; [|done..].
  apply bind_M_Ok in Hs as (initial & σ1 & Hi & Hs).
  assert (shared σ1 = shared σ ∧ (initial = c_initial_root cfg
     ∨ ∃ response text, is_http_error (http_status response) = false ∧ http_text response = Ok text
         ∧ from_str (decode_RootResponse decode_felt) text = Ok initial)) as [Hsh Hinit].
  { destruct (c_indexer_url cfg) as [url|]; [|injection Hi as <- <-; auto].
    destruct (fetch_indexer_root_run decode_felt url σ) as (out & σ0 & Hf & Hsh & _ & _ & Hout).
    rewrite (bind_M_run _ _ _ _ _ Hf) in Hi. injection Hi as <- <-. split; [done|].
    destruct out as [r|]; [right; by apply Hout|by left]. }
  apply bind_M_Ok in Hs as (now & σ2 & Hnow & Hs). apply draw_Ok in Hnow as (_ & Hsh2 & _).
  destruct (try_new load client parse_url cfg _ p) as [proc|e] eqn:Ht; [|discriminate].
  apply try_new_ready in Ht as (Hcfg & Hprov & Hready).
  injection Hs as -> <-. simpl. rewrite Hsh2, Hsh, Hprov. split; [done|]. split; [done|]. split; [done|].
  split; [by exists now|]. split; [done|exact Hinit].
Qed.
End answers.
