(* ===== verification/ServerRouter.v ===== *)
(** * The server's router: [create_router] of [zkapi-serverd/src/routes.rs]

    Which handler serves a request line, how its body and parameters are read, the
    event stream of the dashboard; and that only the protocol's POST routes write
    or spend. *)

From Stdlib Require Import ZArith Lia Ascii.
From stdpp Require Import base tactics decidable numbers list strings relations.
From S2P Require Import Prelude Text Float64 Json Http Types AuthScheme Config Errors Store StoreTheory.
From S2P Require Import StoreProps Pricing ProviderTypes Dashboard World WorldTheory OpenRouter.
From S2P Require Import OaOrg Provider ProviderTheory Processor Leases Routes Router.

Local Open Scope string_scope.

Inductive ServerHandler :=
| HandleHealth | HandleAttestation | HandleRequest | HandleOpenrouterLease | HandleOpenrouterLeaseStatus
| HandleOpenrouterLeaseRetirement | HandleClearance | HandleRecoveryById | HandleRecoveryByNullifier
| HandleDashboardSummary | HandleDashboardRecent | HandleDashboardEvents.
#[export] Instance ServerHandler_eq_dec : EqDecision ServerHandler.
Proof. solve_decision. Defined.

(** The routes any origin may read, and all routes. *)
Definition dashboard_routes : list (Route ServerHandler) := [
  {| rt_path := [Lit "v1"; Lit "dashboard"; Lit "summary"]; rt_methods := [("GET", HandleDashboardSummary)] |};
  {| rt_path := [Lit "v1"; Lit "dashboard"; Lit "recent"]; rt_methods := [("GET", HandleDashboardRecent)] |};
  {| rt_path := [Lit "v1"; Lit "dashboard"; Lit "events"]; rt_methods := [("GET", HandleDashboardEvents)] |}].
Definition server_routes : list (Route ServerHandler) := ([
  {| rt_path := [Lit ""]; rt_methods := [("GET", HandleHealth)] |};
  {| rt_path := [Lit "health"]; rt_methods := [("GET", HandleHealth)] |};
  {| rt_path := [Lit "v1"; Lit "attestation"]; rt_methods := [("GET", HandleAttestation)] |};
  {| rt_path := [Lit "v2"; Lit "requests"]; rt_methods := [("POST", HandleRequest)] |};
  {| rt_path := [Lit "v2"; Lit "openrouter"; Lit "leases"]; rt_methods := [("POST", HandleOpenrouterLease)] |};
  {| rt_path := [Lit "v2"; Lit "openrouter"; Lit "leases"; Param];
     rt_methods := [("GET", HandleOpenrouterLeaseStatus); ("POST", HandleOpenrouterLeaseRetirement)] |};
  {| rt_path := [Lit "v2"; Lit "withdraw"; Lit "clearance"]; rt_methods := [("POST", HandleClearance)] |};
  {| rt_path := [Lit "v2"; Lit "requests"; Param]; rt_methods := [("GET", HandleRecoveryById)] |};
  {| rt_path := [Lit "v2"; Lit "nullifiers"; Param]; rt_methods := [("GET", HandleRecoveryByNullifier)] |}]
  ++ dashboard_routes)%list.
(** The layer of cross-origin headers covers the dashboard's routes. *)
Definition cross_origin (path : string) : bool :=
  existsb (λ r, match match_path (rt_path r) path with Some _ => true | None => false end) dashboard_routes.

Definition PROTOCOL_BODY_LIMIT_BYTES : Z := 1024 * 1024.

(** ** The event stream *)

(** What the stream's receiver gets: an event, news that it lost some, or the end. *)
Section server.
Context `{!FeltOps, !WireTypes, !WireOps, !CoreOps, !SqliteText, !JsonText, !SerdeText, !Env, !Axum}.
Implicit Types (processor : RequestProcessor).

Inductive Received :=
| Got (event : DashboardEvent)
| Lagged (lost : Z)
| Closed.
(** The data of the items sent, one per event; the text of an event is the
    serializer's, empty when it fails. *)
Fixpoint dashboard_items (event_to_json : DashboardEvent → option string) (received : list Received) : list string :=
  match received with
  | Got event :: received' => default "" (event_to_json event) :: dashboard_items event_to_json received'
  | Lagged _ :: received' => dashboard_items event_to_json received'
  | Closed :: _ | [] => []
  end.

(** ** Serving *)

Record ServerRequest := {
  sr_method : string;
  sr_path : string;
  sr_content_type : option string;
  sr_body : string;
}.
(** What a handler answers, by its reply type; [ReplyStatus] is a bare status. *)
Inductive ServerReply :=
| ReplyHealth (r : HealthResponse)
| ReplyAttestation (r : AttestationResponse)
| ReplyRequest (r : Reply RequestResponseV2)
| ReplyLease (r : Reply IssuedOpenRouterLease)
| ReplyLeaseStatus (r : result Z OpenRouterLeaseStatusResponse)
| ReplyRetirement (r : Reply OpenRouterLeaseStatusResponse)
| ReplyClearance (r : Reply ClearanceResponseV2)
| ReplyRecovery (r : Reply RecoveryResponseV2)
| ReplySummary (r : DashboardSummary)
| ReplyRecent (r : list DashboardEvent)
| ReplyEvents
| ReplyStatus (status : Z).

Definition answer {A} (wrap : A → ServerReply) (m : M A) : M ServerReply := a ← m; mret (wrap a).
(** With what an extractor read, or its rejection. *)
Definition extracted {A} (r : result Z A) (handle : A → M ServerReply) : M ServerReply :=
  match r with Ok a => handle a | Err status => mret (ReplyStatus status) end.

Context (clearance_from_json : string → result string ClearanceRequest).
Definition body_of {T} (request : ServerRequest) (dec : string → result string T) : result Z T :=
  axum_json PROTOCOL_BODY_LIMIT_BYTES dec (sr_content_type request) (sr_body request).

Definition server_handle processor (h : ServerHandler) (params : list string) (request : ServerRequest) : M ServerReply :=
  match h with
  | HandleHealth => answer ReplyHealth (handle_health processor)
  | HandleAttestation => answer ReplyAttestation (handle_attestation processor)
  | HandleRequest =>
      extracted (body_of request request_from_json) (λ body, answer ReplyRequest (handle_request processor body))
  | HandleOpenrouterLease =>
      extracted (body_of request request_from_json) (λ body, answer ReplyLease (handle_openrouter_lease processor body))
  | HandleOpenrouterLeaseStatus =>
      extracted (axum_path_string params) (λ id, answer ReplyLeaseStatus (handle_openrouter_lease_status id))
  | HandleOpenrouterLeaseRetirement =>
      extracted (axum_path_string params) (λ id, extracted (body_of request request_from_json) (λ body,
        answer ReplyRetirement (handle_openrouter_lease_retirement processor id body)))
  | HandleClearance =>
      extracted (body_of request clearance_from_json) (λ body, answer ReplyClearance (handle_clearance processor body))
  | HandleRecoveryById => extracted (axum_path_string params) (λ id, answer ReplyRecovery (handle_recovery_by_id id))
  | HandleRecoveryByNullifier =>
      extracted (axum_path_string params) (λ hex, answer ReplyRecovery (handle_recovery_by_nullifier hex))
  | HandleDashboardSummary => answer ReplySummary (handle_dashboard_summary processor)
  | HandleDashboardRecent => answer ReplyRecent handle_dashboard_recent
  | HandleDashboardEvents => mret ReplyEvents
  end.
Definition server_serve processor (request : ServerRequest) : M ServerReply :=
  match axum_dispatch server_routes (sr_method request) (sr_path request) with
  | Handled h params => server_handle processor h params request
  | MethodNotAllowed => mret (ReplyStatus 405)
  | NotFound => mret (ReplyStatus 404)
  end.

(** ** What serving can do *)

Context `{!AxumLaws}.

(** [m] runs no store operation and calls nobody. *)
Definition passive {A} (m : M A) : Prop := silent m ∧ quiet m.
Lemma passive_ret {A} (a : A) : passive (mret a).
Proof. done. Qed.
Lemma passive_answer {A} (wrap : A → ServerReply) (m : M A) : passive m → passive (answer wrap m).
Proof. intros [Hs Hq]. unfold answer. split; program; done. Qed.
Lemma passive_extracted {A} (r : result Z A) handle : (∀ a, passive (handle a)) → passive (extracted r handle).
Proof. intros Hh. destruct r; [apply Hh|apply passive_ret]. Qed.
Lemma passive_error err cid : passive (error_to_response err cid).
Proof. unfold error_to_response, current_root, current_timestamp_ms. split; program. Qed.
Lemma passive_reply {A} status cid (m : M A) : passive m → passive (reply status cid m).
Proof.
  intros [Hs Hq]. unfold reply. split.
  - apply bind_silent; [by apply try_silent|]. intros []; [done|]. apply bind_silent; [apply passive_error|done].
  - apply bind_quiet; [by apply try_quiet|]. intros []; [done|]. apply bind_quiet; [apply passive_error|done].
Qed.

Lemma answer_Ok {A} (wrap : A → ServerReply) (m : M A) σ r : (answer wrap m σ).1 = Ok r → ∃ a, r = wrap a.
Proof. unfold answer, mbind, M_bind. destruct (m σ) as [[a|e] σ']; [|done]. intros [= <-]. by exists a. Qed.

(** The routes of POST. *)
Definition posts (h : ServerHandler) : bool :=
  match h with
  | HandleRequest | HandleOpenrouterLease | HandleOpenrouterLeaseRetirement | HandleClearance => true
  | _ => false
  end.
Lemma passive_handle processor h params request : posts h = false → passive (server_handle processor h params request).
Proof.
  destruct h; intros Hp; try discriminate Hp; cbn [server_handle];
    repeat first [apply passive_extracted; intros ? | apply passive_answer | apply passive_ret].
  - unfold handle_health, current_root. split; program.
  - unfold handle_attestation, current_root. split; program.
  - unfold handle_openrouter_lease_status, openrouter_lease_status. split; program.
  - apply passive_reply. unfold recover_by_client_id. split; program.
  - unfold handle_recovery_by_nullifier. destruct (from_hex _).
    + apply passive_reply. unfold recover_by_nullifier. split; program.
    + split; [apply bind_silent|apply bind_quiet]; [apply passive_error|done|apply passive_error|done].
  - unfold handle_dashboard_summary, current_root. split; program.
  - unfold handle_dashboard_recent. split; program.
Qed.
Lemma posted method path h params : axum_dispatch server_routes method path = Handled h params → posts h = true → method = "POST".
Proof.
  intros (r & Hr%list_elem_of_In & _ & Hs)%axum_handled Hp.
  assert (forallb (λ r, forallb (λ p : string * ServerHandler, negb (posts p.2) || String.eqb p.1 "POST") (rt_methods r))
            server_routes = true) as Hall by reflexivity.
  rewrite forallb_forall in Hall. specialize (Hall r Hr). rewrite forallb_forall in Hall.
  destruct Hs as [Hin|[-> Hin]]; apply list_elem_of_In in Hin; specialize (Hall _ Hin); cbn in Hall; rewrite Hp in Hall;
    [by apply String.eqb_eq in Hall|done].
Qed.

(** C10: reading changes nothing. A request of another method than POST, to any path
    with any body, is answered without an operation on the store and without a call
    of the provider or of any service: it spends and charges nothing. *)
Theorem reads_change_nothing processor request σ :
  sr_method request ≠ "POST" →
  writes (server_serve processor request σ).2 = writes σ ∧ calls (server_serve processor request σ).2 = calls σ.
Proof.
  intros Hm. assert (passive (server_serve processor request)) as [Hs Hq]; [|by split; [apply Hs|apply Hq]].
  unfold server_serve. destruct (axum_dispatch server_routes _ _) as [h params| |] eqn:Hd; [|apply passive_ret..].
  apply passive_handle. destruct (posts h) eqn:Hp; [|done]. by destruct (Hm (posted _ _ _ _ Hd Hp)).
Qed.

(** What a page of another origin can be shown. *)
Definition dashboard_reply (r : ServerReply) : Prop :=
  match r with ReplySummary _ | ReplyRecent _ | ReplyEvents | ReplyStatus _ => True | _ => False end.
Definition dashboard_handler (h : ServerHandler) : bool :=
  match h with HandleDashboardSummary | HandleDashboardRecent | HandleDashboardEvents => true | _ => false end.
Lemma cross_origin_segments path : cross_origin path = true →
  segments path ∈ map Some [["v1"; "dashboard"; "summary"]; ["v1"; "dashboard"; "recent"]; ["v1"; "dashboard"; "events"]].
Proof.
  intros (route & Hr & Hc)%existsb_exists. unfold match_path in Hc.
  destruct (segments path) as [l|]; [|done]. cbn [mbind option_bind] in Hc.
  destruct (match_segments (rt_path route) l) as [ps|] eqn:Hm; [|done].
  cbn in Hr. destruct Hr as [<-|[<-|[<-|[]]]]; cbn [rt_path] in Hm;
    [apply (match_literal ["v1"; "dashboard"; "summary"]) in Hm
    |apply (match_literal ["v1"; "dashboard"; "recent"]) in Hm
    |apply (match_literal ["v1"; "dashboard"; "events"]) in Hm]; destruct Hm as [-> _]; set_solver.
Qed.
Lemma cross_origin_handler method path h params : cross_origin path = true →
  axum_dispatch server_routes method path = Handled h params → dashboard_handler h = true.
Proof.
  intros Hseg%cross_origin_segments (r & Hr%list_elem_of_In & Hm & Hs)%axum_handled. unfold match_path in Hm.
  assert (forallb (λ l, forallb (λ r, negb (bool_decide (is_Some (match_segments (rt_path r) l)))
                                     || forallb (λ p, dashboard_handler p.2) (rt_methods r)) server_routes)
            [["v1"; "dashboard"; "summary"]; ["v1"; "dashboard"; "recent"]; ["v1"; "dashboard"; "events"]] = true) as Hall by reflexivity.
  apply list_elem_of_In in Hseg. apply in_map_iff in Hseg as (l & Hl & Hin). rewrite <-Hl in Hm. cbn [mbind option_bind] in Hm.
  rewrite forallb_forall in Hall. specialize (Hall l Hin). rewrite forallb_forall in Hall. specialize (Hall r Hr).
  rewrite Hm in Hall. rewrite bool_decide_true in Hall by done. cbn in Hall. rewrite forallb_forall in Hall.
  destruct Hs as [Hh|[_ Hh]]; apply list_elem_of_In in Hh; by apply Hall in Hh.
Qed.
(** Only the dashboard is readable across origins: neither a stored response nor a
    lease. *)
Theorem cross_origin_reads_dashboard processor request σ r :
  cross_origin (sr_path request) = true → (server_serve processor request σ).1 = Ok r → dashboard_reply r.
Proof.
  intros Hc. unfold server_serve. destruct (axum_dispatch _ _ _) as [h params| |] eqn:Hd; [|by intros [= <-]..].
  apply cross_origin_handler in Hd; [|done]. destruct h; try discriminate Hd; cbn [server_handle].
  - by intros [a ->]%answer_Ok.
  - by intros [a ->]%answer_Ok.
  - by intros [= <-].
Qed.
End server.
