(* ===== verification/RequestProps.v ===== *)
(** * What requests, clearances and recovery guarantee

    Exactly-once execution and idempotent replay of a request, the guards of its
    first attempt, exclusivity between spending and clearing a nullifier, and the
    charge bounds, all under arbitrary interleaving with other handlers and with
    database faults. *)

From Stdlib Require Import ZArith Lia.
From stdpp Require Import base tactics decidable numbers list strings gmap relations.
From S2P Require Import Prelude Float64 Json Types AuthScheme Config Errors Store StoreTheory.
From S2P Require Import StoreProps Pricing ProviderTypes Dashboard World WorldTheory OpenRouter.
From S2P Require Import OaOrg Provider ProviderTheory Processor Leases Toy ToyWorld.

Section requests.
Context `{!FeltOps, !WireTypes, !WireOps, !CoreOps, !SqliteText, !JsonText, !SerdeText, !Env, !EnvLaws}.
Implicit Types (self : RequestProcessor) (request : ApiRequestV2) (σ : State).

Definition db (σ : State) : NullifierStore := store (shared σ).
Definition nullifier_of (request : ApiRequestV2) : Felt252 := request_nullifier (public_inputs request).

(** The store holds [request]'s own reservation, by endpoint [kind], in status [st]. *)
Definition holds (s : NullifierStore) (request : ApiRequestV2) (kind : ReservationKind)
    (st : NullifierStatus) (rec : TranscriptRecord) : Prop :=
  lookup_by_nullifier None (nullifier_of request) s = Some rec ∧ t_status rec = st
  ∧ ∃ b, api_request_binding request = Ok b ∧ same_request rec request kind b = true.

(** The guards of a first attempt: deployment, key, freshness, solvency, the
    authorization tag and the proof itself. *)
Definition admissible self request (root : Felt252) (now : Z) : Prop :=
  active_root (public_inputs request) = root
  ∧ check_keys self (public_inputs request) = Ok tt
  ∧ stale_time now (request_time (public_inputs request)) = false
  ∧ (required_solvency self ≤ solvency_bound (public_inputs request))%Z
  ∧ core_authorization_tag (nullifier_of request)
      (canonical_request_context (client_request_id request) (payload_hash request))
    = authorization_tag (public_inputs request)
  ∧ verify (verifier self) (public_inputs request) (request_proof request) = Ok true.

(** ** Reservations *)

Definition reserve_op (kind : ReservationKind) request : StoreOp :=
  match kind with KindProxy => OpReserveV2 request | KindOpenRouterLease => OpReserveLease request end.

Definition reserved_row (kind : ReservationKind) request (b : string) (now : Z) : NullifierRow :=
  new_row (to_hex (nullifier_of request)) (status_to_str Reserved) (kind_as_str kind)
    (Some (client_request_id request)) (Some (to_hex (payload_hash request))) (Some b) (cast_i64 now).

Lemma reserve_run kind request fault now s s' :
  run fault now (reserve_op kind request) s = (Ok tt, s') →
  ∃ b, api_request_binding request = Ok b
    ∧ nullifiers s' = (nullifiers s ++ [reserved_row kind request b now])%list.
Proof.
  assert (run fault now (reserve_op kind request) s
          = reserve_bound_v2 fault now request (kind_as_str kind) s) as -> by by destruct kind.
  unfold reserve_bound_v2. destruct (api_request_binding request) as [b|e]; [|discriminate].
  unfold reserve_with_kind, with_conn. destruct fault as [[]|]; [discriminate..|].
  destruct (insert_nullifier _ s) as [s1|e] eqn:Hi; [|discriminate]. intros [= <-].
  apply insert_nullifier_Ok in Hi as (Hn & _). by exists b.
Qed.

Lemma reserved_holds `{!FeltLaws} kind request fault now s s' :
  store_wf s → run fault now (reserve_op kind request) s = (Ok tt, s') →
  ∃ rec, holds s' request kind Reserved rec.
Proof.
  intros Hwf Hrun. pose proof (run_wf fault now (reserve_op kind request) s Hwf) as Hwf'.
  rewrite Hrun in Hwf'. apply reserve_run in Hrun as (b & Hb & Hn).
  exists (row_to_record (reserved_row kind request b now)). split; [|split; [done|]].
  - apply lookup_by_nullifier_row; [apply Hwf'| |done].
    rewrite Hn. apply elem_of_app. right. by apply list_elem_of_singleton.
  - exists b. split; [done|]. unfold same_request. simpl. rewrite from_hex_to_hex. simpl.
    by rewrite !bool_decide_eq_true_2, String.eqb_refl.
Qed.

Lemma reserve_fresh kind request fault now s s' rec :
  run fault now (reserve_op kind request) s = (Ok tt, s') →
  lookup_by_nullifier None (nullifier_of request) s = Some rec → False.
Proof.
  assert (run fault now (reserve_op kind request) s
          = reserve_bound_v2 fault now request (kind_as_str kind) s) as -> by by destruct kind.
  unfold reserve_bound_v2. destruct (api_request_binding request) as [b|e]; [|discriminate].
  unfold reserve_with_kind, with_conn. destruct fault as [[]|]; [discriminate..|].
  destruct (insert_nullifier _ s) as [s1|e] eqn:Hi; [|discriminate]. intros _.
  apply insert_nullifier_Ok in Hi as (_ & _ & Hni). intros (r & Hr & Hk & _)%lookup_by_nullifier_Some.
  apply Hni. simpl. unfold nullifier_of in Hk. rewrite <- Hk. by apply list_elem_of_fmap_2.
Qed.

(** ** A found row stays found *)

Lemma lookup_forward s s' n rec :
  store_wf s → store_steps s s' → lookup_by_nullifier None n s = Some rec →
  ∃ rec', lookup_by_nullifier None n s' = Some rec'
    ∧ t_reservation_kind rec' = t_reservation_kind rec
    ∧ t_client_request_id rec' = t_client_request_id rec
    ∧ t_payload_hash rec' = t_payload_hash rec
    ∧ (t_api_request_binding rec = None ∨ t_api_request_binding rec' = t_api_request_binding rec)
    ∧ (t_status rec' = t_status rec ∨ (t_status rec = Reserved ∧ t_status rec' = Finalized)).
Proof.
  intros Hwf Hsteps (r & Hr & Hk & ->)%lookup_by_nullifier_Some.
  destruct (steps_row _ _ _ Hsteps Hr) as (r' & Hr' & Hev%row_evolves_forward).
  exists (row_to_record r'). rewrite <- (fwd_nullifier _ _ Hev) in Hk.
  rewrite (lookup_by_nullifier_row s' r' n); [|apply (store_steps_wf _ _ Hwf Hsteps)|done|done].
  destruct Hev as [_ Hkind Hcid Hph _ Hb Hst]. simpl. rewrite Hkind, Hcid, Hph.
  repeat split; [exact Hb|]. destruct Hst as [->|[-> ->]]; auto.
Qed.

Lemma finalized_stays s s' n rec :
  store_wf s → store_steps s s' → lookup_by_nullifier None n s = Some rec → t_status rec = Finalized →
  t_api_request_binding rec ≠ None → lookup_by_nullifier None n s' = Some rec.
Proof.
  intros Hwf Hsteps (r & Hr & Hk & ->)%lookup_by_nullifier_Some Hst Hb.
  apply row_status_of_record in Hst; [|by apply Hwf].
  destruct (steps_row _ _ _ Hsteps Hr) as (r' & Hr' & Hev).
  destruct (finalized_evolves _ _ Hev Hst) as [->|(b & Hn & ->)]; [|by destruct Hb].
  apply lookup_by_nullifier_row; [apply (store_steps_wf _ _ Hwf Hsteps)|done|done].
Qed.

Lemma same_request_binding rec request kind b :
  same_request rec request kind b = true →
  t_client_request_id rec = Some (client_request_id request)
  ∧ t_payload_hash rec = Some (payload_hash request)
  ∧ t_reservation_kind rec = kind_as_str kind ∧ t_api_request_binding rec = Some b.
Proof.
  unfold same_request. rewrite !andb_true_iff, !bool_decide_eq_true, String.eqb_eq. tauto.
Qed.

Lemma holds_forward s s' request kind st rec :
  store_wf s → store_steps s s' → holds s request kind st rec →
  ∃ st' rec', holds s' request kind st' rec' ∧ (st' = st ∨ (st = Reserved ∧ st' = Finalized)).
Proof.
  intros Hwf Hsteps (Hl & Hst & b & Hb & Hsame).
  destruct (lookup_forward _ _ _ _ Hwf Hsteps Hl) as (rec' & Hl' & Hk & Hc & Hp & Hbind & Hst').
  exists (t_status rec'), rec'. split; [|by subst].
  split; [done|]. split; [done|]. exists b. split; [done|].
  apply same_request_binding in Hsame as (? & ? & ? & Hb').
  destruct Hbind as [?|Hbind]; [congruence|].
  unfold same_request. rewrite Hk, Hc, Hp, Hbind.
  rewrite !bool_decide_eq_true_2 by done. simpl. rewrite andb_true_r. by apply String.eqb_eq.
Qed.

Lemma holds_finalized_stays s s' request kind rec :
  store_wf s → store_steps s s' → holds s request kind Finalized rec → holds s' request kind Finalized rec.
Proof.
  intros Hwf Hsteps (Hl & Hst & b & Hb & Hsame). split; [|eauto].
  eapply finalized_stays; [done..|].
  apply same_request_binding in Hsame as (_ & _ & _ & ->). done.
Qed.

Lemma holds_forward_any s s' request kind st rec :
  store_wf s → store_steps s s' → holds s request kind st rec →
  ∃ st' rec', holds s' request kind st' rec'.
Proof. intros Hwf Hs (st' & rec' & Hh & _)%(holds_forward _ _ _ _ _ _ Hwf Hs). eauto. Qed.

Lemma holds_kind s request kind st rec :
  holds s request kind st rec → t_reservation_kind rec = kind_as_str kind.
Proof. by intros (_ & _ & b & _ & (_ & _ & Hk & _)%same_request_binding). Qed.

(** ** Validation *)

Lemma resume_Ok existing request kind b prior :
  resume existing request kind b = Ok prior →
  same_request existing request kind b = true
  ∧ match prior with
    | Some resp => t_status existing = Finalized
                   ∧ response_from_record existing (client_request_id request) = Ok resp
    | None => t_status existing = Reserved
    end.
Proof.
  unfold resume. intros (u & Hg & Hm)%bind_Ok. apply fail_if_Ok, negb_false_iff in Hg.
  split; [done|]. destruct (t_status existing); [by injection Hm as <-| |discriminate].
  destruct (response_from_record _ _) as [resp|e]; [|discriminate]. by injection Hm as <-.
Qed.

Lemma check_proof_Ok self request ph u :
  check_proof self request ph = Ok u →
  (required_solvency self ≤ solvency_bound (public_inputs request))%Z
  ∧ core_authorization_tag (nullifier_of request)
      (canonical_request_context (client_request_id request) ph)
    = authorization_tag (public_inputs request)
  ∧ verify (verifier self) (public_inputs request) (request_proof request) = Ok true.
Proof.
  unfold check_proof. intros (? & Hs & (? & Ht & (v & Hv & Hn)%bind_Ok)%bind_Ok)%bind_Ok.
  apply fail_if_Ok in Hs, Ht, Hn. apply Z.ltb_ge in Hs.
  apply negb_false_iff, bool_decide_eq_true in Ht. apply negb_false_iff in Hn as ->.
  unfold map_err in Hv. destruct (verify _ _ _); [|discriminate]. injection Hv as ->. done.
Qed.

(** What a validation that let the request pass leaves behind. *)
Lemma validate_Ok `{!FeltLaws} self request kind σ prior σ' :
  store_wf (db σ) → validate_and_reserve self request kind σ = (Ok prior, σ') →
  match prior with
  | Some resp => ∃ rec, holds (db σ') request kind Finalized rec
                        ∧ response_from_record rec (client_request_id request) = Ok resp
  | None => ∃ rec, holds (db σ') request kind Reserved rec
  end.
Proof.
  intros Hwf Hv. unfold validate_and_reserve in Hv. inv_run.
  match goal with H : db_read _ _ = _ |- _ => apply db_read_Ok in H as (fault & -> & Hc & Hw & Hs) end.
  match goal with H : _ = (Ok prior, σ') |- _ => rename H into Hm end.
  match type of Hs with store_steps _ (store (shared ?s1)) => set (σ1 := s1) in * end.
  unfold lookup_by_nullifier, query_row in Hm. destruct fault as [fault|].
  2: change (head (select_where _ _) ≫= _) with (lookup_by_nullifier None (nullifier_of request) (db σ1)) in Hm;
     destruct (lookup_by_nullifier None (nullifier_of request) (db σ1)) as [existing|] eqn:Hl.
  2: { apply lift_Ok in Hm as [(Hsame & Hst)%resume_Ok ->].
       destruct prior as [resp|]; [destruct Hst as [Hst Hresp]; exists existing; split; [|done]|exists existing];
         (split; [done|]; split; [done|]; eauto). }
  all: inv_run; match goal with H : db_op _ _ = _ |- _ => apply db_op_run in H as (f & now & s & Hrun & _ & Hs' & _) end;
    subst prior.
  all: unfold db in Hwf; run_steps; wf_steps.
  all: eapply (reserved_holds kind); [eassumption|exact Hrun].
Qed.

(** ** Finalization *)

Lemma transcript_storable request r ns kind b pb ca fa :
  response_valid r → (charge_applied r < 2 ^ 63)%Z → storable (transcript request r ns kind b pb ca fa).
Proof.
  intros (Hc & Hs & Hp) Hlt. split; [|split; [|split]]; intros c; simpl.
  - intros [= <-]. unfold in_u128 in Hc; lia.
  - by intros [= <-].
  - done.
  - apply Hp.
Qed.

(** The response rebuilt from the stored transcript is the response returned. *)
Lemma response_roundtrip now old request r ns kind b pb ca fa :
  t_nullifier old = nullifier_of request →
  response_from_record (stored_transcript now old (transcript request r ns kind b pb ca fa))
    (client_request_id request) = Ok (response_of request r ns).
Proof.
  intros Hn. unfold response_from_record, response_of. simpl. rewrite Hn. by destruct (ns_commitment ns).
Qed.

(** After the UPDATE the row of the request holds its transcript. *)
Lemma finalized_holds `{!FeltLaws, !WireLaws} fault now s s' request kind st rec t :
  store_wf s → holds s request kind st rec → storable t → in_u64 now →
  run fault now (OpFinalize (nullifier_of request) t) s = (Ok tt, s') →
  holds s' request kind Finalized (stored_transcript now rec t) ∧ t_nullifier rec = nullifier_of request.
Proof.
  intros Hwf (Hl & _ & b & Hb & Hsame) Ht Hnow Hrun. simpl in Hrun.
  pose proof Hrun as Hrun'. apply finalize_Ok_reserved in Hrun' as (-> & r & Hr & Hk & Hst).
  destruct (finalize_reserved_row now (nullifier_of request) t s r) as (s1 & Hf & Hl'); [done..|].
  rewrite Hf in Hrun. injection Hrun as ->.
  rewrite (lookup_by_nullifier_row s r) in Hl by (done || apply Hwf). injection Hl as <-.
  split.
  - rewrite finalized_row_record in Hl' by done. split; [done|]. split; [done|]. eauto.
  - simpl. by rewrite Hk, from_hex_to_hex.
Qed.

(** A finalization that returned: the cap held for the row's endpoint, the
    response was built from what was stored, and the store keeps it. *)
Lemma finalize_request_Ok `{!FeltLaws, !WireLaws} self request kind st rec r u t σ resp σ' :
  store_wf (db σ) → holds (db σ) request kind st rec → response_valid r →
  (charge_cap self (public_inputs request) (kind_as_str kind) r < 2 ^ 63)%Z →
  finalize_request self request r u t σ = (Ok resp, σ') →
  (charge_applied r ≤ charge_cap self (public_inputs request) (kind_as_str kind) r)%Z
  ∧ resp_charge_applied resp = charge_applied r
  ∧ ∃ rec', holds (db σ') request kind Finalized rec'
    ∧ response_from_record rec' (client_request_id request) = Ok resp.
Proof.
  intros Hwf Hold Hr Hcap Hf. unfold finalize_request in Hf. inv_run.
  match goal with H : db_read _ _ = _ |- _ => pose proof H as Hread; apply db_read_Ok in H as (f & -> & _ & _ & Hs1) end.
  match goal with H : db_op _ _ = _ |- _ => pose proof H as Hop; apply db_op_run in H as (f' & now & s & Hrun & Hnow & Hs2 & _) end.
  match goal with H : ok_or _ _ = Ok ?e |- _ => apply ok_or_Ok in H; rename H into He; rename e into existing end.
  unfold db in *. run_steps. wf_steps.
  (* the row read is this request's *)
  destruct (holds_forward_any _ _ _ _ _ _ Hwf Hs1 Hold) as (st1 & rec1 & Hold1).
  unfold lookup_by_nullifier, query_row in He. destruct f; [discriminate He|].
  change (lookup_by_nullifier None (nullifier_of request) (store (shared x0)) = Some existing) in He.
  rewrite (proj1 Hold1) in He. injection He as <-. rewrite (holds_kind _ _ _ _ _ Hold1) in *.
  match goal with H : (_ <? _)%Z = false |- _ => apply Z.ltb_ge in H; rename H into Hle end.
  split; [exact Hle|]. subst resp. split; [done|].
  (* the row finalized is this request's, and it stays finalized *)
  assert (store_wf (store (shared x0))) as Hwf0 by done.
  assert (store_steps (store (shared x0)) s) as Hs by steps.
  destruct (holds_forward_any _ _ _ _ _ _ Hwf0 Hs Hold1) as (st2 & rec2 & Hold2).
  pose proof (store_steps_wf _ _ Hwf0 Hs) as Hwf2.
  apply (finalized_holds _ _ _ _ request kind st2 rec2) in Hrun as [Hfin Hnull];
    [|done|done|apply transcript_storable; [done|lia]|done].
  eexists. split; [|by apply response_roundtrip].
  eapply holds_finalized_stays; [|steps|exact Hfin]. done.
Qed.

(** ** First attempts *)

(** What the guards of a first attempt saw during a run from [σ] to [σ']: the
    root and the time are those the run read itself. *)
Definition first_attempt self request (σ σ' : State) : Prop :=
  canonical_payload_hash (payload request) = payload_hash request
  ∧ deployment_mismatch self (public_inputs request) = false
  ∧ ∃ root now σ1 σ2 σ3,
      current_root σ1 = (Ok root, σ2) ∧ current_timestamp σ2 = (Ok now, σ3)
      ∧ store_steps (db σ) (db σ1) ∧ store_steps (db σ3) (db σ')
      ∧ admissible self request root now.

Lemma validate_attempt self request kind σ r σ' :
  validate_and_reserve self request kind σ = (r, σ') →
  calls σ' = calls σ
  ∧ (writes σ' = writes σ
     ∨ (writes σ' = writes σ ++ [reserve_op kind request])%list ∧ first_attempt self request σ σ').
Proof.
  intros Hv. split; [eapply quiet_run; [|exact Hv]; program|].
  unfold validate_and_reserve in Hv.
  inv_any Hv.
  (* a run that stops before the reservation wrote nothing *)
  all: try (left; run_writes; congruence).
  (* the reservation, whether it succeeded or not *)
  all: right; inv_run; try injection Hv as _ <-.
  all: run_steps.
  all: match goal with H : db_op _ ?σ1 = (_, ?σ2) |- _ =>
    apply db_op_run in H as (fault & now & s & Hrun & _ & Hsteps & _ & Hw);
    assert (writes σ1 = writes σ) as Hw1 by (run_writes; congruence) end.
  all: rewrite Hw, Hw1; split; [by destruct kind|].
  all: repeat match goal with
    | H : negb (bool_decide _) = false |- _ => apply negb_false_iff, bool_decide_eq_true in H end.
  all: match goal with H : canonical_payload_hash _ = _ |- _ => rewrite H in * end.
  all: split; [done|split; [done|]].
  all: match goal with H : check_proof _ _ _ = Ok _ |- _ => apply check_proof_Ok in H as (? & ? & ?) end.
  all: do 5 eexists; split; [eassumption|split; [eassumption|]].
  all: split; [unfold db; steps|split; [done|]].
  all: repeat split; done.
Qed.
(** A finalization writes its transcript once, and only for a reserved row. *)
Lemma finalize_request_writes self request r u t σ resp σ' :
  finalize_request self request r u t σ = (Ok resp, σ') →
  calls σ' = calls σ
  ∧ (∃ transcript, writes σ' = writes σ ++ [OpFinalize (nullifier_of request) transcript])%list
  ∧ ∃ row s, row ∈ nullifiers s ∧ n_nullifier row = to_hex (nullifier_of request)
      ∧ n_status row = status_to_str Reserved ∧ store_steps (db σ) s.
Proof.
  intros Hf. split; [eapply quiet_run; [|exact Hf]; program|].
  unfold finalize_request in Hf. inv_run. run_steps.
  match goal with H : db_op _ ?s1 = (_, ?s2), H' : record_event _ ?s2 = (_, ?s3) |- _ =>
    assert (writes s3 = writes s2) as Hw3 by (eapply silent_run; [|exact H']; program);
    apply db_op_run in H as (fault & now & s & Hrun & _ & Hsteps & _ & Hw);
    assert (writes s1 = writes σ) as Hw1 by (run_writes; congruence);
    assert (store_steps (db σ) (store (shared s1))) as Hs1 by (unfold db; steps) end.
  simpl in Hrun. apply finalize_Ok_reserved in Hrun as (_ & row & Hrow & Hk & Hst).
  split; [eexists; rewrite Hw3, Hw, Hw1; reflexivity|].
  exists row, s. repeat (split; [done|]). by etransitivity.
Qed.

Lemma finalize_request_once self request kind rec r u t σ resp σ' :
  store_wf (db σ) → holds (db σ) request kind Finalized rec →
  finalize_request self request r u t σ = (Ok resp, σ') → False.
Proof.
  intros Hwf Hh (_ & _ & row & s & Hrow & Hk & Hst & Hs)%finalize_request_writes.
  apply (holds_finalized_stays _ _ _ _ _ Hwf Hs) in Hh as (Hl & Hfin & _).
  pose proof (store_steps_wf _ _ Hwf Hs) as Hwfs.
  rewrite (lookup_by_nullifier_row s row) in Hl by (done || apply Hwfs). injection Hl as <-.
  apply row_status_of_record in Hfin; [|by apply Hwfs]. by rewrite Hfin in Hst.
Qed.

(** ** Execution *)

Lemma execute_provider_safe self request : ProviderContract (provider self) → safe (execute_provider self request).
Proof. intros Hp. unfold execute_provider. program. Qed.
Lemma elapsed_ms_safe : safe elapsed_ms.
Proof. unfold elapsed_ms. program. Qed.
Lemma elapsed_ms_quiet : quiet elapsed_ms.
Proof. unfold elapsed_ms. program. Qed.
#[local] Hint Resolve execute_provider_safe elapsed_ms_safe elapsed_ms_quiet : handlers.

Lemma execute_provider_valid self request σ r σ' :
  ProviderContract (provider self) → execute_provider self request σ = (Ok r, σ') → response_valid r.
Proof. intros Hp Hr. unfold execute_provider in Hr. inv_run. by eapply provider_valid. Qed.

(** ** Replays *)

(** A request whose finalized row the store holds is answered from that row, or
    refused because the database failed. *)
Lemma validate_replay `{!FeltLaws} self request kind rec resp σ r σ' :
  store_wf (db σ) → holds (db σ) request kind Finalized rec →
  response_from_record rec (client_request_id request) = Ok resp →
  validate_and_reserve self request kind σ = (r, σ') → r = Ok (Some resp) ∨ ∃ e, r = Err e.
Proof.
  intros Hwf Hh Hresp Hv. destruct r as [prior|e]; [left|by eauto].
  assert (store_steps (db σ) (db σ')) as Hs by (unfold db; run_steps; done).
  apply (holds_finalized_stays _ _ _ _ _ Hwf Hs) in Hh as Hh'.
  apply validate_Ok in Hv; [|done]. destruct prior as [resp'|].
  - destruct Hv as (rec' & (Hl & _) & Hresp'). rewrite (proj1 Hh') in Hl. congruence.
  - destruct Hv as (rec' & Hl & Hst & _). rewrite (proj1 Hh') in Hl. injection Hl as <-.
    destruct Hh' as (_ & Hst' & _). congruence.
Qed.

Lemma cleared_forward s s' n : store_wf s → store_steps s s' → cleared s n → cleared s' n.
Proof.
  intros Hwf Hs (rec & Hl & Hst). destruct (lookup_forward _ _ _ _ Hwf Hs Hl) as (rec' & Hl' & _ & _ & _ & _ & Hst').
  exists rec'. split; [done|]. destruct Hst' as [->|[? _]]; congruence.
Qed.

Lemma cleared_not_held s request kind st rec :
  cleared s (nullifier_of request) → holds s request kind st rec → st = ClearanceReserved.
Proof. intros (rec' & Hl' & Hst') (Hl & Hst & _). congruence. Qed.

Lemma process_clearance_Ok self cr σ resp σ' :
  store_wf (db σ) → process_clearance self cr σ = (Ok resp, σ') →
  clearance_nullifier resp = withdrawal_nullifier cr
  ∧ clearance_signature resp = sign_clearance (signer self)
      (core_clearance_message (c_protocol_version (config self)) (c_chain_id (config self))
         (c_contract_address (config self)) (withdrawal_nullifier cr))
  ∧ cleared (db σ') (withdrawal_nullifier cr).
Proof.
  intros Hwf Hc. unfold process_clearance in Hc. inv_run. subst resp. split; [done|split; [done|]].
  match goal with H : db_read _ _ = _ |- _ => apply db_read_Ok in H as (fault & -> & _ & _ & Hs) end.
  destruct (lookup_by_nullifier fault _ _) as [rec|] eqn:Hl.
  - destruct (decide _) as [Hst|]; [|by inv_run]. inv_run. subst. inv_run.
    destruct fault; [discriminate Hl|]. by exists rec.
  - inv_run. subst.
    match goal with H : db_op _ _ = _ |- _ => apply db_op_run in H as (f & now & s & Hrun & _ & Hs2 & _) end.
    apply reserve_clearance_run in Hrun as (_ & Hcl & _); [done|].
    eapply store_steps_wf; [exact Hwf|]. unfold db. steps.
Qed.

Lemma validate_cleared `{!FeltLaws} self request kind σ r σ' :
  store_wf (db σ) → cleared (db σ) (nullifier_of request) →
  validate_and_reserve self request kind σ = (r, σ') → ∃ e, r = Err e.
Proof.
  intros Hwf Hcl Hv. destruct r as [prior|e]; [|by eauto].
  assert (store_steps (db σ) (db σ')) as Hs by (unfold db; run_steps; done).
  apply (cleared_forward _ _ _ Hwf Hs) in Hcl. apply validate_Ok in Hv; [|done].
  destruct prior as [resp|].
  - destruct Hv as (rec & Hh & _). by pose proof (cleared_not_held _ _ _ _ _ Hcl Hh).
  - destruct Hv as (rec & Hh). by pose proof (cleared_not_held _ _ _ _ _ Hcl Hh).
Qed.

(** ** The properties of a request's life *)

(** [process_request] stops at a failed validation. *)
Lemma process_request_rejected self request σ e σ' :
  validate_and_reserve self request KindProxy σ = (Err e, σ') →
  process_request self request σ = (Err e, σ').
Proof. intros Hv. unfold process_request, mbind, M_bind. by rewrite Hv. Qed.
Lemma process_request_replayed self request σ resp σ' :
  validate_and_reserve self request KindProxy σ = (Ok (Some resp), σ') →
  process_request self request σ = (Ok resp, σ').
Proof. intros Hv. unfold process_request, mbind, M_bind. by rewrite Hv. Qed.

(** Charges of requests fit the signed 64-bit column they are stored in. *)
Definition caps_storable self : Prop :=
  (c_request_charge_cap (config self) < 2 ^ 63)%Z ∧ (c_policy_charge_cap (config self) < 2 ^ 63)%Z.
Definition request_cap self (r : option Z) : Z :=
  match r with
  | Some _ => if c_policy_enabled (config self) then c_policy_charge_cap (config self)
              else c_request_charge_cap (config self)
  | None => c_request_charge_cap (config self)
  end.
Lemma charge_cap_proxy self public r :
  charge_cap self public (kind_as_str KindProxy) r = request_cap self (policy_reason_code r).
Proof. unfold charge_cap, request_cap. simpl. destruct (policy_reason_code r), (c_policy_enabled _); done. Qed.

(** What the response of a successful run is worth: it is stored, under this
    request's own reservation, and its charge is within the cap. *)
Lemma process_request_Ok `{!FeltLaws, !WireLaws} self request σ resp σ' :
  ProviderContract (provider self) → caps_storable self → store_wf (db σ) →
  process_request self request σ = (Ok resp, σ') →
  ∃ rec, holds (db σ') request KindProxy Finalized rec
    ∧ response_from_record rec (client_request_id request) = Ok resp.
Proof.
  intros Hpc [Hc1 Hc2] Hwf Hp. unfold process_request in Hp. inv_run.
  match goal with H : validate_and_reserve _ _ _ _ = (Ok ?p, _) |- _ =>
    rename H into Hv; rename p into prior end.
  assert (store_steps (db σ) (db x0)) as Hs by (unfold db; run_steps; done).
  pose proof (store_steps_wf _ _ Hwf Hs) as Hwf0.
  apply validate_Ok in Hv; [|done]. destruct prior as [resp'|]; inv_run.
  - subst. exact Hv.
  - destruct Hv as (rec & Hh).
    match goal with H : execute_provider _ _ _ = _ |- _ =>
      pose proof (execute_provider_valid _ _ _ _ _ Hpc H) as Hr end.
    match goal with H : finalize_request _ _ _ _ _ ?σ1 = _ |- _ =>
      rename H into Hf; assert (store_steps (db x0) (db σ1)) as Hs1 by (unfold db; run_steps; steps) end.
    destruct (holds_forward_any _ _ _ _ _ _ Hwf0 Hs1 Hh) as (st & rec1 & Hh1).
    apply (finalize_request_Ok _ _ _ _ _ _ _ _ _ _ _ (store_steps_wf _ _ Hwf0 Hs1) Hh1 Hr) in Hf
      as (_ & _ & Hfin); [exact Hfin|].
    rewrite charge_cap_proxy. unfold request_cap. by repeat case_match.
Qed.

(** C1: A request is executed and charged at most once. Once [process_request]
    has answered a request, its response is durable: the store keeps a finalized
    row, reserved by that request on the proxy endpoint, from which exactly that
    response is rebuilt. Whatever other handlers do afterwards, and whatever the
    database faults, every later run of [process_request] on the same request,
    even by a server with another configuration, returns that same response or an
    error, and calls no provider and no remote service again. *)
Theorem request_answered_once `{!FeltLaws, !WireLaws} self self' request σ resp σ1 σ2 r σ3 :
  ProviderContract (provider self) → caps_storable self → store_wf (db σ) →
  process_request self request σ = (Ok resp, σ1) →
  store_steps (db σ1) (db σ2) →
  process_request self' request σ2 = (r, σ3) →
  (∃ rec, holds (db σ2) request KindProxy Finalized rec
          ∧ response_from_record rec (client_request_id request) = Ok resp)
  ∧ (r = Ok resp ∨ ∃ e, r = Err e) ∧ calls σ3 = calls σ2.
Proof.
  intros Hpc Hcaps Hwf Hp Hs Hp'.
  assert (store_wf (db σ1)) as Hwf1 by (eapply store_steps_wf; [exact Hwf|]; eapply safe_run;
    [|exact Hp]; by apply process_request_safe).
  destruct (process_request_Ok _ _ _ _ _ Hpc Hcaps Hwf Hp) as (rec & Hh & Hresp).
  apply (holds_finalized_stays _ _ _ _ _ Hwf1 Hs) in Hh.
  destruct (validate_and_reserve self' request KindProxy σ2) as [rv σv] eqn:Hv.
  pose proof (validate_attempt _ _ _ _ _ _ Hv) as [Hcalls _].
  pose proof (validate_replay _ _ _ _ _ _ _ _ (store_steps_wf _ _ Hwf1 Hs) Hh Hresp Hv) as Hr.
  split; [by exists rec|]. destruct Hr as [->|[e ->]].
  - rewrite (process_request_replayed _ _ _ _ _ Hv) in Hp'. injection Hp' as <- <-. by auto.
  - rewrite (process_request_rejected _ _ _ _ _ Hv) in Hp'. injection Hp' as <- <-. by eauto.
Qed.

(** C3: The provider is only ever called for a reserved request. A run of
    [process_request] either leaves the call log unchanged, or handed the
    provider exactly this request's id, payload and hash, once, at a moment when the
    store held a reserved row of this request on the proxy endpoint. The run came
    there by a validation that passed and made no call, in one of two ways: it
    wrote that reservation itself, having passed every check of a first attempt, or
    it wrote nothing and resumes one that an earlier run of the same request
    left. *)
Theorem provider_called_on_reservation `{!FeltLaws} self request σ r σ' :
  store_wf (db σ) → process_request self request σ = (r, σ') →
  calls σ' = calls σ ∨
  ∃ rec σ1, validate_and_reserve self request KindProxy σ = (Ok None, σ1)
    ∧ holds (db σ1) request KindProxy Reserved rec ∧ calls σ1 = calls σ
    ∧ ((writes σ1 = writes σ ++ [reserve_op KindProxy request])%list ∧ first_attempt self request σ σ1
       ∨ writes σ1 = writes σ)
    ∧ ∃ rp σ2, execute_provider self request σ1 = (rp, σ2) ∧ calls σ' = calls σ2.
Proof.
  intros Hwf Hp. unfold process_request in Hp.
  apply bind_M_inv in Hp as [(e & Hv & ->)|(prior & σ1 & Hv & Hp)];
    pose proof (validate_attempt _ _ _ _ _ _ Hv) as [Hcalls Hwrites]; [by left|].
  destruct prior as [resp|]; [injection Hp as _ <-; by left|]. right.
  destruct (validate_Ok _ _ _ _ _ _ Hwf Hv) as (rec & Hh). exists rec, σ1. do 3 (split; [done|]).
  split; [destruct Hwrites; auto|].
  apply bind_M_inv in Hp as [(e & He & ->)|(rp & σ2 & He & Hp)]; [by eauto|].
  exists (Ok rp), σ2. split; [done|]. eapply quiet_run; [|exact Hp]. program.
Qed.

(** C4: Only admissible requests are reserved. In every run of
    [validate_and_reserve], whatever its outcome, the handler makes no external
    call, and it writes to the store nothing or one reservation, of this request
    on this endpoint; it does the latter only if the payload hash, protocol
    version, chain and contract match, the request's root is the one the run read
    as current, its signing key is the server's, its time is fresh at the clock
    the run read, its solvency bound reaches the cap, its authorization tag binds
    its id and payload, and its proof verifies. *)
Theorem only_admissible_requests_reserve self request kind σ r σ' :
  validate_and_reserve self request kind σ = (r, σ') →
  calls σ' = calls σ
  ∧ (writes σ' = writes σ
     ∨ (writes σ' = writes σ ++ [reserve_op kind request])%list ∧ first_attempt self request σ σ').
Proof. apply validate_attempt. Qed.

(** Two requests whose bindings collide: different texts, the same digest. *)
Definition binding_collision (request1 request2 : ApiRequestV2) : Prop :=
  ∃ json1 json2, request_to_json request1 = Ok json1 ∧ request_to_json request2 = Ok json2
    ∧ json1 ≠ json2
    ∧ hex_encode (keccak256 (binding_domain +:+ json1)) = hex_encode (keccak256 (binding_domain +:+ json2)).

Lemma same_binding `{!WireLaws} request1 request2 b :
  api_request_binding request1 = Ok b → api_request_binding request2 = Ok b →
  request1 = request2 ∨ binding_collision request1 request2.
Proof.
  unfold api_request_binding. intros (j1 & Hj1 & [= <-])%bind_Ok (j2 & Hj2 & [= Heq])%bind_Ok.
  unfold map_err in *. destruct (request_to_json request1) as [j1'|] eqn:H1'; [|discriminate].
  destruct (request_to_json request2) as [j2'|] eqn:H2'; [|discriminate]. simplify_eq.
  destruct (decide (j1 = j2)) as [<-|Hne]; [left|right; by exists j1, j2].
  apply request_roundtrip in H1', H2'. congruence.
Qed.

(** C5: A nullifier serves one request. If the store holds the reservation of
    [request1] and a later validation, after any operations of other handlers,
    lets [request2] with the same nullifier pass, on whichever endpoint, then the
    endpoint is the one of the reservation and [request2] is [request1] in every
    field, unless the serializations of the two, which the binding hashes, are an
    explicit collision of the digest. *)
Theorem nullifier_serves_one_request `{!FeltLaws, !WireLaws} self request1 request2 kind1 kind2 st rec
    σ1 σ2 prior σ3 :
  store_wf (db σ1) → holds (db σ1) request1 kind1 st rec → store_steps (db σ1) (db σ2) →
  nullifier_of request2 = nullifier_of request1 →
  validate_and_reserve self request2 kind2 σ2 = (Ok prior, σ3) →
  kind2 = kind1 ∧ (request1 = request2 ∨ binding_collision request1 request2).
Proof.
  intros Hwf Hh Hs Hn Hv. pose proof (store_steps_wf _ _ Hwf Hs) as Hwf2.
  assert (store_steps (db σ1) (db σ3)) as Hs3.
  { etransitivity; [exact Hs|]. unfold db. run_steps. done. }
  destruct (holds_forward_any _ _ _ _ _ _ Hwf Hs3 Hh) as (st3 & rec3 & Hl1 & _ & b1 & Hb1 & Hsame1).
  assert (∃ st' rec', holds (db σ3) request2 kind2 st' rec') as (st' & rec' & Hl2 & _ & b2 & Hb2 & Hsame2).
  { apply validate_Ok in Hv; [|done]. destruct prior; naive_solver. }
  unfold nullifier_of in *. rewrite Hn, Hl1 in Hl2. injection Hl2 as <-.
  apply same_request_binding in Hsame1 as (Hc1 & Hp1 & Hk1 & Hbind1).
  apply same_request_binding in Hsame2 as (Hc2 & Hp2 & Hk2 & Hbind2).
  split; [destruct kind1, kind2; simpl in *; congruence|].
  apply (same_binding _ _ b1); [done|congruence].
Qed.

(** C9: Clearing and spending exclude each other. A clearance that succeeded
    signed exactly the clearance message of its nullifier, and from then on,
    whatever other handlers do, every [process_request] with that nullifier fails
    and calls nothing. Conversely, once the store holds any reservation of a request,
    reserved or finalized, no clearance of its nullifier ever succeeds. *)
Theorem clearance_excludes_spending `{!FeltLaws} self self' cr request σ resp σ1 σ2 :
  store_wf (db σ) → nullifier_of request = withdrawal_nullifier cr →
  (process_clearance self cr σ = (Ok resp, σ1) → store_steps (db σ1) (db σ2) →
     clearance_signature resp = sign_clearance (signer self)
       (core_clearance_message (c_protocol_version (config self)) (c_chain_id (config self))
          (c_contract_address (config self)) (nullifier_of request))
     ∧ ∀ r σ3, process_request self' request σ2 = (r, σ3) →
         (∃ e, r = Err e) ∧ calls σ3 = calls σ2)
  ∧ (∀ kind st rec, holds (db σ) request kind st rec → st ≠ ClearanceReserved →
     store_steps (db σ) (db σ2) →
     ∀ r σ3, process_clearance self cr σ2 = (r, σ3) → ∃ e, r = Err e).
Proof.
  intros Hwf Hn. split.
  - intros Hc Hs.
    assert (store_wf (db σ1)) as Hwf1 by (eapply store_steps_wf; [exact Hwf|]; eapply safe_run;
      [|exact Hc]; by apply process_clearance_safe).
    apply process_clearance_Ok in Hc as (_ & Hsig & Hcl); [|done]. rewrite Hn. split; [done|].
    intros r σ3 Hp. rewrite <- Hn in Hcl.
    destruct (validate_and_reserve self' request KindProxy σ2) as [rv σv] eqn:Hv.
    pose proof (validate_attempt _ _ _ _ _ _ Hv) as [Hcalls _].
    apply validate_cleared in Hv as Herr; [|by eapply store_steps_wf|by eapply cleared_forward].
    destruct Herr as [e ->]. rewrite (process_request_rejected _ _ _ _ _ Hv) in Hp.
    injection Hp as <- <-. eauto.
  - intros kind st rec Hh Hne Hs r σ3 Hc. destruct r as [resp'|e]; [|by eauto].
    pose proof (store_steps_wf _ _ Hwf Hs) as Hwf2.
    assert (store_steps (db σ) (db σ3)) as Hs3.
    { etransitivity; [exact Hs|]. eapply safe_run; [|exact Hc]. apply process_clearance_safe. }
    apply process_clearance_Ok in Hc as (_ & _ & Hcl); [|done]. rewrite <- Hn in Hcl.
    destruct (holds_forward _ _ _ _ _ _ Hwf Hs3 Hh) as (st' & rec' & Hh' & Hst').
    pose proof (cleared_not_held _ _ _ _ _ Hcl Hh'). destruct Hst' as [->|[-> ->]]; done.
Qed.
End requests.

(** ** Witnesses *)

Section witnesses.
Local Open Scope string_scope.

Definition spend : ApiRequestV2 := toy_request "n1".
Definition answered : State := (process_request toy_processor spend (start empty_store)).2.
Definition spent_clear : ClearanceRequest := {| withdrawal_nullifier := "n1" |}.
Definition cleared_state : State := (process_clearance toy_processor spent_clear (start empty_store)).2.
Definition reserved_state : State := start reserved_store.

Lemma toy_contract : ProviderContract (provider toy_processor).
Proof. apply echo_contract. unfold in_u128, u128_MAX. lia. Qed.
Lemma toy_caps : caps_storable toy_processor.
Proof. by split. Qed.
Lemma reserved_store_wf : store_wf reserved_store.
Proof. apply (reachable_wf [(1000%Z, OpReserveV2 (toy_request "n1"))]). Qed.
Lemma toy_holds : ∃ rec, holds reserved_store spend KindProxy Reserved rec.
Proof. eexists. split; [vm_compute; reflexivity|]. split; [done|]. eexists. split; [vm_compute; reflexivity|done]. Qed.

Lemma spend_answered :
  ∃ resp, (process_request toy_processor spend (start empty_store)).1 = Ok resp ∧ resp_charge_applied resp = 42%Z.
Proof. eexists. split; [vm_compute; reflexivity|reflexivity]. Qed.
Lemma clearance_granted :
  ∃ resp, (process_clearance toy_processor spent_clear (start empty_store)).1 = Ok resp.
Proof. eexists. vm_compute. reflexivity. Qed.

Lemma request_answered_once_witness :
  ∃ resp, (process_request toy_processor spend (start empty_store)).1 = Ok resp
    ∧ resp_charge_applied resp = 42%Z
    ∧ ((process_request toy_processor spend answered).1 = Ok resp
       ∨ ∃ e, (process_request toy_processor spend answered).1 = Err e)
    ∧ calls (process_request toy_processor spend answered).2 = calls answered.
Proof.
  destruct spend_answered as (resp & Hresp & Hc). exists resp. split; [exact Hresp|]. split; [exact Hc|].
  apply (request_answered_once toy_processor toy_processor spend (start empty_store) resp answered answered).
  - exact toy_contract.
  - exact toy_caps.
  - exact empty_store_wf.
  - exact (run_eq _ _ _ Hresp).
  - reflexivity.
  - apply surjective_pairing.
Defined.

(** A first attempt reserves itself; a run on a reservation left behind resumes
    it. *)
Lemma provider_called_on_reservation_witness :
  calls answered ≠ [] ∧
  (∃ rec σ1, validate_and_reserve toy_processor spend KindProxy (start empty_store) = (Ok None, σ1)
    ∧ holds (db σ1) spend KindProxy Reserved rec
    ∧ writes σ1 = [reserve_op KindProxy spend] ∧ first_attempt toy_processor spend (start empty_store) σ1) ∧
  writes (validate_and_reserve toy_processor spend KindProxy reserved_state).2 = writes reserved_state.
Proof.
  split; [intros Hc; vm_compute in Hc; discriminate Hc|]. split; [|by vm_compute].
  destruct (provider_called_on_reservation toy_processor spend (start empty_store)
    (process_request toy_processor spend (start empty_store)).1 answered)
    as [Hc|(rec & σ1 & Hv & Hh & _ & [[Hw Hf]|Hw] & _)].
  - exact empty_store_wf.
  - apply surjective_pairing.
  - exfalso. vm_compute in Hc. discriminate Hc.
  - by exists rec, σ1.
  - exfalso. assert (writes (validate_and_reserve toy_processor spend KindProxy (start empty_store)).2
      = [reserve_op KindProxy spend]) as Hr by by vm_compute.
    rewrite Hv in Hr. cbn [snd] in Hr. rewrite Hw in Hr. discriminate Hr.
Defined.

Lemma only_admissible_requests_reserve_witness :
  first_attempt toy_processor spend (start empty_store)
    (validate_and_reserve toy_processor spend KindProxy (start empty_store)).2.
Proof.
  destruct (only_admissible_requests_reserve toy_processor spend KindProxy (start empty_store)
    (validate_and_reserve toy_processor spend KindProxy (start empty_store)).1
    (validate_and_reserve toy_processor spend KindProxy (start empty_store)).2) as [_ [Hw|[_ Hf]]].
  - apply surjective_pairing.
  - exfalso. vm_compute in Hw. discriminate Hw.
  - exact Hf.
Defined.

Lemma nullifier_serves_one_request_witness :
  (validate_and_reserve toy_processor spend KindProxy reserved_state).1 = Ok None
  ∧ (spend = spend ∨ binding_collision spend spend).
Proof.
  assert ((validate_and_reserve toy_processor spend KindProxy reserved_state).1 = Ok None) as Hv
    by (vm_compute; reflexivity).
  split; [exact Hv|]. destruct toy_holds as [rec Hrec].
  apply (nullifier_serves_one_request toy_processor spend spend KindProxy KindProxy Reserved rec
    reserved_state reserved_state None (validate_and_reserve toy_processor spend KindProxy reserved_state).2).
  - exact reserved_store_wf.
  - exact Hrec.
  - reflexivity.
  - reflexivity.
  - exact (run_eq _ _ _ Hv).
Defined.

Lemma clearance_excludes_spending_witness :
  (∃ e, (process_request toy_processor spend cleared_state).1 = Err e)
  ∧ (∃ e, (process_clearance toy_processor spent_clear reserved_state).1 = Err e).
Proof.
  destruct clearance_granted as [resp Hresp]. split.
  - destruct (clearance_excludes_spending toy_processor toy_processor spent_clear spend (start empty_store)
      resp
      cleared_state cleared_state) as [Hspend _].
    + exact empty_store_wf.
    + reflexivity.
    + destruct Hspend as [_ Hr].
      * exact (run_eq _ _ _ Hresp).
      * reflexivity.
      * eapply Hr. apply surjective_pairing.
  - destruct toy_holds as [rec Hrec].
    destruct (clearance_excludes_spending toy_processor toy_processor spent_clear spend reserved_state
      resp
      reserved_state reserved_state) as [_ Hclear].
    + exact reserved_store_wf.
    + reflexivity.
    + eapply (Hclear KindProxy Reserved rec); [exact Hrec|done|reflexivity|apply surjective_pairing].
Defined.
End witnesses.
