(* ===== verification/ServeProps.v ===== *)
(** * What a served response is worth, and when a request is served

    The response of a fresh request is the provider's, charged within its cap,
    and signs the next private state: the anonymous commitment moved by exactly
    the charge. And the service makes progress: where nothing interferes and
    nothing fails, an admissible request is answered. *)

From Stdlib Require Import ZArith Lia.
From stdpp Require Import base tactics decidable numbers list strings relations.
From S2P Require Import Prelude Float64 Json Types AuthScheme Config Errors Store StoreTheory.
From S2P Require Import StoreProps Pricing ProviderTypes Dashboard World WorldTheory OpenRouter.
From S2P Require Import OaOrg Provider ProviderTheory Processor Leases.
From S2P Require Import Progress Toy ToyWorld RequestProps.

Section responses.
Context `{!FeltOps, !WireTypes, !WireOps, !CoreOps, !SqliteText, !JsonText, !SerdeText, !Env, !EnvLaws}.
Implicit Types (self : RequestProcessor).

(** The next private state signed for [request] at [charge]. *)
Definition signs_next_state self request (charge : Z) (ns : NextState) : Prop :=
  server_update (anonymous_commitment (public_inputs request)) charge (ns_blind_delta ns) = Ok (ns_commitment ns)
  ∧ (∃ seed, ns_anchor ns = core_next_anchor seed (nullifier_of request)
                              (point_x (ns_commitment ns)) (point_y (ns_commitment ns)))
  ∧ ns_signature ns = sign_state (signer self)
      (core_state_message (c_protocol_version (config self)) (c_chain_id (config self))
         (c_contract_address (config self)) (point_x (ns_commitment ns)) (point_y (ns_commitment ns))
         (ns_anchor ns)).

Lemma next_state_Ok self request charge σ ns σ' :
  next_state self (public_inputs request) charge σ = (Ok ns, σ') → signs_next_state self request charge ns.
Proof.
  intros Hn. unfold next_state in Hn. inv_run. subst ns.
  match goal with H : map_err _ (server_update _ _ _) = Ok _ |- _ => rename H into Hu end.
  split; [|split; [by eexists|done]]. simpl. by destruct (server_update _ _ _); [injection Hu as <-|].
Qed.

Lemma finalize_request_response self request r u t σ resp σ' :
  finalize_request self request r u t σ = (Ok resp, σ') →
  ∃ ns, resp = response_of request r ns ∧ signs_next_state self request (charge_applied r) ns.
Proof.
  intros Hf. unfold finalize_request in Hf. inv_run.
  match goal with H : next_state _ _ _ _ = _ |- _ => apply next_state_Ok in H end.
  eexists. split; [eassumption|done].
Qed.

#[local] Hint Resolve execute_provider_safe elapsed_ms_safe elapsed_ms_quiet : handlers.

(** C2: A fresh answer is the provider's, charged within its cap, and hands out
    the next state. If [process_request] answers a request by executing it, then
    it ran the provider once and the answer carries the provider's status and
    payload with the payload's canonical hash; the charge is the provider's, not
    negative, and at most the policy cap if the provider reported a policy
    violation on a policy-enforcing server, at most the request cap otherwise; and
    the signature is the state signer's over the next state of this deployment:
    the request's anonymous commitment updated by exactly that charge under the
    blinding returned, with an anchor bound to the nullifier. *)
Theorem fresh_response_signs_charge `{!FeltLaws, !WireLaws} self request σ resp σ' :
  ProviderContract (provider self) → caps_storable self → store_wf (db σ) →
  process_request self request σ = (Ok resp, σ') → calls σ' ≠ calls σ →
  ∃ r σ1 σ2 ns,
    execute_provider self request σ1 = (Ok r, σ2) ∧ calls σ1 = calls σ ∧ calls σ' = calls σ2
    ∧ resp_response_code resp = status_code r ∧ resp_response_payload resp = response_payload r
    ∧ resp_response_hash resp = canonical_response_hash (response_payload r)
    ∧ resp_charge_applied resp = charge_applied r
    ∧ (0 ≤ charge_applied r ≤ request_cap self (policy_reason_code r))%Z
    ∧ signs_next_state self request (charge_applied r) ns
    ∧ resp_next_commitment resp = ns_commitment ns ∧ resp_next_anchor resp = ns_anchor ns
    ∧ resp_blind_delta_srv resp = ns_blind_delta ns ∧ resp_next_state_signature resp = ns_signature ns.
Proof.
  intros Hpc [Hc1 Hc2] Hwf Hp Hcalls. unfold process_request in Hp. inv_run.
  match goal with H : validate_and_reserve _ _ _ _ = (Ok ?p, ?s) |- _ =>
    rename H into Hv; rename p into prior; rename s into σ1 end.
  pose proof (validate_and_reserve_quiet self request KindProxy σ) as Hq. rewrite Hv in Hq. simpl in Hq.
  assert (store_steps (db σ) (db σ1)) as Hs by (unfold db; run_steps; done).
  pose proof (store_steps_wf _ _ Hwf Hs) as Hwf1.
  apply validate_Ok in Hv; [|done]. destruct prior as [resp'|]; inv_run; [by subst|].
  destruct Hv as (rec & Hh).
  match goal with H : execute_provider _ _ _ = (Ok ?p, ?s) |- _ =>
    rename H into He; rename p into r; rename s into σ2; pose proof (execute_provider_valid _ _ _ _ _ Hpc He) as Hr end.
  match goal with H : finalize_request _ _ _ _ _ ?s = _ |- _ => rename H into Hf; rename s into σ3 end.
  assert (store_steps (db σ1) (db σ3)) as Hs1 by (unfold db; run_steps; steps).
  assert (calls σ3 = calls σ2) as Hc3 by (run_calls; congruence).
  destruct (holds_forward_any _ _ _ _ _ _ Hwf1 Hs1 Hh) as (st & rec1 & Hh1).
  pose proof (finalize_request_response _ _ _ _ _ _ _ _ Hf) as (ns & -> & Hns).
  assert (calls σ' = calls σ3) as Hc4 by (eapply quiet_run; [|exact Hf]; program).
  apply (finalize_request_Ok _ _ _ _ _ _ _ _ _ _ _ (store_steps_wf _ _ Hwf1 Hs1) Hh1 Hr) in Hf as (Hcap & _ & _).
  2: { rewrite charge_cap_proxy. unfold request_cap. by repeat case_match. }
  rewrite charge_cap_proxy in Hcap. destruct Hr as ((Hpos & _) & _ & _).
  exists r, σ1, σ2, ns. by rewrite Hc4, Hc3.
Qed.
End responses.

(** ** Progress *)

Section progress.
Context `{!FeltOps, !FeltLaws, !WireTypes, !WireOps, !WireLaws, !CoreOps, !SqliteText, !JsonText, !SerdeText, !Env, !EnvLaws}.
Context (P : World → Prop) `{!Calm P}.
Implicit Types (self : RequestProcessor).

Lemma reserve_absent_run kind request now b s :
  api_request_binding request = Ok b → lookup_by_nullifier None (nullifier_of request) s = None →
  ∃ s', run None now (reserve_op kind request) s = (Ok tt, s').
Proof.
  intros Hb Hl.
  assert (run None now (reserve_op kind request) s
          = reserve_bound_v2 None now request (kind_as_str kind) s) as -> by by destruct kind.
  unfold reserve_bound_v2, reserve_with_kind, with_conn. rewrite Hb.
  destruct (insert_nullifier _ s) as [s1|e] eqn:Hi; [by exists s1|].
  apply insert_nullifier_Err in Hi as (r & Hr & Hk).
  by destruct (lookup_by_nullifier_None _ _ Hl r Hr).
Qed.

(** The store keeps this request's reservation. *)
Definition reserved_for request (sh : Shared) : Prop :=
  store_wf (store sh) ∧ ∃ rec, holds (store sh) request KindProxy Reserved rec.

Lemma reserved_for_run now request sh s' :
  store_wf (store sh) → run None now (reserve_op KindProxy request) (store sh) = (Ok tt, s') →
  reserved_for request {| store := s'; root := root sh; hub := hub sh |}.
Proof.
  intros Hwf Hrun. split; [|by eapply reserved_holds].
  pose proof (run_wf None now (reserve_op KindProxy request) (store sh) Hwf) as Hwf'. by rewrite Hrun in Hwf'.
Qed.

Lemma check_proof_passes self request ph :
  (required_solvency self ≤ solvency_bound (public_inputs request))%Z →
  core_authorization_tag (nullifier_of request) (canonical_request_context (client_request_id request) ph)
    = authorization_tag (public_inputs request) →
  verify (verifier self) (public_inputs request) (request_proof request) = Ok true →
  check_proof self request ph = Ok tt.
Proof.
  intros Hs Ht Hv. unfold check_proof, nullifier_of in *. rewrite (proj2 (Z.ltb_ge _ _) Hs).
  rewrite Ht, bool_decide_eq_true_2 by done. simpl. by rewrite Hv.
Qed.

Lemma resume_reserved s request kind b rec :
  api_request_binding request = Ok b → holds s request kind Reserved rec →
  resume rec request kind b = Ok None.
Proof. intros Hb (_ & Hst & b' & Hb' & Hsame). unfold resume. replace b with b' by congruence. by rewrite Hsame, Hst. Qed.

(** Where a request can start from: it was never seen, and passes every check at
    every time the calm clock can show; or an earlier attempt reserved it. *)
Definition startable self request (sh : Shared) : Prop :=
  store_wf (store sh)
  ∧ (lookup_by_nullifier None (nullifier_of request) (store sh) = None
     ∧ (∀ w, P w → admissible self request (root sh) ((env_clock_ms w).1 / 1000)%Z)
     ∨ ∃ rec, holds (store sh) request KindProxy Reserved rec).

Lemma validate_completes self request b :
  canonical_payload_hash (payload request) = payload_hash request →
  deployment_mismatch self (public_inputs request) = false →
  api_request_binding request = Ok b →
  completes P (startable self request) (validate_and_reserve self request KindProxy)
    (λ prior sh, prior = None ∧ reserved_for request sh).
Proof.
  intros Hh Hd Hb. apply completes_at. intros sh Hstart. unfold validate_and_reserve.
  step ltac:(apply completes_guard; rewrite Hh, bool_decide_eq_true_2; done). intros <-.
  step ltac:(by apply completes_guard). intros <-.
  step ltac:(apply (completes_lift P _ _ (λ x sh', x = b ∧ sh = sh')); rewrite Hb; eauto). intros [-> <-].
  step ltac:(apply (completes_read P)). intros [-> <-].
  change (request_nullifier (public_inputs request)) with (nullifier_of request).
  destruct Hstart as [Hwf [[Hl Hadm]|(rec & Hh')]].
  - rewrite Hl.
    step ltac:(apply (completes_root P)). intros [-> <-].
    apply completes_world. intros w Hw. destruct (Hadm w Hw) as (Hr & Hk & _ & Hs & Ht & Hv).
    step ltac:(apply completes_guard; rewrite bool_decide_eq_true_2; done). intros <-.
    step ltac:(apply (completes_lift P _ _ (λ _ sh', sh = sh')); rewrite Hk; eauto). intros <-.
    step ltac:(apply (completes_timestamp P)). intros [(_ & w' & Hw' & ->) <-].
    step ltac:(apply completes_guard; apply (Hadm w' Hw')). intros <-.
    step ltac:(apply (completes_lift P _ _ (λ _ sh', sh = sh')); rewrite Hh;
      rewrite (check_proof_passes self request _ Hs Ht Hv); eauto). intros <-.
    step ltac:(apply (completes_op P _ _ (reserved_for request)); intros ? now <- _;
      destruct (reserve_absent_run KindProxy request now b (store sh)) as [s' Hrun];
      [done|done|]; exists s'; split; [exact Hrun|]; apply (reserved_for_run now); done).
    intros Hres. apply completes_ret. by intros ? <-.
  - rewrite (proj1 Hh'). apply completes_lift. exists None. split; [by apply (resume_reserved (store sh))|].
    intros ? <-. split; [done|]. split; [done|]. by exists rec.
Qed.

Lemma is_ok_spec {E A} (x : result E A) : is_ok x = true → ∃ a, x = Ok a.
Proof. destruct x as [a|]; [eauto|discriminate]. Qed.

Lemma next_state_completes self public c sh :
  (∀ delta, is_ok (server_update (anonymous_commitment public) c delta) = true) →
  completes P (eq sh) (next_state self public c) (λ _, eq sh).
Proof.
  intros Hup. unfold next_state.
  step ltac:(apply (completes_draw P); intros w; apply calm_random). intros [_ <-].
  match goal with |- context [server_update _ _ ?d] => destruct (is_ok_spec _ (Hup d)) as [c' ->] end.
  step ltac:(apply (completes_lift P _ _ (λ _, eq sh)); simpl; eauto). intros <-.
  step ltac:(apply (completes_draw P); intros w; apply calm_random). intros [_ <-].
  by apply completes_ret.
Qed.

Lemma record_event_completes event : completes P (λ _, True) (record_event event) (λ _ _, True).
Proof.
  unfold record_event. eapply completes_bind; [by apply (completes_hub P)|]. intros [seq|]; [|by apply completes_ret].
  eapply completes_bind; [apply (completes_draw P); intros w; apply calm_clock|]. intros ts; cbn beta.
  apply (completes_weaken P _ (λ _, True) _ _ (λ _ _, True)); [done..|].
  eapply completes_bind; [by apply (completes_hub P)|]. intros ?; cbn beta. by apply completes_ret.
Qed.

Lemma finalize_completes_run now request rec t sh :
  store_wf (store sh) → holds (store sh) request KindProxy Reserved rec →
  ∃ s', run None now (OpFinalize (nullifier_of request) t) (store sh) = (Ok tt, s').
Proof.
  intros Hwf (Hl & Hst & _). apply lookup_by_nullifier_Some in Hl as (row & Hr & Hk & ->).
  apply row_status_of_record in Hst; [|by apply Hwf].
  destruct (finalize_reserved_row now (nullifier_of request) t (store sh) row) as (s' & Hf & _); eauto.
Qed.

(** Finalization completes for a reservation whose charge is within the cap. *)
Lemma finalize_completes self request b r u t :
  api_request_binding request = Ok b →
  (charge_applied r ≤ request_cap self (policy_reason_code r))%Z →
  (∀ delta, is_ok (server_update (anonymous_commitment (public_inputs request)) (charge_applied r) delta) = true) →
  is_ok (base64_decode (proof (request_proof request))) = true →
  completes P (reserved_for request) (finalize_request self request r u t)
    (λ resp _, ∃ ns, resp = response_of request r ns).
Proof.
  intros Hb Hcap Hup Hpf. apply completes_at. intros sh [Hwf (rec & Hh)]. unfold finalize_request.
  step ltac:(apply (completes_read P)). intros [-> <-].
  change (request_nullifier (public_inputs request)) with (nullifier_of request). rewrite (proj1 Hh).
  step ltac:(apply (completes_lift P _ _ (λ x sh', x = rec ∧ sh = sh')); eauto). intros [-> <-].
  rewrite (holds_kind _ _ _ _ _ Hh), charge_cap_proxy.
  step ltac:(apply completes_guard; apply Z.ltb_ge; exact Hcap). intros <-.
  step ltac:(by apply next_state_completes). intros <-.
  match goal with |- context [transcript request r ?x] => rename x into ns end.
  destruct (is_ok_spec _ Hpf) as [pb ->]. rewrite Hb.
  step ltac:(apply (completes_lift P _ _ (λ _, eq sh)); simpl; eauto). intros <-.
  step ltac:(apply (completes_lift P _ _ (λ _, eq sh)); simpl; eauto). intros <-.
  step ltac:(apply (completes_timestamp P)). intros [_ <-].
  step ltac:(apply (completes_timestamp P)). intros [_ <-].
  set (tr := transcript _ _ _ _ _ _ _ _).
  step ltac:(apply (completes_op P _ _ (λ _, True)); intros ? now <- _;
    destruct (finalize_completes_run now request rec tr sh) as [s' Hrun]; [done|done|];
    exists s'; split; [exact Hrun|done]). intros _.
  step ltac:(apply (completes_weaken P _ (λ _, True) _ (λ _ _, True) (λ _ _, True)); [done..|apply record_event_completes]).
  intros _. apply completes_ret. intros _ _. by exists ns.
Qed.

(** C6: Admissible requests are served. In a calm world, where nothing else runs
    and the database does not fail, take a request for this deployment whose
    payload hash is right: either its nullifier is unseen and it passes every
    check at every time the clock can show, or an earlier attempt, interrupted
    before it was answered, left it reserved. If the provider answers it with a
    charge within the cap and the commitment can be updated by that charge, then
    [process_request] returns, with the provider's response at that charge. *)
Theorem admissible_request_served self request b r σ :
  P (world σ) → startable self request (shared σ) →
  canonical_payload_hash (payload request) = payload_hash request →
  deployment_mismatch self (public_inputs request) = false →
  api_request_binding request = Ok b →
  (∀ σ0, P (world σ0) → ∃ σ1, P (world σ1) ∧ shared σ1 = shared σ0
     ∧ provider self (client_request_id request) (payload request) (payload_hash request) σ0 = (Ok r, σ1)) →
  (charge_applied r ≤ request_cap self (policy_reason_code r))%Z →
  (∀ delta, is_ok (server_update (anonymous_commitment (public_inputs request)) (charge_applied r) delta) = true) →
  is_ok (base64_decode (proof (request_proof request))) = true →
  ∃ ns σ', process_request self request σ = (Ok (response_of request r ns), σ').
Proof.
  intros Hw Hstart Hh Hd Hb Hp Hcap Hup Hpf.
  enough (completes P (startable self request) (process_request self request)
            (λ resp _, ∃ ns, resp = response_of request r ns)) as Hgo.
  { destruct (Hgo σ Hw Hstart) as (resp & σ' & Hrun & _ & ns & ->). eauto. }
  unfold process_request.
  eapply completes_bind; [by apply (validate_completes self request b)|]. intros prior; cbn beta.
  apply completes_pure. intros ->.
  eapply (completes_bind P _ _ (λ x sh, x = r ∧ reserved_for request sh)).
  { unfold execute_provider. eapply (completes_bind P _ _ (λ _, reserved_for request)).
    - intros σ0 Hw0 Hr. eexists _, _. by split.
    - intros ? σ0 Hw0 Hr. destruct (Hp σ0 Hw0) as (σ1 & Hw1 & Hs1 & Hrun). exists r, σ1.
      split; [exact Hrun|]. by rewrite Hs1. }
  intros rp; cbn beta. apply completes_pure. intros ->.
  eapply completes_bind; [apply (completes_draw P); intros w; apply calm_elapsed|]. intros u; cbn beta.
  apply completes_pure. intros _.
  eapply completes_bind; [apply (completes_draw P); intros w; apply calm_elapsed|]. intros t; cbn beta.
  apply completes_pure. intros _. by apply (finalize_completes self request b).
Qed.
End progress.

(** ** Witnesses *)

Section witnesses.
Local Open Scope string_scope.

Definition is_calm : World → Prop := λ w, w = calm.
#[export] Instance toy_calm : Calm is_calm.
Proof. split; unfold is_calm; intros w **; by subst w. Qed.

Lemma fresh_response_signs_charge_witness :
  ∃ resp, (process_request toy_processor spend (start empty_store)).1 = Ok resp
    ∧ ∃ ns, signs_next_state toy_processor spend 42 ns ∧ resp_next_state_signature resp = ns_signature ns.
Proof.
  destruct spend_answered as (resp & Hr & Hc). exists resp. split; [exact Hr|].
  destruct (fresh_response_signs_charge toy_processor spend (start empty_store) resp answered)
    as (r & σ1 & σ2 & ns & _ & _ & _ & _ & _ & _ & Hcharge & _ & Hns & _ & _ & _ & Hsig).
  - exact toy_contract.
  - exact toy_caps.
  - exact empty_store_wf.
  - exact (run_eq _ _ _ Hr).
  - intros Hcalls. apply (f_equal length) in Hcalls. vm_compute in Hcalls. discriminate Hcalls.
  - exists ns. rewrite Hc in Hcharge. rewrite <- Hcharge in Hns. split; [exact Hns|exact Hsig].
Defined.

Definition spend_binding : string := default "" (ok (api_request_binding spend)).
Definition echoed : ProviderResponse := unmetered 200 (payload spend) 42 "echo" None None.

Lemma spend_startable : startable is_calm toy_processor spend (shared (start empty_store)).
Proof.
  split; [exact empty_store_wf|]. left. split; [reflexivity|]. intros w ->.
  unfold admissible. repeat split; vm_compute; try reflexivity; discriminate.
Qed.

Lemma admissible_request_served_witness :
  ∃ ns σ', process_request toy_processor spend (start empty_store) = (Ok (response_of spend echoed ns), σ').
Proof.
  apply (admissible_request_served is_calm toy_processor spend spend_binding echoed).
  - reflexivity.
  - exact spend_startable.
  - reflexivity.
  - reflexivity.
  - reflexivity.
  - intros σ0 Hw. exists σ0. split; [exact Hw|]. split; reflexivity.
  - vm_compute. discriminate.
  - intros delta. reflexivity.
  - reflexivity.
Defined.
End witnesses.
