(* ===== verification/LeaseProps.v ===== *)
(** * What key leases guarantee

    A key is issued once per request, to a live reservation, with the limit the
    request proved; its settlement charges once, within that limit, and survives
    a crash between its two writes; it is retired only by the request it was
    issued to. *)

From Stdlib Require Import ZArith Lia.
From stdpp Require Import base tactics decidable numbers list strings gmap relations.
From S2P Require Import Prelude Float64 Json Http Types AuthScheme Config Errors Store StoreTheory.
From S2P Require Import StoreProps Pricing ProviderTypes Dashboard World WorldTheory OpenRouter.
From S2P Require Import OaOrg OaOrgTheory Provider ProviderTheory Processor Leases.
From S2P Require Import Toy ToyWorld RequestProps.

Section leases.
Context `{!FeltOps, !WireTypes, !WireOps, !CoreOps, !SqliteText, !JsonText, !SerdeText, !Env, !EnvLaws}.
Implicit Types (self : RequestProcessor) (request : ApiRequestV2) (σ : State).

(** ** A lease with a key *)

(** The row of [cid], past provisioning, holds the key hash [h]. *)
Definition keyed (s : NullifierStore) (cid h : string) : Prop :=
  ∃ o, o ∈ leases s ∧ o_client_request_id o = cid ∧ o_key_hash o = Some h.

Lemma keyed_forward s s' cid h : store_wf s → store_steps s s' → keyed s cid h → keyed s' cid h.
Proof.
  intros Hwf Hs (o & Ho & <- & Hh). destruct (steps_lease_fixed _ _ _ _ Hwf Hs Ho Hh) as (o' & Ho' & Hf).
  exists o'. split; [done|]. split; [apply (fix_id _ _ Hf)|]. by rewrite (fix_key_hash _ _ Hf).
Qed.

(** The row is found by its id, and no other. *)
Lemma keyed_lookup s cid h rec :
  store_wf s → keyed s cid h → lookup_openrouter_lease None cid s = Some rec → l_key_hash rec = Some h.
Proof.
  intros Hwf (o & Ho & Hcid & Hh) Hl. rewrite (lookup_lease_row s cid o) in Hl; [|apply Hwf|done..].
  apply row_to_lease_inv in Hl as (_ & -> & _). done.
Qed.

Lemma create_lease_keyed fault now request source i e a limit s s' r h :
  keyed s (client_request_id request) h →
  run fault now (OpCreateLease request source i e a limit) s = (r, s') → ∃ err, r = Err err.
Proof.
  intros (o & Ho & Hcid & _). simpl. unfold create_openrouter_lease.
  destruct (request_to_json request); [|intros [= <- _]; eauto]. unfold with_conn.
  destruct fault as [[]|]; [intros [= <- _]; eauto..|].
  destruct (bind_real limit); [|intros [= <- _]; eauto].
  destruct (lease_conflict _ (leases s)) eqn:Hc; [intros [= <- _]; eauto|].
  apply lease_conflict_None in Hc as [Hc _]. destruct Hc. simpl. rewrite <- Hcid.
  by apply list_elem_of_fmap_2.
Qed.

Lemma activate_run fault now cid h s s' :
  run fault now (OpActivateLease cid h) s = (Ok tt, s') →
  ∃ o, o ∈ leases s' ∧ o_client_request_id o = cid ∧ o_key_hash o = Some h ∧ o_status o = "active"%string.
Proof.
  simpl. unfold activate_openrouter_lease, with_conn. destruct fault as [[]|]; [discriminate..|].
  destruct (key_hash_taken _ _ _); [discriminate|].
  destruct (update_where _ _ _) as [n l] eqn:Hu. destruct (Nat.eqb_spec n 1) as [->|]; [|discriminate].
  intros [= <-]. simpl.
  destruct (update_where_hit _ _ _ _ _ Hu) as (r & _ & [Hc%String.eqb_eq _]%andb_true_iff & Hr); [done|].
  by eexists.
Qed.

(** ** Issue *)

Lemma authorize_lease_Ok self request cfg :
  authorize_lease self request = Ok cfg →
  c_openrouter_leases (config self) = Some cfg ∧ c_policy_enabled (config self) = false
  ∧ authorization_from_json (payload request) = Ok OpenRouterLeaseAuthorization_default.
Proof.
  unfold authorize_lease. intros (auth & Ha & (? & Hd & (cfg' & Hc & (? & Hp & [= ->])%bind_Ok)%bind_Ok)%bind_Ok)%bind_Ok.
  apply fail_if_Ok in Hd, Hp. apply ok_or_Ok in Hc. apply negb_false_iff, bool_decide_eq_true in Hd as ->.
  unfold map_err in Ha. destruct (authorization_from_json _); [|discriminate]. injection Ha as ->. done.
Qed.

Lemma check_existing_keyed cfg request existing h :
  l_key_hash existing = Some h → ∃ e, check_existing cfg request existing = Err e.
Proof.
  intros Hh. destruct (check_existing cfg request existing) as [u|e] eqn:Hc; [|by eauto].
  unfold check_existing in Hc. do 4 apply bind_Ok in Hc as (? & _ & Hc).
  apply fail_if_Ok, orb_false_iff in Hc as [_ Hc]. rewrite Hh in Hc.
  by apply negb_false_iff, bool_decide_eq_true in Hc.
Qed.

Lemma reconcile_keyed self cfg request name start existing h σ :
  l_key_hash existing = Some h → ∃ e, reconcile self cfg request name start existing σ = (Err e, σ).
Proof.
  intros Hh. destruct (check_existing_keyed cfg request existing h Hh) as [e He].
  exists e. unfold reconcile, mbind, M_bind, lift. by rewrite He.
Qed.

Lemma lookup_lease_fault fault cid s rec :
  lookup_openrouter_lease fault cid s = Some rec → lookup_openrouter_lease None cid s = Some rec.
Proof. by destruct fault. Qed.

(** While the lease has a key, another issue stops before it talks to anyone. *)
Lemma issue_keyed self request σ r σ' h :
  store_wf (db σ) → keyed (db σ) (client_request_id request) h →
  issue_openrouter_lease self request σ = (r, σ') → (∃ e, r = Err e) ∧ calls σ' = calls σ.
Proof.
  intros Hwf Hk Hi. unfold issue_openrouter_lease in Hi.
  do 6 (apply bind_M_inv in Hi as [(? & ? & ->)|(? & ? & ? & Hi)];
    [split; [by eauto|run_calls; congruence]|]).
  match goal with H : db_read _ _ = (Ok ?x, ?s) |- _ =>
    rename x into existing; rename s into σ1; pose proof H as Hread end.
  assert (calls σ1 = calls σ) as Hcalls by (run_calls; congruence).
  assert (store_steps (db σ) (db σ1)) as Hs by (unfold db; run_steps; steps).
  apply (keyed_forward _ _ _ _ Hwf Hs) in Hk. apply (store_steps_wf _ _ Hwf) in Hs as Hwf1.
  apply db_read_Ok in Hread as (fault & Hex & _).
  destruct existing as [existing|].
  - symmetry in Hex. apply lookup_lease_fault, (keyed_lookup _ _ h) in Hex; [|done..].
    match type of Hi with context [reconcile self ?c ?q ?n ?st existing] =>
      destruct (reconcile_keyed self c q n st existing h σ1 Hex) as [e He] end.
    apply bind_M_inv in Hi as [(e' & Hi & ->)|(? & ? & Hi & _)]; rewrite He in Hi; [|discriminate].
    injection Hi as <- <-. by eauto.
  - apply bind_M_inv in Hi as [(? & [=] & _)|(start & σ2 & [= <- <-] & Hi)].
    apply bind_M_inv in Hi as [(? & ? & ->)|(now & σ2 & Hnow & Hi)];
      [split; [by eauto|run_calls; congruence]|].
    apply current_timestamp_Ok in Hnow as (_ & Hsh & Hc2 & _). simpl in Hi.
    apply bind_M_inv in Hi as [(? & Hop & ->)|(? & ? & Hop & _)].
    + split; [by eauto|]. apply db_op_run in Hop as (? & ? & ? & _ & _ & _ & -> & _). congruence.
    + apply db_op_run in Hop as (f & t & s & Hrun & _ & Hs2 & _).
      rewrite Hsh in Hs2. apply (keyed_forward _ _ _ _ Hwf1 Hs2) in Hk.
      destruct (create_lease_keyed _ _ _ _ _ _ _ _ _ _ _ _ Hk Hrun) as [e [=]].
Qed.

Lemma activate_lease_Ok self cfg cid h σ σ' :
  activate_lease self cfg cid h σ = (Ok tt, σ') →
  ∃ o, o ∈ leases (db σ') ∧ o_client_request_id o = cid ∧ o_key_hash o = Some h ∧ o_status o = "active"%string.
Proof.
  intros Ha. unfold activate_lease in Ha. inv_run.
  match goal with H : db_op _ _ = (?r, _) |- _ => destruct r as [[]|e]; rename H into Hop end.
  - inv_run. apply db_op_run in Hop as (f & now & s & Hrun & _). by eapply activate_run.
  - repeat case_match; inv_run.
Qed.

(** What a successful issue leaves in the store. *)
Lemma issue_Ok `{!FeltLaws} self request σ issued σ' :
  store_wf (db σ) → issue_openrouter_lease self request σ = (Ok issued, σ') →
  ∃ cfg h o st rec,
    authorize_lease self request = Ok cfg
    ∧ o ∈ leases (db σ') ∧ o_client_request_id o = client_request_id request
    ∧ o_key_hash o = Some h ∧ o_status o = "active"%string
    ∧ holds (db σ') request KindOpenRouterLease st rec
    ∧ valid_limit (credits_to_usd (solvency_bound (public_inputs request))) = true.
Proof.
  intros Hwf Hi. unfold issue_openrouter_lease in Hi. inv_run. subst.
  match goal with H : activate_lease _ _ _ ?h _ = _ |- _ =>
    pose proof (activate_lease_Ok _ _ _ _ _ _ H) as (o & Ho & Hid & Hh & Hst); exists x, h, o end.
  match goal with H : validate_and_reserve _ _ _ _ = (Ok ?p, ?s) |- _ =>
    pose proof (validate_Ok _ _ _ _ _ _ Hwf H) as Hv; destruct p; [discriminate|];
    destruct Hv as (rec & Hh0); assert (store_steps (db σ) (db s)) as Hs0 by (unfold db; run_steps; done);
    rename s into σv end.
  match goal with H : negb (valid_limit _) = false |- _ => apply negb_false_iff in H; rename H into Hlim end.
  match type of Ho with _ ∈ leases (db ?σe) =>
    assert (store_steps (db σv) (db σe)) as Hs1 by (clear Hs0; unfold db; run_steps; steps) end.
  destruct (holds_forward_any _ _ _ _ _ _ (store_steps_wf _ _ Hwf Hs0) Hs1 Hh0) as (st' & rec' & Hh').
  by exists st', rec'.
Qed.

(** C7: A lease gets one key, once. A successful issue was authorized for
    prompt-private use, without server-side policy, with a positive limit derived
    from the proved solvency bound, and leaves the lease active with its key hash
    on the request's own lease reservation. From then on, whatever other handlers
    and faults do, the lease keeps exactly that key hash, and every further issue
    for the same client request id, by this request or any other, fails without
    calling any provisioning service: no second key can be created. *)
Theorem lease_key_issued_once `{!FeltLaws} self self' request request' σ issued σ1 σ2 r σ3 :
  store_wf (db σ) → issue_openrouter_lease self request σ = (Ok issued, σ1) →
  store_steps (db σ1) (db σ2) → client_request_id request' = client_request_id request →
  issue_openrouter_lease self' request' σ2 = (r, σ3) →
  c_policy_enabled (config self) = false
  ∧ authorization_from_json (payload request) = Ok OpenRouterLeaseAuthorization_default
  ∧ valid_limit (credits_to_usd (solvency_bound (public_inputs request))) = true
  ∧ (∃ h st rec, keyed (db σ1) (client_request_id request) h ∧ keyed (db σ2) (client_request_id request) h
       ∧ holds (db σ1) request KindOpenRouterLease st rec)
  ∧ (∃ e, r = Err e) ∧ calls σ3 = calls σ2.
Proof.
  intros Hwf Hi Hs Hid Hi'.
  assert (store_wf (db σ1)) as Hwf1.
  { eapply store_steps_wf; [exact Hwf|]. eapply safe_run; [|exact Hi]. apply issue_openrouter_lease_safe. }
  apply issue_Ok in Hi as (cfg & h & o & st & rec & Ha & Ho & Hc & Hh & _ & Hold & Hlim); [|done].
  apply authorize_lease_Ok in Ha as (_ & Hpol & Hauth).
  assert (keyed (db σ1) (client_request_id request) h) as Hk by (exists o; done).
  pose proof (keyed_forward _ _ _ _ Hwf1 Hs Hk) as Hk2. rewrite <- Hid in Hk2.
  apply issue_keyed with (h := h) in Hi' as [Herr Hcalls]; [|by eapply store_steps_wf|done].
  rewrite Hid in Hk2. repeat (split; [done|]). split; [|done]. by exists h, st, rec.
Qed.

(** ** Settlement *)

Lemma finalized_record_Ok n σ x σ' :
  finalized_record n σ = (Ok x, σ') →
  calls σ' = calls σ ∧ writes σ' = writes σ ∧ store_steps (db σ) (db σ')
  ∧ ∀ rec, x = Some rec → lookup_by_nullifier None n (db σ') = Some rec ∧ t_status rec = Finalized.
Proof.
  unfold finalized_record. intros Hr. inv_run.
  match goal with H : db_read _ _ = _ |- _ => apply db_read_Ok in H as (fault & -> & Hc & Hw & Hs) end.
  split; [done|]. split; [done|]. split; [done|]. intros rec ->.
  match goal with H : Some rec = _ |- _ => symmetry in H; apply bind_Some in H as (r & Hl & Hr) end.
  destruct (decide _); [|discriminate]. injection Hr as <-. destruct fault; [discriminate|done].
Qed.

Lemma get_key_usage_silent p h : silent (get_key_usage p h).
Proof. unfold get_key_usage, send, read_success, http. program. Qed.
Lemma oa_get_key_usage_silent p cid h ex : silent (oa_get_key_usage p cid h ex).
Proof. unfold oa_get_key_usage, json_u128, oa_exchange, send, http, panic. program. Qed.
#[local] Hint Resolve get_key_usage_silent oa_get_key_usage_silent : handlers.
Lemma oa_receipt_silent self lease : silent (oa_receipt self lease).
Proof. unfold oa_receipt. program. Qed.
Lemma delete_key_silent p h : silent (delete_key p h).
Proof. unfold delete_key, send, http. program. Qed.
Lemma json_u128_silent n : silent (json_u128 n).
Proof. unfold json_u128, panic. program. Qed.
#[local] Hint Resolve oa_receipt_silent delete_key_silent json_u128_silent : handlers.

(** ** What the key was used for

    The usage the service that issued the key reports for it, and what it is
    charged. *)

(** OpenRouter's answer: its own and the caller's usage, negative sums as zero. *)
Definition openrouter_reports (provisioner : OpenRouterProvisioner) (h : string) (σ σ' : State) (u : f64) : Prop :=
  ∃ response text data,
    http (management_request provisioner "GET" (key_url provisioner h) [] NoBody) σ = (Ok (Ok response), σ')
    ∧ is_success (http_status response) = true ∧ http_text response = Ok text
    ∧ from_str decode_GetKeyEnvelope text = Ok data
    ∧ u = f64_add (f64_max (kd_usage data) f64_zero) (f64_max (kd_byok_usage data) f64_zero).
(** The OA org's answer: a final receipt for this client request id and key. *)
Definition oa_org_reports (provisioner : OaOrgProvisioner) (cid h : string) (σ σ' : State) (credits : Z) : Prop :=
  ∃ limits response text answer,
    http (oa_request provisioner "/api/zkapi/key_usage"
      (json_object (("client_request_id", Str cid) :: ("key_hash", Str h) :: limits)%string)) σ = (Ok (Ok response), σ')
    ∧ is_success (http_status response) = true ∧ http_text response = Ok text
    ∧ from_str decode_OaOrgUsageResponse text = Ok answer
    ∧ usage_identity answer cid h ∧ ur_status answer = "finalized"%string ∧ ur_usage_credits answer = Some credits.

(** The charge of the key of [lease], and its usage, by the report asked for at
    [σ]: the usage in credits, at most what the request proved. *)
Definition metered self (lease : OpenRouterLeaseRecord) (σ σ' : State) (charge : Z) (u : f64) : Prop :=
  ∃ h, l_key_hash lease = Some h ∧
  ((l_key_source lease = "openrouter"%string ∧ ∃ provisioner, openrouter self = Some provisioner
    ∧ openrouter_reports provisioner h σ σ' u
    ∧ charge = Z.min (usd_to_credits u) (solvency_bound (public_inputs (l_api_request lease))))
   ∨ (l_key_source lease = "oa_org"%string ∧ ∃ provisioner, oa_org self = Some provisioner
    ∧ oa_org_reports provisioner (l_client_request_id lease) h σ σ' charge
    ∧ (charge ≤ solvency_bound (public_inputs (l_api_request lease)))%Z
    ∧ u = credits_to_usd charge)).

Lemma json_u128_Ok n σ v σ' : json_u128 n σ = (Ok v, σ') → σ' = σ.
Proof. unfold json_u128, panic. case_match; by intros [= _ <-]. Qed.
Lemma get_key_usage_reports p h σ usage σ' :
  get_key_usage p h σ = (Ok usage, σ') → openrouter_reports p h σ σ' (usage_usd usage).
Proof.
  unfold get_key_usage, send, read_success. intros Hr. inv_run. subst.
  repeat match goal with H : map_err _ _ = Ok _ |- _ => apply map_err_Ok in H end. subst.
  do 3 eexists. do 4 (split; [by first [eassumption|apply negb_false_iff]|]). done.
Qed.
Lemma oa_usage_reports p cid h ex σ receipt σ' :
  oa_get_key_usage p cid h ex σ = (Ok (UsageFinalized receipt), σ') →
  oa_org_reports p cid h σ σ' (fu_usage_credits receipt) ∧ (fu_usage_credits receipt ≤ ex_limit_credits ex)%Z.
Proof.
  unfold oa_get_key_usage, oa_exchange, send. intros Hr. inv_run. subst. inv_run. subst.
  repeat match goal with H : map_err _ _ = Ok _ |- _ => apply map_err_Ok in H end. subst.
  match goal with H : json_u128 _ _ = _ |- _ => apply json_u128_Ok in H as -> end.
  match goal with H : validate_usage_response _ _ _ _ _ _ _ = _ |- _ =>
    apply usage_answer_iff in H as (Hid & Hst & Hrec & Hb) end.
  split; [|apply Hb]. do 4 eexists. do 4 (split; [by first [eassumption|apply negb_false_iff]|]).
  do 2 (split; [done|]). apply Hrec.
Qed.
Lemma openrouter_metered self lease h p σ σ' u :
  l_key_hash lease = Some h → l_key_source lease = "openrouter"%string → openrouter self = Some p →
  openrouter_reports p h σ σ' u →
  metered self lease σ σ' (Z.min (usd_to_credits u) (solvency_bound (public_inputs (l_api_request lease)))) u.
Proof. intros Hh Hs Hp Hr. exists h. split; [done|]. left. split; [done|]. by exists p. Qed.
Lemma oa_receipt_reports self lease σ receipt σ' :
  oa_receipt self lease σ = (Ok receipt, σ') → l_key_source lease = "oa_org"%string →
  metered self lease σ σ' (fu_usage_credits receipt) (credits_to_usd (fu_usage_credits receipt)).
Proof.
  intros Hr Hs. unfold oa_receipt in Hr. inv_run. subst.
  match goal with H : (match ?x with _ => _ end) = Ok _ |- _ => destruct x; [discriminate H|]; injection H as -> end.
  match goal with H : oa_get_key_usage _ _ _ _ _ = _ |- _ => apply oa_usage_reports in H as [Hrep Hle] end.
  repeat match goal with H : ok_or _ _ = Ok _ |- _ => apply ok_or_Ok in H end.
  eexists. split; [eassumption|]. right. split; [done|]. eexists. split; [eassumption|]. done.
Qed.

Lemma oa_receipt_Ok self lease σ receipt σ' :
  oa_receipt self lease σ = (Ok receipt, σ') →
  in_u128 (fu_usage_credits receipt)
  ∧ (fu_usage_credits receipt ≤ solvency_bound (public_inputs (l_api_request lease)))%Z
  ∧ (l_issued_at lease ≤ fu_closed_at receipt)%Z.
Proof.
  intros Hr. unfold oa_receipt in Hr. inv_run. subst.
  match goal with H : oa_get_key_usage _ _ _ _ _ = (Ok ?x, _) |- _ => destruct x; [discriminate|] end.
  match goal with H : Ok _ = Ok _ |- _ => injection H as -> end.
  match goal with H : oa_get_key_usage _ _ _ _ _ = _ |- _ =>
    apply oa_usage_within_limit in H as [Hu Hb] end.
  match goal with H : (_ <? _)%Z = false |- _ => apply Z.ltb_ge in H; rename H into Hclosed end.
  split; [done|]. split; [apply (rb_usage _ _ _ _ Hb)|done].
Qed.

Lemma settlement_response_valid payload charge u source label :
  in_u128 charge → response_valid (settlement_response payload charge u source label).
Proof. intros Hc. split; [done|]. split; [done|]. intros c [=]. Qed.

(** How a settlement that returned went: it found the request finalized and
    copied the stored charge to the lease, or it asked for the key's usage,
    finalized the request itself with the charge of that usage, and recorded
    usage and charge with the lease. *)
Definition settled_now self (lease : OpenRouterLeaseRecord) (σ σ' : State) : Prop :=
  ∃ r resp u σa σm σ1 σ2 σ3,
    store_steps (db σ) (db σa) ∧ calls σa = calls σ
    ∧ metered self lease σa σm (charge_applied r) u ∧ store_steps (db σm) (db σ1)
    ∧ store_steps (db σ) (db σ1) ∧ writes σ1 = writes σ ∧ response_valid r
    ∧ (charge_applied r ≤ solvency_bound (public_inputs (l_api_request lease)))%Z
    ∧ finalize_request self (l_api_request lease) r 0 0 σ1 = (Ok resp, σ2)
    ∧ db_op (OpFinalizeLease (l_client_request_id lease) u (charge_applied r)) σ2 = (Ok tt, σ3)
    ∧ writes σ' = writes σ3 ∧ store_steps (db σ3) (db σ').
Definition settled_before (lease : OpenRouterLeaseRecord) (σ σ' : State) : Prop :=
  ∃ rec u, store_steps (db σ) (db σ')
    ∧ (∃ s, store_steps (db σ) s ∧ store_steps s (db σ')
        ∧ lookup_by_nullifier None (l_request_nullifier lease) s = Some rec ∧ t_status rec = Finalized)
    ∧ calls σ' = calls σ
    ∧ writes σ' = (writes σ ++ [OpFinalizeLease (l_client_request_id lease) u
                                  (default 0%Z (t_charge_applied rec))])%list.

Lemma settle_before_intro lease rec u σ σ1 σ' :
  finalized_record (l_request_nullifier lease) σ = (Ok (Some rec), σ1) →
  db_op (OpFinalizeLease (l_client_request_id lease) u (default 0%Z (t_charge_applied rec))) σ1 = (Ok tt, σ') →
  settled_before lease σ σ'.
Proof.
  intros (Hc & Hw & Hs & Hrec)%finalized_record_Ok Hop.
  assert (store_steps (db σ1) (db σ')) as Hs' by (eapply safe_run; [|exact Hop]; program).
  apply db_op_run in Hop as (_ & _ & _ & _ & _ & _ & Hc' & Hw').
  exists rec, u. split; [by etransitivity|]. split; [exists (db σ1); by destruct (Hrec rec eq_refl)|].
  split; [congruence|]. by rewrite Hw', Hw.
Qed.

(** A run that found no finalized row finalizes with a response of its own. *)
Lemma settle_now_intro self lease r u σ σ0 σm σ1 resp σ2 σ3 σ' :
  finalized_record (l_request_nullifier lease) σ = (Ok None, σ0) →
  metered self lease σ0 σm (charge_applied r) u → store_steps (db σm) (db σ1) →
  store_steps (db σ0) (db σ1) → writes σ1 = writes σ0 → response_valid r →
  (charge_applied r ≤ solvency_bound (public_inputs (l_api_request lease)))%Z →
  finalize_request self (l_api_request lease) r 0 0 σ1 = (Ok resp, σ2) →
  db_op (OpFinalizeLease (l_client_request_id lease) u (charge_applied r)) σ2 = (Ok tt, σ3) →
  writes σ' = writes σ3 → store_steps (db σ3) (db σ') →
  settled_now self lease σ σ'.
Proof.
  intros (Hc & Hw & Hs & _)%finalized_record_Ok Hm Hsm Hs1 Hw1 Hr Hle Hf Hop Hw' Hs'.
  exists r, resp, u, σ0, σm, σ1, σ2, σ3. do 4 (split; [done|]). split; [by etransitivity|]. split; [congruence|]. done.
Qed.

Lemma settle_lease_cases self lease σ σ' :
  in_u128 (solvency_bound (public_inputs (l_api_request lease))) →
  settle_lease self lease σ = (Ok tt, σ') → settled_before lease σ σ' ∨ settled_now self lease σ σ'.
Proof.
  intros Hb Hr. unfold settle_lease in Hr.
  destruct (String.eqb_spec (l_key_source lease) "openrouter") as [Hsource|_].
  - destruct (openrouter self) as [p|] eqn:Hp; [|by apply throw_Ok in Hr].
    unfold settle_openrouter_lease in Hr.
    apply bind_M_Ok in Hr as ([rec|] & σ1 & Hf & Hr); [left; by eapply settle_before_intro|right].
    inv_run.
    match goal with
    | Hf : finalized_record _ _ = _, H1 : get_key_usage _ _ _ = _, H2 : finalize_request _ _ _ _ _ _ = _,
      H3 : db_op _ _ = _, H4 : delete_key _ _ _ = _ |- _ =>
        apply get_key_usage_reports in H1 as Hrep;
        eapply (settle_now_intro self lease _ _ _ _ _ _ _ _ _ _ Hf); [| | | | | |exact H2|exact H3| |];
        [eapply openrouter_metered; [by eapply ok_or_Ok|exact Hsource|exact Hp|exact Hrep]
        |unfold db; run_steps; run_writes; try done..]
    end.
    + apply settlement_response_valid. match goal with |- in_u128 (Z.min (usd_to_credits ?x) _) =>
        pose proof (usd_to_credits_range x) end.
      unfold in_u128 in *. lia.
    + simpl. lia.
  - destruct (String.eqb_spec (l_key_source lease) "oa_org") as [Hsource|_]; [|by apply throw_Ok in Hr].
    unfold settle_oa_org_lease in Hr.
    apply bind_M_Ok in Hr as ([rec|] & σ1 & Hf & Hr); [left; by eapply settle_before_intro|right].
    inv_run.
    match goal with
    | Hf : finalized_record _ _ = _, H1 : oa_receipt _ _ _ = _, H2 : finalize_request _ _ _ _ _ _ = _,
      H3 : db_op _ _ = _ |- _ =>
        pose proof (oa_receipt_Ok _ _ _ _ _ H1) as (Hu & Hle & _);
        eapply (settle_now_intro self lease _ _ _ _ _ _ _ _ _ _ Hf); [| | | | | |exact H2|exact H3| |];
        [by eapply oa_receipt_reports|unfold db; run_steps; run_writes; try done; try congruence..]
    end.
    steps.
Qed.

Lemma response_charge rec cid resp :
  response_from_record rec cid = Ok resp → resp_charge_applied resp = default 0%Z (t_charge_applied rec).
Proof. unfold response_from_record. by intros (? & _ & [= <-])%bind_Ok. Qed.

(** C8: A lease is charged once, what its key was used for and within what its
    request proved, and a settlement resumes after a crash. Let the store hold the
    request a lease was issued to. Whenever a settlement of the lease returns
    success, by either source and under any interleaving, the request's row is
    finalized and the last write is the lease's finalization with exactly the
    charge of that row. Either the row was finalized before: then no service was
    called and nothing else was written; this is the only possibility if the
    request was already finalized, and its row is unchanged. Or this run finalized
    it, and its first call asked the service that issued the key for the usage of
    the lease's key: the charge is the reported usage in credits, for an OpenRouter
    key capped at the request's solvency bound, for an OA org key refused above
    it, and the usage written with the lease is the one reported. *)
Theorem settlement_charges_once `{!FeltLaws, !WireLaws} self lease st rec σ σ' :
  store_wf (db σ) →
  l_request_nullifier lease = nullifier_of (l_api_request lease) →
  holds (db σ) (l_api_request lease) KindOpenRouterLease st rec →
  (0 ≤ solvency_bound (public_inputs (l_api_request lease)) < 2 ^ 63)%Z →
  settle_lease self lease σ = (Ok tt, σ') →
  ∃ rec' ws u,
    holds (db σ') (l_api_request lease) KindOpenRouterLease Finalized rec'
    ∧ writes σ' = (ws ++ [OpFinalizeLease (l_client_request_id lease) u (default 0%Z (t_charge_applied rec'))])%list
    ∧ (calls σ' = calls σ ∧ ws = writes σ
       ∨ st ≠ Finalized
         ∧ (0 ≤ default 0%Z (t_charge_applied rec') ≤ solvency_bound (public_inputs (l_api_request lease)))%Z
         ∧ ∃ σa σm, calls σa = calls σ ∧ store_steps (db σ) (db σa)
             ∧ metered self lease σa σm (default 0%Z (t_charge_applied rec')) u ∧ store_steps (db σm) (db σ'))
    ∧ (st = Finalized → rec' = rec).
Proof.
  intros Hwf Hn Hh Hb Hs. apply settle_lease_cases in Hs as [Hs|Hs]; [| |unfold in_u128, u128_MAX; lia].
  - destruct Hs as (rec' & u & Hsteps & (s & Hs1 & Hs2 & Hl & Hfin) & Hc & Hw).
    destruct (holds_forward _ _ _ _ _ _ Hwf Hs1 Hh) as (st1 & rec1 & Hh1 & Hst1).
    rewrite Hn in Hl. pose proof Hh1 as (Hl1 & Hst1' & _).
    rewrite Hl in Hl1. injection Hl1 as <-. rewrite Hfin in Hst1'. subst st1.
    apply (holds_finalized_stays _ _ _ _ _ (store_steps_wf _ _ Hwf Hs1) Hs2) in Hh1.
    exists rec', (writes σ), u. split; [done|]. split; [done|]. split; [by left|].
    intros ->. apply (holds_finalized_stays _ _ _ _ _ Hwf Hsteps) in Hh.
    destruct Hh as (Hl' & _). rewrite (proj1 Hh1) in Hl'. congruence.
  - destruct Hs as (r & resp & u & σa & σm & σ1 & σ2 & σ3 & Hsa & Hca & Hm & Hsm & Hs1 & Hw1 & Hr & Hle & Hf & Hop & Hw' & Hs').
    destruct (holds_forward _ _ _ _ _ _ Hwf Hs1 Hh) as (st1 & rec1 & Hh1 & Hst1).
    pose proof (store_steps_wf _ _ Hwf Hs1) as Hwf1.
    pose proof (finalize_request_Ok _ _ _ _ _ _ _ _ _ _ _ Hwf1 Hh1 Hr (proj2 Hb) Hf)
      as (_ & Hcharge & rec' & Hh' & Hresp).
    apply response_charge in Hresp. rewrite Hcharge in Hresp.
    assert (store_steps (db σ1) (db σ2)) as Hs2 by (eapply safe_run; [|exact Hf]; program).
    assert (store_steps (db σ2) (db σ')) as Hs3.
    { etransitivity; [eapply safe_run; [|exact Hop]; program|exact Hs']. }
    apply (holds_finalized_stays _ _ _ _ _ (store_steps_wf _ _ Hwf1 Hs2) Hs3) in Hh'.
    apply db_op_run in Hop as (_ & _ & _ & _ & _ & _ & _ & Hw).
    exists rec', (writes σ2), u. rewrite <- Hresp. split; [done|]. split; [congruence|].
    assert (st ≠ Finalized) as Hne.
    { intros ->. apply (holds_finalized_stays _ _ _ _ _ Hwf Hs1) in Hh.
      by eapply finalize_request_once; [exact Hwf1|exact Hh|exact Hf]. }
    split; [right; split; [done|]|done]. split; [destruct Hr as [[? _] _]; lia|].
    exists σa, σm. do 3 (split; [done|]). etransitivity; [exact Hsm|by etransitivity].
Qed.

(** ** Retirement *)

(** A retirement stops at its checks, or the request presented is the lease's. *)
Lemma retire_checks `{!WireLaws} self cid request σ r σ' :
  retire_openrouter_lease self cid request σ = (r, σ') →
  ((∃ e, r = Err e) ∧ calls σ' = calls σ ∧ writes σ' = writes σ)
  ∨ (client_request_id request = cid ∧ ∃ s lease, store_steps (db σ) s
       ∧ lookup_openrouter_lease None cid s = Some lease ∧ l_api_request lease = request
       ∧ l_status lease ≠ "provisioning"%string).
Proof.
  intros Hr. unfold retire_openrouter_lease in Hr.
  do 4 (apply bind_M_inv in Hr as [(? & Hm & ->)|(? & ? & Hm & Hr)];
    [left; split; [by eauto|split; [run_calls; congruence|run_writes; congruence]]|];
    revert Hm).
  intros Hg Hm Hl Hread. apply guard_err_Ok in Hg as [Hg ->]. apply lift_Ok in Hm as [Hm ->].
  apply lift_Ok in Hl as [Hl ->]. apply ok_or_Ok in Hl. subst.
  match type of Hm with context [l_api_request ?x] => rename x into lease end.
  apply orb_false_iff in Hg as [Hid%negb_false_iff%String.eqb_eq Heq%negb_false_iff]. subst.
  apply db_read_Ok in Hread as (fault & Hl & Hc & Hw & Hs).
  symmetry in Hl. apply lookup_lease_fault in Hl.
  assert (l_api_request lease = request) as Hreq.
  { unfold map_err in Hm.
    match type of Hm with match ?x with _ => _ end = _ => destruct x as [b|] eqn:Hv end; [|discriminate].
    injection Hm as ->.
    apply bind_Ok in Hv as (v & Hv & (v' & Hv' & [= Heqb])%bind_Ok).
    symmetry. by eapply request_to_value_inj. }
  destruct (decide (l_status lease = "provisioning"%string)) as [Hst|Hst]; [left|right; eauto 10].
  rewrite Hst in Hr. simpl in Hr. apply bind_M_inv in Hr as [(e & He & ->)|(? & ? & He & _)]; [|discriminate He].
  injection He as <- <-. eauto.
Qed.

(** A lease is retired only by the request it was issued to. If a retirement
    of the client request id [cid] returns, the presented request is, field by
    field, the one stored with the lease of [cid], and bears that id; and while
    the lease is still being provisioned, or any field differs, the retirement
    fails without calling any service or writing anything. *)
Theorem retirement_needs_issued_request `{!WireLaws} self cid request σ r σ' :
  retire_openrouter_lease self cid request σ = (r, σ') →
  (∀ status, r = Ok status →
     client_request_id request = cid
     ∧ ∃ s lease, store_steps (db σ) s ∧ lookup_openrouter_lease None cid s = Some lease
         ∧ l_api_request lease = request ∧ l_status lease ≠ "provisioning"%string)
  ∧ ((∀ s lease, store_steps (db σ) s → lookup_openrouter_lease None cid s = Some lease →
        l_status lease = "provisioning"%string ∨ l_api_request lease ≠ request) →
     (∃ e, r = Err e) ∧ calls σ' = calls σ ∧ writes σ' = writes σ).
Proof.
  intros [[Herr [Hc Hw]]|(Hid & s & lease & Hs & Hl & Hreq & Hst)]%retire_checks.
  - split; [|done]. intros status ->. by destruct Herr as [? [=]].
  - split; [intros status _; eauto 10|]. intros Hno. by destruct (Hno s lease Hs Hl).
Qed.
End leases.

(** ** Witnesses *)

Section witnesses.
Local Open Scope string_scope.

Lemma lease_issued : ∃ issued,
  (issue_openrouter_lease lease_processor lease_spend (lease_start empty_store)).1 = Ok issued.
Proof. eexists. vm_compute. reflexivity. Qed.

Lemma leased_wf : store_wf (db leased_state).
Proof.
  apply (store_steps_wf (db (lease_start empty_store))); [exact empty_store_wf|].
  unfold leased_state, db. apply issue_openrouter_lease_safe.
Qed.

(** The lease the issue stored, and its reservation. *)
Definition leased : OpenRouterLeaseRecord := {|
  l_client_request_id := "req-1";
  l_request_nullifier := ("n1" : @Felt252 toy_felt);
  l_api_request := lease_spend;
  l_key_hash := Some "h1";
  l_key_source := "openrouter";
  l_status := "active";
  l_issued_at := 1010;
  l_expires_at := 1610;
  l_settle_after := 1670;
  l_spending_limit_usd := f64_of_Z 5;
  l_usage_usd := None;
  l_charge_applied := None;
  l_last_error := None;
|}.
Definition leased_binding : string := default "" (ok (api_request_binding lease_spend)).
Definition leased_record : TranscriptRecord :=
  row_to_record (reserved_row KindOpenRouterLease lease_spend leased_binding 1010).

Lemma leased_lookup : lookup_openrouter_lease None "req-1" (db leased_state) = Some leased.
Proof. vm_compute. reflexivity. Qed.
Lemma leased_holds : holds (db leased_state) lease_spend KindOpenRouterLease Reserved leased_record.
Proof.
  split; [vm_compute; reflexivity|]. split; [reflexivity|]. exists leased_binding.
  split; vm_compute; reflexivity.
Qed.
Lemma leased_settles : (settle_lease lease_processor leased leased_state).1 = Ok tt.
Proof. vm_compute. reflexivity. Qed.
Lemma leased_settles_calls :
  length (calls (settle_lease lease_processor leased leased_state).2) ≠ length (calls leased_state).
Proof. vm_compute. discriminate. Qed.

Lemma lease_key_issued_once_witness :
  (∃ issued, (issue_openrouter_lease lease_processor lease_spend (lease_start empty_store)).1 = Ok issued)
  ∧ (∃ e, (issue_openrouter_lease lease_processor lease_spend leased_state).1 = Err e)
  ∧ calls (issue_openrouter_lease lease_processor lease_spend leased_state).2 = calls leased_state.
Proof.
  destruct lease_issued as [issued Hi]. split; [by exists issued|].
  destruct (lease_key_issued_once lease_processor lease_processor lease_spend lease_spend
    (lease_start empty_store) issued leased_state leased_state
    (issue_openrouter_lease lease_processor lease_spend leased_state).1
    (issue_openrouter_lease lease_processor lease_spend leased_state).2)
    as (_ & _ & _ & _ & Herr & Hcalls).
  - exact empty_store_wf.
  - exact (run_eq _ _ _ Hi).
  - reflexivity.
  - reflexivity.
  - apply surjective_pairing.
  - by split.
Defined.

Lemma settlement_charges_once_witness :
  l_status leased = "active" ∧ ∃ rec' σa σm u,
    holds (db (settle_lease lease_processor leased leased_state).2) lease_spend KindOpenRouterLease Finalized rec'
    ∧ metered lease_processor leased σa σm (default 0 (t_charge_applied rec'))%Z u
    ∧ (0 ≤ default 0 (t_charge_applied rec') ≤ 5000000)%Z.
Proof.
  split; [reflexivity|].
  destruct (settlement_charges_once lease_processor leased Reserved leased_record leased_state
    (settle_lease lease_processor leased leased_state).2)
    as (rec' & ws & u & Hh' & Hw & [[Hc _]|(_ & Hb & σa & σm & _ & _ & Hm & _)] & _).
  - exact leased_wf.
  - reflexivity.
  - exact leased_holds.
  - simpl. lia.
  - exact (run_eq _ _ _ leased_settles).
  - exfalso. apply leased_settles_calls. by rewrite Hc.
  - exists rec', σa, σm, u. split; [exact Hh'|]. split; [exact Hm|exact Hb].
Defined.

Lemma retirement_needs_issued_request_witness :
  ∃ e, (retire_openrouter_lease lease_processor "req-1" (toy_request "n1") leased_state).1 = Err e.
Proof.
  destruct (retirement_needs_issued_request lease_processor "req-1" (toy_request "n1") leased_state
    (retire_openrouter_lease lease_processor "req-1" (toy_request "n1") leased_state).1
    (retire_openrouter_lease lease_processor "req-1" (toy_request "n1") leased_state).2) as [Hok _].
  - apply surjective_pairing.
  - destruct (retire_openrouter_lease _ _ _ _).1 as [status|e] eqn:Hr; [|by exists e].
    exfalso. assert (match (retire_openrouter_lease lease_processor "req-1" (toy_request "n1") leased_state).1
      with Ok _ => false | Err _ => true end = true) as Hf by (vm_compute; reflexivity).
    rewrite Hr in Hf. discriminate Hf.
Defined.
End witnesses.
