(* ===== verification/Witnesses.v ===== *)
(** * Concrete runs of the components

    For each property of the dashboard, the providers, the key clients and the
    routes that has hypotheses, an input at which they hold. *)

From Stdlib Require Import ZArith Lia.
From stdpp Require Import base tactics decidable numbers list strings relations.
From S2P Require Import Prelude Float64 Json Http Types AuthScheme Config Errors Store StoreTheory.
From S2P Require Import Pricing ProviderTypes Dashboard World WorldTheory OpenRouter.
From S2P Require Import OpenRouterTheory OaOrg OaOrgTheory Provider ProviderTheory Processor Leases.
From S2P Require Import Router Toy ToyWorld Routes ServerRouter.

Local Open Scope string_scope.

(** ** Dashboard *)

Definition toy_event (charge : Z) : @DashboardEvent toy_felt := {|
  e_seq := 1;
  e_ts_ms := 1010000;
  e_client_request_id := "req-1";
  e_billing_label := "echo";
  e_upstream_model := None;
  e_request_nullifier := "n1";
  e_active_root := "root";
  e_anon_commitment := {| point_x := ("ax" : @Felt252 toy_felt); point_y := "ay" |};
  e_solvency_bound := 1000;
  e_solvency_bound_usd := f64_zero;
  e_statement_type := 1;
  e_state_sig_epoch_in := 0;
  e_proof_backend := "groth16";
  e_proof_public_output_hash := "h";
  e_proof_size_bytes := 128;
  e_request_path := "/v1/chat/completions";
  e_request_model := None;
  e_request_messages := [];
  e_request_raw := "hi";
  e_response_code := 200;
  e_response_text := "hi";
  e_response_hash := "r";
  e_usage := None;
  e_charge_applied := charge;
  e_charge_usd := f64_zero;
  e_next_commitment := {| point_x := ("bx" : @Felt252 toy_felt); point_y := "by" |};
  e_next_anchor := "a";
  e_blind_delta_srv := "d";
  e_next_state_sig_epoch := 0;
  e_next_state_sig_leaf_index := 0;
  e_next_state_sig_root := "z";
  e_upstream_ms := 7;
  e_total_ms := 7;
|}.

Lemma dashboard_feed_exact_witness :
  recent (fold_left record [toy_event 1; toy_event 2; toy_event 3] (hub_new 2 0)) = [toy_event 2; toy_event 3]
  ∧ feed_inv 2 [toy_event 1; toy_event 2; toy_event 3]
      (fold_left record [toy_event 1; toy_event 2; toy_event 3] (hub_new 2 0)).
Proof.
  split; [reflexivity|]. apply (dashboard_feed_exact 2 0).
  intros e He. rewrite !elem_of_cons in He. destruct He as [->|[->|[->|[]%not_elem_of_nil]]]; discriminate.
Defined.

Lemma redact_secrets_safe_witness :
  redact_secrets "a sk-abcdefghijklmnop b sk-x" = "a sk-***REDACTED*** b " +:+ "sk-x"
  ∧ (String.length (span is_key_char "sk-x").1 ≤ 12)%nat.
Proof.
  assert (redact_secrets "a sk-abcdefghijklmnop b sk-x" = "a sk-***REDACTED*** b " +:+ "sk-x") as Hr
    by (vm_compute; reflexivity).
  split; [exact Hr|].
  apply (redact_secrets_safe "a sk-abcdefghijklmnop b sk-x" "a sk-***REDACTED*** b " "sk-x" Hr).
  vm_compute. reflexivity.
Defined.

(** ** Providers *)

Lemma build_provider_contract_witness :
  build_provider (Ok tt) (toy_config None) = Ok (echo_execute 42) ∧ ProviderContract (echo_execute 42).
Proof.
  split; [reflexivity|].
  apply (build_provider_contract (Ok tt) (toy_config None)); [reflexivity|..];
    unfold in_u128, u128_MAX; simpl; lia.
Defined.

(** A server with an OpenAI key, and an OpenAI that answers. *)
Definition toy_metered : MeteredConfig := {|
  openai_api_base := "https://api.openai.com";
  openai_api_key := Some "sk-openai";
  openrouter_api_base := "https://openrouter.ai/api";
  openrouter_inference_key := Some "sk-or";
|}.
Definition metered_run := metered_execute toy_metered 1000000 "req-1" "hi" ("h" : @Felt252 toy_felt) (lease_start empty_store).

Lemma metered_request_shape_witness :
  ∃ q, calls metered_run.2 = [CallHttp q]
    ∧ http_url q = "https://api.openai.com/v1/chat/completions" ∧ http_bearer q = Some "sk-openai".
Proof.
  destruct (metered_request_shape toy_metered 1000000 "req-1" "hi" ("h" : @Felt252 toy_felt) (lease_start empty_store)
    metered_run.1 metered_run.2) as [[Hc _]|(q & m & Hc & _)].
  - apply surjective_pairing.
  - exfalso. apply (f_equal length) in Hc. vm_compute in Hc. discriminate Hc.
  - exists q. split; [exact Hc|]. vm_compute in Hc. injection Hc as <-. by split.
Defined.

(** ** Key clients *)

Definition toy_provisioner : OpenRouterProvisioner := {| management_key := "mgmt"; base := "https://or" |}.
Definition created_run := create_key toy_provisioner "zkapi-req-1" (f64_of_Z 5) 1610 (lease_start empty_store).
Definition refused_run := create_key toy_provisioner "zkapi-req-1" (f64_of_Z 6) 1610 (lease_start empty_store).

Lemma key_created_with_limits_witness :
  (∃ created, created_run.1 = Ok created) ∧ (∃ e, refused_run.1 = Err e)
  ∧ length (calls created_run.2) = 1%nat ∧ length (calls refused_run.2) = 2%nat.
Proof.
  split; [eexists; vm_compute; reflexivity|]. split.
  - destruct (key_created_with_limits toy_provisioner "zkapi-req-1" (f64_of_Z 6) 1610 (lease_start empty_store)
      refused_run.1 refused_run.2) as [(e & He & _)|[(text & data & created & _ & Hc & _)|(e & _ & _ & _ & He & _)]].
    + apply surjective_pairing.
    + by exists e.
    + exfalso. apply (f_equal length) in Hc. vm_compute in Hc. discriminate Hc.
    + by exists e.
  - split; vm_compute; reflexivity.
Defined.

(** An OA organization that limits the rate, and asks for a pause of 9 seconds. *)
Definition limiting : HttpRequest → result string HttpResponse := λ _, Ok {|
  http_status := 429;
  http_response_headers := [("retry-after", Ok "9")];
  http_text := Ok "null";
|}.
Definition limited_start : State :=
  {| shared := {| store := empty_store; root := ("root" : @Felt252 toy_felt); hub := None |};
     world := {| tw_clock_ms := 1010000; tw_fault := None; tw_serve := limiting |};
     calls := []; writes := [] |}.
Definition toy_org : OaOrgProvisioner := {| oa_base_url := "https://oa"; oa_shared_secret := "secret" |}.
Definition limited_send := send (oa_request toy_org "/api" Null) "failed: " limited_start.

Lemma limited_reply : ∃ response, limited_send.1 = Ok response ∧ http_status response = 429%Z.
Proof. eexists. split; [vm_compute; reflexivity|reflexivity]. Qed.

Lemma rate_limit_is_typed_witness :
  ∃ reason seconds, (oa_exchange toy_org "/api" Null "failed: " "b" "c" limited_start).1 = Err (OaRateLimited reason seconds)
    ∧ known_reason reason.
Proof.
  destruct limited_reply as (response & Hsend & Hstatus).
  destruct (rate_limit_is_typed toy_org "/api" Null "failed: " "b" "c" limited_start response limited_send.2)
    as (reason & seconds & Hrun & Hknown & _).
  - exact (run_eq _ _ _ Hsend).
  - exact Hstatus.
  - exists reason, seconds. split; [by rewrite Hrun|exact Hknown].
Defined.

(** ** Routes *)

Lemma every_outcome_is_answered_witness :
  ∃ answer σ', reply 200 "req-1" (throw Replay : M string) (start empty_store) = (Ok answer, σ')
    ∧ ∃ h, answer = Err h ∧ eh_status h = 409%Z.
Proof.
  destruct (every_outcome_is_answered 200 "req-1" (throw Replay : M string) (start empty_store)
    (Err Replay) (start empty_store) eq_refl) as (answer & σ' & Hr & _ & _ & h & -> & (Hs & _) & _).
  exists (Err h), σ'. split; [exact Hr|]. exists h. split; [reflexivity|]. rewrite Hs. reflexivity.
Defined.

(** An indexer that serves a root. *)
Definition indexer : HttpRequest → result string HttpResponse := λ _, Ok {|
  http_status := 200; http_response_headers := []; http_text := Ok "root:r2" |}.
Definition indexed_start : State :=
  {| shared := {| store := empty_store; root := ("root" : @Felt252 toy_felt); hub := None |};
     world := {| tw_clock_ms := 1010000; tw_fault := None; tw_serve := indexer |};
     calls := []; writes := [] |}.
Definition decode_toy_felt (v : Value) : option (@Felt252 toy_felt) := as_str v.
Definition polled := poll_root decode_toy_felt "https://indexer/" indexed_start.

Lemma poll_root_sets_served_root_witness :
  root (shared polled.2) = "r2"
  ∧ ∃ q, calls polled.2 = [CallHttp q] ∧ http_url q = "https://indexer/v1/tree/root".
Proof.
  split; [vm_compute; reflexivity|].
  destruct (poll_root_sets_served_root decode_toy_felt "https://indexer/" indexed_start polled.1 polled.2)
    as (_ & _ & _ & _ & (q & Hc & Hu) & _).
  - apply surjective_pairing.
  - exists q. split; [exact Hc|]. rewrite Hu. reflexivity.
Defined.

Definition toy_load : result string (RequestVerifier (CoreOps := toy_core)) := Ok tt.
Definition started := start_server decode_toy_felt toy_load (Ok tt) (λ _, None) (toy_config (Some lease_config))
  (start empty_store).

Lemma server_started : started.1 = Ok (Ok lease_processor).
Proof. reflexivity. Qed.

Lemma started_server_is_ready_witness :
  started.1 = Ok (Ok lease_processor) ∧ lease_source_ready lease_processor
  ∧ ProviderContract (provider lease_processor).
Proof.
  split; [exact server_started|].
  destruct (started_server_is_ready decode_toy_felt toy_load (Ok tt) (λ _, None) (toy_config (Some lease_config))
    (start empty_store) lease_processor started.2) as (_ & Hp & Hl & _).
  - exact (run_eq _ _ _ server_started).
  - unfold in_u128, u128_MAX; simpl; lia.
  - unfold in_u128, u128_MAX; simpl; lia.
  - unfold in_u128, u128_MAX; simpl; lia.
  - by split.
Defined.

(** ** The router *)

#[local] Instance witness_axum : Axum := first_match (λ T _ dec _ body, map_err (λ _, 422%Z) (dec body)).
#[local] Instance witness_axum_laws : AxumLaws := first_match_laws _.
Definition no_clearance : string → result string ClearanceRequest := λ _, Err "malformed request".
Definition get_nullifier (method : string) : ServerRequest :=
  {| sr_method := method; sr_path := "/v2/nullifiers/n1"; sr_content_type := None; sr_body := "" |}.
Lemma reads_change_nothing_witness :
  writes (server_serve no_clearance toy_processor (get_nullifier "GET") (start empty_store)).2 = []
  ∧ axum_dispatch server_routes "GET" "/v2/nullifiers/n1" = Handled HandleRecoveryByNullifier ["n1"]
  ∧ axum_dispatch server_routes "POST" "/v2/nullifiers/n1" = MethodNotAllowed.
Proof.
  split; [|split; reflexivity].
  exact (proj1 (reads_change_nothing no_clearance toy_processor (get_nullifier "GET") (start empty_store) ltac:(discriminate))).
Defined.

(** The page of another origin asks for the dashboard's summary. *)
Lemma cross_origin_reads_dashboard_witness : ∃ r,
  (server_serve no_clearance toy_processor
     {| sr_method := "GET"; sr_path := "/v1/dashboard/summary"; sr_content_type := None; sr_body := "" |} (start empty_store)).1 = Ok r
  ∧ dashboard_reply r.
Proof.
  eexists. split; [vm_compute; reflexivity|].
  eapply (cross_origin_reads_dashboard no_clearance toy_processor
    {| sr_method := "GET"; sr_path := "/v1/dashboard/summary"; sr_content_type := None; sr_body := "" |} (start empty_store));
    [reflexivity|vm_compute; reflexivity].
Defined.
