(* ===== verification/TreeMirror.v ===== *)
(** * The indexer's tree mirror: [zkapi-indexerd/src/events.rs], [tree_mirror.rs], [service.rs]

    The contract's events, the local copy of its Merkle tree they maintain, the
    snapshot a restart restores it from, and the service around it. The Merkle
    tree itself is [zkapi_core]'s: it is the class [MerkleOps], and what the
    mirror relies on is [MerkleLaws]. *)

From Stdlib Require Import ZArith Lia.
From stdpp Require Import base tactics decidable numbers list gmap sorting strings.
From S2P Require Import Prelude Types.

Local Open Scope Z_scope.

(** ** [zkapi_core::merkle::MerkleTree], [zkapi_core::leaf] *)

Class MerkleOps `{!FeltOps} := {
  MerkleTree : Type;
  tree_new : MerkleTree;
  tree_root : MerkleTree → Felt252;
  tree_get_leaf : MerkleTree → Z → Felt252;
  tree_set_leaf : MerkleTree → Z → Felt252 → MerkleTree;
  tree_siblings : MerkleTree → Z → list Felt252;
  compute_note_leaf : Z → Felt252 → Z → Z → Felt252;
  felt_is_zero : Felt252 → bool;
}.

(** A tree is its leaves, one per [u32] index; all of them are zero at first. *)
Class MerkleLaws `{!FeltOps, !MerkleOps} := {
  leaf_new i : in_u32 i → tree_get_leaf tree_new i = ZERO;
  leaf_set t i x j : in_u32 i → in_u32 j →
    tree_get_leaf (tree_set_leaf t i x) j = if decide (i = j) then x else tree_get_leaf t j;
  root_leaves t t' : (∀ i, in_u32 i → tree_get_leaf t i = tree_get_leaf t' i) → tree_root t = tree_root t';
  siblings_leaves t t' i : (∀ j, in_u32 j → tree_get_leaf t j = tree_get_leaf t' j) →
    tree_siblings t i = tree_siblings t' i;
  is_zero_spec x : felt_is_zero x = true ↔ x = ZERO;
}.

Section mirror.
Context `{!FeltOps, !MerkleOps}.

(** ** Events *)

Inductive VaultEvent :=
| NoteDeposited (note_id : Z) (commitment : Felt252) (amount expiry_ts : Z) (new_root : Felt252)
| MutualClose (note_id : Z) (nullifier : Felt252) (final_balance : Z)
| EscapeWithdrawalInitiated (note_id : Z) (nullifier : Felt252) (final_balance challenge_deadline : Z)
    (new_root : Felt252)
| EscapeWithdrawalChallenged (note_id : Z) (nullifier restored_root : Felt252)
| EscapeWithdrawalFinalized (note_id : Z) (nullifier : Felt252) (final_balance : Z)
| ExpiredClaimed (note_id deposit_amount : Z) (new_root : Felt252).

(** ** The mirror *)

(** [original_leaves] is a [HashMap<u32, Felt252>]. *)
Record TreeMirror := {
  tree : MerkleTree;
  next_note_id : Z;
  original_leaves : gmap Z Felt252;
}.

Record TreeMirrorSnapshot := {
  s_next_note_id : Z;
  s_current_leaves : list Felt252;
  s_original_leaves : list (Z * Felt252);
}.

Definition mirror_new : TreeMirror := {| tree := tree_new; next_note_id := 0; original_leaves := ∅ |}.

Definition mirror_root (self : TreeMirror) : Felt252 := tree_root (tree self).
Definition mirror_leaf (self : TreeMirror) (note_id : Z) : Felt252 := tree_get_leaf (tree self) note_id.
Definition get_path (self : TreeMirror) (note_id : Z) : list Felt252 := tree_siblings (tree self) note_id.
Definition get_zero_path (self : TreeMirror) (note_id : Z) : list Felt252 := tree_siblings (tree self) note_id.

Definition current_leaves (self : TreeMirror) : list Felt252 :=
  map (tree_get_leaf (tree self)) (seqZ 0 (next_note_id self)).

(** [sort_unstable_by_key(|(note_id, _)| *note_id)] *)
Definition key_le (p q : Z * Felt252) : Prop := p.1 ≤ q.1.
#[export] Instance key_le_dec : RelDecision key_le := λ p q, decide (p.1 ≤ q.1).

Definition snapshot (self : TreeMirror) : TreeMirrorSnapshot := {|
  s_next_note_id := next_note_id self;
  s_current_leaves := current_leaves self;
  s_original_leaves := merge_sort key_le (map_to_list (original_leaves self));
|}.

(** [for (note_id, leaf) in leaves.enumerate() { if !leaf.is_zero() { tree.set_leaf(..) } }] *)
Fixpoint restore_leaves (note_id : Z) (leaves : list Felt252) (t : MerkleTree) : MerkleTree :=
  match leaves with
  | [] => t
  | leaf :: leaves' =>
      restore_leaves (note_id + 1) leaves'
        (if felt_is_zero leaf then t else tree_set_leaf t (cast_u32 note_id) leaf)
  end.

Definition from_snapshot (snapshot : TreeMirrorSnapshot) : result string TreeMirror :=
  _ ← fail_if (negb (Z.of_nat (length (s_current_leaves snapshot)) =? s_next_note_id snapshot))
        ("snapshot has " +:+ show_uint (Z.of_nat (length (s_current_leaves snapshot)))
         +:+ " leaves but next_note_id is " +:+ show_uint (s_next_note_id snapshot))%string;
  _ ← fail_if (existsb (λ p, s_next_note_id snapshot <=? p.1) (s_original_leaves snapshot))
        "snapshot contains an original leaf beyond next_note_id"%string;
  Ok {|
    tree := restore_leaves 0 (s_current_leaves snapshot) tree_new;
    next_note_id := s_next_note_id snapshot;
    original_leaves := fold_left (λ m p, <[p.1 := p.2]> m) (s_original_leaves snapshot) ∅;
  |}.

Definition set_leaf (self : TreeMirror) (note_id : Z) (leaf : Felt252) : TreeMirror := {|
  tree := tree_set_leaf (tree self) note_id leaf;
  next_note_id := next_note_id self;
  original_leaves := original_leaves self;
|}.

Definition process_event (self : TreeMirror) (event : VaultEvent) : TreeMirror :=
  match event with
  | NoteDeposited note_id commitment amount expiry_ts _ =>
      let leaf := compute_note_leaf note_id commitment amount expiry_ts in
      {| tree := tree_set_leaf (tree self) note_id leaf;
         next_note_id := Z.max (next_note_id self) (saturating_add u32_MAX note_id 1);
         original_leaves := <[note_id := leaf]> (original_leaves self) |}
  | MutualClose note_id _ _ => set_leaf self note_id ZERO
  | EscapeWithdrawalInitiated note_id _ _ _ _ => set_leaf self note_id ZERO
  | EscapeWithdrawalChallenged note_id _ _ =>
      match original_leaves self !! note_id with
      | Some original => set_leaf self note_id original
      | None => self
      end
  | EscapeWithdrawalFinalized _ _ _ => self
  | ExpiredClaimed note_id _ _ => set_leaf self note_id ZERO
  end.

(** ** The service

    The lock around the mirror makes each method one step. *)
Record IndexerService := { mirror : TreeMirror; ready : bool }.

Definition service_new (m : TreeMirror) : IndexerService := {| mirror := m; ready := true |}.
Definition service_new_syncing (m : TreeMirror) : IndexerService := {| mirror := m; ready := false |}.
Definition mark_ready (self : IndexerService) : IndexerService := {| mirror := mirror self; ready := true |}.
Definition service_process_event (self : IndexerService) (event : VaultEvent) : IndexerService :=
  {| mirror := process_event (mirror self) event; ready := ready self |}.
Definition restore (self : IndexerService) (s : TreeMirrorSnapshot) : result string IndexerService :=
  (λ m, {| mirror := m; ready := ready self |}) <$> from_snapshot s.

Record TreeSnapshotResponse := {
  ts_root : Felt252;
  ts_next_note_id : Z;
  ts_leaves : list Felt252;
}.
Definition get_snapshot (self : IndexerService) : TreeSnapshotResponse := {|
  ts_root := mirror_root (mirror self);
  ts_next_note_id := next_note_id (mirror self);
  ts_leaves := current_leaves (mirror self);
|}.

(** ** The HTTP handlers of [http.rs] *)

Definition SERVICE_UNAVAILABLE : Z := 503.
Definition ensure_ready (self : IndexerService) : result Z unit :=
  fail_if (negb (ready self)) SERVICE_UNAVAILABLE.

Record TreePathResponse := {
  tp_note_id : Z;
  tp_leaf : Felt252;
  tp_siblings : list Felt252;
}.

Definition handle_root (self : IndexerService) : result Z Felt252 :=
  _ ← ensure_ready self; Ok (mirror_root (mirror self)).
Definition handle_snapshot (self : IndexerService) : result Z TreeSnapshotResponse :=
  _ ← ensure_ready self; Ok (get_snapshot self).
Definition handle_next_note_id (self : IndexerService) : result Z Z :=
  _ ← ensure_ready self; Ok (next_note_id (mirror self)).
(** The leaf and the path are read under two locks: events may come between. *)
Definition handle_note_path (self self' : IndexerService) (note_id : Z) : result Z TreePathResponse :=
  _ ← ensure_ready self;
  Ok {| tp_note_id := note_id; tp_leaf := mirror_leaf (mirror self) note_id;
        tp_siblings := get_path (mirror self') note_id |}.
Definition handle_zero_path (self : IndexerService) (note_id : Z) : result Z TreePathResponse :=
  _ ← ensure_ready self;
  Ok {| tp_note_id := note_id; tp_leaf := ZERO; tp_siblings := get_zero_path (mirror self) note_id |}.
Definition indexer_health (self : IndexerService) : Z * string :=
  if ready self then (200, "ok"%string) else (SERVICE_UNAVAILABLE, "syncing"%string).
End mirror.
