(* ===== verification/TreeMirrorTheory.v ===== *)
(** * The mirror refines the vault, and survives snapshots and replays *)

From Stdlib Require Import ZArith Lia.
From stdpp Require Import base tactics decidable numbers list gmap fin_maps sorting strings.
From S2P Require Import Prelude Types TreeMirror.

Local Open Scope Z_scope.

Section theory.
Context `{!FeltOps, !MerkleOps, !MerkleLaws}.

Definition event_id (e : VaultEvent) : Z :=
  match e with
  | NoteDeposited i _ _ _ _ | MutualClose i _ _ | EscapeWithdrawalInitiated i _ _ _ _
  | EscapeWithdrawalChallenged i _ _ | EscapeWithdrawalFinalized i _ _ | ExpiredClaimed i _ _ => i
  end.
(** The note ids the mirror is meant for: those it can number past. *)
Definition event_below (e : VaultEvent) : Prop := 0 ≤ event_id e < u32_MAX.
Lemma below_u32 i : 0 ≤ i < u32_MAX → in_u32 i.
Proof. unfold in_u32. lia. Qed.

Definition apply_events (es : list VaultEvent) (m : TreeMirror) : TreeMirror := fold_left process_event es m.

(** ** Mirrors with the same leaves *)

#[export] Instance mirror_equiv : Equiv TreeMirror := λ m m',
  next_note_id m = next_note_id m' ∧ original_leaves m = original_leaves m'
  ∧ ∀ i, in_u32 i → mirror_leaf m i = mirror_leaf m' i.
#[export] Instance mirror_equivalence : Equivalence (≡@{TreeMirror}).
Proof.
  split.
  - by intros m.
  - intros m m' (Hn & Ho & Hl). split; [done|]. split; [done|]. intros i Hi. symmetry. by apply Hl.
  - intros m1 m2 m3 (Hn & Ho & Hl) (Hn' & Ho' & Hl'). split; [congruence|]. split; [congruence|].
    intros i Hi. rewrite Hl by done. by apply Hl'.
Qed.

#[export] Instance mirror_root_proper : Proper ((≡) ==> eq) mirror_root.
Proof. intros m m' (_ & _ & Hl). by apply root_leaves. Qed.
#[export] Instance get_path_proper : Proper ((≡) ==> eq ==> eq) get_path.
Proof. intros m m' (_ & _ & Hl) i ? <-. by apply siblings_leaves. Qed.

Lemma set_leaf_leaf m i x j : in_u32 i → in_u32 j →
  mirror_leaf (set_leaf m i x) j = if decide (i = j) then x else mirror_leaf m j.
Proof. apply leaf_set. Qed.

Lemma process_event_leaf m e j : in_u32 (event_id e) → in_u32 j → event_id e ≠ j →
  mirror_leaf (process_event m e) j = mirror_leaf m j.
Proof.
  intros Hi Hj Hne. assert (∀ t x, tree_get_leaf (tree_set_leaf t (event_id e) x) j = tree_get_leaf t j) as Hset.
  { intros t x. rewrite leaf_set by done. by rewrite decide_False. }
  destruct e; simpl in *; try apply Hset; [|done]. destruct (_ !! _); [apply Hset|done].
Qed.

Lemma process_event_equiv m m' e : event_below e → m ≡ m' → process_event m e ≡ process_event m' e.
Proof.
  intros He%below_u32 (Hn & Ho & Hl). split; [|split].
  - destruct e; simpl; rewrite ?Hn, ?Ho; try done. by destruct (_ !! _).
  - destruct e; simpl; rewrite ?Ho; try done. by destruct (_ !! _).
  - intros j Hj. destruct (decide (event_id e = j)) as [Heq|Hne].
    + destruct e; simpl in *; unfold mirror_leaf; simpl; rewrite ?leaf_set by done;
        rewrite ?decide_True by done; try done; [|by apply Hl].
      rewrite Ho. destruct (_ !! _); simpl; [|by apply Hl]. by rewrite !leaf_set, !decide_True.
    + rewrite !process_event_leaf by done. by apply Hl.
Qed.

Lemma apply_events_equiv es m m' : Forall event_below es → m ≡ m' → apply_events es m ≡ apply_events es m'.
Proof.
  intros Hes. revert m m'. induction Hes as [|e es He _ IH]; intros m m' Hm; [done|].
  apply IH. by apply process_event_equiv.
Qed.

(** ** The vault *)

(** What the contract keeps per note: its leaf and whether it is in the tree. *)
Record Note := { note_leaf : Felt252; note_live : bool }.
Abbreviation Vault := (gmap Z Note).
Definition with_live (live : bool) (n : Note) : Note := {| note_leaf := note_leaf n; note_live := live |}.
Definition vault_step (v : Vault) (e : VaultEvent) : Vault :=
  match e with
  | NoteDeposited i c a x _ => <[i := {| note_leaf := compute_note_leaf i c a x; note_live := true |}]> v
  | MutualClose i _ _ | EscapeWithdrawalInitiated i _ _ _ _ | ExpiredClaimed i _ _ => alter (with_live false) i v
  | EscapeWithdrawalChallenged i _ _ => alter (with_live true) i v
  | EscapeWithdrawalFinalized _ _ _ => v
  end.
Definition vault_of (es : list VaultEvent) : Vault := fold_left vault_step es ∅.
Definition vault_leaf (v : Vault) (i : Z) : Felt252 :=
  match v !! i with Some n => if note_live n then note_leaf n else ZERO | None => ZERO end.

Record refines (m : TreeMirror) (v : Vault) : Prop := {
  ref_leaf i : in_u32 i → mirror_leaf m i = vault_leaf v i;
  ref_originals : original_leaves m = note_leaf <$> v;
  ref_ids i n : v !! i = Some n → 0 ≤ i < next_note_id m;
  ref_next : next_note_id m = 0 ∧ v = ∅ ∨ 0 < next_note_id m ≤ u32_MAX ∧ is_Some (v !! (next_note_id m - 1));
}.

Lemma refines_new : refines mirror_new ∅.
Proof.
  split; [|symmetry; apply (fmap_empty note_leaf)|intros i n; by rewrite lookup_empty|by left].
  intros i Hi. unfold vault_leaf. rewrite lookup_empty. by apply leaf_new.
Qed.

Lemma vault_step_other v e j : event_id e ≠ j → vault_step v e !! j = v !! j.
Proof. intros Hne. by destruct e; simpl in *; rewrite ?lookup_insert_ne, ?lookup_alter_ne. Qed.

Lemma note_leaf_alter live i (v : Vault) : note_leaf <$> alter (with_live live) i v = note_leaf <$> v.
Proof.
  apply map_eq. intros j. rewrite !lookup_fmap. destruct (decide (i = j)) as [<-|].
  - rewrite lookup_alter_eq. by destruct (v !! i).
  - by rewrite lookup_alter_ne.
Qed.

(** An event that keeps the notes keeps the ids. *)
Lemma alter_ids live i (v : Vault) (next : Z) :
  (∀ j n, v !! j = Some n → 0 ≤ j < next) →
  ∀ j n, alter (with_live live) i v !! j = Some n → 0 ≤ j < next.
Proof. intros Hids j n Hj. apply lookup_alter_Some in Hj as [(_ & n' & Hn' & _)|[_ Hj]]; eauto. Qed.
Lemma alter_next live i (v : Vault) (next : Z) :
  next = 0 ∧ v = ∅ ∨ 0 < next ≤ u32_MAX ∧ is_Some (v !! (next - 1)) →
  next = 0 ∧ alter (with_live live) i v = ∅ ∨ 0 < next ≤ u32_MAX ∧ is_Some (alter (with_live live) i v !! (next - 1)).
Proof.
  intros [[-> ->]|[Hn Hs]]; [left|right].
  - split; [done|]. apply map_eq. intros j. rewrite lookup_alter, lookup_empty.
    destruct (decide (i = j)) as [->|]; done.
  - split; [done|]. by apply lookup_alter_is_Some.
Qed.

Lemma vault_leaf_set m v i (live : bool) x :
  in_u32 i → refines m v →
  (x = if live then default ZERO (note_leaf <$> v !! i) else ZERO) →
  ∀ j, in_u32 j → mirror_leaf (set_leaf m i x) j = vault_leaf (alter (with_live live) i v) j.
Proof.
  intros Hi Hr -> j Hj. rewrite set_leaf_leaf by done. unfold vault_leaf. destruct (decide (i = j)) as [<-|].
  - rewrite lookup_alter_eq. by destruct (v !! i), live.
  - rewrite lookup_alter_ne by done. by apply (ref_leaf _ _ Hr).
Qed.

Lemma process_event_refines m v e : event_below e → refines m v → refines (process_event m e) (vault_step v e).
Proof.
  intros He Hr. pose proof (below_u32 _ He) as Hi. destruct Hr as [Hl Ho Hids Hnext].
  pose proof {| ref_leaf := Hl; ref_originals := Ho; ref_ids := Hids; ref_next := Hnext |} as Hr.
  unfold event_below in He.
  destruct e as [i c a x r|i n b|i n b d r|i n r|i n b|i a r]; simpl in He, Hi; simpl;
    try (split; simpl; [by apply (vault_leaf_set _ _ _ false)|by rewrite note_leaf_alter
                       |by apply alter_ids|by apply alter_next]).
  - split; simpl.
    + intros j Hj. unfold mirror_leaf. simpl. rewrite leaf_set by done. unfold vault_leaf.
      destruct (decide (i = j)) as [<-|]; [by rewrite lookup_insert_eq|].
      rewrite lookup_insert_ne by done. by apply Hl.
    + by rewrite fmap_insert, Ho.
    + intros j n [[<- _]|[_ Hj]]%lookup_insert_Some; [|apply Hids in Hj]; unfold saturating_add; lia.
    + right. unfold saturating_add. replace (Z.min (i + 1) u32_MAX) with (i + 1) by lia.
      destruct Hnext as [[-> ->]|[Hn Hs]].
      * replace (Z.max 0 (i + 1) - 1) with i by lia. rewrite lookup_insert_eq. split; [lia|by eexists].
      * split; [lia|]. destruct (decide (i + 1 ≤ next_note_id m)).
        -- rewrite Z.max_l by lia. by apply lookup_insert_is_Some'; right.
        -- rewrite Z.max_r by lia. replace (i + 1 - 1) with i by lia. rewrite lookup_insert_eq. by eexists.
  - rewrite Ho, lookup_fmap. destruct (v !! i) as [n'|] eqn:Hv; simpl.
    + split; simpl; [|by rewrite note_leaf_alter|by apply alter_ids|by apply alter_next].
      apply vault_leaf_set; [done..|]. by rewrite Hv.
    + replace (alter (with_live true) i v) with v; [done|]. symmetry. apply map_eq. intros j.
      rewrite lookup_alter. destruct (decide (i = j)) as [<-|]; [by rewrite Hv|done].
  - done.
Qed.

Lemma apply_events_refines es m v :
  Forall event_below es → refines m v → refines (apply_events es m) (fold_left vault_step es v).
Proof.
  intros Hes. revert m v. induction Hes as [|e es He _ IH]; intros m v Hr; [done|].
  apply IH. by apply process_event_refines.
Qed.

(** ** Snapshots *)

(** What a mirror must satisfy to come back from its own snapshot. *)
Record mirror_wf (m : TreeMirror) : Prop := {
  wf_next : in_u32 (next_note_id m);
  wf_beyond i : in_u32 i → next_note_id m ≤ i → mirror_leaf m i = ZERO;
  wf_originals i x : original_leaves m !! i = Some x → 0 ≤ i < next_note_id m;
}.

Lemma refines_wf m v : refines m v → mirror_wf m.
Proof.
  intros [Hl Ho Hids Hnext]. split.
  - unfold in_u32. destruct Hnext as [[-> _]|[? _]]; unfold u32_MAX in *; lia.
  - intros i Hi Hn. rewrite Hl by done. unfold vault_leaf. destruct (v !! i) eqn:Hv; [|done].
    apply Hids in Hv. lia.
  - intros i x. rewrite Ho, lookup_fmap. intros (n & Hv & _)%fmap_Some. by eapply Hids.
Qed.

Lemma current_leaves_length m : in_u32 (next_note_id m) → Z.of_nat (length (current_leaves m)) = next_note_id m.
Proof. intros [? _]. unfold current_leaves. rewrite length_map, length_seqZ. lia. Qed.

Lemma current_leaves_lookup m i :
  0 ≤ i < next_note_id m → current_leaves m !! Z.to_nat i = Some (mirror_leaf m i).
Proof.
  intros Hi. unfold current_leaves. apply list_lookup_fmap_Some. exists i. split; [done|].
  apply lookup_seqZ. lia.
Qed.

(** The restored tree has the listed leaves, and keeps the others. *)
Lemma restore_leaves_spec leaves k t :
  0 ≤ k → k + Z.of_nat (length leaves) ≤ u32_MAX + 1 →
  (∀ i, in_u32 i → k ≤ i → tree_get_leaf t i = ZERO) →
  ∀ j, in_u32 j → tree_get_leaf (restore_leaves k leaves t) j
    = if decide (k ≤ j) then default ZERO (leaves !! Z.to_nat (j - k)) else tree_get_leaf t j.
Proof.
  revert k t. induction leaves as [|leaf leaves IH]; intros k t Hk Hlen Hz j Hj; simpl.
  { destruct (decide (k ≤ j)); [by apply Hz|done]. }
  simpl in Hlen. assert (in_u32 k) as Hk' by (unfold in_u32; lia).
  set (t' := if felt_is_zero leaf then t else tree_set_leaf t (cast_u32 k) leaf).
  assert (∀ i, in_u32 i → tree_get_leaf t' i = if decide (k = i) then leaf else tree_get_leaf t i) as Ht'.
  { intros i Hi. unfold t'. destruct (felt_is_zero leaf) eqn:Hf.
    - apply is_zero_spec in Hf as ->. destruct (decide (k = i)) as [<-|]; [by apply Hz|done].
    - replace (cast_u32 k) with k by (symmetry; apply as_unsigned_small; unfold in_u32, u32_MAX in Hk'; lia).
      by apply leaf_set. }
  rewrite IH; [|lia|lia| |done].
  2: { intros i Hi Hle. rewrite Ht', decide_False by (done || lia). apply Hz; [done|lia]. }
  destruct (decide (k + 1 ≤ j)), (decide (k ≤ j)); try lia.
  - replace (Z.to_nat (j - k)) with (S (Z.to_nat (j - (k + 1)))) by lia. done.
  - rewrite Ht' by done. rewrite decide_True by lia. by replace (Z.to_nat (j - k)) with O by lia.
  - rewrite Ht' by done. by rewrite decide_False by lia.
Qed.

(** The sorted list of the originals gives them back. *)
Lemma originals_restored (m : gmap Z Felt252) :
  fold_left (λ m p, <[p.1 := p.2]> m) (merge_sort key_le (map_to_list m)) ∅ = m.
Proof.
  set (l := merge_sort key_le (map_to_list m)).
  assert (l ≡ₚ map_to_list m) as Hl by apply merge_sort_Permutation.
  change (fold_left (λ m p, <[p.1 := p.2]> m) l ∅) with (fold_left (λ x y, (λ p m, <[p.1 := p.2]> m) y x) l (∅ : gmap Z Felt252)).
  rewrite <- fold_left_rev_right.
  assert (rev l ≡ₚ map_to_list m) as Hr by (by rewrite <- Permutation_rev).
  transitivity (list_to_map (map_to_list m) : gmap Z Felt252); [|apply list_to_map_to_list].
  apply (list_to_map_proper (M := gmap Z) (rev l)); [|exact Hr]. rewrite Hr. apply NoDup_fst_map_to_list.
Qed.

Lemma snapshot_restores m : mirror_wf m → ∃ m', from_snapshot (snapshot m) = Ok m' ∧ m' ≡ m.
Proof.
  intros [Hn Hz Ho]. unfold from_snapshot, snapshot. cbn [s_next_note_id s_current_leaves s_original_leaves].
  rewrite current_leaves_length, Z.eqb_refl by done. simpl.
  replace (existsb _ _) with false.
  2: { symmetry. apply not_true_iff_false. intros ([i x] & Hin & Hle%Z.leb_le)%existsb_exists.
       apply list_elem_of_In in Hin. rewrite merge_sort_Permutation in Hin.
       apply elem_of_map_to_list, Ho in Hin. simpl in *. lia. }
  eexists. split; [reflexivity|]. split; [done|]. split; [apply originals_restored|].
  intros i Hi. unfold mirror_leaf at 1. simpl. rewrite restore_leaves_spec; [|lia| |by intros; apply leaf_new|done].
  2: { rewrite current_leaves_length by done. unfold in_u32 in Hn. lia. }
  rewrite decide_True by apply Hi. rewrite Z.sub_0_r. destruct (decide (i < next_note_id m)).
  - rewrite current_leaves_lookup by (unfold in_u32 in Hi; lia). done.
  - rewrite lookup_ge_None_2; [symmetry; apply Hz; [done|lia]|].
    pose proof (current_leaves_length m Hn). lia.
Qed.

(** ** Replays *)

(** What an event does to one note: its leaf, and the leaf it was deposited with. *)
Definition event_on (j : Z) (s : Felt252 * option Felt252) (e : VaultEvent) : Felt252 * option Felt252 :=
  if decide (event_id e = j) then
    match e with
    | NoteDeposited i c a x _ => let leaf := compute_note_leaf i c a x in (leaf, Some leaf)
    | MutualClose _ _ _ | EscapeWithdrawalInitiated _ _ _ _ _ | ExpiredClaimed _ _ _ => (ZERO, s.2)
    | EscapeWithdrawalChallenged _ _ _ => (default s.1 s.2, s.2)
    | EscapeWithdrawalFinalized _ _ _ => s
    end
  else s.
Definition events_on (j : Z) (es : list VaultEvent) (s : Felt252 * option Felt252) := fold_left (event_on j) es s.

Definition note_view (m : TreeMirror) (j : Z) : Felt252 * option Felt252 := (mirror_leaf m j, original_leaves m !! j).

Lemma process_event_view m e j : event_below e → in_u32 j → note_view (process_event m e) j = event_on j (note_view m j) e.
Proof.
  intros He%below_u32 Hj. unfold event_on. destruct (decide (event_id e = j)) as [<-|Hne].
  - unfold note_view, mirror_leaf. destruct e; simpl in *; rewrite ?leaf_set, ?decide_True by done; try done.
    + by rewrite lookup_insert_eq.
    + destruct (_ !! _) as [x|] eqn:Hx; simpl; rewrite ?leaf_set, ?decide_True, Hx by done; done.
  - unfold note_view. rewrite process_event_leaf by done. f_equal.
    destruct e; simpl in *; try done; [by rewrite lookup_insert_ne|by case_match].
Qed.
Lemma process_event_originals m e j : original_leaves (process_event m e) !! j = (event_on j (note_view m j) e).2.
Proof.
  unfold event_on, note_view. destruct (decide (event_id e = j)) as [<-|Hne];
    destruct e; simpl in *; rewrite ?lookup_insert_eq, ?lookup_insert_ne by done; try done;
    by case_match.
Qed.

Lemma events_on_originals j es s s' : s.2 = s'.2 → (events_on j es s).2 = (events_on j es s').2.
Proof.
  revert s s'. induction es as [|e es IH]; intros s s' Hs; [done|]. simpl. apply IH.
  unfold event_on. destruct (decide _); [|done]. by destruct e.
Qed.

Lemma apply_events_view es m j :
  Forall event_below es → in_u32 j → note_view (apply_events es m) j = events_on j es (note_view m j).
Proof.
  intros Hes Hj. revert m. induction Hes as [|e es He _ IH]; intros m; [done|].
  unfold apply_events, events_on in *. simpl. by rewrite IH, process_event_view.
Qed.
Lemma apply_events_originals es m j :
  original_leaves (apply_events es m) !! j = (events_on j es (note_view m j)).2.
Proof.
  revert m. induction es as [|e es IH]; intros m; [done|]. unfold apply_events, events_on in *. simpl.
  rewrite IH. apply events_on_originals. simpl. apply process_event_originals.
Qed.

Lemma events_on_snoc j es e s : events_on j (es ++ [e]) s = event_on j (events_on j es s) e.
Proof. unfold events_on. by rewrite fold_left_app. Qed.

Lemma events_on_idem j es s : events_on j es (events_on j es s) = events_on j es s.
Proof.
  induction es as [|e es IH] using rev_ind; [done|]. rewrite !events_on_snoc.
  set (a := events_on j es s) in *.
  assert (∀ b, b.2 = a.2 → (events_on j es b).2 = a.2) as Ho.
  { intros b Hb. rewrite (events_on_originals _ _ _ a Hb). by rewrite IH. }
  unfold event_on. destruct (decide (event_id e = j)); [|done].
  destruct e; try done; try (by f_equal; apply Ho).
  destruct a as [l [x|]]; simpl in *.
  - specialize (Ho (x, Some x) eq_refl). rewrite Ho. done.
  - rewrite IH. done.
Qed.

(** The first free id after some events. *)
Definition next_after (es : list VaultEvent) (n : Z) : Z :=
  fold_left (λ n e, match e with NoteDeposited i _ _ _ _ => Z.max n (saturating_add u32_MAX i 1) | _ => n end) es n.
Lemma apply_events_next es m : next_note_id (apply_events es m) = next_after es (next_note_id m).
Proof.
  revert m. induction es as [|e es IH]; intros m; [done|]. unfold apply_events, next_after in *. simpl.
  rewrite IH. f_equal. destruct e; try done. simpl. by case_match.
Qed.
Lemma next_after_max es n : next_after es n = Z.max n (next_after es 0) ∨ (n < 0).
Proof.
  destruct (decide (n < 0)); [by right|left].
  assert (∀ a b, 0 ≤ a → 0 ≤ b → next_after es (Z.max a b) = Z.max a (next_after es b)) as Hmax.
  { clear. intros a. induction es as [|e es IH]; intros b Ha Hb; [done|]. unfold next_after in *. simpl.
    destruct e; auto. rewrite <- Z.max_assoc. apply IH; lia. }
  rewrite <- Hmax by lia. by rewrite Z.max_l by lia.
Qed.
Lemma next_after_idem es n : 0 ≤ n → next_after es (next_after es n) = next_after es n.
Proof.
  intros Hn. assert (0 ≤ next_after es 0) as Hpos.
  { destruct (next_after_max es 0) as [Hm|]; lia. }
  destruct (next_after_max es n) as [Heq|?]; [|lia]. rewrite Heq.
  destruct (next_after_max es (Z.max n (next_after es 0))) as [->|?]; lia.
Qed.

Lemma apply_events_idem es m :
  Forall event_below es → 0 ≤ next_note_id m → apply_events es (apply_events es m) ≡ apply_events es m.
Proof.
  intros Hes Hn. split; [|split].
  - rewrite !apply_events_next. by apply next_after_idem.
  - apply map_eq. intros j. rewrite !apply_events_originals.
    rewrite <- (f_equal snd (events_on_idem j es (note_view m j))). apply events_on_originals.
    unfold note_view at 1. simpl. apply apply_events_originals.
  - intros j Hj. pose proof (apply_events_view es (apply_events es m) j Hes Hj) as Hv.
    rewrite (apply_events_view es m j Hes Hj), events_on_idem, <- (apply_events_view es m j Hes Hj) in Hv.
    by injection Hv.
Qed.

Lemma apply_events_app es es' m : apply_events (es ++ es') m = apply_events es' (apply_events es m).
Proof. apply fold_left_app. Qed.

(** ** The properties of the mirror *)

(** C32: The mirror is the vault's tree. After any sequence of contract events on
    notes below the last [u32] id, every leaf of the mirror is the leaf the vault
    has in its tree: the deposited leaf while the note is live or again live after
    a challenge, zero when it was closed, is being withdrawn, expired or never
    existed; the next id is one past the largest deposited id; and the root and
    every path are those of any tree with the vault's leaves. *)
Theorem mirror_refines_vault es :
  Forall event_below es →
  let m := apply_events es mirror_new in
  refines m (vault_of es)
  ∧ ∀ t, (∀ i, in_u32 i → tree_get_leaf t i = vault_leaf (vault_of es) i) →
      mirror_root m = tree_root t ∧ ∀ i, get_path m i = tree_siblings t i.
Proof.
  intros Hes m. assert (refines m (vault_of es)) as Hr by (apply apply_events_refines; [done|apply refines_new]).
  split; [done|]. intros t Ht.
  assert (∀ i, in_u32 i → tree_get_leaf (tree m) i = tree_get_leaf t i) as Heq.
  { intros i Hi. rewrite Ht by done. by apply (ref_leaf _ _ Hr). }
  split; [by apply root_leaves|]. intros i. by apply siblings_leaves.
Qed.

(** A mirror survives its snapshot. The snapshot of a mirror built from any
    events on notes below the last id is accepted by [from_snapshot], and the
    restored mirror has the same root, paths, leaves and original leaves; it stays
    indistinguishable from the old one under all further events. *)
Theorem snapshot_roundtrip es :
  Forall event_below es →
  ∃ m', from_snapshot (snapshot (apply_events es mirror_new)) = Ok m'
    ∧ ∀ later, Forall event_below later →
        let old := apply_events later (apply_events es mirror_new) in
        let new := apply_events later m' in
        mirror_root new = mirror_root old ∧ (∀ i, get_path new i = get_path old i)
        ∧ (∀ i, in_u32 i → mirror_leaf new i = mirror_leaf old i)
        ∧ next_note_id new = next_note_id old ∧ original_leaves new = original_leaves old.
Proof.
  intros Hes. assert (mirror_wf (apply_events es mirror_new)) as Hwf.
  { eapply refines_wf, apply_events_refines; [done|apply refines_new]. }
  destruct (snapshot_restores _ Hwf) as (m' & Hm & Heq). exists m'. split; [exact Hm|].
  intros later Hlater old new. assert (new ≡ old) as Hno by by apply apply_events_equiv.
  split; [by rewrite Hno|]. split; [intros i; by rewrite Hno|]. destruct Hno as (Hn & Ho & Hl). by split.
Qed.

(** Replays converge. A batch of events whose first part was already applied,
    in a poll that then failed, leaves the same mirror when the whole batch is
    applied again: nothing is counted twice and no note ends in another state. *)
Theorem replay_converges es rest m :
  Forall event_below es → Forall event_below rest → 0 ≤ next_note_id m →
  apply_events (es ++ rest) (apply_events es m) ≡ apply_events (es ++ rest) m.
Proof.
  intros Hes Hrest Hn. rewrite !apply_events_app. apply apply_events_equiv; [done|].
  by apply apply_events_idem.
Qed.

(** The last id cannot be restored. The deposit of note [u32::MAX] leaves the
    next id at [u32::MAX], so the snapshot taken then lists an original leaf
    beyond its own next id, and [from_snapshot] rejects it. *)
Theorem last_note_not_restorable m c a x r :
  next_note_id m ≤ u32_MAX →
  ∃ e, from_snapshot (snapshot (process_event m (NoteDeposited u32_MAX c a x r))) = Err e.
Proof.
  intros Hn. set (m' := process_event _ _).
  assert (next_note_id m' = u32_MAX) as Hnext.
  { unfold m'. simpl. unfold saturating_add. unfold u32_MAX in *. lia. }
  assert (original_leaves m' !! u32_MAX = Some (compute_note_leaf u32_MAX c a x)) as Ho by apply lookup_insert_eq.
  clearbody m'. unfold from_snapshot. destruct (negb _); [by eexists|]. simpl.
  replace (existsb _ _) with true; [by eexists|]. symmetry. apply existsb_exists.
  exists (u32_MAX, compute_note_leaf u32_MAX c a x). split; [|rewrite Hnext; by apply Z.leb_le].
  apply list_elem_of_In. rewrite merge_sort_Permutation. by apply elem_of_map_to_list.
Qed.
End theory.
