(* ===== verification/Poller.v ===== *)
(** * The indexer's log poller: [zkapi-indexerd/src/poller.rs]

    The poller asks an Ethereum node for the contract's logs in bounded ranges of
    blocks, decodes them, applies them to the mirror and writes a checkpoint of
    cursor and mirror together. Its programs run in the monad [P] over the poller,
    the service and the files; the node's answers and the file system's faults
    are arguments. *)

From Stdlib Require Import ZArith Lia Ascii.
From stdpp Require Import base tactics decidable numbers list gmap strings.
From S2P Require Import Prelude Text Float64 Json Http Types Errors Store StoreTheory.
From S2P Require Import ProviderTypes Dashboard World TreeMirror.

Local Open Scope string_scope.

(** ** Text *)

Definition parse_hex_u64 (value : string) : result string Z :=
  ok_or ("invalid hex u64 " +:+ value) (parse_uint 16 u64_MAX (strip_0x (trim value))).

(** [i64] of a JSON number. *)
Definition as_i64 (v : Value) : option Z :=
  match v with
  | Num (PosInt n) => if (n <? 2 ^ 63)%Z then Some n else None
  | Num (NegInt n) => if (- 2 ^ 63 <=? n)%Z then Some n else None
  | _ => None
  end.

(** [Vec<T>], all elements or none. *)
Definition decode_list {A} (dec : Value → option A) (v : Value) : option (list A) :=
  l ← as_array v; mapM dec l.

(** ** What the poller takes from elsewhere

    The [hex] crate, words as field elements, and the JSON of a checkpoint. *)

Definition Word := string.
(** Files by path. *)
Abbreviation Disk := (gmap string string).

Section poller.
Context `{!FeltOps, !MerkleOps, !WireTypes, !WireOps, !JsonText, !SerdeText}.

Record IndexerCheckpoint := {
  version : Z;
  last_processed_block : Z;
  checkpoint_mirror : TreeMirrorSnapshot;
}.
Definition CHECKPOINT_VERSION : Z := 1.
Definition MAX_BLOCK_RANGE : Z := 1000.

Class PollerOps := {
  hex_decode : string → result string string;
  felt_of_word : Word → Felt252;
  felt_to_u64 : Felt252 → option Z;
  checkpoint_to_json : IndexerCheckpoint → result string string;
  checkpoint_from_json : string → result string IndexerCheckpoint;
}.
Context `{!PollerOps}.

(** ** Logs *)

Record RpcLog := { block_number : string; data : string; topics : list string }.

Definition decode_RpcLog (v : Value) : option RpcLog :=
  m ← as_object v;
  block_number ← field_req as_str "blockNumber" m;
  data ← field_req as_str "data" m;
  topics ← field_req (decode_list as_str) "topics" m;
  Some {| block_number := block_number; data := data; topics := topics |}.

Definition event_topic (signature : string) : string := "0x" +:+ hex_encode (keccak256 signature).

(** Chunks of 64 digits, decoded. *)
Fixpoint decode_words (fuel : nat) (raw : string) : result string (list Word) :=
  match fuel, raw with
  | _, EmptyString => Ok []
  | O, _ => Ok []
  | S fuel', _ =>
      word ← map_err (λ _, "invalid hex in log data") (hex_decode (String.substring 0 64 raw));
      words ← decode_words fuel' (String.substring 64 (String.length raw - 64) raw);
      Ok (word :: words)
  end.
Definition split_words (data : string) : result string (list Word) :=
  let raw := strip_0x (trim data) in
  _ ← fail_if (negb (Nat.eqb (String.length raw mod 64) 0)) "log data is not a whole number of 32-byte words";
  decode_words (String.length raw) raw.

Definition word_to_u64 (word : Word) : Z := be_value 0 (String.substring 24 8 word).
Definition word_to_u128 (word : Word) : Z := be_value 0 (String.substring 16 16 word).
Definition word_to_felt (word : Word) : Felt252 := felt_of_word word.

Definition topic_to_felt (topic : string) : result string Felt252 :=
  map_err (λ err, "invalid topic felt " +:+ topic +:+ ": " +:+ err) (from_hex topic).
Definition topic_to_u32 (topic : string) : result string Z :=
  felt ← map_err (λ err, "invalid indexed topic " +:+ topic +:+ ": " +:+ err) (from_hex topic);
  value ← ok_or "indexed note id does not fit in u64" (felt_to_u64 felt);
  _ ← fail_if (u32_MAX <? value)%Z "indexed note id does not fit in u32";
  Ok value.

Definition SIG_DEPOSITED : string := "NoteDeposited(uint32,bytes32,uint128,uint64,uint256)".
Definition SIG_CLOSED : string := "MutualClose(uint32,uint256,uint128,address)".
Definition SIG_INITIATED : string := "EscapeWithdrawalInitiated(uint32,uint256,uint128,address,uint64,uint256)".
Definition SIG_CHALLENGED : string := "EscapeWithdrawalChallenged(uint32,uint256,uint256)".
Definition SIG_FINALIZED : string := "EscapeWithdrawalFinalized(uint32,uint256,uint128,address)".
Definition SIG_EXPIRED : string := "ExpiredClaimed(uint32,uint128,uint256)".

(** The body of one decoded event, from its indexed topics and data words. *)
Definition decode_deposited (topics : list string) (words : list Word) : result string (VaultEvent * option Felt252) :=
  match topics, words with
  | _ :: id :: c :: _, [amount; expiry; root] =>
      note_id ← topic_to_u32 id;
      commitment ← topic_to_felt c;
      Ok (NoteDeposited note_id commitment (word_to_u128 amount) (word_to_u64 expiry) (word_to_felt root),
          Some (word_to_felt root))
  | _, _ => Err "malformed NoteDeposited log"
  end.
Definition decode_closed (topics : list string) (words : list Word) : result string (VaultEvent * option Felt252) :=
  match topics, words with
  | _ :: id :: _, [nullifier; balance; _] =>
      note_id ← topic_to_u32 id;
      Ok (MutualClose note_id (word_to_felt nullifier) (word_to_u128 balance), None)
  | _, _ => Err "malformed MutualClose log"
  end.
Definition decode_initiated (topics : list string) (words : list Word) : result string (VaultEvent * option Felt252) :=
  match topics, words with
  | _ :: id :: _, [nullifier; balance; _; deadline; root] =>
      note_id ← topic_to_u32 id;
      Ok (EscapeWithdrawalInitiated note_id (word_to_felt nullifier) (word_to_u128 balance)
            (word_to_u64 deadline) (word_to_felt root), Some (word_to_felt root))
  | _, _ => Err "malformed EscapeWithdrawalInitiated log"
  end.
Definition decode_challenged (topics : list string) (words : list Word) : result string (VaultEvent * option Felt252) :=
  match topics, words with
  | _ :: id :: _, [nullifier; root] =>
      note_id ← topic_to_u32 id;
      Ok (EscapeWithdrawalChallenged note_id (word_to_felt nullifier) (word_to_felt root), Some (word_to_felt root))
  | _, _ => Err "malformed EscapeWithdrawalChallenged log"
  end.
Definition decode_finalized (topics : list string) (words : list Word) : result string (VaultEvent * option Felt252) :=
  match topics, words with
  | _ :: id :: _, [nullifier; balance; _] =>
      note_id ← topic_to_u32 id;
      Ok (EscapeWithdrawalFinalized note_id (word_to_felt nullifier) (word_to_u128 balance), None)
  | _, _ => Err "malformed EscapeWithdrawalFinalized log"
  end.
Definition decode_expired (topics : list string) (words : list Word) : result string (VaultEvent * option Felt252) :=
  match topics, words with
  | _ :: id :: _, [amount; root] =>
      note_id ← topic_to_u32 id;
      Ok (ExpiredClaimed note_id (word_to_u128 amount) (word_to_felt root), Some (word_to_felt root))
  | _, _ => Err "malformed ExpiredClaimed log"
  end.

Definition decode_log (log : RpcLog) : result string (option (VaultEvent * option Felt252)) :=
  match topics log with
  | [] => Ok None
  | topic0 :: _ =>
      words ← split_words (data log);
      let named sig := String.eqb topic0 (event_topic sig) in
      if named SIG_DEPOSITED then Some <$> decode_deposited (topics log) words
      else if named SIG_CLOSED then Some <$> decode_closed (topics log) words
      else if named SIG_INITIATED then Some <$> decode_initiated (topics log) words
      else if named SIG_CHALLENGED then Some <$> decode_challenged (topics log) words
      else if named SIG_FINALIZED then Some <$> decode_finalized (topics log) words
      else if named SIG_EXPIRED then Some <$> decode_expired (topics log) words
      else Ok None
  end.

(** ** The poller and its monad *)

Record PollerConfig := {
  pc_rpc_url : string;
  pc_contract_address : string;
  pc_from_block : Z;
  pc_cursor_path : option string;
}.
Definition PollerConfig_default : PollerConfig := {|
  pc_rpc_url := "http://127.0.0.1:8545";
  pc_contract_address := "0x0000000000000000000000000000000000000000";
  pc_from_block := 0;
  pc_cursor_path := Some "zkapi-indexer.cursor";
|}.

Record JsonRpcLogPoller := {
  rpc_url : string;
  contract_address : string;
  next_from_block : Z;
  cursor_path : option string;
}.

(** How the file system can fail a checkpoint: the directory, the write (which
    may leave some text in the temporary file), the rename. *)
Inductive FsFault := CreateDirFails | WriteFails (partial : option string) | RenameFails.

(** The service is shared with the routes, which run while a poll does: what they
    may read is every service it has been. [past] is a ghost of that history, the
    services before the current one, oldest first; no program reads it. *)
Record PollState := {
  poller : JsonRpcLogPoller;
  service : IndexerService;
  past : list IndexerService;
  disk : Disk;
}.
Definition services (σ : PollState) : list IndexerService := (past σ ++ [service σ])%list.
Definition P (A : Type) : Type := PollState → result string A * PollState.
#[export] Instance P_ret : MRet P := λ A a σ, (Ok a, σ).
#[export] Instance P_bind : MBind P := λ A B f m σ,
  match m σ with
  | (Ok a, σ') => f a σ'
  | (Err e, σ') => (Err e, σ')
  end.
Definition P_lift {A} (r : result string A) : P A := λ σ, (r, σ).
Definition gets {A} (f : PollState → A) : P A := λ σ, (Ok (f σ), σ).
(** One method of the service, under its lock. *)
Definition update_service (f : IndexerService → IndexerService) : P unit := λ σ,
  (Ok tt, {| poller := poller σ; service := f (service σ); past := services σ; disk := disk σ |}).
Definition update_disk (f : Disk → Disk) : P unit := λ σ,
  (Ok tt, {| poller := poller σ; service := service σ; past := past σ; disk := f (disk σ) |}).
Definition set_next_from_block (n : Z) : P unit := λ σ,
  (Ok tt, {| poller := {| rpc_url := rpc_url (poller σ); contract_address := contract_address (poller σ);
                          next_from_block := n; cursor_path := cursor_path (poller σ) |};
             service := service σ; past := past σ; disk := disk σ |}).

(** ** JSON-RPC *)

(** The node: its answer to a JSON body posted to a URL. *)
Definition Node : Type := string → Value → result string HttpResponse.

Definition decode_JsonRpcError (v : Value) : option (Z * string) :=
  m ← as_object v;
  code ← field_req as_i64 "code" m;
  message ← field_req as_str "message" m;
  Some (code, message).
Definition decode_JsonRpcResponse {T} (dec : Value → option T) (v : Value)
    : option (option T * option (Z * string)) :=
  m ← as_object v;
  result ← field_opt dec "result" m;
  error ← field_opt decode_JsonRpcError "error" m;
  Some (result, error).

Definition JsonRpcRequest (method : string) (params : Value) : Value :=
  json_object [("jsonrpc", Str "2.0"); ("method", Str method); ("params", params); ("id", Num (PosInt 1))].

Definition rpc {T} (node : Node) (self : JsonRpcLogPoller) (dec : Value → option T) (method : string)
    (params : Value) : result string T :=
  response ← map_err (λ _, "rpc call to " +:+ rpc_url self +:+ " failed")
               (node (rpc_url self) (JsonRpcRequest method params));
  _ ← fail_if (is_http_error (http_status response)) "rpc call returned non-success status";
  text ← map_err (λ _, "invalid rpc response") (http_text response);
  body ← map_err (λ _, "invalid rpc response") (from_str (decode_JsonRpcResponse dec) text);
  match body with
  | (_, Some (code, message)) => Err ("rpc error " +:+ show_int code +:+ ": " +:+ message)
  | (result, None) => ok_or "rpc response missing result" result
  end.

Definition fetch_block_number (node : Node) (self : JsonRpcLogPoller) : result string Z :=
  value ← rpc node self as_str "eth_blockNumber" (Array []);
  parse_hex_u64 value.

Definition log_filter (self : JsonRpcLogPoller) (from_block to_block : Z) : Value :=
  Array [json_object [("address", Str (contract_address self));
                      ("fromBlock", Str ("0x" +:+ show_hex from_block));
                      ("toBlock", Str ("0x" +:+ show_hex to_block))]].
Definition fetch_logs (node : Node) (self : JsonRpcLogPoller) (from_block to_block : Z)
    : result string (list RpcLog) :=
  rpc node self (decode_list decode_RpcLog) "eth_getLogs" (log_filter self from_block to_block).

(** ** Checkpoints *)

Definition load_checkpoint (read_fails : bool) (path : string) (d : Disk) : result string (option IndexerCheckpoint) :=
  match d !! path with
  | None => Ok None
  | Some raw =>
      _ ← fail_if read_fails ("failed to read cursor file " +:+ path);
      match checkpoint_from_json raw with
      | Ok checkpoint => Ok (Some checkpoint)
      | Err _ =>
          match parse_u64 (trim raw) with
          | Some _ => Ok None
          | None => Err ("invalid indexer checkpoint in " +:+ path)
          end
      end
  end.

Definition normalize_address (address : string) : result string string :=
  let trimmed := trim address in
  let raw := strip_0x trimmed in
  _ ← fail_if (String.eqb raw "" || (40 <? String.length raw)%nat) "contract address must be 20-byte hex";
  let normalized := to_ascii_lowercase (pad_zeros (40 - String.length raw) raw) in
  _ ← map_err (λ _, "contract address is not valid hex") (hex_decode normalized);
  Ok ("0x" +:+ normalized).

(** The mirror is restored before the address is looked at: a bad address
    leaves the service with the checkpoint's mirror. *)
Definition restore_checkpoint (read_fails : bool) (config : PollerConfig) (service : IndexerService) (d : Disk)
    : result string Z * IndexerService :=
  match pc_cursor_path config with
  | None => (Ok (pc_from_block config), service)
  | Some path =>
      match load_checkpoint read_fails path d with
      | Err e => (Err e, service)
      | Ok None => (Ok (pc_from_block config), service)
      | Ok (Some checkpoint) =>
          if negb (version checkpoint =? CHECKPOINT_VERSION)%Z
          then (Err ("unsupported indexer checkpoint version " +:+ show_uint (version checkpoint)), service)
          else match restore service (checkpoint_mirror checkpoint) with
               | Err err => (Err ("invalid indexer checkpoint: " +:+ err), service)
               | Ok service => (Ok (u64_add (last_processed_block checkpoint) 1), service)
               end
      end
  end.
Definition poller_new (read_fails : bool) (config : PollerConfig) (service : IndexerService) (d : Disk)
    : result string JsonRpcLogPoller * IndexerService :=
  let '(next, service) := restore_checkpoint read_fails config service d in
  (next_from_block ← next;
   contract_address ← normalize_address (pc_contract_address config);
   Ok {| rpc_url := pc_rpc_url config; contract_address := contract_address;
         next_from_block := next_from_block; cursor_path := pc_cursor_path config |}, service).

Definition persist_checkpoint (pid : Z) (fault : option FsFault) (last_processed_block : Z) : P unit :=
  path ← gets (λ σ, cursor_path (poller σ));
  match path with
  | None => mret tt
  | Some path =>
      _ ← P_lift (match fault, path_parent path with
                  | Some CreateDirFails, Some parent => Err ("failed to create cursor dir " +:+ parent)
                  | _, _ => Ok tt
                  end);
      checkpoint ← gets (λ σ, {| version := CHECKPOINT_VERSION; last_processed_block := last_processed_block;
                                 checkpoint_mirror := snapshot (mirror (service σ)) |});
      encoded ← P_lift (map_err (λ _, "failed to encode checkpoint") (checkpoint_to_json checkpoint));
      let temp_path := with_extension path ("tmp-" +:+ show_uint pid) in
      match fault with
      | Some (WriteFails partial) =>
          _ ← update_disk (λ d, match partial with Some text => <[temp_path := text]> d | None => d end);
          P_lift (Err ("failed to write checkpoint " +:+ temp_path))
      | _ =>
          _ ← update_disk <[temp_path := encoded]>;
          match fault with
          | Some RenameFails => P_lift (Err ("failed to replace checkpoint " +:+ path))
          | _ => update_disk (λ d, <[path := encoded]> (delete temp_path d))
          end
      end
  end.

(** ** One poll *)

Definition poll_mark_ready : P unit := update_service mark_ready.

(** Decode and apply the logs in order; the first bad one ends the poll. A root
    that differs from the event's is only logged. *)
Fixpoint apply_logs (logs : list RpcLog) (applied : Z) : P Z :=
  match logs with
  | [] => mret applied
  | log :: logs' =>
      decoded ← P_lift (decode_log log);
      match decoded with
      | None => apply_logs logs' applied
      | Some (event, _) =>
          _ ← update_service (λ service, service_process_event service event);
          apply_logs logs' (applied + 1)
      end
  end.

Definition poll_range (from_block latest_block : Z) : Z :=
  Z.min latest_block (u64_add from_block (saturating_sub MAX_BLOCK_RANGE 1)).

(** After the logs of a range: advance the cursor, write the checkpoint, and at
    the head of the chain start serving. *)
Definition finish_range (pid : Z) (fault : option FsFault) (to_block latest_block : Z) : P unit :=
  _ ← set_next_from_block (u64_add to_block 1);
  _ ← persist_checkpoint pid fault to_block;
  if (to_block =? latest_block)%Z then poll_mark_ready else mret tt.

Definition poll_once (node : Node) (pid : Z) (fault : option FsFault) : P Z :=
  self ← gets poller;
  latest_block ← P_lift (fetch_block_number node self);
  if (latest_block <? next_from_block self)%Z then
    _ ← poll_mark_ready; mret 0%Z
  else
    let to_block := poll_range (next_from_block self) latest_block in
    logs ← P_lift (fetch_logs node self (next_from_block self) to_block);
    applied ← apply_logs logs 0;
    _ ← finish_range pid fault to_block latest_block;
    mret applied.

(** [run_indexer]: with polling the service starts unready, without it ready. *)
Definition polling_enabled (config : PollerConfig) : bool :=
  negb (String.eqb (trim (pc_rpc_url config)) "") && negb (String.eqb (trim (pc_contract_address config)) "").
Definition start_indexer (config : PollerConfig) : IndexerService :=
  if polling_enabled config then service_new_syncing mirror_new else service_new mirror_new.
End poller.
