(* ===== verification/PollerTheory.v ===== *)
(** * The poller keeps mirror, cursor and checkpoint together *)

From Stdlib Require Import ZArith Lia Ascii.
From stdpp Require Import base tactics decidable numbers list gmap fin_maps relations strings.
From S2P Require Import Prelude Text Float64 Json Types Errors Store StoreTheory.
From S2P Require Import ProviderTypes Dashboard World TreeMirror TreeMirrorTheory Poller.

(** ** Runs of the poller's monad *)

Section runs.
Context `{!FeltOps, !MerkleOps}.

Lemma P_bind_inv {A B} (m : P A) (f : A → P B) σ r σ' :
  (m ≫= f) σ = (r, σ') →
  (∃ e, m σ = (Err e, σ') ∧ r = Err e) ∨ (∃ a σ1, m σ = (Ok a, σ1) ∧ f a σ1 = (r, σ')).
Proof. unfold mbind, P_bind. destruct (m σ) as [[a|e] σ1]; [eauto | intros [= <- <-]; eauto]. Qed.
Lemma P_bind_run {A B} (m : P A) (f : A → P B) σ a σ1 : m σ = (Ok a, σ1) → (m ≫= f) σ = f a σ1.
Proof. unfold mbind, P_bind. by intros ->. Qed.
Lemma P_bind_gets {A B} (g : PollState → A) (f : A → P B) σ : (gets g ≫= f) σ = f (g σ) σ.
Proof. done. Qed.
End runs.

(** Serializing a checkpoint and reading it back, and the [hex] crate. *)
Class PollerLaws `{!FeltOps, !MerkleOps, !WireTypes, !WireOps, !PollerOps} := {
  checkpoint_roundtrip c s : checkpoint_to_json c = Ok s → checkpoint_from_json s = Ok c;
  hex_roundtrip w : hex_decode (hex_encode w) = Ok w;
  hex_length w : String.length (hex_encode w) = (2 * String.length w)%nat;
  hex_digits w : str_forall is_ascii_hexdigit (hex_encode w) = true;
}.

Section theory.
Context `{!FeltOps, !MerkleOps, !MerkleLaws, !WireTypes, !WireOps, !JsonText, !SerdeText, !PollerOps, !PollerLaws}.

(** ** The chain *)

(** A node that tells the truth about [chain], a list of logs per block, up to
    block [head], or fails. *)
Context (chain : Z → list RpcLog).

Definition logs_between (a b : Z) : list RpcLog := concat (map chain (seqZ a (b - a + 1))).
Definition event_of (log : RpcLog) : list VaultEvent :=
  match decode_log log with Ok (Some (e, _)) => [e] | _ => [] end.
Definition events_between (a b : Z) : list VaultEvent := concat (map event_of (logs_between a b)).

(** The contract's logs are well-formed and stay below the last note id. *)
Definition chain_ok : Prop :=
  ∀ b log, log ∈ chain b → ∃ d, decode_log log = Ok d ∧ Forall event_below (event_of log).

Definition truthful (node : Node) (self : JsonRpcLogPoller) : Prop :=
  (∀ head, fetch_block_number node self = Ok head → (0 ≤ head < u64_MAX)%Z)
  ∧ ∀ a b logs, (0 ≤ a ≤ b)%Z → (b < u64_MAX)%Z → fetch_logs node self a b = Ok logs → logs = logs_between a b.

Lemma logs_between_app a b c : (a ≤ b + 1)%Z → (b ≤ c)%Z →
  logs_between a c = (logs_between a b ++ logs_between (b + 1) c)%list.
Proof.
  intros Hab Hbc. unfold logs_between. rewrite <- concat_app, <- map_app. do 2 f_equal.
  replace (c - a + 1)%Z with ((b - a + 1) + (c - (b + 1) + 1))%Z by lia.
  rewrite seqZ_app by lia. f_equal. f_equal; lia.
Qed.
Lemma events_between_app a b c : (a ≤ b + 1)%Z → (b ≤ c)%Z →
  events_between a c = (events_between a b ++ events_between (b + 1) c)%list.
Proof.
  intros Hab Hbc. unfold events_between. rewrite (logs_between_app a b c) by done.
  by rewrite map_app, concat_app.
Qed.
Lemma events_between_nil a : events_between a (a - 1) = [].
Proof. unfold events_between, logs_between. by replace (a - 1 - a + 1)%Z with 0%Z by lia. Qed.

Lemma logs_between_elem a b log : log ∈ logs_between a b → ∃ n, log ∈ chain n.
Proof.
  unfold logs_between. rewrite list_elem_of_In, in_concat. intros (l & (n & <- & _)%in_map_iff & Hin).
  exists n. by apply list_elem_of_In.
Qed.

Lemma events_below a b : chain_ok → Forall event_below (events_between a b).
Proof.
  intros Hok. unfold events_between. apply Forall_concat, Forall_map, Forall_forall.
  intros log (n & Hin)%logs_between_elem. destruct (Hok n log Hin) as (d & _ & He). exact He.
Qed.

(** ** One batch *)

Definition with_service (s : IndexerService) (h : list IndexerService) (σ : PollState) : PollState :=
  {| poller := poller σ; service := s; past := h; disk := disk σ |}.
(** The services a batch of events makes of [s], one after each event. *)
Fixpoint after (es : list VaultEvent) (s : IndexerService) : list IndexerService :=
  match es with [] => [] | e :: es' => service_process_event s e :: after es' (service_process_event s e) end.

Lemma apply_logs_run logs applied σ :
  (∀ log, log ∈ logs → ∃ d, decode_log log = Ok d) →
  ∃ n h, apply_logs logs applied σ
    = (Ok n, with_service {| mirror := apply_events (concat (map event_of logs)) (mirror (service σ));
                             ready := ready (service σ) |} h σ)
    ∧ (h ++ [{| mirror := apply_events (concat (map event_of logs)) (mirror (service σ)); ready := ready (service σ) |}]
       = services σ ++ after (concat (map event_of logs)) (service σ))%list.
Proof.
  revert applied σ. induction logs as [|log logs IH]; intros applied σ Hok.
  - exists applied, (past σ). unfold with_service, services. destruct σ as [? [] ? ?]. by rewrite app_nil_r.
  - destruct (Hok log) as (d & Hd); [by left|].
    assert (∀ log, log ∈ logs → ∃ d, decode_log log = Ok d) as Hok' by (intros; apply Hok; by right).
    cbn [apply_logs]. rewrite (P_bind_run _ _ _ d σ); [|unfold P_lift; by rewrite Hd].
    cbn [map concat]. unfold event_of at 1 3 5. rewrite Hd. destruct d as [[e r]|].
    + set (σ1 := with_service (service_process_event (service σ) e) (services σ) σ).
      rewrite (P_bind_run _ _ _ tt σ1) by done.
      destruct (IH (applied + 1)%Z σ1 Hok') as (n & h & Hn & Hpast). exists n, h. split; [exact Hn|].
      cbn [app after]. etransitivity; [exact Hpast|]. unfold services at 1. cbn. by rewrite <- app_assoc.
    + destruct (IH applied σ Hok') as (n & h & Hn & Hpast). exists n, h. by split.
Qed.

(** ** Consistency *)

Context (config : PollerConfig).

(** The mirror is what the contract's events up to block [b] make of it. *)
Definition mirrors (m : TreeMirror) (b : Z) : Prop :=
  m ≡ apply_events (events_between (pc_from_block config) b) mirror_new.

(** The checkpoint in a file: a snapshot of the mirror at its block. *)
Definition good_checkpoint (c : IndexerCheckpoint) (next : Z) : Prop :=
  (pc_from_block config - 1 ≤ last_processed_block c < next)%Z
  ∧ ∃ m, checkpoint_mirror c = snapshot m ∧ mirror_wf m ∧ mirrors m (last_processed_block c).

(** Cursor, mirror and file belong together. *)
Record consistent (σ : PollState) : Prop := {
  con_cursor : (pc_from_block config ≤ next_from_block (poller σ) ≤ u64_MAX)%Z;
  con_path : cursor_path (poller σ) = pc_cursor_path config;
  con_mirror : mirrors (mirror (service σ)) (next_from_block (poller σ) - 1);
  con_disk path raw c : pc_cursor_path config = Some path → disk σ !! path = Some raw →
    checkpoint_from_json raw = Ok c → version c = CHECKPOINT_VERSION →
    good_checkpoint c (next_from_block (poller σ));
}.

Lemma mirrors_wf m b : chain_ok → mirrors m b → mirror_wf m.
Proof.
  intros Hok (Hn & Ho & Hl). assert (mirror_wf (apply_events (events_between (pc_from_block config) b) mirror_new)) as Hwf.
  { eapply refines_wf, apply_events_refines; [by apply events_below|apply refines_new]. }
  destruct Hwf as [Hwn Hwb Hwo]. split.
  - by rewrite Hn.
  - intros i Hi Hle. rewrite Hl by done. apply Hwb; [done|]. by rewrite <- Hn.
  - intros i x. rewrite Ho, Hn. apply Hwo.
Qed.

Lemma mirrors_step m a b : chain_ok → (pc_from_block config ≤ a)%Z → (a - 1 ≤ b)%Z →
  mirrors m (a - 1) → mirrors (apply_events (events_between a b) m) b.
Proof.
  intros Hok Ha Hb Hm. unfold mirrors. rewrite (events_between_app (pc_from_block config) (a - 1) b) by lia.
  rewrite apply_events_app. replace (a - 1 + 1)%Z with a by lia.
  apply apply_events_equiv; [by apply events_below|exact Hm].
Qed.

(** Writing the checkpoint leaves the file as it was or holds the new one. *)
Lemma persist_checkpoint_run pid fault b σ :
  (∀ path, pc_cursor_path config = Some path → with_extension path ("tmp-" +:+ show_uint pid) ≠ path) →
  cursor_path (poller σ) = pc_cursor_path config →
  ∃ r d, persist_checkpoint pid fault b σ = (r, {| poller := poller σ; service := service σ; past := past σ; disk := d |})
    ∧ (fault = None → (∀ c, is_ok (checkpoint_to_json c) = true) → r = Ok tt)
    ∧ ∀ path, pc_cursor_path config = Some path →
        d !! path = disk σ !! path
        ∨ ∃ raw, d !! path = Some raw
            ∧ checkpoint_from_json raw
              = Ok {| version := CHECKPOINT_VERSION; last_processed_block := b;
                      checkpoint_mirror := snapshot (mirror (service σ)) |}.
Proof.
  intros Htemp Hpath. unfold persist_checkpoint. rewrite P_bind_gets, Hpath.
  destruct (pc_cursor_path config) as [path|]; [|exists (Ok tt), (disk σ); split; [by destruct σ|by split]].
  specialize (Htemp path eq_refl). set (temp := with_extension _ _) in *.
  unfold P_lift, update_disk, gets, mbind, P_bind.
  destruct (match fault with Some CreateDirFails => _ | _ => _ end) as [[]|e] eqn:Hf;
    [|exists (Err e), (disk σ); split; [by destruct σ|split; [by intros ->|by left]]].
  set (c := {| version := CHECKPOINT_VERSION |}).
  destruct (checkpoint_to_json c) as [raw|e] eqn:Hc; simpl;
    [|eexists _, (disk σ); split; [by destruct σ|split; [intros _ Hj; specialize (Hj c); by rewrite Hc in Hj|by left]]].
  destruct fault as [[|[text|]|]|]; (eexists _, _; split; [reflexivity|]); (split; [done|]);
    intros ? [= <-]; rewrite ?lookup_insert_ne by done; try (by left).
  all: right; exists raw; rewrite lookup_insert_eq; split; [done|]; by apply checkpoint_roundtrip.
Qed.

Definition temp_apart : Prop := ∀ pid path,
  pc_cursor_path config = Some path → with_extension path ("tmp-" +:+ show_uint pid) ≠ path.

(** Two pollers of the same contract at the same node. *)
Definition same_node (p q : JsonRpcLogPoller) : Prop :=
  rpc_url p = rpc_url q ∧ contract_address p = contract_address q.

(** The end of a poll that fetched and applied the logs of a range: the cursor
    moves past it, the checkpoint is written, and the service becomes ready when
    the range reaches the head. *)
Lemma finish_range_consistent pid fault to_block latest h σ r σ' :
  chain_ok → temp_apart → consistent σ →
  (next_from_block (poller σ) ≤ to_block < u64_MAX)%Z →
  finish_range pid fault to_block latest
    (with_service {| mirror := apply_events (events_between (next_from_block (poller σ)) to_block) (mirror (service σ));
                     ready := ready (service σ) |} h σ) = (r, σ') →
  consistent σ' ∧ next_from_block (poller σ') = (to_block + 1)%Z ∧ same_node (poller σ') (poller σ)
  ∧ (ready (service σ') = true → ready (service σ) = true ∨ to_block = latest)
  ∧ (fault = None → (∀ c, is_ok (checkpoint_to_json c) = true) →
       r = Ok tt ∧ (to_block = latest → ready (service σ') = true)).
Proof.
  intros Hok Htemp Hc Hto Hrun. destruct Hc as [Hcur Hpath Hm Hdisk]. unfold finish_range in Hrun.
  rewrite (P_bind_run (set_next_from_block _) _ _ tt _ eq_refl) in Hrun. unfold with_service in Hrun. cbn [poller service past disk rpc_url contract_address next_from_block cursor_path] in Hrun.
  replace (u64_add to_block 1) with (to_block + 1)%Z in Hrun by (unfold u64_add, saturating_add; lia).
  set (m := apply_events _ (mirror (service σ))) in *.
  assert (mirrors m to_block) as Hm' by (apply mirrors_step; [done|lia|lia|exact Hm]).
  match type of Hrun with _ ?s = _ => set (σ1 := s) in * end.
  destruct (persist_checkpoint_run pid fault to_block σ1 (Htemp pid) Hpath) as (rp & d & Hp & Hrp & Hd).
  assert (∀ s h, mirror s = m → consistent {| poller := poller σ1; service := s; past := h; disk := d |}) as Hcons.
  { intros s h' Hs. split; simpl; [lia|done|by rewrite Hs; replace (to_block + 1 - 1)%Z with to_block by lia|].
    intros path raw c Hpc Hraw Hj Hv. destruct (Hd path Hpc) as [Heq|(raw' & Heq & Hj')].
    - rewrite Heq in Hraw. destruct (Hdisk path raw c Hpc Hraw Hj Hv) as [Hb Hsnap].
      split; [lia|exact Hsnap].
    - rewrite Heq in Hraw. injection Hraw as <-. rewrite Hj' in Hj. injection Hj as <-. split; simpl; [lia|].
      exists m. split; [done|]. split; [by eapply mirrors_wf|done]. }
  apply P_bind_inv in Hrun as [(e & Hrun & ->)|([] & σ2 & Hrun & Hend)]; rewrite Hp in Hrun.
  - injection Hrun as -> <-. do 3 (split; [first [by apply Hcons|done|by split]|]). split; [by left|].
    intros Hf Hj. by specialize (Hrp Hf Hj).
  - injection Hrun as _ <-. destruct (Z.eqb_spec to_block latest) as [Heq|Hne]; injection Hend as <- <-.
    + do 3 (split; [first [by apply Hcons|done|by split]|]). split; [by right|]. intros _ _. by split.
    + do 3 (split; [first [by apply Hcons|done|by split]|]). split; [by left|]. intros _ _. by split.
Qed.

(** At most its readiness is new to the routes. *)
Lemma finish_range_services pid fault to_block latest σ r σ' :
  temp_apart → cursor_path (poller σ) = pc_cursor_path config →
  finish_range pid fault to_block latest σ = (r, σ') →
  services σ' = services σ ∨ services σ' = (services σ ++ [mark_ready (service σ)])%list ∧ to_block = latest.
Proof.
  intros Htemp Hpath Hrun. unfold finish_range in Hrun.
  rewrite (P_bind_run (set_next_from_block _) _ _ tt _ eq_refl) in Hrun.
  match type of Hrun with _ ?s = _ => set (σ1 := s) in * end.
  destruct (persist_checkpoint_run pid fault to_block σ1 (Htemp pid) Hpath) as (rp & d & Hp & _ & _).
  apply P_bind_inv in Hrun as [(e & Hrun & ->)|([] & σ2 & Hrun & Hend)]; rewrite Hp in Hrun.
  - injection Hrun as _ <-. by left.
  - injection Hrun as _ <-. destruct (Z.eqb_spec to_block latest); injection Hend as _ <-; [by right|by left].
Qed.

Lemma poll_range_bounds a head :
  (0 ≤ a ≤ head)%Z → (head < u64_MAX)%Z → (a ≤ poll_range a head < u64_MAX)%Z ∧ poll_range a head = Z.min head (a + 999).
Proof.
  intros Ha Hh. unfold poll_range, u64_add, saturating_add, saturating_sub, MAX_BLOCK_RANGE.
  unfold u64_MAX in *. lia.
Qed.

(** A poll fails before it changed anything, finds no new block, or applies the
    logs of the next range. *)
Lemma poll_once_cases node pid fault σ r σ' :
  chain_ok → (0 ≤ next_from_block (poller σ))%Z → truthful node (poller σ) →
  poll_once node pid fault σ = (r, σ') →
  (σ' = σ ∧ (∃ e, r = Err e) ∧ (is_ok (fetch_block_number node (poller σ)) = false
     ∨ ∃ a b, (0 ≤ a ≤ b)%Z ∧ (b < u64_MAX)%Z ∧ is_ok (fetch_logs node (poller σ) a b) = false))
  ∨ ∃ head, fetch_block_number node (poller σ) = Ok head
      ∧ ((head < next_from_block (poller σ))%Z ∧ r = Ok 0%Z ∧ σ' = with_service (mark_ready (service σ)) (services σ) σ
         ∨ (next_from_block (poller σ) ≤ head)%Z
           ∧ ∃ r' h, let es := events_between (next_from_block (poller σ)) (poll_range (next_from_block (poller σ)) head) in
             finish_range pid fault (poll_range (next_from_block (poller σ)) head) head
               (with_service {| mirror := apply_events es (mirror (service σ)); ready := ready (service σ) |} h σ) = (r', σ')
             ∧ (h ++ [{| mirror := apply_events es (mirror (service σ)); ready := ready (service σ) |}]
                = services σ ++ after es (service σ))%list
             ∧ (r' = Ok tt → ∃ n, r = Ok n)).
Proof.
  intros Hok Hpos [Hhead Hlogs] Hp. unfold poll_once in Hp. rewrite P_bind_gets in Hp.
  set (self := poller σ) in *.
  apply P_bind_inv in Hp as [(e & Hh & ->)|(head & σ1 & Hh & Hp)]; injection Hh as Hh <-.
  { left. split; [done|]. split; [by eexists|]. left. by rewrite Hh. }
  destruct (Z.ltb_spec head (next_from_block self)) as [Hlt|Hge].
  { injection Hp as <- <-. right. exists head. split; [done|]. by left. }
  set (to := poll_range (next_from_block self) head) in *. destruct (Hhead head Hh) as [_ Hmax].
  destruct (poll_range_bounds (next_from_block self) head) as [Hto _]; [lia|done|].
  apply P_bind_inv in Hp as [(e & Hl & ->)|(logs & σ1 & Hl & Hp)]; injection Hl as Hl <-.
  { left. split; [done|]. split; [by eexists|]. right. exists (next_from_block self), to.
    fold to in Hto. split; [lia|]. split; [lia|]. by rewrite Hl. }
  apply Hlogs in Hl as ->; [|fold to in Hto; lia..]. right. exists head. split; [done|]. right. split; [done|].
  destruct (apply_logs_run (logs_between (next_from_block self) to) 0 σ) as (n & h & Hn & Hpast).
  { intros log (b & Hb)%logs_between_elem. destruct (Hok b log Hb) as (d & Hd & _). eauto. }
  rewrite (P_bind_run _ _ _ _ _ Hn) in Hp.
  apply P_bind_inv in Hp as [(e & Hp & ->)|(u & σ1 & Hp & Hend)].
  - exists (Err e), h. split; [exact Hp|]. split; [exact Hpast|discriminate].
  - injection Hend as <- <-. exists (Ok u), h. split; [exact Hp|]. split; [exact Hpast|]. intros _. by eexists.
Qed.

Lemma with_service_consistent f h σ :
  (∀ s, mirror (f s) = mirror s) → consistent σ → consistent (with_service (f (service σ)) h σ).
Proof. intros Hf [Hcur Hpath Hm Hdisk]. split; simpl; try done. by rewrite Hf. Qed.

Lemma poll_once_consistent node pid fault σ r σ' :
  chain_ok → temp_apart → (0 ≤ pc_from_block config)%Z → truthful node (poller σ) → consistent σ →
  poll_once node pid fault σ = (r, σ') →
  consistent σ' ∧ (next_from_block (poller σ) ≤ next_from_block (poller σ'))%Z
  ∧ (ready (service σ') = true → ready (service σ) = true
     ∨ ∃ head, fetch_block_number node (poller σ) = Ok head ∧ (head < next_from_block (poller σ'))%Z).
Proof.
  intros Hok Htemp Hfrom Htrue Hc Hp. pose proof (con_cursor _ Hc) as Hcur.
  apply poll_once_cases in Hp as [(-> & _)|(head & Hh & [(Hlt & _ & ->)|(Hge & r' & h & Hf & _)])]; [..|done|lia|done].
  - split; [done|]. split; [done|]. by left.
  - split; [by apply with_service_consistent|]. split; [done|]. intros _. right. by exists head.
  - destruct (proj1 Htrue head Hh) as [_ Hmax].
    destruct (poll_range_bounds (next_from_block (poller σ)) head) as [Hb Heq]; [lia|done|].
    apply finish_range_consistent in Hf as (Hc' & Hn & _ & Hr & _); [|done..].
    split; [done|]. split; [lia|]. intros [?|Hto]%Hr; [by left|]. right. exists head. split; [done|]. lia.
Qed.

(** ** Restarts *)

Lemma restart_consistent read_fails d self svc h :
  chain_ok → (0 ≤ pc_from_block config ≤ u64_MAX)%Z →
  (∀ path raw c, pc_cursor_path config = Some path → d !! path = Some raw →
     checkpoint_from_json raw = Ok c → version c = CHECKPOINT_VERSION →
     ∃ next, (next ≤ u64_MAX)%Z ∧ good_checkpoint c next) →
  poller_new read_fails config (start_indexer config) d = (Ok self, svc) →
  consistent {| poller := self; service := svc; past := h; disk := d |}.
Proof.
  intros Hok Hfrom Hd Hn. unfold poller_new in Hn.
  destruct (restore_checkpoint _ _ _ _) as [next svc'] eqn:Hr. injection Hn as Hn ->.
  apply bind_Ok in Hn as (n & -> & (addr & _ & [= <-])%bind_Ok).
  assert (mirrors (mirror (start_indexer config)) (pc_from_block config - 1)) as Hnew.
  { unfold mirrors. rewrite events_between_nil. unfold start_indexer. by destruct (polling_enabled config). }
  unfold restore_checkpoint in Hr. destruct (pc_cursor_path config) as [path|] eqn:Hpath.
  2: { injection Hr as <- <-. split; simpl; [lia|done|done|congruence]. }
  destruct (load_checkpoint read_fails path d) as [[c|]|e] eqn:Hload; [| |discriminate].
  - unfold load_checkpoint in Hload. destruct (d !! path) as [raw|] eqn:Hraw; [|discriminate].
    apply bind_Ok in Hload as (_ & _ & Hload).
    destruct (checkpoint_from_json raw) as [c'|] eqn:Hj; [injection Hload as ->|by destruct (parse_u64 _)].
    destruct (Z.eqb_spec (version c) CHECKPOINT_VERSION) as [Hv|]; [|discriminate].
    destruct (Hd path raw c eq_refl Hraw Hj Hv) as (next & Hmax & Hb & m & Hs & Hwf & Hm).
    simpl in Hr. unfold restore in Hr. rewrite Hs in Hr.
    destruct (snapshot_restores m Hwf) as (m' & Hm' & Heq). rewrite Hm' in Hr. injection Hr as <- <-.
    assert (u64_add (last_processed_block c) 1 = last_processed_block c + 1)%Z as Hadd
      by (unfold u64_add, saturating_add; lia).
    split; simpl; rewrite ?Hadd; [lia|done|..].
    + unfold mirrors. replace (last_processed_block c + 1 - 1)%Z with (last_processed_block c) by lia.
      etransitivity; [exact Heq|exact Hm].
    + intros path' raw' c2. rewrite Hpath. intros [= <-]. rewrite Hraw. intros [= <-]. rewrite Hj. intros [= <-] _.
      split; [lia|]. by exists m.
  - injection Hr as <- <-. split; simpl; [lia|done|done|].
    intros path' raw c. rewrite Hpath. intros [= <-] Hraw Hj Hv. unfold load_checkpoint in Hload. rewrite Hraw in Hload.
    apply bind_Ok in Hload as (_ & _ & Hload). by rewrite Hj in Hload.
Qed.

(** ** Reachable states *)

(** A file without a checkpoint: none, or the cursor of an older version. *)
Definition no_checkpoint (d : Disk) : Prop := ∀ path raw c,
  pc_cursor_path config = Some path → d !! path = Some raw → checkpoint_from_json raw ≠ Ok c.

(** The life of an indexer: it starts, polls, under any faults of the node and
    the file system, and is killed between polls and started again. The ghost of
    the services it was is forgotten. *)
Inductive reachable : PollState → Prop :=
| reach_start read_fails d self svc h :
    no_checkpoint d → poller_new read_fails config (start_indexer config) d = (Ok self, svc) →
    reachable {| poller := self; service := svc; past := h; disk := d |}
| reach_poll node pid fault σ r σ' :
    reachable σ → truthful node (poller σ) → poll_once node pid fault σ = (r, σ') → reachable σ'
| reach_restart read_fails σ self svc h :
    reachable σ → poller_new read_fails config (start_indexer config) (disk σ) = (Ok self, svc) →
    reachable {| poller := self; service := svc; past := h; disk := disk σ |}.

Lemma reachable_consistent σ :
  chain_ok → temp_apart → (0 ≤ pc_from_block config ≤ u64_MAX)%Z → reachable σ → consistent σ.
Proof.
  intros Hok Htemp Hfrom Hr. induction Hr as [rf d self svc h Hd Hn|node pid fault σ r σ' _ IH Ht Hp|rf σ self svc h _ IH Hn].
  - apply (restart_consistent rf); [done..| |done]. intros path raw c Hpath Hraw Hj. by destruct (Hd path raw c).
  - eapply poll_once_consistent; [done|done|lia|done..].
  - apply (restart_consistent rf); [done..| |done]. intros path raw c Hpath Hraw Hj Hv.
    exists (next_from_block (poller σ)). split; [apply (con_cursor _ IH)|]. by eapply (con_disk _ IH).
Qed.

Lemma refines_equiv m m' v : m ≡ m' → refines m' v → refines m v.
Proof.
  intros (Hn & Ho & Hl) [Rl Ro Ri Rn]. split.
  - intros i Hi. rewrite Hl by done. by apply Rl.
  - congruence.
  - intros i n Hv. rewrite Hn. by eapply Ri.
  - rewrite Hn. exact Rn.
Qed.

Lemma mirrors_refines m b : chain_ok → mirrors m b → refines m (vault_of (events_between (pc_from_block config) b)).
Proof.
  intros Hok Hm. eapply refines_equiv; [exact Hm|]. apply apply_events_refines; [by apply events_below|apply refines_new].
Qed.

(** C30: The indexer never serves half a history. Whatever the node and the file
    system do, failing at any call, and however often the process is killed and
    started again, in every reachable state the mirror is the vault after exactly
    the contract's events from the deployment block to the block before the
    cursor; and a checkpoint in the file is the snapshot of such a mirror at its
    own block, behind the cursor, from which [from_snapshot] restores the vault
    after exactly the events up to that block. *)
Theorem indexer_consistent σ :
  chain_ok → temp_apart → (0 ≤ pc_from_block config ≤ u64_MAX)%Z → reachable σ →
  (pc_from_block config ≤ next_from_block (poller σ))%Z
  ∧ refines (mirror (service σ))
      (vault_of (events_between (pc_from_block config) (next_from_block (poller σ) - 1)))
  ∧ ∀ path raw c, pc_cursor_path config = Some path → disk σ !! path = Some raw →
      checkpoint_from_json raw = Ok c → version c = CHECKPOINT_VERSION →
      (last_processed_block c < next_from_block (poller σ))%Z
      ∧ ∃ m, from_snapshot (checkpoint_mirror c) = Ok m
          ∧ refines m (vault_of (events_between (pc_from_block config) (last_processed_block c))).
Proof.
  intros Hok Htemp Hfrom Hr. pose proof (reachable_consistent _ Hok Htemp Hfrom Hr) as [Hcur _ Hm Hdisk].
  split; [lia|]. split; [by apply mirrors_refines|]. intros path raw c Hpath Hraw Hj Hv.
  destruct (Hdisk path raw c Hpath Hraw Hj Hv) as (Hb & m & -> & Hwf & Hmm). split; [lia|].
  destruct (snapshot_restores m Hwf) as (m' & Hm' & Heq). exists m'. split; [done|].
  eapply refines_equiv; [exact Heq|]. by apply mirrors_refines.
Qed.

(** ** Catching up *)

(** A node that answers everything, with the chain's head at [head]. *)
Definition answers (node : Node) (head : Z) (p : JsonRpcLogPoller) : Prop :=
  fetch_block_number node p = Ok head
  ∧ ∀ a b, (0 ≤ a ≤ b)%Z → (b < u64_MAX)%Z → fetch_logs node p a b = Ok (logs_between a b).
Lemma answers_same node head p q : same_node q p → answers node head p → answers node head q.
Proof.
  intros [Hu Ha] [Hb Hl]. split.
  - rewrite <- Hb. unfold fetch_block_number, rpc. by rewrite Hu.
  - intros a b Hr Hm. rewrite <- Hl by done. unfold fetch_logs, rpc, log_filter. by rewrite Hu, Ha.
Qed.

Fixpoint polls (node : Node) (pid : Z) (n : nat) (σ : PollState) : PollState :=
  match n with O => σ | S n' => polls node pid n' (poll_once node pid None σ).2 end.

Lemma poll_once_advances node pid head σ :
  chain_ok → temp_apart → (0 ≤ pc_from_block config)%Z → (0 ≤ head < u64_MAX)%Z →
  (∀ c, is_ok (checkpoint_to_json c) = true) → answers node head (poller σ) → consistent σ →
  let σ' := (poll_once node pid None σ).2 in
  consistent σ' ∧ same_node (poller σ') (poller σ)
  ∧ next_from_block (poller σ') = Z.max (next_from_block (poller σ)) (Z.min (head + 1) (next_from_block (poller σ) + 1000))
  ∧ ((head < next_from_block (poller σ'))%Z → ready (service σ') = true).
Proof.
  intros Hok Htemp Hfrom Hhead Hj [Hb Hl] Hc σ'. pose proof (con_cursor _ Hc) as Hcur.
  destruct (poll_once node pid None σ) as [r σ1] eqn:Hp. simpl in σ'. subst σ'.
  assert (truthful node (poller σ)) as Htrue.
  { split; [intros h; rewrite Hb; intros [= <-]; done|]. intros a b logs Ha Hm. rewrite Hl by done. by intros [= <-]. }
  pose proof Hp as Hcases.
  apply poll_once_cases in Hcases as [(-> & _ & Hf)|(h & Hh & Hcase)]; [| |done|lia|done].
  - exfalso. rewrite Hb in Hf. destruct Hf as [Hf|(a & b & Ha & Hm & Hf)]; [|rewrite Hl in Hf by done]; discriminate Hf.
  - rewrite Hb in Hh. injection Hh as <-. destruct Hcase as [(Hlt & _ & ->)|(Hge & r' & h' & Hf & _)].
    + split; [by apply with_service_consistent|]. split; [by split|]. split; [simpl; lia|done].
    + destruct (poll_range_bounds (next_from_block (poller σ)) head) as [Hb' Heq]; [lia|lia|].
      apply finish_range_consistent in Hf as (Hc' & Hn & Hsame & _ & Hlive); [|done..].
      destruct (Hlive eq_refl Hj) as [_ Hready]. split; [done|]. split; [done|]. split; [lia|].
      intros Hlt. apply Hready. lia.
Qed.

(** C31: The indexer catches up. Once the node answers and the files can be
    written, [n > 0] polls bring a reachable indexer to the head of the chain if
    it is at most [1000 * n] blocks behind: the cursor is one past the head, and
    the service answers, with the vault after all the events. *)
Theorem indexer_catches_up node pid head σ n :
  chain_ok → temp_apart → (0 ≤ pc_from_block config ≤ u64_MAX)%Z → reachable σ →
  (0 ≤ head < u64_MAX)%Z → (∀ c, is_ok (checkpoint_to_json c) = true) → answers node head (poller σ) →
  (0 < n)%nat → (head + 1 - next_from_block (poller σ) ≤ 1000 * Z.of_nat n)%Z →
  let σ' := polls node pid n σ in
  next_from_block (poller σ') = Z.max (next_from_block (poller σ)) (head + 1)
  ∧ handle_root (service σ') = Ok (mirror_root (mirror (service σ')))
  ∧ refines (mirror (service σ'))
      (vault_of (events_between (pc_from_block config) (next_from_block (poller σ') - 1))).
Proof.
  intros Hok Htemp Hfrom Hr Hhead Hj Hans Hn Hdist.
  apply reachable_consistent in Hr; [|done..].
  assert (∀ n σ, consistent σ → answers node head (poller σ) →
    (head + 1 - next_from_block (poller σ) ≤ 1000 * Z.of_nat n)%Z →
    (0 < n)%nat ∨ (head < next_from_block (poller σ))%Z ∧ ready (service σ) = true →
    consistent (polls node pid n σ)
    ∧ next_from_block (poller (polls node pid n σ)) = Z.max (next_from_block (poller σ)) (head + 1)
    ∧ ready (service (polls node pid n σ)) = true) as Hgo.
  { clear Hans Hdist Hr Hn σ n. induction n as [|n IH]; intros σ Hc Hans Hdist Hpos; simpl.
    - destruct Hpos as [?|[? ?]]; [lia|]. split; [done|]. split; [lia|done].
    - destruct (poll_once_advances node pid head σ) as (Hc' & Hsame & Hnext & Hready); [done|done|lia|done..|].
      set (σ1 := (poll_once node pid None σ).2) in *.
      destruct (IH σ1) as (Hc2 & Hn2 & Hr2); [done|by eapply answers_same|lia| |].
      + destruct (decide (0 < n)%nat); [by left|right]. assert (n = O) as -> by lia.
        assert (head < next_from_block (poller σ1))%Z by lia. auto.
      + split; [done|]. split; [lia|done]. }
  destruct (Hgo n σ) as (Hc' & Hnext & Hready); [done..|by left|].
  split; [exact Hnext|]. split; [unfold handle_root, ensure_ready; by rewrite Hready|].
  apply mirrors_refines; [done|]. apply (con_mirror _ Hc').
Qed.
End theory.
