(* ===== verification/IndexerServer.v ===== *)
(** * The indexer as a process: [run_indexer], [create_router] and the polling task

    Of [zkapi-indexerd/src/http.rs], [poller.rs] and [main.rs]: the configuration,
    the start, the task that polls at every tick, every service the routes may read
    beside it, and the routes; and that whatever the process answers, under any
    faults and in the middle of a poll, is true of the vault. *)

From Stdlib Require Import ZArith Lia Ascii.
From stdpp Require Import base tactics decidable numbers list gmap fin_maps sorting relations strings.
From S2P Require Import Prelude Text Float64 Json Types Errors Store StoreTheory.
From S2P Require Import ProviderTypes Dashboard World TreeMirror TreeMirrorTheory Poller PollerTheory Router.

Local Open Scope string_scope.

Record IndexerConfig := {
  ic_listen_addr : string;
  ic_rpc_url : string;
  ic_contract_address : string;
  ic_from_block : Z;
  ic_poll_interval_ms : Z;
  ic_cursor_path : option string;
}.
Definition IndexerConfig_default : IndexerConfig := {|
  ic_listen_addr := "0.0.0.0:3001";
  ic_rpc_url := pc_rpc_url PollerConfig_default;
  ic_contract_address := pc_contract_address PollerConfig_default;
  ic_from_block := pc_from_block PollerConfig_default;
  ic_poll_interval_ms := 1000;
  ic_cursor_path := pc_cursor_path PollerConfig_default;
|}.
Definition poller_config (config : IndexerConfig) : PollerConfig := {|
  pc_rpc_url := ic_rpc_url config;
  pc_contract_address := ic_contract_address config;
  pc_from_block := ic_from_block config;
  pc_cursor_path := ic_cursor_path config;
|}.

Inductive IndexerHandler := IxHandleHealth | IxHandleRoot | IxHandleNextNoteId | IxHandleSnapshot | IxHandleNotePath | IxHandleZeroPath.
Definition indexer_routes : list (Route IndexerHandler) := [
  {| rt_path := [Lit "health"]; rt_methods := [("GET", IxHandleHealth)] |};
  {| rt_path := [Lit "v1"; Lit "tree"; Lit "root"]; rt_methods := [("GET", IxHandleRoot)] |};
  {| rt_path := [Lit "v1"; Lit "tree"; Lit "next-note-id"]; rt_methods := [("GET", IxHandleNextNoteId)] |};
  {| rt_path := [Lit "v1"; Lit "tree"; Lit "snapshot"]; rt_methods := [("GET", IxHandleSnapshot)] |};
  {| rt_path := [Lit "v1"; Lit "tree"; Lit "notes"; Param; Lit "path"]; rt_methods := [("GET", IxHandleNotePath)] |};
  {| rt_path := [Lit "v1"; Lit "tree"; Lit "notes"; Param; Lit "zero-path"]; rt_methods := [("GET", IxHandleZeroPath)] |}].

Section indexer.
Context `{!FeltOps, !MerkleOps, !WireTypes, !WireOps, !JsonText, !SerdeText, !PollerOps, !Axum}.

(** ** Serving *)

(** [Err] is the bare status 503. *)
Inductive IndexerReply :=
| IxHealth (status : Z) (text : string)
| IxRoot (r : result Z Felt252)
| IxNextNoteId (r : result Z Z)
| IxSnapshot (r : result Z TreeSnapshotResponse)
| IxNotePath (r : result Z TreePathResponse)
| IxZeroPath (r : result Z TreePathResponse)
| IxStatus (status : Z).

(** A handler asks whether the service is ready before it locks the mirror, at
    [first]; the mirror it then reads is that of [self]. *)
Definition seen (first self : IndexerService) : IndexerService := {| mirror := mirror self; ready := ready first |}.
(** The reply at the service [self]; [self'] is the service when a path's
    siblings are read, after its leaf, under a lock of their own. *)
Definition indexer_serve (self self' : IndexerService) (method path : string) : IndexerReply :=
  match axum_dispatch indexer_routes method path with
  | Handled h params =>
      let with_note (wrap : result Z TreePathResponse → IndexerReply) f :=
        match axum_path_u32 params with Ok id => wrap (f id) | Err status => IxStatus status end in
      match h with
      | IxHandleHealth => let '(status, text) := indexer_health self in IxHealth status text
      | IxHandleRoot => IxRoot (handle_root self)
      | IxHandleNextNoteId => IxNextNoteId (handle_next_note_id self)
      | IxHandleSnapshot => IxSnapshot (handle_snapshot self)
      | IxHandleNotePath => with_note IxNotePath (handle_note_path self self')
      | IxHandleZeroPath => with_note IxZeroPath (handle_zero_path self)
      end
  | MethodNotAllowed => IxStatus 405
  | NotFound => IxStatus 404
  end.

(** ** The polling task *)

(** What a tick meets: the node, the process id of the checkpoint's temporary
    name, a fault of the file system. *)
Definition Tick : Type := Node * Z * option FsFault.
Definition poll_ticks (ticks : list Tick) (σ : PollState) : PollState :=
  fold_left (λ σ t, (poll_once t.1.1 t.1.2 t.2 σ).2) ticks σ.

(** [run_indexer]: the services the routes may read, in order of time. The task runs
    beside the routes, so these are all the services it goes through: the one it
    starts with, the one restored from a checkpoint, and the one after every single
    event of a poll. Without polling, or when the poller cannot be made, nothing is
    polled. *)
Definition run_indexer (read_fails : bool) (config : IndexerConfig) (d : Disk) (ticks : list Tick)
    : list IndexerService :=
  let start := start_indexer (poller_config config) in
  if polling_enabled (poller_config config) then
    match poller_new read_fails (poller_config config) start d with
    | (Ok poller, service) =>
        services (poll_ticks ticks {| poller := poller; service := service; past := [start]; disk := d |})
    | (Err _, service) => [start; service]
    end
  else [start].
End indexer.

(** ** What the services show *)

Section history.
Context `{!FeltOps, !MerkleOps, !WireTypes, !WireOps, !JsonText, !SerdeText, !PollerOps, !MerkleLaws, !PollerLaws}.
Context (chain : Z → list RpcLog) (config : IndexerConfig).
(** The heads the node reported. *)
Context (reported : Z → Prop).

(** The contract's events up to a block. *)
Definition log_to (b : Z) : list VaultEvent := events_between chain (ic_from_block config) b.
Lemma log_to_mono b b' : (b ≤ b')%Z → log_to b `prefix_of` log_to b'.
Proof.
  intros Hb. unfold log_to. destruct (decide (ic_from_block config ≤ b + 1)%Z) as [Hf|Hf].
  - rewrite (events_between_app chain _ b b') by done. by apply prefix_app_r.
  - replace (events_between chain (ic_from_block config) b) with (@nil VaultEvent); [by apply prefix_nil|].
    unfold events_between, logs_between. by rewrite seqZ_nil by lia.
Qed.

(** A service shows the vault after [es], and if it is ready, [es] goes at least to
    a head the node reported. *)
Definition shows (s : IndexerService) (es : list VaultEvent) : Prop :=
  refines (mirror s) (vault_of es) ∧ (ready s = true → ∃ head, reported head ∧ log_to head `prefix_of` es).
(** A history shows ever longer parts of the events up to block [b]. *)
Definition recorded (l : list IndexerService) (b : Z) : Prop :=
  ∃ ess, Forall2 shows l ess ∧ StronglySorted prefix ess ∧ Forall (λ es, es `prefix_of` log_to b) ess.

Lemma recorded_nil b : recorded [] b.
Proof. exists []. split; [constructor|]. split; constructor. Qed.
Lemma recorded_app l b l' ess' b' : recorded l b → (b ≤ b')%Z → Forall2 shows l' ess' → StronglySorted prefix ess' →
  Forall (λ es, log_to b `prefix_of` es ∧ es `prefix_of` log_to b') ess' → recorded (l ++ l') b'.
Proof.
  intros (ess & Hl & Hs & Hb) Hle Hl' Hs' Hb'. exists (ess ++ ess')%list. split; [by apply Forall2_app|]. split.
  - clear Hl. induction Hs as [|es ess Hs IH Hes]; [done|]. apply Forall_cons in Hb as [Hb Hbs]. cbn. constructor; [by apply IH|].
    apply Forall_app. split; [done|]. eapply Forall_impl; [exact Hb'|]. intros es' [Hp _]. by etransitivity.
  - apply Forall_app. split; [|eapply Forall_impl; [exact Hb'|]; by intros es [_ ?]].
    eapply Forall_impl; [exact Hb|]. intros es Hes. etransitivity; [exact Hes|by apply log_to_mono].
Qed.
Lemma recorded_last l s b : recorded (l ++ [s]) b → ready s = true → ∃ head, reported head ∧ log_to head `prefix_of` log_to b.
Proof.
  intros (ess & Hl & _ & Hb) Hr. apply Forall2_app_inv_l in Hl as (ess1 & ess2 & _ & Hl & ->).
  apply Forall2_cons_inv_l in Hl as (es & ess3 & [_ Hs] & _ & ->). destruct (Hs Hr) as (head & Hh & Hp).
  apply Forall_app in Hb as [_ [Hb _]%Forall_cons]. exists head. split; [done|by etransitivity].
Qed.

(** The services of a batch show its events one after the other. *)
Lemma after_shows es base s : Forall event_below es → shows s base → ∃ ess,
  Forall2 shows (after es s) ess ∧ StronglySorted prefix ess
  ∧ Forall (λ es', base `prefix_of` es' ∧ es' `prefix_of` (base ++ es)%list) ess.
Proof.
  intros Hes. revert base s. induction Hes as [|e es He _ IH]; intros base s [Hr Hh]; cbn [after].
  { exists []. split; [constructor|]. split; constructor. }
  assert (shows (service_process_event s e) (base ++ [e])) as Hshow.
  { split; cbn.
    - unfold vault_of. rewrite fold_left_app. by apply process_event_refines.
    - intros (head & Hrep & Hp)%Hh. exists head. split; [done|]. etransitivity; [exact Hp|by apply prefix_app_r]. }
  destruct (IH (base ++ [e])%list (service_process_event s e) Hshow) as (ess & Hl & Hs & Hb).
  exists ((base ++ [e]) :: ess)%list. split; [by constructor|split].
  - constructor; [done|]. eapply Forall_impl; [exact Hb|]. by intros es' [? _].
  - constructor; [split; [by apply prefix_app_r|apply prefix_app, (prefix_app_r [e] [e] es); done]|].
    eapply Forall_impl; [exact Hb|]. intros es' [Hp Hp']. rewrite <- app_assoc in Hp'. split; [|done].
    etransitivity; [|exact Hp]. by apply prefix_app_r.
Qed.

(** ** A life *)

Context (Hok : chain_ok chain) (Htemp : temp_apart (poller_config config))
  (Hfrom : (0 ≤ ic_from_block config ≤ u64_MAX)%Z).

Definition recording (σ : PollState) : Prop :=
  consistent chain (poller_config config) σ ∧ recorded (services σ) (next_from_block (poller σ) - 1).

Lemma recording_shows σ : recording σ → shows (service σ) (log_to (next_from_block (poller σ) - 1)).
Proof.
  intros [Hc Hrec]. split; [|intros Hready; by apply (recorded_last _ _ _ Hrec)].
  apply (mirrors_refines chain (poller_config config)); [done|apply (con_mirror _ _ _ Hc)].
Qed.

Lemma poll_once_recording node pid fault σ : truthful chain node (poller σ) →
  (∀ head, fetch_block_number node (poller σ) = Ok head → reported head) → recording σ →
  recording (poll_once node pid fault σ).2 ∧ same_node (poller (poll_once node pid fault σ).2) (poller σ).
Proof.
  intros Htrue Hreport Hr. pose proof (recording_shows _ Hr) as [Href Hready]. destruct Hr as [Hc Hrec].
  pose proof (con_cursor _ _ _ Hc) as Hcur. cbn in Hcur.
  destruct (poll_once_cases chain node pid fault σ _ _ Hok ltac:(lia) Htrue (surjective_pairing _))
    as [(-> & _)|(head & Hh & [(Hlt & _ & ->)|(Hge & r' & h & Hf & Hpast & _)])]; [by split| |].
  - split; [|by split]. split; [by apply with_service_consistent|]. cbn. unfold services at 1. cbn.
    eapply (recorded_app _ _ _ [log_to (next_from_block (poller σ) - 1)]); [exact Hrec|done| |by repeat constructor|by repeat constructor].
    constructor; [|constructor]. split; [done|]. intros _. exists head. split; [by apply Hreport|]. apply log_to_mono. lia.
  - destruct (proj1 Htrue head Hh) as [_ Hmax].
    destruct (poll_range_bounds (next_from_block (poller σ)) head) as [Hb Hrange]; [lia|done|].
    set (to := poll_range _ head) in *. cbv zeta in Hf, Hpast. set (es := events_between chain _ to) in *.
    assert (log_to to = log_to (next_from_block (poller σ) - 1) ++ es)%list as Hto.
    { unfold log_to. rewrite (events_between_app chain _ (next_from_block (poller σ) - 1) to) by lia.
      by replace (next_from_block (poller σ) - 1 + 1)%Z with (next_from_block (poller σ)) by lia. }
    assert (recorded (h ++ [{| mirror := apply_events es (mirror (service σ)); ready := ready (service σ) |}]) to) as Hbatch.
    { rewrite Hpast. destruct (after_shows es (log_to (next_from_block (poller σ) - 1)) (service σ)) as (ess & Hl & Hs & Hess);
        [by apply events_below|by split|].
      eapply recorded_app; [exact Hrec|lia|exact Hl|exact Hs|by rewrite Hto]. }
    pose proof Hf as Hsvc. apply (finish_range_services (poller_config config)) in Hsvc; [|done|apply (con_path _ _ _ Hc)].
    apply (finish_range_consistent chain (poller_config config)) in Hf as (Hc' & Hn & Hsame & _); [|done..].
    split; [|done]. split; [done|]. rewrite Hn. replace (to + 1 - 1)%Z with to by lia.
    destruct Hsvc as [->|[-> Heq]]; [exact Hbatch|].
    eapply (recorded_app _ _ _ [log_to to]); [exact Hbatch|done| |by repeat constructor|by repeat constructor].
    constructor; [|constructor]. split; cbn.
    + apply (mirrors_refines chain (poller_config config)); [done|]. apply mirrors_step; [done|cbn; lia|lia|apply (con_mirror _ _ _ Hc)].
    + intros _. exists head. split; [by apply Hreport|]. by rewrite Heq.
Qed.

Lemma sorted_lookup (ess : list (list VaultEvent)) i j es es' : StronglySorted prefix ess →
  ess !! i = Some es → ess !! j = Some es' → (i ≤ j)%nat → es `prefix_of` es'.
Proof.
  intros Hs. revert i j. induction Hs as [|x ess Hs IH Hx]; intros [|i] [|j] Hes Hes' Hle; try done.
  - by simplify_eq/=.
  - injection Hes as ->. by eapply Forall_lookup_1 in Hx.
  - lia.
  - eapply IH; [exact Hes|exact Hes'|lia].
Qed.
End history.

(** ** What it answers *)

Section answers.
Context `{!FeltOps, !MerkleOps, !WireTypes, !WireOps, !JsonText, !SerdeText, !PollerOps, !MerkleLaws, !PollerLaws}.
Context `{!Axum, !AxumLaws}.
Context (chain : Z → list RpcLog) (config : IndexerConfig) (ticks : list Tick) (read_fails : bool) (d : Disk).

(** The configured contract at the configured node. *)
Definition configured (p : JsonRpcLogPoller) : Prop :=
  rpc_url p = ic_rpc_url config ∧ normalize_address (ic_contract_address config) = Ok (contract_address p).
(** A head the node reported at one of the ticks. *)
Definition reported (head : Z) : Prop :=
  ∃ t p, t ∈ ticks ∧ configured p ∧ fetch_block_number t.1.1 p = Ok head.
(** The files hold no checkpoint, or what an earlier life of the indexer left. *)
Definition own_files : Prop :=
  no_checkpoint (poller_config config) d ∨ ∃ σ, reachable chain (poller_config config) σ ∧ disk σ = d.
(** The indexer polls the contract's log at a node that tells the truth or fails. *)
Record polls_vault : Prop := {
  pv_polling : polling_enabled (poller_config config) = true;
  pv_chain : chain_ok chain;
  pv_temp : temp_apart (poller_config config);
  pv_from : (0 ≤ ic_from_block config ≤ u64_MAX)%Z;
  pv_files : own_files;
  pv_node t p : t ∈ ticks → configured p → truthful chain t.1.1 p;
}.

Context (Hpolls : polls_vault).

Lemma poll_ticks_recording ticks' σ : ticks' ⊆ ticks → configured (poller σ) →
  recording chain config reported σ → recording chain config reported (poll_ticks ticks' σ).
Proof.
  destruct Hpolls as [Hp Hok Htemp Hfrom _ Hnode].
  revert σ. induction ticks' as [|[[node pid] fault] ticks' IH]; intros σ Hsub Hconf Hr; [done|].
  assert ((node, pid, fault) ∈ ticks) as Hin by (apply Hsub; by left).
  destruct (poll_once_recording chain config reported Hok Htemp Hfrom node pid fault σ) as [Hr' [Hu Ha]]; [|..].
  - by apply (Hnode _ _ Hin).
  - intros head Hh. by exists (node, pid, fault), (poller σ).
  - done.
  - apply IH; [intros t Ht; apply Hsub; by right| |exact Hr']. destruct Hconf. split; cbn; congruence.
Qed.

Lemma restore_unready rf c service d0 next service' :
  restore_checkpoint rf c service d0 = (next, service') → ready service' = ready service.
Proof.
  unfold restore_checkpoint. destruct (pc_cursor_path c) as [path|]; [|by intros [= _ <-]].
  destruct (load_checkpoint rf path d0) as [[cp|]|]; [|by intros [= _ <-]..].
  destruct (negb _); [by intros [= _ <-]|]. destruct (restore service _) as [s|] eqn:Hs; intros [= _ <-]; [|done].
  unfold restore in Hs. by destruct (from_snapshot _); [injection Hs as <-|].
Qed.
Lemma poller_new_unready r svc :
  poller_new read_fails (poller_config config) (start_indexer (poller_config config)) d = (r, svc) →
  ready (start_indexer (poller_config config)) = false ∧ ready svc = false.
Proof.
  unfold poller_new. destruct (restore_checkpoint _ _ _ _) as [next svc'] eqn:Hr. intros [= _ <-].
  apply restore_unready in Hr. rewrite Hr. unfold start_indexer. by rewrite (pv_polling Hpolls).
Qed.

(** The services of the life are never ready, or show ever longer parts of the
    contract's events. *)
Lemma run_indexer_recorded :
  (∀ self, self ∈ run_indexer read_fails config d ticks → ready self = false) ∨
  ∃ b, recorded chain config reported (run_indexer read_fails config d ticks) b.
Proof.
  destruct Hpolls as [Hp Hok Htemp Hfrom Hfiles Hnode]. unfold run_indexer. rewrite Hp.
  destruct (poller_new _ _ _ d) as [[self|e] svc] eqn:Hn; pose proof (poller_new_unready _ _ Hn) as [Hs Hsvc].
  2: { left. intros s [->|Hin]%elem_of_cons; [done|]. apply list_elem_of_singleton in Hin as ->. done. }
  right. set (σ0 := {| poller := self |}).
  assert (consistent chain (poller_config config) σ0) as Hc.
  { apply (restart_consistent chain (poller_config config) read_fails); [done..| |exact Hn].
    intros path raw c Hpath Hraw Hj Hv. destruct Hfiles as [Hno|(σ & Hr & <-)]; [by destruct (Hno path raw c)|].
    apply reachable_consistent in Hr; [|done..]. exists (next_from_block (poller σ)).
    split; [apply (con_cursor _ _ _ Hr)|]. by eapply (con_disk _ _ _ Hr). }
  eexists. apply (poll_ticks_recording ticks σ0); [done| |split; [exact Hc|]].
  - unfold poller_new in Hn. destruct (restore_checkpoint _ _ _ _) as [next svc']. injection Hn as Hn _.
    apply bind_Ok in Hn as (n & _ & (addr & Haddr & [= <-])%bind_Ok). by split.
  - exists [[]; log_to chain config (next_from_block (poller σ0) - 1)]. split; [|split; [|by apply Forall_cons; split; [apply prefix_nil|apply Forall_singleton]]].
    + assert (∀ s es, ready s = false → refines (mirror s) (vault_of es) → shows chain config reported s es) as Hshow
        by (intros s es Hr Hm; split; [done|by rewrite Hr]).
      constructor; [|constructor; [|constructor]]; apply Hshow; try done.
      * unfold start_indexer. rewrite Hp. apply refines_new.
      * apply (mirrors_refines chain (poller_config config)); [done|apply (con_mirror _ _ _ Hc)].
    + repeat constructor. apply prefix_nil.
Qed.

(** The vault after an initial part of the contract's events, in the order of the
    chain, that goes at least to a head the node reported: what a route may speak
    of. It may end between two events of one block, as the poller applies a range
    event by event while the routes serve. *)
Definition moment (es : list VaultEvent) : Prop :=
  ∃ head b, reported head ∧ log_to chain config head `prefix_of` es ∧ es `prefix_of` log_to chain config b.

(** Three services of the life, the first ready: the other two show two such
    vaults in turn. *)
Lemma run_indexer_moments k i j first self self' : (k ≤ i ≤ j)%nat →
  run_indexer read_fails config d ticks !! k = Some first → run_indexer read_fails config d ticks !! i = Some self →
  run_indexer read_fails config d ticks !! j = Some self' → ready first = true →
  ∃ es es', moment es ∧ moment es' ∧ es `prefix_of` es'
    ∧ refines (mirror self) (vault_of es) ∧ refines (mirror self') (vault_of es').
Proof.
  intros Hle Hk Hi Hj Hready. destruct run_indexer_recorded as [Hun|[b (ess & Hl & Hs & Hb)]].
  { rewrite Hun in Hready by (by eapply list_elem_of_lookup_2). discriminate Hready. }
  destruct (Forall2_lookup_l _ _ _ _ _ Hl Hk) as (es0 & Hes0 & [_ Hh]). destruct (Hh Hready) as (head & Hhead & Hto).
  destruct (Forall2_lookup_l _ _ _ _ _ Hl Hi) as (es & Hes & [Hr _]).
  destruct (Forall2_lookup_l _ _ _ _ _ Hl Hj) as (es' & Hes' & [Hr' _]).
  assert (es0 `prefix_of` es) as Hp0 by (eapply sorted_lookup; [exact Hs|exact Hes0|exact Hes|lia]).
  assert (es `prefix_of` es') as Hp by (eapply sorted_lookup; [exact Hs|exact Hes|exact Hes'|lia]).
  assert (∀ x es1, es0 `prefix_of` es1 → ess !! x = Some es1 → moment es1) as Hmoment.
  { intros x es1 Hp1 Hx. exists head, b. split; [done|]. split; [by etransitivity|by eapply Forall_lookup_1 in Hb]. }
  exists es, es'. split; [by eapply Hmoment|]. split; [eapply Hmoment; [|done]; by etransitivity|]. done.
Qed.

(** ** Replies *)

(** A tree that holds the vault's leaves: its root and paths are the vault's. *)
Definition tree_of (v : gmap Z Note) (t : MerkleTree) : Prop := ∀ i, in_u32 i → tree_get_leaf t i = vault_leaf v i.
Definition root_of (v : gmap Z Note) (root : Felt252) : Prop := ∃ t, tree_of v t ∧ root = tree_root t.
Definition path_of (v : gmap Z Note) (i : Z) (siblings : list Felt252) : Prop :=
  ∃ t, tree_of v t ∧ siblings = tree_siblings t i.
(** The first id above all notes: zero of an empty vault, else one past a note. *)
Definition next_id (v : gmap Z Note) (n : Z) : Prop :=
  (∀ i note, v !! i = Some note → (0 ≤ i < n)%Z) ∧ (n = 0%Z ∧ v = ∅ ∨ is_Some (v !! (n - 1)%Z)).

(** The service has not caught up yet, or there is no such route or note id. *)
Definition refusal (reply : IndexerReply) : Prop :=
  match reply with
  | IxHealth status text => status = 503%Z ∧ text = "syncing"
  | IxRoot (Err status) | IxNextNoteId (Err status) | IxSnapshot (Err status) | IxNotePath (Err status)
  | IxZeroPath (Err status) => status = 503%Z
  | IxStatus _ => True
  | _ => False
  end.
(** The note id a path asks for. *)
Definition asked_note (method path : string) : option Z :=
  match axum_dispatch indexer_routes method path with
  | Handled _ params => ok (axum_path_u32 params)
  | _ => None
  end.
(** What the reply to a request for note [asked] says of the vault [v], and of [v'],
    the vault when the siblings of a note's path are read. *)
Definition reply_true (asked : option Z) (v v' : gmap Z Note) (reply : IndexerReply) : Prop :=
  match reply with
  | IxHealth status text => status = 200%Z ∧ text = "ok"
  | IxRoot (Ok root) => root_of v root
  | IxNextNoteId (Ok n) => next_id v n
  | IxSnapshot (Ok s) =>
      root_of v (ts_root s) ∧ next_id v (ts_next_note_id s)
      ∧ ts_leaves s = map (vault_leaf v) (seqZ 0 (ts_next_note_id s))
  | IxNotePath (Ok p) =>
      asked = Some (tp_note_id p) ∧ tp_leaf p = vault_leaf v (tp_note_id p) ∧ path_of v' (tp_note_id p) (tp_siblings p)
  | IxZeroPath (Ok p) =>
      asked = Some (tp_note_id p) ∧ tp_leaf p = ZERO ∧ path_of v (tp_note_id p) (tp_siblings p)
  | _ => False
  end.

Lemma refines_tree m v : refines m v → tree_of v (tree m).
Proof. intros Hr i Hi. by apply (ref_leaf _ _ Hr). Qed.
Lemma refines_root m v : refines m v → root_of v (mirror_root m).
Proof. intros Hr. exists (tree m). split; [by apply refines_tree|done]. Qed.
Lemma refines_path m v i : refines m v → path_of v i (get_path m i).
Proof. intros Hr. exists (tree m). split; [by apply refines_tree|done]. Qed.
Lemma refines_next m v : refines m v → next_id v (next_note_id m).
Proof.
  intros Hr. split; [apply (ref_ids _ _ Hr)|]. destruct (ref_next _ _ Hr) as [[Hn ->]|[_ Hs]]; [by left|by right].
Qed.
Lemma refines_leaves m v : refines m v → current_leaves m = map (vault_leaf v) (seqZ 0 (next_note_id m)).
Proof.
  intros Hr. apply map_ext_in. intros i Hi%list_elem_of_In%elem_of_seqZ. apply (ref_leaf _ _ Hr).
  destruct (ref_next _ _ Hr) as [[Hn _]|[Hn _]]; unfold in_u32; lia.
Qed.
(** The roots and paths of a vault do not depend on the tree. *)
Lemma root_of_all v root t : root_of v root → tree_of v t → root = tree_root t.
Proof. intros (t' & Ht' & ->) Ht. apply root_leaves. intros i Hi. by rewrite Ht, Ht'. Qed.
Lemma path_of_all v i siblings t : path_of v i siblings → tree_of v t → siblings = tree_siblings t i.
Proof. intros (t' & Ht' & ->) Ht. apply siblings_leaves. intros j Hj. by rewrite Ht, Ht'. Qed.

(** C27: the indexer answers for the vault, while it polls. In a life of the
    indexer over the files of an earlier one or none, at any ticks at a node that
    tells the truth or fails and under any file faults, let a request read the
    service's readiness, the mirror, and for a path the mirror again, at any times in
    that order, also in the middle of a poll. The reply is a refusal, or true: of
    the vault after an initial part of the contract's events, in their order, that
    reaches at least a head the node reported, it gives the root, the first free id
    exactly, all leaves, the leaf of the note asked for; and the path of that note
    in the same vault or in a later one, if events came between the two reads. *)
Theorem indexer_answers_for_vault k i j first self self' method path : (k ≤ i ≤ j)%nat →
  run_indexer read_fails config d ticks !! k = Some first → run_indexer read_fails config d ticks !! i = Some self →
  run_indexer read_fails config d ticks !! j = Some self' →
  let reply := indexer_serve (seen first self) self' method path in
  refusal reply ∨
  ∃ es es', moment es ∧ moment es' ∧ es `prefix_of` es'
    ∧ reply_true (asked_note method path) (vault_of es) (vault_of es') reply.
Proof.
  intros Hle Hk Hi Hj reply. destruct (ready first) eqn:Hready.
  - destruct (run_indexer_moments k i j first self self' Hle Hk Hi Hj Hready) as (es & es' & He & He' & Hp & Hr & Hr').
    subst reply. unfold indexer_serve, asked_note.
    destruct (axum_dispatch _ _ _) as [[] params| |]; [..|by left|by left];
      try (destruct (axum_path_u32 params) as [id|] eqn:Hid; [|by left]); right; exists es, es'; do 3 (split; [done|]); cbn;
      unfold indexer_health, handle_root, handle_next_note_id, handle_note_path, handle_zero_path, handle_snapshot, ensure_ready;
      cbn; rewrite Hready; cbn.
    + done.
    + by apply refines_root.
    + by apply refines_next.
    + split; [by apply refines_root|]. split; [by apply refines_next|by apply refines_leaves].
    + split; [done|]. split; [apply (ref_leaf _ _ Hr); by apply axum_u32_range in Hid|by apply refines_path].
    + split; [done|]. split; [done|by apply refines_path].
  - left. subst reply. unfold indexer_serve. destruct (axum_dispatch _ _ _) as [[] params| |]; [..|done|done];
      try (destruct (axum_path_u32 params) as [id|]; [|done]); cbn;
      unfold indexer_health, handle_root, handle_next_note_id, handle_note_path, handle_zero_path, handle_snapshot, ensure_ready;
      cbn; by rewrite Hready.
Qed.
End answers.
