(* ===== verification/DecodeTheory.v ===== *)
(** * Logs decode to the events they encode *)

From Stdlib Require Import ZArith Lia Ascii.
From stdpp Require Import base tactics decidable numbers list gmap strings.
From S2P Require Import Prelude Text Float64 Json Types Errors Store StoreTheory.
From S2P Require Import ProviderTypes Dashboard World TreeMirror TreeMirrorTheory Poller PollerTheory.

Local Open Scope string_scope.

(** ** Block numbers in requests *)

(** The block numbers a request carries are those the node reads. *)
Lemma parse_show_hex n : in_u64 n → parse_hex_u64 ("0x" +:+ show_hex n) = Ok n.
Proof.
  intros Hn. unfold parse_hex_u64.
  destruct (show_hex_digits_spec (S (Z.to_nat (Z.log2 n))) n "" u64_MAX) as (Hp & Hs & Hne); [done| |lia|].
  { unfold in_u64 in Hn. destruct (decide (n = 0%Z)) as [->|]; [reflexivity|].
    pose proof (Z.log2_spec n ltac:(lia)) as [_ Hl]. pose proof (Z.log2_nonneg n).
    eapply Z.lt_le_trans; [exact Hl|]. rewrite Nat2Z.inj_succ, Z2Nat.id by lia.
    apply Z.pow_le_mono_l. lia. }
  fold (show_hex n) in Hp, Hs, Hne. rewrite trim_solid.
  2: { rewrite str_forall_app. by rewrite (solid_hex _ Hs). }
  assert (strip_0x ("0x" +:+ show_hex n) = show_hex n) as ->.
  { unfold strip_0x. by rewrite (proj2 (strip_prefix_spec "0x" _ (show_hex n)) eq_refl). }
  unfold parse_uint. destruct (show_hex n) as [|c s]; [done|]. simpl in Hs.
  apply andb_true_iff in Hs as [Hc _].
  assert (strip_prefix "+" (String c s) = None) as ->.
  { cbn [strip_prefix]. destruct (Ascii.eqb_spec "+" c) as [<-|]; [discriminate Hc|done]. }
  cbn [default]. rewrite (proj2 (String.eqb_neq _ _)) by done. by rewrite Hp.
Qed.

(** ** Words *)

Lemma word_u64 n : in_u64 n → word_to_u64 (be_bytes 32 n) = n.
Proof.
  intros Hn. unfold word_to_u64. change 32%nat with (24 + 8)%nat. rewrite be_bytes_tail, be_value_bytes.
  rewrite Z.mod_small; [lia|]. unfold in_u64, u64_MAX in Hn. lia.
Qed.
Lemma word_u128 n : in_u128 n → word_to_u128 (be_bytes 32 n) = n.
Proof.
  intros Hn. unfold word_to_u128. change 32%nat with (16 + 16)%nat. rewrite be_bytes_tail, be_value_bytes.
  rewrite Z.mod_small; [lia|]. unfold in_u128, u128_MAX in Hn. lia.
Qed.

#[local] Arguments be_bytes : simpl never.
#[local] Arguments word_to_u64 : simpl never.
#[local] Arguments word_to_u128 : simpl never.

Section decode.
Context `{!FeltOps, !MerkleOps, !MerkleLaws, !WireTypes, !WireOps, !JsonText, !SerdeText, !PollerOps, !PollerLaws}.

(** The data of a log: its words in hex. *)
Definition hex_words (words : list Word) : string := foldr (λ w s, hex_encode w +:+ s) "" words.
Definition log_data (words : list Word) : string := "0x" +:+ hex_words words.
Definition is_word (w : Word) : Prop := String.length w = 32%nat.

Lemma hex_words_length words :
  Forall is_word words → String.length (hex_words words) = (64 * length words)%nat.
Proof.
  induction 1 as [|w words Hw _ IH]; [done|]. simpl. rewrite str_length_app, hex_length, IH.
  unfold is_word in Hw. lia.
Qed.
Lemma hex_words_hex words : str_forall is_ascii_hexdigit (hex_words words) = true.
Proof. induction words as [|w words IH]; [done|]. simpl. by rewrite str_forall_app, hex_digits, IH. Qed.

Lemma decode_words_step fuel raw : raw ≠ "" →
  decode_words (S fuel) raw =
    (word ← map_err (λ _, "invalid hex in log data") (hex_decode (String.substring 0 64 raw));
     words ← decode_words fuel (String.substring 64 (String.length raw - 64) raw);
     Ok (word :: words)).
Proof. by destruct raw. Qed.

Lemma decode_words_hex fuel words :
  Forall is_word words → (length words ≤ fuel)%nat → decode_words fuel (hex_words words) = Ok words.
Proof.
  intros Hw. revert fuel. induction Hw as [|w words Hw _ IH]; intros fuel Hf; [by destruct fuel|].
  destruct fuel as [|fuel]; simpl in Hf; [lia|].
  assert (String.length (hex_encode w) = 64%nat) as Hl by (rewrite hex_length, Hw; done).
  rewrite decode_words_step by (simpl; intros Heq; by destruct (hex_encode w)). cbn [hex_words foldr].
  rewrite <- Hl at 1. rewrite substring_app_l, hex_roundtrip. simpl.
  rewrite <- Hl, substring_app_r, str_length_app.
  fold (hex_words words). rewrite Nat.add_comm, Nat.add_sub.
  rewrite substring_all, IH by lia. done.
Qed.

Lemma split_words_data words : Forall is_word words → split_words (log_data words) = Ok words.
Proof.
  intros Hw. unfold split_words. cbv zeta. rewrite trim_solid.
  2: { unfold log_data. rewrite str_forall_app. by rewrite (solid_hex _ (hex_words_hex words)). }
  assert (strip_0x (log_data words) = hex_words words) as ->.
  { unfold log_data, strip_0x. by rewrite (proj2 (strip_prefix_spec "0x" _ (hex_words words)) eq_refl). }
  rewrite hex_words_length by done. rewrite Nat.mul_comm, Nat.Div0.mod_mul. simpl.
  apply decode_words_hex; [done|lia].
Qed.

(** ** The contract's logs *)

(** The ABI of the contract's events: the signature's topic, the indexed note id
    and commitment, the other fields as words of the data. *)
Definition id_topic (t : string) (id : Z) : Prop :=
  in_u32 id ∧ ∃ f, from_hex t = Ok f ∧ felt_to_u64 f = Some id.
Inductive vault_log : RpcLog → VaultEvent → option Felt252 → Prop :=
| log_deposited bn t id tc c amount expiry root :
    id_topic t id → from_hex tc = Ok c → in_u128 amount → in_u64 expiry → is_word root →
    vault_log {| block_number := bn; topics := [event_topic SIG_DEPOSITED; t; tc];
                 data := log_data [be_bytes 32 amount; be_bytes 32 expiry; root] |}
      (NoteDeposited id c amount expiry (felt_of_word root)) (Some (felt_of_word root))
| log_closed bn t id nullifier balance recipient :
    id_topic t id → is_word nullifier → in_u128 balance → is_word recipient →
    vault_log {| block_number := bn; topics := [event_topic SIG_CLOSED; t];
                 data := log_data [nullifier; be_bytes 32 balance; recipient] |}
      (MutualClose id (felt_of_word nullifier) balance) None
| log_initiated bn t id nullifier balance recipient deadline root :
    id_topic t id → is_word nullifier → in_u128 balance → is_word recipient → in_u64 deadline → is_word root →
    vault_log {| block_number := bn; topics := [event_topic SIG_INITIATED; t];
                 data := log_data [nullifier; be_bytes 32 balance; recipient; be_bytes 32 deadline; root] |}
      (EscapeWithdrawalInitiated id (felt_of_word nullifier) balance deadline (felt_of_word root))
      (Some (felt_of_word root))
| log_challenged bn t id nullifier root :
    id_topic t id → is_word nullifier → is_word root →
    vault_log {| block_number := bn; topics := [event_topic SIG_CHALLENGED; t]; data := log_data [nullifier; root] |}
      (EscapeWithdrawalChallenged id (felt_of_word nullifier) (felt_of_word root)) (Some (felt_of_word root))
| log_finalized bn t id nullifier balance recipient :
    id_topic t id → is_word nullifier → in_u128 balance → is_word recipient →
    vault_log {| block_number := bn; topics := [event_topic SIG_FINALIZED; t];
                 data := log_data [nullifier; be_bytes 32 balance; recipient] |}
      (EscapeWithdrawalFinalized id (felt_of_word nullifier) balance) None
| log_expired bn t id amount root :
    id_topic t id → in_u128 amount → is_word root →
    vault_log {| block_number := bn; topics := [event_topic SIG_EXPIRED; t]; data := log_data [be_bytes 32 amount; root] |}
      (ExpiredClaimed id amount (felt_of_word root)) (Some (felt_of_word root)).

Lemma topic_u32 t id : id_topic t id → topic_to_u32 t = Ok id.
Proof.
  intros (Hid & f & Hf & Hu). unfold topic_to_u32. rewrite Hf. simpl. rewrite Hu. simpl.
  destruct (Z.ltb_spec u32_MAX id) as [Hlt|]; [|done]. unfold in_u32 in Hid. lia.
Qed.

Definition signatures : list string :=
  [SIG_DEPOSITED; SIG_CLOSED; SIG_INITIATED; SIG_CHALLENGED; SIG_FINALIZED; SIG_EXPIRED].

Lemma topics_differ s s' :
  NoDup (map event_topic signatures) → bool_decide (s ∈ signatures) = true → bool_decide (s' ∈ signatures) = true →
  bool_decide (s = s') = false → String.eqb (event_topic s) (event_topic s') = false.
Proof.
  intros Hnd Hs%bool_decide_eq_true Hs'%bool_decide_eq_true Hne%bool_decide_eq_false.
  apply String.eqb_neq. intros Heq. apply Hne.
  apply list_elem_of_lookup in Hs as (i & Hi). apply list_elem_of_lookup in Hs' as (j & Hj).
  assert (i = j) as <-; [|congruence].
  apply (NoDup_lookup _ _ _ (event_topic s) Hnd); rewrite list_lookup_fmap; [by rewrite Hi|].
  rewrite Hj. simpl. by rewrite Heq.
Qed.
(** Decide the next comparison of topics. *)
Ltac step_topic Hnd :=
  match goal with
  | |- context [String.eqb (event_topic ?s) (event_topic ?s)] => rewrite (String.eqb_refl (event_topic s))
  | |- context [String.eqb (event_topic ?s) (event_topic ?s')] =>
      rewrite (topics_differ s s' Hnd) by (vm_compute; reflexivity)
  end.

(** C40: Logs decode to the events they encode. If the six event topics are
    distinct, every log that encodes a vault event by the contract's ABI, with
    every field in the range of its type, decodes to exactly that event, with the
    tree root the event announces, if it announces one. *)
Theorem decode_log_complete log e root :
  NoDup (map event_topic signatures) → vault_log log e root → decode_log log = Ok (Some (e, root)).
Proof.
  intros Hnd Hlog.
  assert (∀ n, is_word (be_bytes 32 n)) as Hw by (intros n; apply be_bytes_length).
  destruct Hlog as [bn t id tc c amount expiry root Hid Hc Ha Hx Hr|bn t id n b rc Hid Hn Hb Hrc
    |bn t id n b rc d root Hid Hn Hb Hrc Hd Hr|bn t id n root Hid Hn Hr|bn t id n b rc Hid Hn Hb Hrc
    |bn t id amount root Hid Ha Hr];
    unfold decode_log; cbn [topics data]; rewrite split_words_data by (repeat constructor; auto).
  all: cbn [mbind result_bind]; repeat step_topic Hnd; unfold decode_deposited, decode_closed, decode_initiated,
    decode_challenged, decode_finalized, decode_expired, topic_to_felt, word_to_felt;
    rewrite (topic_u32 _ _ Hid); cbn [mbind result_bind]; rewrite ?Hc; simpl;
    rewrite ?word_u128, ?word_u64 by done; reflexivity.
Qed.
End decode.
