(* ===== verification/IndexerWitnesses.v ===== *)
(** * A concrete indexer

    A tree kept as a finite map, a JSON node over a one-event chain, and the
    inputs at which the properties of the mirror and the poller hold. *)

From Stdlib Require Import ZArith Lia Ascii.
From stdpp Require Import base tactics decidable numbers list gmap fin_maps strings.
From S2P Require Import Prelude Text Float64 Json Http Types Errors Store StoreTheory.
From S2P Require Import ProviderTypes Dashboard World Toy TreeMirror TreeMirrorTheory Poller PollerTheory.
From S2P Require Import DecodeTheory Router IndexerServer.

Local Open Scope string_scope.

(** ** The tree *)

(** The leaves that are not zero, at [u32] indices. *)
Definition shown (i : Z) (x : string) : bool := (0 <=? i)%Z && (i <=? u32_MAX)%Z && negb (String.eqb x "0x0").
Definition toy_leaves (t : gmap Z string) : gmap Z string := filter (λ p, shown p.1 p.2 = true) t.
Definition toy_root (t : gmap Z string) : string :=
  enc_list (concat (map (λ p, [enc_Z p.1; p.2]) (map_to_list (toy_leaves t)))).

#[export] Instance toy_merkle : MerkleOps := {|
  MerkleTree := gmap Z string;
  tree_new := ∅;
  tree_root := toy_root;
  tree_get_leaf t i := default "0x0" (t !! i);
  tree_set_leaf t i x := <[i := x]> t;
  tree_siblings t i := [enc_Z i; toy_root t];
  compute_note_leaf i c a x := enc_list ["leaf"; enc_Z i; c; enc_Z a; enc_Z x];
  felt_is_zero x := String.eqb x "0x0";
|}.

Lemma toy_leaves_ext (t t' : gmap Z string) :
  (∀ i, in_u32 i → default "0x0" (t !! i) = default "0x0" (t' !! i)) → toy_leaves t = toy_leaves t'.
Proof.
  intros Hl. apply map_eq. intros i. unfold toy_leaves.
  destruct (decide (in_u32 i)) as [Hi|Hi].
  - specialize (Hl i Hi). rewrite !map_lookup_filter.
    assert (shown i "0x0" = false) as Hz by (unfold shown; by rewrite String.eqb_refl, andb_false_r).
    destruct (t !! i) as [x|], (t' !! i) as [y|]; simpl in *; subst; rewrite ?Hz; done.
  - assert (∀ x, shown i x = false) as Hs.
    { intros x. unfold shown. apply andb_false_iff. left. apply andb_false_iff.
      destruct (Z.leb_spec 0 i); [right|by left]. apply Z.leb_gt. unfold in_u32 in Hi. lia. }
    rewrite !map_lookup_filter. destruct (t !! i), (t' !! i); simpl; rewrite ?Hs; done.
Qed.

#[export] Instance toy_merkle_laws : MerkleLaws.
Proof.
  split.
  - done.
  - intros t i x j _ _. simpl. rewrite lookup_insert. by case_decide.
  - intros t t' Hl. simpl. unfold toy_root. by rewrite (toy_leaves_ext t t' Hl).
  - intros t t' i Hl. simpl. unfold toy_root. by rewrite (toy_leaves_ext t t' Hl).
  - intros x. apply String.eqb_eq.
Qed.

(** ** Checkpoints and words *)

Definition checkpoint_fields (c : @IndexerCheckpoint toy_felt) : list string :=
  [enc_Z (version c); enc_Z (last_processed_block c); enc_Z (s_next_note_id (checkpoint_mirror c));
   enc_list (s_current_leaves (checkpoint_mirror c));
   enc_list (concat (map (λ p, [enc_Z p.1; p.2]) (s_original_leaves (checkpoint_mirror c))))].
Definition toy_checkpoint (c : @IndexerCheckpoint toy_felt) : string := enc_list (checkpoint_fields c).
Fixpoint pairs (l : list string) : list (Z * string) :=
  match l with i :: x :: l' => (dec_Z i, x) :: pairs l' | _ => [] end.
Definition dec_all (s : string) : option (list string) := dec_list (String.length s) s.
Definition toy_read_checkpoint (s : string) : option (@IndexerCheckpoint toy_felt) :=
  fields ← dec_all s;
  match fields with
  | [v; b; n; leaves; originals] =>
      leaves ← dec_all leaves; originals ← dec_all originals;
      Some {| version := dec_Z v; last_processed_block := dec_Z b;
              checkpoint_mirror := {| s_next_note_id := dec_Z n; s_current_leaves := (leaves : list (@Felt252 toy_felt));
                                      s_original_leaves := pairs originals |} |}
  | _ => None
  end.

Lemma dec_all_list l : dec_all (enc_list l) = Some l.
Proof. apply dec_enc_list, enc_list_length. Qed.
Lemma pairs_concat (l : list (Z * string)) : pairs (concat (map (λ p, [enc_Z p.1; p.2]) l)) = l.
Proof. induction l as [|[i x] l IH]; [done|]. simpl. by rewrite dec_enc_Z, IH. Qed.
Lemma toy_checkpoint_read c : toy_read_checkpoint (toy_checkpoint c) = Some c.
Proof.
  unfold toy_read_checkpoint, toy_checkpoint. rewrite dec_all_list. simpl. rewrite !dec_all_list. simpl.
  rewrite pairs_concat, !dec_enc_Z. by destruct c as [? ? []].
Qed.

#[export] Instance toy_poller : PollerOps := {|
  hex_decode s := ok_or "not hex" (toy_unhex s);
  felt_of_word w := (w : @Felt252 toy_felt);
  felt_to_u64 f := Some (be_value 0 f);
  checkpoint_to_json c := Ok (toy_checkpoint c);
  checkpoint_from_json s := ok_or "not a checkpoint" (toy_read_checkpoint s);
|}.
#[export] Instance toy_poller_laws : PollerLaws.
Proof.
  split.
  - intros c s [= <-]. simpl. by rewrite toy_checkpoint_read.
  - intros w. simpl. by rewrite toy_unhex_hex.
  - apply toy_hex_length.
  - apply toy_hex_digits.
Qed.

(** ** A chain with one event, and its node *)

Definition root_word : Word := be_bytes 32 5.
Definition deposit_words : list Word := [be_bytes 32 55; be_bytes 32 1700; root_word].
Definition deposit_log : RpcLog := {|
  block_number := "0x1";
  data := log_data deposit_words;
  topics := [event_topic SIG_DEPOSITED; be_bytes 32 7; "c"];
|}.
Definition deposit : VaultEvent := NoteDeposited 7 ("c" : @Felt252 toy_felt) 55 1700 (felt_of_word root_word).
Definition toy_chain (b : Z) : list RpcLog := if (b =? 1)%Z then [deposit_log] else [].

Definition log_value (log : RpcLog) : Value :=
  Object [("blockNumber", Str (block_number log)); ("data", Str (data log)); ("topics", Array (map Str (topics log)))].
(** The flat objects of the replies, as lists of keys and tagged values. *)
Definition value_text (v : Value) : string :=
  match v with
  | Str s => enc_list ["str"; s]
  | Num (PosInt n) => enc_list ["int"; enc_Z n]
  | Array l => enc_list ("array" :: map (λ v, default "" (as_str v)) l)
  | _ => ""
  end.
Definition text_value (s : string) : option Value :=
  fields ← dec_all s;
  match fields with
  | tag :: l =>
      if String.eqb tag "array" then Some (Array (map Str l))
      else if String.eqb tag "str" then Str <$> head l
      else Num ∘ PosInt ∘ dec_Z <$> head l
  | [] => None
  end.
Fixpoint members (l : list string) : option (list (string * Value)) :=
  match l with
  | k :: x :: l' => v ← text_value x; cons (k, v) <$> members l'
  | _ => Some []
  end.
Definition flat (v : Value) : Prop :=
  match v with Str _ | Num (PosInt _) => True | Array l => Forall (λ v, ∃ s, v = Str s) l | _ => False end.
Lemma text_value_text v : flat v → text_value (value_text v) = Some v.
Proof.
  destruct v as [| |[]| |l|]; try done; intros Hv; unfold text_value, value_text; rewrite dec_all_list; cbn [mbind option_bind].
  - cbn. by rewrite dec_enc_Z.
  - done.
  - cbn. do 2 f_equal. induction Hv as [|v l [s ->] _ IH]; [done|]. cbn. by f_equal.
Qed.
Lemma members_text m : Forall (λ p, flat p.2) m → members (concat (map (λ p, [p.1; value_text p.2]) m)) = Some m.
Proof. induction 1 as [|[k v] m Hv _ IH]; [done|]. cbn in *. rewrite text_value_text by done. cbn. by rewrite IH. Qed.

#[export] Instance node_json : JsonText := {|
  json_parse s := if String.eqb s "head" then Ok (Object [("result", Str "0x1")])
                  else if String.eqb s "one" then Ok (Object [("result", Array [log_value deposit_log])])
                  else if String.eqb s "none" then Ok (Object [("result", Array [])])
                  else ok_or "unknown document" (l ← dec_all s; Object <$> members l);
  json_print v := match v with Object m => enc_list (concat (map (λ p, [p.1; value_text p.2]) m)) | _ => "?" end;
|}.
Lemma node_json_flat p m : Forall (λ p, flat p.2) (p :: m) → json_parse (json_print (Object (p :: m))) = Ok (Object (p :: m)).
Proof.
  intros Hm. cbn -[dec_all members]. destruct p as [k v].
  change (ok_or "unknown document" (l ← dec_all (enc_list (concat (map (λ p, [p.1; value_text p.2]) ((k, v) :: m))));
            Object <$> members l) = Ok (Object ((k, v) :: m))).
  rewrite dec_all_list. cbn [mbind option_bind]. by rewrite members_text.
Qed.
#[export] Instance node_serde : SerdeText := {| decode_error s := "cannot decode " +:+ s |}.

(** The block range a request asks for. *)
Definition asked (k : string) (request : Value) : Z :=
  match value_index "params" request with
  | Array [filter] => default 0%Z (as_str (value_index k filter) ≫= λ s, ok (parse_hex_u64 s))
  | _ => 0%Z
  end.
Definition toy_node : Node := λ _ request, Ok {|
  http_status := 200;
  http_response_headers := [];
  http_text := Ok (if bool_decide (as_str (value_index "method" request) = Some "eth_blockNumber") then "head"
                   else if (asked "fromBlock" request <=? 1)%Z && (1 <=? asked "toBlock" request)%Z then "one"
                   else "none");
|}.

Lemma deposit_decodes : decode_log deposit_log = Ok (Some (deposit, Some root_word)).
Proof. vm_compute. reflexivity. Qed.

Lemma toy_chain_ok : chain_ok toy_chain.
Proof.
  intros b log. unfold toy_chain. destruct (b =? 1)%Z; [|by intros []%not_elem_of_nil].
  intros ->%list_elem_of_singleton. exists (Some (deposit, Some root_word)).
  split; [exact deposit_decodes|]. unfold event_of. rewrite deposit_decodes.
  constructor; [|constructor]. unfold event_below, u32_MAX. simpl. lia.
Qed.

Lemma logs_none a b : (∀ i, (a ≤ i ≤ b)%Z → i ≠ 1%Z) → logs_between toy_chain a b = [].
Proof.
  intros Hne. unfold logs_between. apply concat_nil_Forall, Forall_map, Forall_forall.
  intros i Hi%elem_of_seqZ. simpl. unfold toy_chain. destruct (Z.eqb_spec i 1) as [->|]; [|done].
  exfalso. apply (Hne 1%Z); lia.
Qed.
Lemma toy_logs_between a b : (a ≤ b)%Z →
  logs_between toy_chain a b = if (a <=? 1)%Z && (1 <=? b)%Z then [deposit_log] else [].
Proof.
  intros Hab. destruct (Z.leb_spec a 1), (Z.leb_spec 1 b); simpl; try (apply logs_none; lia).
  rewrite (logs_between_app toy_chain a 0 b), (logs_between_app toy_chain (0 + 1) 1 b) by lia.
  rewrite (logs_none a 0) by lia. rewrite (logs_none (1 + 1) b) by lia. reflexivity.
Qed.

#[local] Arguments parse_hex_u64 : simpl never.
#[local] Arguments show_hex : simpl never.
Lemma asked_filter p a b :
  in_u64 a → in_u64 b →
  asked "fromBlock" (JsonRpcRequest "eth_getLogs" (log_filter p a b)) = a
  ∧ asked "toBlock" (JsonRpcRequest "eth_getLogs" (log_filter p a b)) = b.
Proof.
  intros Ha Hb. unfold asked, log_filter. simpl.
  pose proof (parse_show_hex a Ha) as Hpa. pose proof (parse_show_hex b Hb) as Hpb. simpl in Hpa, Hpb.
  by rewrite Hpa, Hpb.
Qed.

Lemma toy_node_answers p : answers toy_chain toy_node 1 p.
Proof.
  split; [vm_compute; reflexivity|]. intros a b Hab Hb.
  rewrite toy_logs_between by lia.
  destruct (asked_filter p a b) as [Hfrom Hto]; [unfold in_u64; lia..|].
  unfold fetch_logs, rpc, toy_node. rewrite Hfrom, Hto. simpl.
  destruct ((a <=? 1)%Z && (1 <=? b)%Z); reflexivity.
Qed.

(** ** Witnesses *)

Definition announced : option (@Felt252 toy_felt) := Some (felt_of_word root_word).
Lemma decode_log_complete_witness : decode_log deposit_log = Ok (Some (deposit, announced)).
Proof.
  apply (decode_log_complete deposit_log deposit announced).
  - apply (bool_decide_unpack _). vm_compute. reflexivity.
  - unfold deposit_log, deposit, announced, deposit_words. refine (log_deposited "0x1" (be_bytes 32 7) 7 "c" ("c" : @Felt252 toy_felt) 55 1700 root_word _ _ _ _ _).
    + split; [unfold in_u32, u32_MAX; lia|]. exists (be_bytes 32 7). split; reflexivity.
    + reflexivity.
    + unfold in_u128, u128_MAX. lia.
    + unfold in_u64, u64_MAX. lia.
    + reflexivity.
Defined.

Definition history : list VaultEvent :=
  [deposit; EscapeWithdrawalInitiated 7 "n" 5 1800 "r"; EscapeWithdrawalChallenged 7 "n" "r"; MutualClose 3 "m" 0].
Lemma history_below : Forall event_below history.
Proof. repeat constructor; unfold event_below, u32_MAX; simpl; lia. Qed.

Lemma mirror_refines_vault_witness :
  refines (apply_events history mirror_new) (vault_of history)
  ∧ mirror_leaf (apply_events history mirror_new) 7 ≠ ZERO.
Proof.
  split; [|vm_compute; discriminate].
  destruct (mirror_refines_vault history) as [Hr _]; [exact history_below|exact Hr].
Defined.

Lemma snapshot_roundtrip_witness :
  ∃ m', from_snapshot (snapshot (apply_events history mirror_new)) = Ok m'
    ∧ mirror_root m' = mirror_root (apply_events history mirror_new).
Proof.
  destruct (snapshot_roundtrip history) as (m' & Hm & Hlater); [exact history_below|].
  exists m'. split; [exact Hm|]. apply (Hlater []). constructor.
Defined.

Lemma replay_converges_witness :
  apply_events (history ++ [deposit]) (apply_events history mirror_new)
    ≡ apply_events (history ++ [deposit]) mirror_new.
Proof.
  apply (replay_converges history [deposit] mirror_new).
  - exact history_below.
  - constructor; [unfold event_below, u32_MAX; simpl; lia|constructor].
  - simpl. lia.
Defined.

Definition node_config : PollerConfig := {|
  pc_rpc_url := "http://node";
  pc_contract_address := "0x1";
  pc_from_block := 0;
  pc_cursor_path := Some "cursor";
|}.
Definition started_poller : JsonRpcLogPoller := {|
  rpc_url := "http://node";
  contract_address := "0x0000000000000000000000000000000000000001";
  next_from_block := 0;
  cursor_path := Some "cursor";
|}.
Definition started_indexer : PollState :=
  {| poller := started_poller; service := start_indexer node_config; past := []; disk := ∅ |}.
Definition polled_indexer : PollState := (poll_once toy_node 42 (Some RenameFails) started_indexer).2.

Lemma started_reachable : reachable toy_chain node_config started_indexer.
Proof.
  apply (reach_start _ _ false).
  - intros path raw c _ Hraw. by rewrite lookup_empty in Hraw.
  - reflexivity.
Qed.
Lemma node_temp_apart : temp_apart node_config.
Proof. intros pid path [= <-] Heq. apply (f_equal (String.substring 6 1)) in Heq. simpl in Heq. discriminate Heq. Qed.
Lemma toy_node_truthful p : truthful toy_chain toy_node p.
Proof.
  destruct (toy_node_answers p) as [Hb Hl]. split.
  - intros head. rewrite Hb. intros [= <-]. unfold u64_MAX. lia.
  - intros a b logs Ha Hm. rewrite Hl by done. by intros [= <-].
Qed.
Lemma polled_reachable : reachable toy_chain node_config polled_indexer.
Proof.
  eapply (reach_poll _ _ toy_node 42 (Some RenameFails)); [exact started_reachable|apply toy_node_truthful|].
  apply surjective_pairing.
Qed.

Lemma indexer_consistent_witness :
  next_from_block (poller polled_indexer) = 2%Z
  ∧ refines (mirror (service polled_indexer)) (vault_of (events_between toy_chain 0 1)).
Proof.
  assert (next_from_block (poller polled_indexer) = 2%Z) as Hn by (vm_compute; reflexivity).
  split; [exact Hn|].
  destruct (indexer_consistent toy_chain node_config polled_indexer) as (_ & Hr & _).
  - exact toy_chain_ok.
  - exact node_temp_apart.
  - simpl. unfold u64_MAX. lia.
  - exact polled_reachable.
  - rewrite Hn in Hr. exact Hr.
Defined.

Lemma indexer_catches_up_witness :
  let σ' := polls toy_node 42 1 started_indexer in
  next_from_block (poller σ') = 2%Z ∧ handle_root (service σ') = Ok (mirror_root (mirror (service σ'))).
Proof.
  destruct (indexer_catches_up toy_chain node_config toy_node 42 1 started_indexer 1) as (Hn & Hr & _).
  - exact toy_chain_ok.
  - exact node_temp_apart.
  - simpl. unfold u64_MAX. lia.
  - exact started_reachable.
  - unfold u64_MAX. lia.
  - intros c. reflexivity.
  - apply toy_node_answers.
  - lia.
  - simpl. lia.
  - split; [exact Hn|exact Hr].
Defined.

(** ** A process that polls the node once *)

#[export] Instance toy_axum : Axum := first_match (λ T _ dec _ body, map_err (λ _, 422%Z) (dec body)).
#[export] Instance toy_axum_laws : AxumLaws := first_match_laws _.
Definition toy_indexer : IndexerConfig := {|
  ic_listen_addr := "0.0.0.0:3001"; ic_rpc_url := "http://node"; ic_contract_address := "0x1"; ic_from_block := 0;
  ic_poll_interval_ms := 1000; ic_cursor_path := Some "cursor" |}.
Definition toy_ticks : list Tick := [(toy_node, 42%Z, None)].
(** The service it starts with, the same from no checkpoint, with the deposit, and
    ready. *)
Definition toy_life : list IndexerService := run_indexer false toy_indexer ∅ toy_ticks.
Definition toy_self : IndexerService := default (start_indexer (poller_config toy_indexer)) (last toy_life).
Lemma toy_life_ready : map ready toy_life = [false; false; false; true].
Proof. vm_compute. reflexivity. Qed.
Lemma toy_life_self : toy_life !! 3%nat = Some toy_self.
Proof. reflexivity. Qed.

Lemma toy_polls : polls_vault toy_chain toy_indexer toy_ticks ∅.
Proof.
  split; [reflexivity|exact toy_chain_ok|exact node_temp_apart|simpl; unfold u64_MAX; lia| |].
  - left. intros path raw c _ Hraw. by rewrite lookup_empty in Hraw.
  - intros t p ->%list_elem_of_singleton _. apply toy_node_truthful.
Qed.

Definition toy_path : TreePathResponse := {|
  tp_note_id := 7; tp_leaf := mirror_leaf (mirror toy_self) 7; tp_siblings := get_path (mirror toy_self) 7 |}.
Lemma indexer_answers_for_vault_witness :
  indexer_serve (seen toy_self toy_self) toy_self "GET" "/v1/tree/notes/7/path" = IxNotePath (Ok toy_path) ∧
  tp_leaf toy_path ≠ ZERO ∧
  ∃ es es', moment toy_chain toy_indexer toy_ticks es ∧ es `prefix_of` es' ∧
    reply_true (Some 7%Z) (vault_of es) (vault_of es') (IxNotePath (Ok toy_path)).
Proof.
  assert (indexer_serve (seen toy_self toy_self) toy_self "GET" "/v1/tree/notes/7/path" = IxNotePath (Ok toy_path)) as Hs
    by (vm_compute; reflexivity).
  split; [exact Hs|]. split; [vm_compute; discriminate|].
  destruct (indexer_answers_for_vault toy_chain toy_indexer toy_ticks false ∅ toy_polls 3 3 3 toy_self toy_self toy_self
    "GET" "/v1/tree/notes/7/path" ltac:(lia) toy_life_self toy_life_self toy_life_self) as [Hno|(es & es' & He & _ & Hp & Ht)].
  - rewrite Hs in Hno. destruct Hno.
  - rewrite Hs in Ht. exists es, es'. split; [exact He|]. split; [exact Hp|exact Ht].
Defined.
