(* ===== verification/OllamaStream.v ===== *)
(** * Translating an OpenRouter stream for Ollama: [zkapi-clientd/src/routes.rs]

    [OllamaStreamState] reads server-sent events from upstream, whatever chunks
    they arrive in, and produces newline-delimited Ollama objects. The file shows
    that the chunking does not matter. *)

From Stdlib Require Import ZArith Lia Ascii.
From stdpp Require Import base tactics decidable numbers list strings.
From S2P Require Import Prelude Text Float64 Json.

Local Open Scope string_scope.

(** One item of a byte stream. *)
Abbreviation Item := (result string string).

Record OllamaStreamState := {
  model : string;
  input : string;
  output : list Item;
  prompt_tokens : Z;
  completion_tokens : Z;
  finish_reason : string;
  finished : bool;
}.

Definition with_input (s : string) (st : OllamaStreamState) : OllamaStreamState := {|
  model := model st; input := s; output := output st; prompt_tokens := prompt_tokens st;
  completion_tokens := completion_tokens st; finish_reason := finish_reason st; finished := finished st |}.
Definition with_output (l : list Item) (st : OllamaStreamState) : OllamaStreamState := {|
  model := model st; input := input st; output := l; prompt_tokens := prompt_tokens st;
  completion_tokens := completion_tokens st; finish_reason := finish_reason st; finished := finished st |}.
Definition with_tokens (prompt completion : Z) (st : OllamaStreamState) : OllamaStreamState := {|
  model := model st; input := input st; output := output st; prompt_tokens := prompt;
  completion_tokens := completion; finish_reason := finish_reason st; finished := finished st |}.
Definition with_reason (r : string) (st : OllamaStreamState) : OllamaStreamState := {|
  model := model st; input := input st; output := output st; prompt_tokens := prompt_tokens st;
  completion_tokens := completion_tokens st; finish_reason := r; finished := finished st |}.
Definition set_finished (st : OllamaStreamState) : OllamaStreamState := {|
  model := model st; input := input st; output := output st; prompt_tokens := prompt_tokens st;
  completion_tokens := completion_tokens st; finish_reason := finish_reason st; finished := true |}.
(** [output.push_back(item)] *)
Definition push (item : Item) (st : OllamaStreamState) : OllamaStreamState := with_output (output st ++ [item]) st.

Definition newline : ascii := "010".
Definition carriage_return : ascii := "013".

(** Up to and without the first newline, and what follows it. *)
Fixpoint split_line (s : string) : option (string * string) :=
  match s with
  | EmptyString => None
  | String c s' =>
      if Ascii.eqb c newline then Some ("", s')
      else '(line, rest) ← split_line s'; Some (String c line, rest)
  end.
(** [if line.last() == Some(&b'\r') { line.pop(); }] *)
Definition pop_cr (line : string) : string := default line (strip_suffix (String carriage_return "") line).

Section stream.
Context `{!JsonText}.
Implicit Types (st : OllamaStreamState).

Definition enqueue_json (value : Value) st : OllamaStreamState :=
  push (Ok (json_print value +:+ String newline "")) st.

Definition enqueue_done st : OllamaStreamState :=
  if finished st then st
  else set_finished (enqueue_json (json_object [
    ("model", Str (model st));
    ("created_at", Str "1970-01-01T00:00:00Z");
    ("message", json_object [("role", Str "assistant"); ("content", Str "")]);
    ("done", Bool true);
    ("done_reason", Str (finish_reason st));
    ("total_duration", Num (PosInt 0));
    ("load_duration", Num (PosInt 0));
    ("prompt_eval_count", Num (PosInt (prompt_tokens st)));
    ("eval_count", Num (PosInt (completion_tokens st)))]) st).

Definition update_usage (chunk : Value) st : OllamaStreamState :=
  match value_get "usage" chunk with
  | None => st
  | Some usage =>
      with_tokens (default (prompt_tokens st) (value_get "prompt_tokens" usage ≫= as_u64))
                  (default (completion_tokens st) (value_get "completion_tokens" usage ≫= as_u64)) st
  end.

(** [filter(|s| !s.is_empty())] *)
Definition non_empty (s : string) : option string := if String.eqb s "" then None else Some s.

(** The delta's text, thinking and tool calls as an Ollama message. *)
Definition delta_message (choice : option Value) : option (list (string * Value)) :=
  let delta : option Value := choice ≫= value_get "delta" in
  let content : option string := ((delta ≫= value_get "content") ≫= as_str) ≫= non_empty in
  let reasoning : option Value := delta ≫= λ delta, match value_get "reasoning_content" delta with
                                                     | Some v => Some v
                                                     | None => value_get "reasoning" delta
                                                     end in
  let thinking : option string := (reasoning ≫= as_str) ≫= non_empty in
  let tool_calls : option Value :=
    (delta ≫= value_get "tool_calls") ≫= λ v, if is_null v then None else Some v in
  match content, thinking, tool_calls with
  | None, None, None => None
  | _, _, _ =>
      let message := map_insert "content" (Str (default "" content)) (map_insert "role" (Str "assistant") []) in
      let message := match thinking with Some t => map_insert "thinking" (Str t) message | None => message end in
      Some (match tool_calls with Some v => map_insert "tool_calls" v message | None => message end)
  end.

Definition consume_chunk (chunk : Value) st : OllamaStreamState :=
  let st := update_usage chunk st in
  match value_get "error" chunk with
  | Some error =>
      let message := default "OpenRouter streaming error" (value_get "message" error ≫= as_str) in
      set_finished (enqueue_json (json_object [("error", Str message)]) st)
  | None =>
      let choice : option Value := value_get "choices" chunk ≫= value_nth 0 in
      let st := match (choice ≫= value_get "finish_reason") ≫= as_str with
                | Some reason => with_reason reason st
                | None => st
                end in
      match delta_message choice with
      | None => st
      | Some message =>
          enqueue_json (json_object [
            ("model", Str (model st));
            ("created_at", Str "1970-01-01T00:00:00Z");
            ("message", Object message);
            ("done", Bool false)]) st
      end
  end.

Definition consume_sse_line (line : string) st : OllamaStreamState :=
  match strip_prefix "data:" line with
  | None => st
  | Some payload =>
      let payload := default payload (strip_prefix " " payload) in
      if String.eqb payload "" then st
      else if String.eqb payload "[DONE]" then enqueue_done st
      else match json_parse payload with
           | Err error => set_finished (push (Err ("invalid OpenRouter SSE event: " +:+ error)) st)
           | Ok chunk => consume_chunk chunk st
           end
  end.

(** Every round takes at least a newline off the input: its length is fuel
    enough. *)
Fixpoint consume_lines (fuel : nat) st : OllamaStreamState :=
  match fuel with
  | O => st
  | S fuel' =>
      if finished st then st
      else match split_line (input st) with
           | None => st
           | Some (line, rest) => consume_lines fuel' (consume_sse_line (pop_cr line) (with_input rest st))
           end
  end.
Definition consume_complete_lines st : OllamaStreamState := consume_lines (String.length (input st)) st.

(** At the end of the upstream: a last line without newline, then the final
    object. *)
Definition upstream_ended st : OllamaStreamState :=
  enqueue_done (if String.eqb (input st) "" then st else consume_sse_line (input st) (with_input "" st)).

(** One step of the [unfold]: the next item of the response, over the chunks the
    upstream still delivers. *)
Fixpoint next_item (upstream : list Item) st : option (Item * (OllamaStreamState * list Item)) :=
  match output st with
  | item :: rest => Some (item, (with_output rest st, upstream))
  | [] =>
      if finished st then None
      else match upstream with
           | Ok chunk :: upstream' => next_item upstream' (consume_complete_lines (with_input (input st +:+ chunk) st))
           | Err error :: upstream' => Some (Err error, (set_finished st, upstream'))
           | [] =>
               let st := upstream_ended st in
               match output st with
               | item :: rest => Some (item, (with_output rest st, []))
               | [] => None
               end
           end
  end.

Definition stream_start (model : string) : OllamaStreamState := {|
  model := model; input := ""; output := []; prompt_tokens := 0; completion_tokens := 0;
  finish_reason := "stop"; finished := false |}.

(** The items until the stream ends. *)
Inductive items : list Item → OllamaStreamState → list Item → Prop :=
| items_end upstream st : next_item upstream st = None → items upstream st []
| items_next upstream st item st' upstream' l :
    next_item upstream st = Some (item, (st', upstream')) → items upstream' st' l → items upstream st (item :: l).

(** ** The reference: the whole text at once *)

(** What the response still holds once the text is consumed: the upstream's
    error, or the rest of its last line and the final object. *)
Definition closing_items (ending : list Item) st : list Item :=
  if finished st then []
  else match ending with
       | [] => output (upstream_ended (with_output [] st))
       | item :: _ => [item]
       end.
Definition whole_text_items (ending : list Item) (text : string) st : list Item :=
  let st := consume_complete_lines (with_input (input st +:+ text) st) in
  output st ++ closing_items ending st.

(** The upstream ends, or fails. *)
Definition stream_ending (ending : list Item) : Prop :=
  match ending with Ok _ :: _ => False | _ => True end.

(** ** Frame lemmas *)

Definition prepend (o : list Item) st : OllamaStreamState := with_output (o ++ output st) st.
Definition feed (b : string) st : OllamaStreamState := with_input (input st +:+ b) st.

Lemma prepend_app o o' st : prepend o (prepend o' st) = prepend (o ++ o') st.
Proof. unfold prepend, with_output; cbn. by rewrite app_assoc. Qed.
Lemma prepend_nil st : prepend [] st = st.
Proof. by destruct st. Qed.
Lemma push_prepend item o st : push item (prepend o st) = prepend o (push item st).
Proof. unfold push, prepend, with_output; cbn. by rewrite app_assoc. Qed.
Lemma update_usage_prepend chunk o st : update_usage chunk (prepend o st) = prepend o (update_usage chunk st).
Proof. unfold update_usage. by destruct (value_get "usage" chunk). Qed.
Lemma update_usage_input chunk s st : update_usage chunk (with_input s st) = with_input s (update_usage chunk st).
Proof. unfold update_usage. by destruct (value_get "usage" chunk). Qed.

Lemma consume_chunk_prepend chunk o st : consume_chunk chunk (prepend o st) = prepend o (consume_chunk chunk st).
Proof.
  unfold consume_chunk. rewrite update_usage_prepend. generalize (update_usage chunk st) as st'. intros st'.
  destruct (value_get "error" chunk).
  { unfold enqueue_json. by rewrite push_prepend. }
  destruct (_ ≫= as_str) as [reason|]; destruct (delta_message _) as [message|]; try done;
    unfold enqueue_json; rewrite <-push_prepend; done.
Qed.
Lemma consume_chunk_input chunk s st : consume_chunk chunk (with_input s st) = with_input s (consume_chunk chunk st).
Proof.
  unfold consume_chunk. rewrite update_usage_input. generalize (update_usage chunk st) as st'. intros st'.
  destruct (value_get "error" chunk); [done|].
  destruct (_ ≫= as_str) as [reason|]; by destruct (delta_message _) as [message|].
Qed.

Lemma enqueue_done_prepend o st : enqueue_done (prepend o st) = prepend o (enqueue_done st).
Proof.
  unfold enqueue_done. cbn [finished prepend with_output]. destruct (finished st); [done|].
  unfold enqueue_json. rewrite push_prepend. done.
Qed.
Lemma consume_sse_line_prepend line o st :
  consume_sse_line line (prepend o st) = prepend o (consume_sse_line line st).
Proof.
  unfold consume_sse_line. destruct (strip_prefix _ line) as [payload|]; [|done].
  destruct (String.eqb _ ""); [done|]. destruct (String.eqb _ "[DONE]"); [apply enqueue_done_prepend|].
  destruct (json_parse _); [apply consume_chunk_prepend|]. by rewrite push_prepend.
Qed.
Lemma consume_sse_line_input line s st :
  consume_sse_line line (with_input s st) = with_input s (consume_sse_line line st).
Proof.
  unfold consume_sse_line. destruct (strip_prefix _ line) as [payload|]; [|done].
  destruct (String.eqb _ ""); [done|]. destruct (String.eqb _ "[DONE]").
  { unfold enqueue_done. cbn [finished with_input]. by destruct (finished st). }
  destruct (json_parse _); [apply consume_chunk_input|done].
Qed.

(** ** The loop, without its fuel *)

Lemma split_line_app s line rest b : split_line s = Some (line, rest) → split_line (s +:+ b) = Some (line, rest +:+ b).
Proof.
  revert line. induction s as [|c s IH]; intros line; [done|]. simpl. destruct (Ascii.eqb c newline).
  { intros Hs. apply (inj Some) in Hs. by injection Hs as <- <-. }
  destruct (split_line s) as [[line' rest']|] eqn:E; [|done]. simpl. intros Hs. apply (inj Some) in Hs.
  injection Hs as <- <-. by rewrite (IH line').
Qed.
Lemma split_line_length s line rest :
  split_line s = Some (line, rest) → (String.length rest < String.length s)%nat.
Proof.
  revert line. induction s as [|c s IH]; intros line; [done|]. simpl. destruct (Ascii.eqb c newline).
  { intros Hs. apply (inj Some) in Hs. injection Hs as <- <-. lia. }
  destruct (split_line s) as [[line' rest']|] eqn:E; [|done]. simpl. intros Hs. apply (inj Some) in Hs.
  injection Hs as <- <-. specialize (IH line' eq_refl). lia.
Qed.

Lemma consume_lines_fuel n n' st :
  (String.length (input st) ≤ n)%nat → (String.length (input st) ≤ n')%nat → consume_lines n st = consume_lines n' st.
Proof.
  revert n' st. induction n as [|n IH]; intros n' st Hn Hn'; destruct n' as [|n']; cbn; try done.
  - destruct (input st); [by destruct (finished st)|cbn in Hn; lia].
  - destruct (input st); [by destruct (finished st)|cbn in Hn'; lia].
  - destruct (finished st); [done|]. destruct (split_line (input st)) as [[line rest]|] eqn:E; [|done].
    apply split_line_length in E. apply IH; rewrite consume_sse_line_input; cbn; lia.
Qed.

Lemma consume_complete_lines_unfold st :
  consume_complete_lines st =
  if finished st then st
  else match split_line (input st) with
       | None => st
       | Some (line, rest) => consume_complete_lines (consume_sse_line (pop_cr line) (with_input rest st))
       end.
Proof.
  unfold consume_complete_lines at 1.
  destruct (input st) as [|c s] eqn:Ein; [cbn; by destruct (finished st)|].
  cbn [String.length consume_lines]. rewrite Ein. destruct (finished st); [done|].
  destruct (split_line _) as [[line rest]|] eqn:E; [|done]. apply split_line_length in E. cbn in E.
  apply consume_lines_fuel; rewrite consume_sse_line_input; cbn; lia.
Qed.

(** Induction on the loop's rounds. *)
Lemma consume_ind (P : OllamaStreamState → Prop) :
  (∀ st, (∀ line rest, finished st = false → split_line (input st) = Some (line, rest) →
                       P (consume_sse_line (pop_cr line) (with_input rest st))) → P st) → ∀ st, P st.
Proof.
  intros Hstep st. induction (well_founded_ltof _ (λ st, String.length (input st)) st) as [st _ IH].
  apply Hstep. intros line rest _ E. apply IH. unfold ltof. rewrite consume_sse_line_input. cbn.
  by apply split_line_length in E.
Qed.

(** No complete line is left. *)
Definition settled st : Prop := finished st = true ∨ split_line (input st) = None.
Lemma consume_settled st : settled st → consume_complete_lines st = st.
Proof. intros [Hs|Hs]; rewrite consume_complete_lines_unfold, Hs; [done|by destruct (finished st)]. Qed.
Lemma consume_settles st : settled (consume_complete_lines st).
Proof.
  induction st as [st IH] using consume_ind. rewrite consume_complete_lines_unfold.
  destruct (finished st) eqn:Ef; [by left|].
  destruct (split_line (input st)) as [[line rest]|] eqn:E; [by apply IH|by right].
Qed.
Lemma consume_prepend o st : consume_complete_lines (prepend o st) = prepend o (consume_complete_lines st).
Proof.
  induction st as [st IH] using consume_ind.
  rewrite consume_complete_lines_unfold, (consume_complete_lines_unfold st).
  cbn [finished prepend with_output input]. destruct (finished st) eqn:Ef; [done|].
  destruct (split_line (input st)) as [[line rest]|] eqn:E; [|done].
  rewrite <-IH by done. by rewrite <-consume_sse_line_prepend.
Qed.
(** More input may come before or after the complete lines are consumed. *)
Lemma consume_feed b st :
  consume_complete_lines (feed b (consume_complete_lines st)) = consume_complete_lines (feed b st).
Proof.
  induction st as [st IH] using consume_ind.
  rewrite (consume_complete_lines_unfold st).
  destruct (finished st) eqn:Ef; [done|].
  destruct (split_line (input st)) as [[line rest]|] eqn:E; [|done].
  rewrite IH by done. rewrite (consume_complete_lines_unfold (feed b st)).
  cbn [feed with_input finished input]. rewrite Ef, (split_line_app _ _ _ b E).
  unfold feed. rewrite !consume_sse_line_input. done.
Qed.

(** ** The items of a stream *)

Lemma items_same upstream upstream' st st' l :
  next_item upstream st = next_item upstream' st' → items upstream' st' l → items upstream st l.
Proof. intros E Hl. inversion Hl; subst; [apply items_end|eapply items_next; [|done]]; congruence. Qed.

Lemma items_prepend upstream o st l : items upstream st l → items upstream (prepend o st) (o ++ l).
Proof.
  intros Hl. induction o as [|item o IH]; [by rewrite prepend_nil|].
  eapply items_next; [|exact IH]. by destruct upstream.
Qed.

Lemma items_finished upstream st : output st = [] → finished st = true → items upstream st [].
Proof. intros Ho Hf. apply items_end. destruct upstream as [|[]]; cbn; by rewrite Ho, Hf. Qed.

Lemma prepend_output st : prepend (output st) (with_output [] st) = st.
Proof. unfold prepend, with_output; cbn. rewrite app_nil_r. by destruct st. Qed.
Lemma whole_text_prepend ending text o st :
  whole_text_items ending text (prepend o st) = (o ++ whole_text_items ending text st)%list.
Proof.
  unfold whole_text_items. change (with_input _ (prepend o st)) with (prepend o (feed text st)).
  rewrite consume_prepend. change (with_input _ st) with (feed text st). cbn. by rewrite <-app_assoc.
Qed.

Lemma upstream_ended_finished st : finished (upstream_ended st) = true.
Proof. unfold upstream_ended, enqueue_done. set (st' := if String.eqb _ _ then _ else _). by destruct (finished st') eqn:E. Qed.

(** The upstream's end, from a state with nothing to send. *)
Lemma items_closing ending st :
  stream_ending ending → output st = [] → items ending st (closing_items ending st).
Proof.
  intros He Ho. unfold closing_items. destruct (finished st) eqn:Ef; [by apply items_finished|].
  destruct ending as [|[chunk|error] ending]; [| done |].
  - replace (with_output [] st) with st by (rewrite <-Ho; by destruct st).
    pose proof (upstream_ended_finished st) as Hfin.
    apply (items_same _ [] _ (upstream_ended st)).
    { cbn. rewrite Ho, Ef. destruct (output (upstream_ended st)) eqn:E; [by rewrite Hfin|done]. }
    rewrite <-(app_nil_r (output (upstream_ended st))).
    rewrite <-(prepend_output (upstream_ended st)) at 1. apply items_prepend.
    by apply items_finished.
  - eapply items_next; [cbn; by rewrite Ho, Ef|]. by apply items_finished.
Qed.

Lemma stream_items_from chunks ending st :
  stream_ending ending → settled st →
  items (map Ok chunks ++ ending) st (whole_text_items ending (foldr String.append "" chunks) st).
Proof.
  intros He. revert st.
  assert (∀ st, output st = [] → settled st →
                items (map Ok chunks ++ ending) st (whole_text_items ending (foldr String.append "" chunks) st)) as Hgen.
  2:{ intros st Hst. rewrite <-(prepend_output st), whole_text_prepend. apply items_prepend. by apply Hgen. }
  induction chunks as [|chunk chunks IH]; intros st Ho Hst; unfold whole_text_items;
    cbn [foldr map app]; change (with_input (input st +:+ ?b) st) with (feed b st).
  - replace (feed "" st) with st by (unfold feed; rewrite str_app_nil; by destruct st).
    rewrite consume_settled by done. rewrite Ho. by apply items_closing.
  - destruct (finished st) eqn:Ef.
    { rewrite consume_settled by (by left). unfold closing_items. cbn. rewrite Ef, Ho. by apply items_finished. }
    apply (items_same _ (map Ok chunks ++ ending) _ (consume_complete_lines (feed chunk st))).
    { cbn. by rewrite Ho, Ef. }
    set (st1 := consume_complete_lines (feed chunk st)).
    assert (consume_complete_lines (feed (chunk +:+ foldr String.append "" chunks) st)
            = consume_complete_lines (feed (foldr String.append "" chunks) st1)) as ->.
    { unfold st1. rewrite consume_feed. unfold feed. cbn. by rewrite str_app_assoc. }
    rewrite <-(prepend_output st1).
    change (feed ?b (prepend ?o ?st)) with (prepend o (feed b st)). rewrite consume_prepend.
    change (items (map Ok chunks ++ ending) (prepend (output st1) (with_output [] st1))
      ((output st1 ++ output (consume_complete_lines (feed (foldr String.append "" chunks) (with_output [] st1)))) ++
       closing_items ending (consume_complete_lines (feed (foldr String.append "" chunks) (with_output [] st1)))))%list.
    rewrite <-app_assoc. apply items_prepend. apply IH; [done|]. exact (consume_settles (feed chunk st)).
Qed.

Lemma items_functional upstream st l l' : items upstream st l → items upstream st l' → l = l'.
Proof.
  intros Hl. revert l'. induction Hl as [upstream st E|upstream st item st' upstream' l E _ IH]; intros l' Hl';
    inversion Hl' as [? ? E'|? ? ? ? ? ? E' Hl'']; subst; rewrite E in E'; try done.
  apply (inj Some) in E'. injection E' as <- <- <-. f_equal. by apply IH.
Qed.

(** C22: the Ollama stream does not depend on how the network cut the upstream
    into chunks. Whatever the chunks, up to the end of the upstream or its first
    error, the response ends and its items are those computed from the whole
    text at once: the objects of its complete lines, then the upstream's error
    or the object of the last line and the final object. *)
Theorem chunking_irrelevant chunks ending model l :
  stream_ending ending →
  items (map Ok chunks ++ ending) (stream_start model) l ↔
  l = whole_text_items ending (foldr String.append "" chunks) (stream_start model).
Proof.
  intros He. assert (items (map Ok chunks ++ ending) (stream_start model)
    (whole_text_items ending (foldr String.append "" chunks) (stream_start model))) as Hl.
  { apply stream_items_from; [done|]. by right. }
  split; [|by intros ->]. intros Hl'. by apply (items_functional _ _ _ _ Hl').
Qed.
End stream.
