(* ===== verification/ClientTypes.v ===== *)
(** * The client daemon's data: [zkapi-clientd/src/config.rs], [error.rs] and the types of [service.rs]

    The daemon keeps a wallet of the [zkapi_client] crate, which is part of the
    [protocol] submodule: the wallet's note, its errors and the withdrawal's
    public inputs are types of [ClientTypes], with the fields the daemon reads. *)

From Stdlib Require Import ZArith.
From stdpp Require Import base tactics decidable numbers list strings.
From S2P Require Import Prelude Text Float64 Json Types AuthScheme.

Local Open Scope string_scope.

(** The variants of [zkapi_client]'s error that the daemon tells apart. *)
Inductive ClientErrorKind :=
| CNoActiveNote
| CInsufficientBalance
| CPendingRequest
| CStaleRoot
| COther.

Class ClientTypes `{!FeltOps} := {
  (** The [serde] form of a field element. *)
  felt_to_value : Felt252 → Value;
  felt_of_value : Value → option Felt252;
  EpochRoots : Type;
  WithdrawalPublicInputsV2 : Type;
  withdrawal_note_id : WithdrawalPublicInputsV2 → Z;
  (** 20 bytes. *)
  withdrawal_destination : WithdrawalPublicInputsV2 → string;
  NoteState : Type;
  note_note_id : NoteState → Z;
  note_deposit_amount : NoteState → Z;
  note_current_balance : NoteState → Z;
  note_expiry_ts : NoteState → Z;
  note_is_genesis : NoteState → bool;
  note_current_anchor : NoteState → Felt252;
  note_current_commitment_x : NoteState → Felt252;
  note_current_commitment_y : NoteState → Felt252;
  note_secret_s : NoteState → Felt252;
  (** [state.solvency_bound(policy_enabled, request_charge_cap, policy_charge_cap)] *)
  note_solvency_bound : NoteState → bool → Z → Z → Z;
  ClientError : Type;
  client_error_kind : ClientError → ClientErrorKind;
  client_error_text : ClientError → string;
}.

(** ** [config.rs] *)

Inductive RequestMode := Proxy | DirectOpenrouter.
#[export] Instance RequestMode_eq_dec : EqDecision RequestMode.
Proof. solve_decision. Defined.

Record ModelDescriptor := { md_id : string; md_owned_by : string; md_tags : list string }.
Definition ModelDescriptor_new (id : string) : ModelDescriptor :=
  {| md_id := id; md_owned_by := "zkapi"; md_tags := ["chat"; "responses"] |}.

(** ** [error.rs] *)

Inductive AuthError :=
| WalletBusy
| NoActiveNote
| InsufficientBalance
| PendingRequest
| LeasePending (m : string)
| WithdrawalPending (m : string)
| LeaseSessionConflict (active_session_id : string) (expires_at : Z)
| Upstream (m : string)
| UpstreamResponse (status : Z) (message : string)
| KeyVerification (m : string)
| InvalidInput (m : string)
| WalletErr (m : string)
| IndexerErr (m : string)
| Serialization (m : string).
#[export] Instance AuthError_eq_dec : EqDecision AuthError.
Proof. solve_decision. Defined.

(** [#[error(...)]]; the status prints through [reqwest]. *)
Definition auth_error_to_string (status_text : Z → string) (self : AuthError) : string :=
  match self with
  | WalletBusy => "wallet is busy in another process"
  | NoActiveNote => "wallet has no active note; fund it first"
  | InsufficientBalance => "wallet balance is too low for this request"
  | PendingRequest => "wallet has a pending request; recover it before spending again"
  | LeasePending m => "OpenRouter lease pending: " +:+ m
  | WithdrawalPending m => "withdrawal pending: " +:+ m
  | LeaseSessionConflict active_session_id expires_at =>
      "another chat (" +:+ active_session_id +:+ ") owns the current ephemeral key until " +:+ show_uint expires_at
  | Upstream m => "upstream error: " +:+ m
  | UpstreamResponse status message => "upstream returned " +:+ status_text status +:+ ": " +:+ message
  | KeyVerification m => "OA key verification failed: " +:+ m
  | InvalidInput m => "invalid input: " +:+ m
  | WalletErr m => "wallet error: " +:+ m
  | IndexerErr m => "indexer error: " +:+ m
  | Serialization m => "serialization error: " +:+ m
  end.

Definition status_code (self : AuthError) : Z :=
  match self with
  | WalletBusy => 409
  | NoActiveNote | InsufficientBalance => 402
  | PendingRequest | LeasePending _ | WithdrawalPending _ | LeaseSessionConflict _ _ => 409
  | InvalidInput _ | Serialization _ => 400
  | UpstreamResponse status _ => status
  | WalletErr _ | IndexerErr _ | Upstream _ | KeyVerification _ => 502
  end.

Definition code (self : AuthError) : string :=
  match self with
  | WalletBusy => "wallet_busy"
  | NoActiveNote => "no_active_note"
  | InsufficientBalance => "insufficient_balance"
  | PendingRequest => "pending_request"
  | LeasePending _ => "lease_pending"
  | WithdrawalPending _ => "withdrawal_pending"
  | LeaseSessionConflict _ _ => "lease_session_conflict"
  | Upstream _ | UpstreamResponse _ _ => "upstream_error"
  | KeyVerification _ => "key_verification_failed"
  | InvalidInput _ => "invalid_input"
  | WalletErr _ => "wallet_error"
  | IndexerErr _ => "indexer_error"
  | Serialization _ => "serialization_error"
  end.

Definition funding_url (self : AuthError) : option string :=
  match self with NoActiveNote | InsufficientBalance => Some "/funding" | _ => None end.

Section types.
Context `{!FeltOps, !WireTypes, !ClientTypes}.

(** [impl From<ClientError> for AuthError] *)
Definition from_client_error (value : ClientError) : AuthError :=
  match client_error_kind value with
  | CNoActiveNote => NoActiveNote
  | CInsufficientBalance => InsufficientBalance
  | CPendingRequest => PendingRequest
  | CStaleRoot | COther => WalletErr (client_error_text value)
  end.

Record AuthConfig := {
  ac_protocol_version : Z;
  ac_chain_id : Z;
  ac_contract_address : Felt252;
  ac_request_charge_cap : Z;
  ac_policy_charge_cap : Z;
  ac_policy_enabled : bool;
  ac_auth_scheme : AuthSchemeKind;
  ac_protocol_server_url : string;
  ac_indexer_url : string;
  ac_listen_addr : string;
  ac_state_dir : string;
  ac_models : list ModelDescriptor;
  ac_suggested_deposit_amount : Z;
  ac_demo_rpc_url : option string;
  ac_demo_billing_token_address : option string;
  ac_demo_mint_enabled : bool;
  ac_demo_note_ttl_seconds : option Z;
  ac_proof_mode : string;
  ac_cairo_dir : string;
  ac_trusted_epoch_roots : list EpochRoots;
  ac_proof_setup_dir : string;
  ac_state_signing_key : CurvePointWire;
  ac_clearance_signing_key : CurvePointWire;
  ac_request_mode : RequestMode;
  ac_oa_verifier_url : string;
  ac_openrouter_inference_base : string;
  ac_require_oa_org_key_source : bool;
}.
Definition proof_backend_label (self : AuthConfig) : string := "groth16_bn254".

(** [Default for AuthConfig] *)
Definition AuthConfig_default (one : Felt252) : AuthConfig := {|
  ac_protocol_version := 2;
  ac_chain_id := 1;
  ac_contract_address := ZERO;
  ac_request_charge_cap := 1000000;
  ac_policy_charge_cap := 10000000;
  ac_policy_enabled := false;
  ac_auth_scheme := StateAnchor;
  ac_protocol_server_url := "http://127.0.0.1:3000";
  ac_indexer_url := "http://127.0.0.1:3001";
  ac_listen_addr := "127.0.0.1:11434";
  ac_state_dir := ".zkapi";
  ac_models := [ModelDescriptor_new "zkapi-echo"];
  ac_suggested_deposit_amount := 2000000;
  ac_demo_rpc_url := None;
  ac_demo_billing_token_address := None;
  ac_demo_mint_enabled := false;
  ac_demo_note_ttl_seconds := None;
  ac_proof_mode := "groth16_bn254";
  ac_cairo_dir := "protocol/cairo";
  ac_trusted_epoch_roots := [];
  ac_proof_setup_dir := "protocol/setup/v2";
  ac_state_signing_key := {| point_x := ZERO; point_y := one |};
  ac_clearance_signing_key := {| point_x := ZERO; point_y := one |};
  ac_request_mode := Proxy;
  ac_oa_verifier_url := "https://verifier2.openanonymity.ai";
  ac_openrouter_inference_base := "https://openrouter.ai/api/v1";
  ac_require_oa_org_key_source := false;
|}.

(** ** The types of [service.rs] *)

(** [headers] is a [BTreeMap]: a list ordered by key. *)
Record CoreRequest := {
  cq_method : string;
  cq_path : string;
  cq_headers : list (string * string);
  cq_body : Value;
}.
Definition post_json (path : string) (body : Value) : CoreRequest := {|
  cq_method := "POST"; cq_path := path; cq_headers := [("content-type", "application/json")]; cq_body := body |}.

Record CoreResponse := {
  cr_client_request_id : string;
  cr_response_code : Z;
  cr_raw_payload : string;
  cr_payload : option Value;
  cr_charge_applied : Z;
  cr_next_anchor : Felt252;
  cr_remaining_balance : option Z;
}.

Record NoteStatus := {
  ns_note_id : Z;
  ns_deposit_amount : Z;
  ns_current_balance : Z;
  ns_expiry_ts : Z;
  ns_is_genesis : bool;
  ns_current_anchor : Felt252;
  ns_current_commitment_x : Felt252;
  ns_current_commitment_y : Felt252;
}.

Record WalletStatus := {
  ws_has_note : bool;
  ws_pending_request : bool;
  ws_funding_url : string;
  ws_note : option NoteStatus;
}.

Record RetiredNote := { rn_note_id : Z; rn_remaining_balance : Z; rn_state_dir : string }.

Record DepositPlan := {
  dp_amount : Z;
  dp_secret : Felt252;
  dp_commitment : Felt252;
  dp_next_note_id : Z;
  dp_active_root : Felt252;
  dp_zero_path : list Felt252;
}.
Record ConfirmDepositRequest := { cd_secret : Felt252; cd_note_id : Z; cd_amount : Z; cd_expiry_ts : Z }.
Record RecoverResult := {
  rr_recovered : bool;
  rr_request : option CoreResponse;
  rr_wallet : WalletStatus;
}.

Record OaKeyVerificationEvidence := {
  ev_verifier_url : string;
  ev_station_id : string;
  ev_station_recently_attested : bool;
  ev_key_valid_till : Z;
  ev_station_signature : string;
  ev_org_signature : string;
}.
Record OpenRouterLeaseExtensions := {
  ext_key_source : string;
  ext_verification : option OaKeyVerificationEvidence;
}.

Record ActiveOpenRouterLease := {
  al_session_id : string;
  al_client_request_id : string;
  al_api_key : string;
  al_openrouter_api_base : string;
  al_expires_at : Z;
  al_settle_after : Z;
  al_verification : option OaKeyVerificationEvidence;
  al_verified : bool;
  al_requests_served : Z;
}.

Inductive WithdrawalMode := Mutual | Escape.
#[export] Instance WithdrawalMode_eq_dec : EqDecision WithdrawalMode.
Proof. solve_decision. Defined.
Definition withdrawal_mode_label (mode : WithdrawalMode) : string :=
  match mode with Mutual => "mutual-close" | Escape => "escape-hatch" end.

Record WithdrawalPlan := {
  wp_mode : WithdrawalMode;
  wp_public_inputs : WithdrawalPublicInputsV2;
  wp_siblings : list Felt252;
  wp_proof : Groth16ProofWire;
}.
Record WithdrawalChainStatus := {
  wc_note_id : Z;
  wc_status : string;
  wc_challenge_deadline : option Z;
  wc_wallet : WalletStatus;
}.

Record DirectLeaseStatus := {
  dl_session_id : string;
  dl_client_request_id : string;
  dl_expires_at : Z;
  dl_settle_after : Z;
}.
Record PreparedWithdrawalStatus := { pw_mode : WithdrawalMode; pw_note_id : Z; pw_destination : string }.

Record FundingConfig := {
  fc_contract_address : Felt252;
  fc_chain_id : Z;
  fc_indexer_url : string;
  fc_protocol_server_url : string;
  fc_models : list ModelDescriptor;
  fc_suggested_deposit_amount : Z;
  fc_demo_rpc_url : option string;
  fc_demo_billing_token_address : option string;
  fc_demo_mint_enabled : bool;
  fc_demo_note_ttl_seconds : option Z;
}.

Record ZkapiConfig := {
  zc_credits_per_usd : f64;
  zc_request_charge_cap : Z;
  zc_request_charge_cap_usd : f64;
  zc_policy_charge_cap : Z;
  zc_policy_enabled : bool;
  zc_funding : FundingConfig;
  zc_upstream_kind : option string;
  zc_direct_openrouter_available : bool;
  zc_request_mode : RequestMode;
  zc_active_lease : option DirectLeaseStatus;
  zc_prepared_withdrawal : option PreparedWithdrawalStatus;
}.

Record IndexerSnapshot := {
  is_available : bool;
  is_root : option Felt252;
  is_next_note_id : option Z;
  is_error : option string;
}.
Record ServerHealthSnapshot := {
  sh_status : string;
  sh_protocol_version : Z;
  sh_chain_id : Z;
  sh_contract_address : Felt252;
  sh_current_root : Felt252;
  sh_provider : string;
  sh_indexer_url : option string;
  sh_policy_enabled : bool;
  sh_auth_scheme : string;
  sh_request_modes : list string;
}.
Record ServerAttestationSnapshot := {
  sa_status : string;
  sa_protocol_version : Z;
  sa_chain_id : Z;
  sa_contract_address : Felt252;
  sa_current_root : Felt252;
  sa_state_signing_key : CurvePointWire;
  sa_clearance_signing_key : CurvePointWire;
  sa_auth_scheme : string;
}.
Record ServerSnapshot := {
  ss_available : bool;
  ss_health : option ServerHealthSnapshot;
  ss_attestation : option ServerAttestationSnapshot;
  ss_error : option string;
}.
Record DemoOverview := {
  do_wallet : WalletStatus;
  do_funding : FundingConfig;
  do_indexer : IndexerSnapshot;
  do_server : ServerSnapshot;
  do_runtime_proof_backend : string;
}.

Record RequestPreview := {
  rp_request : CoreRequest;
  rp_payload : string;
  rp_payload_hash : Felt252;
  rp_registration_commitment : Felt252;
  rp_note_leaf : Felt252;
  rp_request_nullifier : Felt252;
  rp_active_root : Felt252;
  rp_merkle_siblings : list Felt252;
  rp_solvency_bound : Z;
  rp_wallet_note : NoteStatus;
  rp_state_sig_epoch : Z;
  rp_state_sig_root : Felt252;
  rp_runtime_proof_backend : string;
}.
Record ProtocolResponseTrace := {
  pt_client_request_id : string;
  pt_request_nullifier : Felt252;
  pt_response_code : Z;
  pt_response_hash : Felt252;
  pt_charge_applied : Z;
  pt_next_commitment_x : Felt252;
  pt_next_commitment_y : Felt252;
  pt_next_anchor : Felt252;
  pt_blind_delta_srv : Felt252;
  pt_next_state_sig_epoch : Z;
  pt_next_state_sig_root : Felt252;
  pt_policy_reason_code : option Z;
  pt_policy_evidence_hash : option Felt252;
}.
Record RequestDemoResult := {
  rd_preview : RequestPreview;
  rd_response : CoreResponse;
  rd_protocol_response : ProtocolResponseTrace;
  rd_wallet : WalletStatus;
}.

(** ** Conversions *)

(** [r_x] of the signature is the submodule's to read. *)
Definition protocol_response_trace (r_x : SchnorrSignature → Felt252) (response : RequestResponseV2)
    : ProtocolResponseTrace := {|
  pt_client_request_id := resp_client_request_id response;
  pt_request_nullifier := resp_request_nullifier response;
  pt_response_code := resp_response_code response;
  pt_response_hash := resp_response_hash response;
  pt_charge_applied := resp_charge_applied response;
  pt_next_commitment_x := point_x (resp_next_commitment response);
  pt_next_commitment_y := point_y (resp_next_commitment response);
  pt_next_anchor := resp_next_anchor response;
  pt_blind_delta_srv := resp_blind_delta_srv response;
  pt_next_state_sig_epoch := 0;
  pt_next_state_sig_root := r_x (resp_next_state_signature response);
  pt_policy_reason_code := resp_policy_reason_code response;
  pt_policy_evidence_hash := resp_policy_evidence_hash response;
|}.

Definition core_response `{!JsonText} (response : RequestResponseV2) (remaining_balance : option Z)
    : CoreResponse := {|
  cr_client_request_id := resp_client_request_id response;
  cr_response_code := resp_response_code response;
  cr_raw_payload := resp_response_payload response;
  cr_payload := ok (json_parse (resp_response_payload response));
  cr_charge_applied := resp_charge_applied response;
  cr_next_anchor := resp_next_anchor response;
  cr_remaining_balance := remaining_balance;
|}.

Definition note_status (state : NoteState) : NoteStatus := {|
  ns_note_id := note_note_id state;
  ns_deposit_amount := note_deposit_amount state;
  ns_current_balance := note_current_balance state;
  ns_expiry_ts := note_expiry_ts state;
  ns_is_genesis := note_is_genesis state;
  ns_current_anchor := note_current_anchor state;
  ns_current_commitment_x := note_current_commitment_x state;
  ns_current_commitment_y := note_current_commitment_y state;
|}.

Definition funding_config (config : AuthConfig) : FundingConfig := {|
  fc_contract_address := ac_contract_address config;
  fc_chain_id := ac_chain_id config;
  fc_indexer_url := ac_indexer_url config;
  fc_protocol_server_url := ac_protocol_server_url config;
  fc_models := ac_models config;
  fc_suggested_deposit_amount := ac_suggested_deposit_amount config;
  fc_demo_rpc_url := ac_demo_rpc_url config;
  fc_demo_billing_token_address := ac_demo_billing_token_address config;
  fc_demo_mint_enabled := ac_demo_mint_enabled config;
  fc_demo_note_ttl_seconds := ac_demo_note_ttl_seconds config;
|}.

(** [AuthService::default_model] *)
Definition default_model (config : AuthConfig) : string :=
  match ac_models config with model :: _ => md_id model | [] => "zkapi-echo" end.
End types.
