(* ===== verification/Compat.v ===== *)
(** * The request formats the daemon accepts: [zkapi-clientd/src/compat.rs]

    OpenAI chat completions, OpenAI responses and Ollama chats become an
    OpenRouter chat completion on the way out, and a core response is reshaped on
    the way back. *)

From Stdlib Require Import ZArith Lia.
From stdpp Require Import base tactics decidable numbers list strings.
From S2P Require Import Prelude Float64 Json Types ClientTypes.

Local Open Scope string_scope.

Definition DIRECT_OPENROUTER_DEFAULT_MAX_TOKENS : Z := 256.
Definition CHAT_PATH : string := "/chat/completions".

(** [map.remove(k)] *)
Definition map_remove (k : string) (m : list (string * Value)) : list (string * Value) :=
  filter (λ kv, kv.1 ≠ k) m.
Definition contains_key (k : string) (m : list (string * Value)) : bool :=
  match map_get k m with Some _ => true | None => false end.

Section compat.
Context `{!FeltOps, !ClientTypes, !JsonText}.

(** ** Requests *)

Definition extract_model (body : Value) (fallback : string) : string :=
  default fallback (value_get "model" body ≫= as_str).

(** The messages of a chat, or those an OpenAI responses [input] stands for. *)
Definition request_messages (object : list (string * Value)) : option Value :=
  match map_get "messages" object with
  | Some messages => Some messages
  | None =>
      (λ input, match input with
                | Str text => Array [json_object [("role", Str "user"); ("content", Str text)]]
                | value => value
                end) <$> map_get "input" object
  end.

Definition ensure_direct_completion_limit (object : list (string * Value)) : list (string * Value) :=
  if contains_key "max_tokens" object || contains_key "max_completion_tokens" object then object
  else
    let limit := default (Num (PosInt DIRECT_OPENROUTER_DEFAULT_MAX_TOKENS)) (map_get "max_output_tokens" object) in
    map_insert "max_tokens" limit (map_remove "max_output_tokens" object).

Definition forwarded_keys : list string :=
  ["model"; "temperature"; "max_tokens"; "max_completion_tokens"; "top_p"; "stop"; "tools"; "tool_choice";
   "response_format"; "stream"].

(** [if let Some(value) = src.get(key) { dst.insert(key, value.clone()) }] *)
Definition copy_key (src : list (string * Value)) (dst : list (string * Value)) (key : string)
    : list (string * Value) :=
  match map_get key src with Some value => map_insert key value dst | None => dst end.
(** [if let Some(value) = options.get(key) { dst.entry(as_key).or_insert(value) }] *)
Definition copy_option (options : list (string * Value)) (key as_key : string) (dst : list (string * Value))
    : list (string * Value) :=
  match map_get key options with Some value => or_insert as_key value dst | None => dst end.

Definition openrouter_request (path : string) (body : Value) : string * Value :=
  let object := default [] (as_object body) in
  if String.eqb path "/v1/chat/completions" || String.eqb path CHAT_PATH then
    (CHAT_PATH, Object (or_insert "stream" (Bool false) (ensure_direct_completion_limit object)))
  else
    let normalized := fold_left (copy_key object) forwarded_keys [] in
    let normalized := match request_messages object with
                      | Some messages => map_insert "messages" messages normalized
                      | None => normalized
                      end in
    let normalized := match map_get "options" object with
                      | Some (Object options) =>
                          copy_option options "num_predict" "max_tokens"
                            (copy_option options "temperature" "temperature" normalized)
                      | _ => normalized
                      end in
    let normalized :=
      if negb (contains_key "max_tokens" normalized) && negb (contains_key "max_completion_tokens" normalized) then
        match map_get "max_output_tokens" object with
        | Some value => map_insert "max_tokens" value normalized
        | None => map_insert "max_tokens" (Num (PosInt DIRECT_OPENROUTER_DEFAULT_MAX_TOKENS)) normalized
        end
      else normalized in
    (CHAT_PATH, Object (or_insert "stream" (Bool false) normalized)).

Definition stream_requested (body : Value) : bool :=
  bool_decide ((value_get "stream" body ≫= as_bool) = Some true).
Definition ollama_stream_requested (body : Value) : bool :=
  negb (bool_decide ((value_get "stream" body ≫= as_bool) = Some false)).

(** ** Model lists *)

Definition openai_models (models : list ModelDescriptor) : Value :=
  json_object [
    ("object", Str "list");
    ("data", Array (map (λ model, json_object [
       ("id", Str (md_id model));
       ("object", Str "model");
       ("created", Num (PosInt 0));
       ("owned_by", Str (md_owned_by model))]) models))].

Definition ollama_tags (models : list ModelDescriptor) : Value :=
  json_object [("models", Array (map (λ model, json_object [
    ("name", Str (md_id model));
    ("model", Str (md_id model));
    ("modified_at", Str "1970-01-01T00:00:00Z");
    ("size", Num (PosInt 0));
    ("digest", Str "zkapi");
    ("details", json_object [
       ("format", Str "zkapi");
       ("family", Str "proxy");
       ("parameter_size", Str "n/a");
       ("quantization_level", Str "n/a")])]) models))].

(** ** Responses *)

Definition response_text (response : CoreResponse) : string :=
  match cr_payload response with
  | Some (Str text) => text
  | Some value =>
      let chat : option Value := (value_get "choices" value ≫= value_nth 0) ≫= value_get "message" in
      match (chat ≫= value_get "content") ≫= as_str with
      | Some text => text
      | None =>
          let output : option Value := (value_get "output" value ≫= value_nth 0) ≫= value_get "content" in
          match ((output ≫= value_nth 0) ≫= value_get "text") ≫= as_str with
          | Some text => text
          | None => json_print value
          end
      end
  | None => cr_raw_payload response
  end.

Definition response_usage (response : CoreResponse) : Z * Z :=
  let usage : option Value := cr_payload response ≫= value_get "usage" in
  (default 0%Z ((usage ≫= value_get "prompt_tokens") ≫= as_u64),
   default 0%Z ((usage ≫= value_get "completion_tokens") ≫= as_u64)).

(** A [u128] in [json!]: [serde_json] has no number above [u64::MAX], and the
    macro panics there ([None]). *)
Definition json_u128 (n : Z) : option Value :=
  if (n <=? u64_MAX)%Z then Some (Num (PosInt n)) else None.

Definition response_metadata (response : CoreResponse) : option Value :=
  charge_applied ← json_u128 (cr_charge_applied response);
  remaining_balance ← match cr_remaining_balance response with
                      | None => Some Null
                      | Some balance => json_u128 balance
                      end;
  Some (json_object [
    ("response_code", Num (PosInt (cr_response_code response)));
    ("charge_applied", charge_applied);
    ("remaining_balance", remaining_balance);
    ("next_anchor", felt_to_value (cr_next_anchor response))]).

(** [response.payload.as_ref().filter(|value| value.get(key).is_some())] *)
Definition existing_shape (key : string) (response : CoreResponse) : option Value :=
  value ← cr_payload response;
  match value_get key value with Some _ => Some value | None => None end.

Definition chat_completion (now : Z) (model : string) (response : CoreResponse) : option Value :=
  match existing_shape "choices" response with
  | Some existing => Some existing
  | None =>
      metadata ← response_metadata response;
      Some (json_object [
        ("id", Str ("chatcmpl-" +:+ cr_client_request_id response));
        ("object", Str "chat.completion");
        ("created", Num (PosInt now));
        ("model", Str model);
        ("choices", Array [json_object [
           ("index", Num (PosInt 0));
           ("message", json_object [("role", Str "assistant"); ("content", Str (response_text response))]);
           ("finish_reason", Str "stop")]]);
        ("usage", json_object [
           ("prompt_tokens", Num (PosInt 0));
           ("completion_tokens", Num (PosInt 0));
           ("total_tokens", Num (PosInt 0))]);
        ("zkapi", metadata)])
  end.

Definition responses_api (now : Z) (model : string) (response : CoreResponse) : option Value :=
  match existing_shape "output" response with
  | Some existing => Some existing
  | None =>
      metadata ← response_metadata response;
      Some (json_object [
        ("id", Str ("resp_" +:+ cr_client_request_id response));
        ("object", Str "response");
        ("created_at", Num (PosInt now));
        ("status", Str "completed");
        ("model", Str model);
        ("output", Array [json_object [
           ("type", Str "message");
           ("role", Str "assistant");
           ("content", Array [json_object [
              ("type", Str "output_text");
              ("text", Str (response_text response))]])]]);
        ("zkapi", metadata)])
  end.

Definition ollama_chat (model : string) (response : CoreResponse) : option Value :=
  match existing_shape "message" response with
  | Some existing => Some existing
  | None =>
      metadata ← response_metadata response;
      let '(prompt_tokens, completion_tokens) := response_usage response in
      Some (json_object [
        ("model", Str model);
        ("created_at", Str "1970-01-01T00:00:00Z");
        ("message", json_object [("role", Str "assistant"); ("content", Str (response_text response))]);
        ("done", Bool true);
        ("done_reason", Str "stop");
        ("total_duration", Num (PosInt 0));
        ("load_duration", Num (PosInt 0));
        ("prompt_eval_count", Num (PosInt prompt_tokens));
        ("eval_count", Num (PosInt completion_tokens));
        ("zkapi", metadata)])
  end.

(** ** Lemmas *)

Lemma contains_key_Some k m : contains_key k m = true ↔ is_Some (map_get k m).
Proof. unfold contains_key. destruct (map_get k m); split; by eauto using is_Some_None. Qed.

Lemma map_get_remove k m : map_get k (map_remove k m) = None.
Proof.
  induction m as [|[k' v] m IH]; [done|]. unfold map_remove. rewrite filter_cons.
  case_decide as Hk; [|exact IH]. simpl in *. destruct (String.eqb_spec k k'); [by subst|exact IH].
Qed.
Lemma map_get_remove_ne k k' m : k ≠ k' → map_get k (map_remove k' m) = map_get k m.
Proof.
  intros Hne. induction m as [|[a v] m IH]; [done|]. unfold map_remove. rewrite filter_cons.
  case_decide as Hk; simpl in *.
  - destruct (String.eqb k a); [done|exact IH].
  - subst a. destruct (String.eqb_spec k k'); [done|exact IH].
Qed.

Lemma map_get_copy_key k src dst key :
  map_get k (copy_key src dst key) =
  if String.eqb k key then (match map_get k src with Some v => Some v | None => map_get k dst end) else map_get k dst.
Proof.
  unfold copy_key. destruct (String.eqb_spec k key) as [->|Hne]; destruct (map_get key src); try done.
  - by rewrite map_get_insert.
  - by rewrite map_get_insert_ne.
Qed.
Lemma map_get_copy_keys k src keys dst :
  map_get k (fold_left (copy_key src) keys dst) =
  if existsb (String.eqb k) keys then (match map_get k src with Some v => Some v | None => map_get k dst end)
  else map_get k dst.
Proof.
  revert dst. induction keys as [|key keys IH]; intros dst; [done|]. cbn [fold_left existsb].
  rewrite IH, map_get_copy_key. destruct (String.eqb k key), (existsb _ keys), (map_get k src); done.
Qed.
Lemma map_get_or_insert_Some k k' v m : is_Some (map_get k m) → is_Some (map_get k (or_insert k' v m)).
Proof.
  intros Hk. destruct (decide (k = k')) as [->|Hne]; [rewrite map_get_or_insert; by eexists|].
  by rewrite map_get_or_insert_ne.
Qed.
Lemma map_get_copy_option k options key as_key dst :
  map_get k (copy_option options key as_key dst) =
  if String.eqb k as_key then (match map_get k dst with Some v => Some v | None => map_get key options end)
  else map_get k dst.
Proof.
  unfold copy_option. destruct (String.eqb_spec k as_key) as [->|Hne]; destruct (map_get key options) as [v|].
  - rewrite map_get_or_insert. by destruct (map_get as_key dst).
  - by destruct (map_get as_key dst).
  - by rewrite map_get_or_insert_ne.
  - done.
Qed.

(** ** What the normalized request holds *)

Definition is_chat_path (path : string) : bool := String.eqb path "/v1/chat/completions" || String.eqb path CHAT_PATH.
Definition ollama_option (key : string) (object : list (string * Value)) : option Value :=
  match map_get "options" object with Some (Object options) => map_get key options | _ => None end.

(** The [max_tokens] of the request: the caller's own limit in whatever
    dialect, or the default where the caller gave none. *)
Definition completion_limit (chat : bool) (object : list (string * Value)) : option Value :=
  match map_get "max_tokens" object with
  | Some limit => Some limit
  | None =>
      match (if chat then None else ollama_option "num_predict" object) with
      | Some limit => Some limit
      | None =>
          if contains_key "max_completion_tokens" object then None
          else Some (default (Num (PosInt DIRECT_OPENROUTER_DEFAULT_MAX_TOKENS)) (map_get "max_output_tokens" object))
      end
  end.

(** The field [key] of the normalized request. *)
Definition normalized_field (chat : bool) (object : list (string * Value)) (key : string) : option Value :=
  if String.eqb key "stream" then Some (default (Bool false) (map_get "stream" object))
  else if String.eqb key "max_tokens" then completion_limit chat object
  else if chat then
    if String.eqb key "max_output_tokens" &&
       negb (contains_key "max_tokens" object || contains_key "max_completion_tokens" object) then None
    else map_get key object
  else if String.eqb key "messages" then request_messages object
  else if String.eqb key "temperature" then
    match map_get key object with Some v => Some v | None => ollama_option key object end
  else if existsb (String.eqb key) forwarded_keys then map_get key object
  else None.

Lemma chat_limit_field object key :
  map_get key (ensure_direct_completion_limit object) =
  if String.eqb key "max_tokens" then completion_limit true object
  else if String.eqb key "max_output_tokens" &&
          negb (contains_key "max_tokens" object || contains_key "max_completion_tokens" object) then None
  else map_get key object.
Proof.
  unfold ensure_direct_completion_limit, completion_limit.
  destruct (String.eqb_spec key "max_tokens") as [->|Ht].
  - destruct (contains_key "max_tokens" object) eqn:Et; simpl.
    { apply contains_key_Some in Et as [v ->]. done. }
    unfold contains_key in Et. destruct (map_get "max_tokens" object) eqn:Em; [done|].
    destruct (contains_key "max_completion_tokens" object) eqn:Ec; simpl; [done|]. by rewrite map_get_insert.
  - destruct (_ || _); [by rewrite andb_false_r|]. rewrite andb_true_r, map_get_insert_ne by done.
    destruct (String.eqb_spec key "max_output_tokens") as [->|Ho]; [apply map_get_remove|by apply map_get_remove_ne].
Qed.

(** The shim's object before the default limit and [stream]. *)
Definition shim_fields (object : list (string * Value)) : list (string * Value) :=
  let normalized := fold_left (copy_key object) forwarded_keys [] in
  let normalized := match request_messages object with
                    | Some messages => map_insert "messages" messages normalized
                    | None => normalized
                    end in
  match map_get "options" object with
  | Some (Object options) =>
      copy_option options "num_predict" "max_tokens"
        (copy_option options "temperature" "temperature" normalized)
  | _ => normalized
  end.

Lemma shim_field object key :
  map_get key (shim_fields object) =
  if String.eqb key "messages" then request_messages object
  else if String.eqb key "temperature" || String.eqb key "max_tokens" then
    match map_get key object with
    | Some v => Some v
    | None => ollama_option (if String.eqb key "temperature" then "temperature" else "num_predict") object
    end
  else if existsb (String.eqb key) forwarded_keys then map_get key object
  else None.
Proof.
  unfold shim_fields. set (n1 := fold_left _ _ _).
  assert (∀ k, map_get k n1 = if existsb (String.eqb k) forwarded_keys then map_get k object else None) as Hn1.
  { intros k. unfold n1. rewrite map_get_copy_keys. by destruct (existsb _ _), (map_get k object). }
  set (n2 := match request_messages object with Some _ => _ | None => _ end).
  assert (∀ k, map_get k n2 = if String.eqb k "messages" then request_messages object else map_get k n1) as Hn2.
  { intros k. unfold n2. destruct (String.eqb_spec k "messages") as [->|Hne];
      destruct (request_messages object); by rewrite ?map_get_insert, ?map_get_insert_ne, ?Hn1. }
  clearbody n2. setoid_rewrite Hn1 in Hn2. unfold ollama_option.
  destruct (String.eqb_spec key "messages") as [->|Hm].
  { destruct (map_get "options" object) as [[]|]; rewrite ?map_get_copy_option, ?Hn2; done. }
  assert (map_get key n2 = if existsb (String.eqb key) forwarded_keys then map_get key object else None) as Hk.
  { rewrite Hn2. by destruct (String.eqb_spec key "messages"). }
  destruct (String.eqb_spec key "temperature") as [->|Ht]; [|destruct (String.eqb_spec key "max_tokens") as [->|Hx]]; simpl.
  - destruct (map_get "options" object) as [[]|]; rewrite ?map_get_copy_option, Hk; simpl;
      by destruct (map_get "temperature" object).
  - destruct (map_get "options" object) as [[]|]; rewrite ?map_get_copy_option, Hk; simpl;
      by destruct (map_get "max_tokens" object).
  - destruct (map_get "options" object) as [[]|]; rewrite ?map_get_copy_option, Hk; try done.
    simpl. by rewrite (proj2 (String.eqb_neq _ _) Hx), (proj2 (String.eqb_neq _ _) Ht).
Qed.

(** The default limit of the shims. *)
Definition shim_limited (object m : list (string * Value)) : list (string * Value) :=
  if negb (contains_key "max_tokens" m) && negb (contains_key "max_completion_tokens" m) then
    match map_get "max_output_tokens" object with
    | Some value => map_insert "max_tokens" value m
    | None => map_insert "max_tokens" (Num (PosInt DIRECT_OPENROUTER_DEFAULT_MAX_TOKENS)) m
    end
  else m.

Lemma shim_limited_field object key :
  map_get key (shim_limited object (shim_fields object)) =
  if String.eqb key "max_tokens" then completion_limit false object else map_get key (shim_fields object).
Proof.
  unfold shim_limited. set (m := shim_fields object).
  assert (contains_key "max_completion_tokens" m = contains_key "max_completion_tokens" object) as Hc.
  { unfold contains_key, m. by rewrite shim_field. }
  assert (map_get "max_tokens" m = match map_get "max_tokens" object with
                                   | Some v => Some v | None => ollama_option "num_predict" object end) as Ht.
  { unfold m. by rewrite shim_field. }
  rewrite Hc. unfold completion_limit. clearbody m.
  destruct (String.eqb_spec key "max_tokens") as [->|Hne].
  - unfold contains_key at 1. destruct (map_get "max_tokens" m) eqn:Em; simpl.
    { rewrite Em. destruct (map_get "max_tokens" object), (ollama_option "num_predict" object); congruence. }
    destruct (map_get "max_tokens" object); [done|]. rewrite <-Ht.
    destruct (contains_key _ object); simpl; [done|].
    destruct (map_get "max_output_tokens" object); simpl; by rewrite map_get_insert.
  - destruct (_ && _); [|done]. destruct (map_get "max_output_tokens" object); by rewrite map_get_insert_ne.
Qed.

Lemma openrouter_request_unfold path body :
  openrouter_request path body =
  let object := default [] (as_object body) in
  (CHAT_PATH, Object (or_insert "stream" (Bool false)
    (if is_chat_path path then ensure_direct_completion_limit object
     else shim_limited object (shim_fields object)))).
Proof. unfold openrouter_request, is_chat_path. by destruct (_ || _). Qed.

Lemma openrouter_request_field path body : ∃ m,
  openrouter_request path body = (CHAT_PATH, Object m) ∧
  ∀ key, map_get key m = normalized_field (is_chat_path path) (default [] (as_object body)) key.
Proof.
  rewrite openrouter_request_unfold. eexists. split; [done|]. intros key.
  generalize (default [] (as_object body)) as object. intros object. unfold normalized_field.
  destruct (String.eqb_spec key "stream") as [->|Hs].
  - rewrite map_get_or_insert. destruct (is_chat_path path); [by rewrite chat_limit_field|].
    by rewrite shim_limited_field, shim_field.
  - rewrite map_get_or_insert_ne by done. destruct (is_chat_path path); [apply chat_limit_field|].
    rewrite shim_limited_field. destruct (String.eqb_spec key "max_tokens") as [->|Ht]; [done|].
    rewrite shim_field. destruct (String.eqb_spec key "messages"); [done|].
    destruct (String.eqb_spec key "temperature") as [->|]; [done|].
    by destruct (String.eqb_spec key "max_tokens").
Qed.

(** what a caller's request becomes before it leaves the machine. Whatever
    the dialect and body, it is a chat completion whose every field is that of
    [normalized_field]: the shims forward only the ten listed fields and the
    messages, an explicit limit in any dialect is kept, and a request always
    carries some completion limit, 256 tokens when the caller gave none. *)
Theorem openrouter_request_normalized path body : ∃ m,
  openrouter_request path body = (CHAT_PATH, Object m) ∧
  (∀ key, map_get key m = normalized_field (is_chat_path path) (default [] (as_object body)) key) ∧
  (is_Some (map_get "max_tokens" m) ∨ is_Some (map_get "max_completion_tokens" m)) ∧
  ((∀ key, key ∈ ["max_tokens"; "max_completion_tokens"; "max_output_tokens"; "options"] → value_get key body = None) →
   map_get "max_tokens" m = Some (Num (PosInt DIRECT_OPENROUTER_DEFAULT_MAX_TOKENS))).
Proof.
  destruct (openrouter_request_field path body) as (m & Hm & Hf). exists m. split; [done|]. split; [done|].
  rewrite !Hf. unfold normalized_field; simpl. unfold completion_limit, contains_key, ollama_option. split.
  - destruct (map_get "max_tokens" _); [left; by eexists|].
    destruct (if is_chat_path path then None else _); [left; by eexists|].
    destruct (map_get "max_completion_tokens" _) as [v|] eqn:Ec; [right|left; by eexists].
    destruct (is_chat_path path); simpl; rewrite ?Ec; by eexists.
  - intros Hnone. assert (∀ key, key ∈ ["max_tokens"; "max_completion_tokens"; "max_output_tokens"; "options"] →
                                 map_get key (default [] (as_object body)) = None) as Hn.
    { intros key Hk. specialize (Hnone key Hk). unfold value_get in Hnone. by destruct (as_object body). }
    rewrite !Hn by (rewrite !elem_of_cons; tauto). by destruct (is_chat_path path).
Qed.
End compat.
