(* ===== verification/ClientHelpers.v ===== *)
(** * The client daemon's pure functions: [zkapi-clientd/src/service.rs], [routes.rs]

    Trust decisions on URLs and evidence, classification of remote failures,
    retry delays, the vault's ABI words, addresses and session ids. Durations are
    milliseconds. *)

From Stdlib Require Import ZArith Lia Ascii.
From stdpp Require Import base tactics decidable numbers list strings.
From S2P Require Import Prelude Text Float64 Json Http Types ClientTypes.

Local Open Scope string_scope.

(** ** Trust *)

Definition MAX_OA_SIGNATURE_ENCODING_LEN : nat := 4096.
Definition MAX_OA_EVIDENCE_EXPIRY_SKEW_SECONDS : Z := 60.

Definition validate_signature (label signature : string) : result AuthError unit :=
  _ ← fail_if (String.eqb signature "") (KeyVerification ("OA key evidence omitted the " +:+ label +:+ " signature"));
  fail_if (Nat.ltb MAX_OA_SIGNATURE_ENCODING_LEN (String.length signature))
    (KeyVerification ("OA key evidence " +:+ label +:+ " signature encoding is oversized")).
Definition validate_oa_key_evidence (expires_at : Z) (evidence : OaKeyVerificationEvidence) : result AuthError unit :=
  _ ← fail_if (String.eqb (trim (ev_station_id evidence)) "")
        (KeyVerification "OA key evidence omitted the station ID");
  let expiry_skew := saturating_sub (ev_key_valid_till evidence) expires_at in
  _ ← fail_if ((ev_key_valid_till evidence <? expires_at)%Z || (MAX_OA_EVIDENCE_EXPIRY_SKEW_SECONDS <? expiry_skew)%Z)
        (KeyVerification ("OA key evidence expiry " +:+ show_uint (ev_key_valid_till evidence)
                          +:+ " does not safely cover lease expiry " +:+ show_uint expires_at));
  _ ← validate_signature "station" (ev_station_signature evidence);
  validate_signature "org" (ev_org_signature evidence).

Definition default_openrouter_key_source : string := "openrouter".

Definition is_secure_or_loopback_url (value : string) : bool :=
  starts_with "https://" value || starts_with "http://127.0.0.1:" value || starts_with "http://localhost:" value.

Definition trim_slashes (url : string) : string := trim_end_matches "/" url.
Definition matches_trusted_url (supplied expected : string) : bool :=
  let expected := trim_slashes expected in
  is_secure_or_loopback_url expected && String.eqb (trim_slashes supplied) expected.

Definition enforce_required_key_source (require_oa : bool) (source : string) : result AuthError unit :=
  fail_if (require_oa && negb (String.eqb source "oa_org"))
    (KeyVerification "client policy requires an OA-org verifier-backed key").

(** The CORS predicate of [local_cors_layer]. *)
Definition origin_allowed (origin : string) : bool :=
  starts_with "http://localhost" origin || starts_with "http://127.0.0.1" origin.

(** ** Session ids *)

Definition session_char (c : ascii) : bool :=
  is_ascii_alphanumeric c || Ascii.eqb c "-" || Ascii.eqb c "_" || Ascii.eqb c "." || Ascii.eqb c ":".
Definition normalize_session_id (session_id : option string) : result AuthError string :=
  let value := trim (default "default" session_id) in
  _ ← fail_if (String.eqb value "" || Nat.ltb 128 (String.length value))
        (InvalidInput "x-zkapi-session-id must contain 1 to 128 characters");
  _ ← fail_if (negb (str_forall session_char value))
        (InvalidInput "x-zkapi-session-id may contain only letters, digits, '-', '_', '.', and ':'");
  Ok value.

(** ** Remote failures and retries *)

Definition DIRECT_REMOTE_MAX_ATTEMPTS : nat := 3.
Definition DIRECT_REMOTE_RETRY_BASE_DELAY : Z := 250.
Definition DIRECT_REMOTE_RETRY_MAX_DELAY : Z := 5000.

Definition is_transient_remote_status (status : Z) : bool :=
  existsb (Z.eqb status) [408; 425; 429; 500; 502; 503; 504; 524; 529]%Z.

Section json.
Context `{!JsonText}.
Definition is_openrouter_total_key_limit_error (message : string) : bool :=
  match ((ok (json_parse message) ≫= value_get "error") ≫= value_get "message") ≫= as_str with
  | Some message => starts_with "Key limit exceeded (total limit)" message
  | None => false
  end.
Definition is_rejected_openrouter_key (error : AuthError) : bool :=
  match error with
  | UpstreamResponse status message =>
      Z.eqb status 401 || (Z.eqb status 403 && is_openrouter_total_key_limit_error message)
  | _ => false
  end.
End json.
Definition is_exhausted_openrouter_key (error : AuthError) : bool :=
  match error with UpstreamResponse status _ => Z.eqb status 402 | _ => false end.

(** [Retry-After] in seconds, as a delay. *)
Definition retry_after_delay (headers : list (string * result string string)) : option Z :=
  value ← header "retry-after" headers;
  text ← ok value;
  seconds ← parse_u64 text;
  Some (seconds * 1000)%Z.

Definition direct_remote_retry_delay (attempt : nat) (retry_after : option Z) : Z :=
  let shift := Nat.min (attempt - 1) 8 in
  let backoff := (DIRECT_REMOTE_RETRY_BASE_DELAY * 2 ^ Z.of_nat shift)%Z in
  default (Z.min backoff DIRECT_REMOTE_RETRY_MAX_DELAY) retry_after.

Definition retry_fits_lease (now expires_at delay : Z) : bool :=
  let delay_seconds := u64_add (delay / 1000) (if (0 <? delay mod 1000)%Z then 1 else 0) in
  (u64_add (u64_add now delay_seconds) 1 <? expires_at)%Z.

(** UTF-8: a byte that begins a character. *)
Definition is_char_start (c : ascii) : bool := negb (Z.eqb (Z.land (Z.of_N (N_of_ascii c)) 192) 128).
(** The last character boundary at or below [max]; [index] is the position of
    [s] in the whole text. *)
Fixpoint last_boundary (max index : nat) (best : nat) (s : string) : nat :=
  match s with
  | EmptyString => best
  | String c s' =>
      if is_char_start c then if Nat.leb index max then last_boundary max (S index) index s' else best
      else last_boundary max (S index) best s'
  end.
Definition ellipsis : string := bytes [226; 128; 166].
Definition truncate_for_error (value : string) (max : nat) : string :=
  if Nat.leb (String.length value) max then value
  else String.substring 0 (last_boundary max 0 0 value) value +:+ ellipsis.

(** ** Addresses and ABI words *)

Definition hex_byte (c : ascii) : string :=
  let n := Z.of_N (N_of_ascii c) in
  String (hex_digit (n / 16)) (String (hex_digit (n mod 16)) "").
(** [format_address(&[u8; 20])] *)
Fixpoint hex_bytes (bytes : string) : string :=
  match bytes with EmptyString => "" | String c rest => hex_byte c +:+ hex_bytes rest end.
Definition format_address (address : string) : string := "0x" +:+ hex_bytes address.

(** [format!("{body:0>n}")] *)
Definition pad_left (width : nat) (s : string) : string := pad_zeros (width - String.length s) s.

Definition format_felt_address `{!FeltOps} (address : Felt252) : string :=
  let raw := to_hex address in
  "0x" +:+ pad_left 40 (default raw (strip_prefix "0x" raw)).

Definition is_ascii (c : ascii) : bool := (N_of_ascii c <? 128)%N.
Fixpoint chunks64 (fuel : nat) (s : string) : list string :=
  match fuel, s with
  | O, _ | _, EmptyString => []
  | S fuel', _ => String.substring 0 64 s :: chunks64 fuel' (String.substring 64 (String.length s - 64) s)
  end.
Definition abi_words (value : string) : result AuthError (list string) :=
  let encoded := default value (strip_prefix "0x" value) in
  _ ← fail_if (String.eqb encoded "" || negb (Nat.eqb (String.length encoded mod 64) 0)
               || negb (str_forall is_ascii encoded))
        (WalletErr "RPC returned malformed ABI data");
  Ok (chunks64 (String.length encoded) encoded).

Definition abi_word_u64 (word : string) : result AuthError Z :=
  _ ← fail_if (negb (Nat.eqb (String.length word) 64) || negb (str_forall is_ascii_hexdigit word)
               || negb (str_forall (Ascii.eqb "0") (String.substring 0 48 word)))
        (WalletErr "RPC ABI integer does not fit in u64");
  ok_or (WalletErr "RPC returned malformed ABI integer") (parse_uint 16 u64_MAX (String.substring 48 16 word)).

(** [format!("{:064x}", note_id)] *)
Definition abi_encode_u32 (n : Z) : string := pad_left 64 (show_hex n).

(** Two bytes that are UTF-8. *)
Definition utf8_pair (a b : ascii) : bool :=
  (is_ascii a && is_ascii b) ||
  ((194 <=? N_of_ascii a)%N && (N_of_ascii a <=? 223)%N && (128 <=? N_of_ascii b)%N && (N_of_ascii b <=? 191)%N).
(** [parse_destination] of [routes.rs]; the texts of the two standard errors
    are arguments. *)
Fixpoint parse_byte_pairs (utf8_error digit_error : string) (hex : string) : result string string :=
  match hex with
  | String a (String b rest) =>
      _ ← fail_if (negb (utf8_pair a b)) utf8_error;
      byte ← ok_or digit_error (parse_uint 16 255 (String a (String b "")));
      bytes ← parse_byte_pairs utf8_error digit_error rest;
      Ok (String (ascii_of_N (Z.to_N byte)) bytes)
  | _ => Ok ""
  end.
Definition parse_destination (utf8_error digit_error : string) (value : string) : result string string :=
  let hex := default value (strip_prefix "0x" value) in
  _ ← fail_if (negb (Nat.eqb (String.length hex) 40)) "destination must be a 20-byte hex address";
  parse_byte_pairs utf8_error digit_error hex.

(** The mode of [wallet_withdraw]'s body. *)
Definition parse_withdrawal_mode (mode : string) : result AuthError WithdrawalMode :=
  let mode := to_ascii_lowercase (trim mode) in
  if existsb (String.eqb mode) ["mutual"; "mutual-close"; "mutualclose"] then Ok Mutual
  else if existsb (String.eqb mode) ["escape"; "escape-hatch"; "escapehatch"] then Ok Escape
  else Err (InvalidInput ("unknown withdrawal mode '" +:+ mode +:+ "' (expected 'mutual' or 'escape')")).

(** ** Files of the state directory *)

(** [dir.join(name)] of a relative name. *)
Definition join (dir name : string) : string :=
  if String.eqb dir "" then name
  else match strip_suffix "/" dir with Some _ => dir +:+ name | None => dir +:+ "/" +:+ name end.
Definition wallet_lock_path (state_dir : string) : string := join state_dir ".wallet.lock".
Definition note_state_path (state_dir : string) : string := join state_dir "note_state.json".
Definition pending_journal_path (state_dir : string) : string := join state_dir "pending_journal.json".
Definition prepared_withdrawal_path (state_dir : string) : string := join state_dir "prepared_withdrawal.json".
Definition prepared_temporary_path (state_dir : string) : string := join state_dir "prepared_withdrawal.json.tmp".

(** ** Lemmas on text *)

Lemma str_app_inj_l a b c : a +:+ b = a +:+ c → b = c.
Proof. induction a as [|x a IH]; [done|]. intros H. injection H as H. by apply IH. Qed.
Lemma str_app_cons c a b : String c a +:+ b = String c (a +:+ b).
Proof. done. Qed.
Lemma join_inj dir a b : join dir a = join dir b → a = b.
Proof.
  unfold join. destruct (String.eqb dir ""); [done|]. destruct (strip_suffix "/" dir).
  - apply str_app_inj_l.
  - intros H. apply str_app_inj_l in H. by injection H.
Qed.

Lemma pad_zeros_length n s : String.length (pad_zeros n s) = (n + String.length s)%nat.
Proof. induction n as [|n IH]; simpl; [done|]. by rewrite IH. Qed.
Lemma pad_zeros_app n s : pad_zeros n s = pad_zeros n "" +:+ s.
Proof. induction n as [|n IH]; [done|]. simpl. by rewrite IH. Qed.
Lemma pad_zeros_add m n s : pad_zeros (m + n) s = pad_zeros m (pad_zeros n s).
Proof. induction m as [|m IH]; [done|]. simpl. by rewrite IH. Qed.
Lemma pad_zeros_hex n s : str_forall is_ascii_hexdigit s = true → str_forall is_ascii_hexdigit (pad_zeros n s) = true.
Proof. intros Hs. by induction n as [|n IH]. Qed.
Lemma parse_digits_zeros radix max n s : (2 ≤ radix)%Z → (0 ≤ max)%Z →
  parse_digits radix max 0 (pad_zeros n s) = parse_digits radix max 0 s.
Proof.
  intros Hr Hmax. induction n as [|n IH]; [done|]. cbn [pad_zeros parse_digits].
  assert (digit_value radix "0" = Some 0%Z) as ->.
  { unfold digit_value. change (hex_value "0") with (Some 0%Z). cbn. by rewrite (proj2 (Z.ltb_lt _ _)) by lia. }
  cbn [mbind option_bind]. rewrite (proj2 (Z.leb_le _ _)) by lia. rewrite Z.add_0_r. exact IH.
Qed.

Lemma substring_split n s : String.substring 0 n s +:+ String.substring n (String.length s - n) s = s.
Proof.
  revert n. induction s as [|c s IH]; intros [|n]; simpl; try done.
  - by rewrite substring_all.
  - rewrite str_app_cons. by rewrite IH.
Qed.
Lemma substring_0_length n s : (n ≤ String.length s)%nat → String.length (String.substring 0 n s) = n.
Proof. revert n. induction s as [|c s IH]; intros [|n]; simpl; try lia. intros Hn. rewrite IH by lia. lia. Qed.

(** ** Hexadecimal numbers *)

Fixpoint hex_number (acc : Z) (s : string) : Z :=
  match s with EmptyString => acc | String c s' => hex_number (acc * 16 + default 0%Z (hex_value c)) s' end.

Ltac ascii_lia :=
  change (N_of_ascii "0") with 48%N in *; change (N_of_ascii "9") with 57%N in *;
  change (N_of_ascii "A") with 65%N in *; change (N_of_ascii "F") with 70%N in *;
  change (N_of_ascii "a") with 97%N in *; change (N_of_ascii "f") with 102%N in *; lia.
Lemma in_range_spec lo hi c : in_range lo hi c = true ↔ (N_of_ascii lo ≤ N_of_ascii c ≤ N_of_ascii hi)%N.
Proof. unfold in_range. by rewrite andb_true_iff, !N.leb_le. Qed.

Lemma hex_value_digit c : is_ascii_hexdigit c = true → ∃ v, hex_value c = Some v ∧ (0 ≤ v < 16)%Z.
Proof.
  unfold is_ascii_hexdigit, hex_value, is_ascii_digit.
  destruct (in_range "0" "9" c) eqn:Hd;
    [|destruct (in_range "A" "F" c) eqn:Hu; [|destruct (in_range "a" "f" c) eqn:Hl; [|done]]];
    intros _; eexists; (split; [done|]); apply in_range_spec in Hd || apply in_range_spec in Hu || apply in_range_spec in Hl;
    ascii_lia.
Qed.
Lemma hex_value_zero c : is_ascii_hexdigit c = true → hex_value c = Some 0%Z → c = "0"%char.
Proof.
  unfold is_ascii_hexdigit, hex_value, is_ascii_digit. intros _ Hv. rewrite <-(ascii_N_embedding c).
  destruct (in_range "0" "9" c) eqn:Hd;
    [|destruct (in_range "A" "F" c) eqn:Hu; [|destruct (in_range "a" "f" c) eqn:Hl; [|done]]];
    injection Hv as Hv; apply in_range_spec in Hd || apply in_range_spec in Hu || apply in_range_spec in Hl.
  - assert (N_of_ascii c = 48%N) as -> by ascii_lia. done.
  - exfalso. ascii_lia.
  - exfalso. ascii_lia.
Qed.

Lemma hex_number_acc acc s :
  hex_number acc s = (acc * 16 ^ Z.of_nat (String.length s) + hex_number 0 s)%Z.
Proof.
  revert acc. induction s as [|c s IH]; intros acc; cbn [hex_number String.length]; [simpl; lia|].
  rewrite IH, (IH (0 * 16 + _)%Z), Nat2Z.inj_succ, Z.pow_succ_r by lia. lia.
Qed.
Lemma hex_number_range s : str_forall is_ascii_hexdigit s = true →
  (0 ≤ hex_number 0 s < 16 ^ Z.of_nat (String.length s))%Z.
Proof.
  induction s as [|c s IH]; cbn [hex_number String.length str_forall]; [simpl; lia|].
  intros [(v & Hv & Hr)%hex_value_digit Hs]%andb_true_iff. specialize (IH Hs). rewrite hex_number_acc, Hv.
  cbn [default id]. rewrite Nat2Z.inj_succ, Z.pow_succ_r by lia. simpl. nia.
Qed.
Lemma hex_number_app acc a b : hex_number acc (a +:+ b) = hex_number (hex_number acc a) b.
Proof. revert acc. induction a as [|c a IH]; intros acc; [done|]. apply IH. Qed.
Lemma hex_number_zero s : str_forall is_ascii_hexdigit s = true →
  hex_number 0 s = 0%Z ↔ str_forall (Ascii.eqb "0") s = true.
Proof.
  induction s as [|c s IH]; cbn [hex_number str_forall]; [done|].
  intros [Hc Hs]%andb_true_iff. pose proof (hex_value_digit _ Hc) as (v & Hv & Hr).
  pose proof (hex_number_range s Hs) as Hn. rewrite hex_number_acc, Hv. cbn [default id]. rewrite andb_true_iff, <-IH by done.
  assert (0 < 16 ^ Z.of_nat (String.length s))%Z as Hp by (apply Z.pow_pos_nonneg; lia). split.
  - intros Hz. assert (v = 0)%Z as ->.
    { destruct (decide (v = 0)%Z); [done|]. pose proof (Z.mul_le_mono_nonneg_r 1 v (16 ^ Z.of_nat (String.length s)) ltac:(lia) ltac:(lia)). lia. }
    split; [|lia]. apply Ascii.eqb_eq. symmetry. by apply hex_value_zero.
  - intros [<-%Ascii.eqb_eq Hz]. rewrite Hz. injection Hv as <-. lia.
Qed.

Lemma parse_digits_hex max acc s : str_forall is_ascii_hexdigit s = true → (0 ≤ acc ≤ max)%Z →
  parse_digits 16 max acc s = if (hex_number acc s <=? max)%Z then Some (hex_number acc s) else None.
Proof.
  revert acc. induction s as [|c s IH]; intros acc; cbn [parse_digits hex_number str_forall].
  { intros _ Ha. by rewrite (proj2 (Z.leb_le _ _)) by lia. }
  intros [(v & Hv & Hr)%hex_value_digit Hs]%andb_true_iff Ha. unfold digit_value. rewrite Hv.
  cbn [mbind option_bind default id]. rewrite (proj2 (Z.ltb_lt _ _)) by lia. cbn [mbind option_bind].
  destruct (Z.leb_spec (acc * 16 + v) max); [apply IH; [done|lia]|].
  rewrite (proj2 (Z.leb_gt _ _)); [done|]. rewrite hex_number_acc.
  pose proof (hex_number_range s Hs). assert (1 ≤ 16 ^ Z.of_nat (String.length s))%Z by (apply Z.lt_pred_le, Z.pow_pos_nonneg; lia).
  nia.
Qed.
Lemma parse_uint_hex max s : str_forall is_ascii_hexdigit s = true → s ≠ "" → (0 ≤ max)%Z →
  parse_uint 16 max s = if (hex_number 0 s <=? max)%Z then Some (hex_number 0 s) else None.
Proof.
  intros Hs Hne Hmax. unfold parse_uint. destruct s as [|c s]; [done|].
  assert (strip_prefix "+" (String c s) = None) as ->.
  { cbn [strip_prefix]. destruct (Ascii.eqb_spec "+" c) as [<-|]; [|done]. by cbn in Hs. }
  cbn [default id]. rewrite (proj2 (String.eqb_neq _ _)) by done. by apply parse_digits_hex.
Qed.

(** An ABI word decodes exactly when it is 64 hex digits of a number that fits. *)
Lemma abi_word_u64_spec word n :
  abi_word_u64 word = Ok n ↔
  String.length word = 64%nat ∧ str_forall is_ascii_hexdigit word = true ∧
  n = hex_number 0 word ∧ (n ≤ u64_MAX)%Z.
Proof.
  unfold abi_word_u64. destruct (Nat.eqb_spec (String.length word) 64) as [Hl|Hl]; simpl;
    [|split; [done|by intros (? & ? & _)]].
  destruct (str_forall is_ascii_hexdigit word) eqn:Hh; simpl; [|split; [done|by intros (? & ? & _)]].
  pose proof (substring_split 48 word) as Hsplit. rewrite Hl in Hsplit. change (64 - 48)%nat with 16%nat in Hsplit.
  assert (String.length (String.substring 0 48 word) = 48%nat) as Hl1 by (apply substring_0_length; lia).
  set (a := String.substring 0 48 word) in *. set (b := String.substring 48 16 word) in *.
  assert (str_forall is_ascii_hexdigit a = true ∧ str_forall is_ascii_hexdigit b = true) as [Ha Hb].
  { rewrite <-Hsplit, str_forall_app in Hh. by apply andb_true_iff in Hh. }
  assert (String.length b = 16%nat) as Hl2.
  { assert (String.length (a +:+ b) = 64%nat) as H by (by rewrite Hsplit). rewrite str_length_app in H. lia. }
  pose proof (hex_number_range b Hb) as Hrb. rewrite Hl2 in Hrb.
  assert (hex_number 0 word = hex_number 0 a * 16 ^ 16 + hex_number 0 b)%Z as Hv.
  { rewrite <-Hsplit, hex_number_app, hex_number_acc, Hl2. done. }
  pose proof (hex_number_range a Ha) as Hra. unfold u64_MAX. rewrite parse_uint_hex; [|done|by destruct b|done].
  change (16 ^ Z.of_nat 16)%Z with (2 ^ 64)%Z in Hrb. change (16 ^ 16)%Z with (2 ^ 64)%Z in Hv.
  destruct (str_forall (Ascii.eqb "0") a) eqn:Hz; simpl.
  - apply hex_number_zero in Hz; [|done]. rewrite (proj2 (Z.leb_le _ _)) by lia. simpl.
    split; [intros [= <-]; repeat split; lia|intros (_ & _ & -> & _); f_equal; lia].
  - split; [done|]. intros (_ & _ & -> & Hle). assert (hex_number 0 a ≠ 0)%Z as Hn.
    { intros H%hex_number_zero; [congruence|done]. } lia.
Qed.

Lemma show_hex_digits_length fuel n acc : (String.length (show_hex_digits fuel n acc) ≤ fuel + String.length acc)%nat.
Proof.
  revert n acc. induction fuel as [|fuel IH]; intros n acc; cbn [show_hex_digits]; [lia|].
  destruct (n <? 16)%Z; cbn [String.length]; [lia|]. etransitivity; [apply IH|]. cbn. lia.
Qed.
Lemma show_hex_number n : (0 ≤ n)%Z → hex_number 0 (show_hex n) = n ∧ str_forall is_ascii_hexdigit (show_hex n) = true.
Proof.
  intros Hn. destruct (show_hex_digits_spec (S (Z.to_nat (Z.log2 n))) n "" n) as (Hp & Hs & Hne); [lia| |lia|].
  { assert (n < 2 ^ Z.succ (Z.log2 n))%Z.
    { destruct (decide (n = 0)%Z) as [->|]; [done|]. apply Z.log2_spec. lia. }
    pose proof (Z.log2_nonneg n). assert (2 ^ Z.succ (Z.log2 n) ≤ 16 ^ Z.of_nat (S (Z.to_nat (Z.log2 n))))%Z; [|lia].
    rewrite Nat2Z.inj_succ, Z2Nat.id by done. apply Z.pow_le_mono_l. lia. }
  change (str_forall is_ascii_hexdigit (show_hex n) = true) in Hs. split; [|done].
  change (parse_digits 16 n 0 (show_hex n) = Some n) in Hp. rewrite parse_digits_hex in Hp by (done || lia).
  destruct (_ <=? _)%Z; [|done]. by injection Hp.
Qed.
Lemma hex_number_pad n s : hex_number 0 (pad_zeros n s) = hex_number 0 s.
Proof. by induction n as [|n IH]. Qed.

(** the vault's words carry [u64] values exactly. The word that encodes a
    number in 64 hex digits decodes to that number, and a word decodes only to
    the number its digits denote: a larger one is refused, not truncated. *)
Theorem abi_word_roundtrip n word :
  (in_u64 n → abi_word_u64 (abi_encode_u32 n) = Ok n) ∧
  (abi_word_u64 word = Ok n →
   String.length word = 64%nat ∧ str_forall is_ascii_hexdigit word = true ∧ n = hex_number 0 word ∧ in_u64 n).
Proof.
  split.
  - intros [Hn Hmax]. destruct (show_hex_number n Hn) as [Hv Hh]. apply abi_word_u64_spec.
    unfold abi_encode_u32, pad_left. rewrite pad_zeros_length, hex_number_pad. repeat split; try done.
    + assert (String.length (show_hex n) ≤ 64)%nat; [|lia]. etransitivity; [apply show_hex_digits_length|].
      assert (Z.log2 n < 64)%Z; [|cbn; pose proof (Z.log2_nonneg n); lia].
      destruct (decide (n = 0)%Z) as [->|]; [done|]. unfold u64_MAX in Hmax. apply Z.log2_lt_pow2; lia.
    + by apply pad_zeros_hex.
  - intros (Hl & Hh & -> & Hmax)%abi_word_u64_spec. repeat split; try done. apply (hex_number_range _ Hh).
Qed.

(** ** Addresses *)

Lemma hex_byte_spec c : ∃ a b, hex_byte c = String a (String b "") ∧
  utf8_pair a b = true ∧ parse_uint 16 255 (String a (String b "")) = Some (Z.of_N (N_of_ascii c)).
Proof. destruct c as [[] [] [] [] [] [] [] []]; do 2 eexists; repeat split; reflexivity. Qed.
Lemma hex_bytes_length s : String.length (hex_bytes s) = (2 * String.length s)%nat.
Proof. induction s as [|c s IH]; [done|]. cbn [hex_bytes]. rewrite str_length_app, IH. cbn. lia. Qed.
Lemma parse_byte_pairs_hex utf8_error digit_error s : parse_byte_pairs utf8_error digit_error (hex_bytes s) = Ok s.
Proof.
  induction s as [|c s IH]; [done|]. cbn [hex_bytes].
  destruct (hex_byte_spec c) as (a & b & -> & Hu & Hp).
  change (String a (String b "") +:+ hex_bytes s) with (String a (String b (hex_bytes s))). cbn [parse_byte_pairs].
  rewrite Hu, Hp. cbn. rewrite IH. cbn. by rewrite N2Z.id, ascii_N_embedding.
Qed.

Lemma parse_destination_format utf8_error digit_error address : String.length address = 20%nat →
  parse_destination utf8_error digit_error (format_address address) = Ok address.
Proof.
  intros Hl. unfold parse_destination, format_address. rewrite (proj2 (strip_prefix_spec _ _ (hex_bytes address))) by done.
  cbn [default id]. rewrite hex_bytes_length, Hl. cbn. by rewrite parse_byte_pairs_hex.
Qed.
Lemma parse_destination_length utf8_error digit_error value address :
  parse_destination utf8_error digit_error value = Ok address → String.length address = 20%nat.
Proof.
  unfold parse_destination. generalize (default value (strip_prefix "0x" value)) as hex. intros hex H. inv_ok.
  apply negb_false_iff, Nat.eqb_eq in H.
  assert (∀ n hex address, String.length hex = (2 * n)%nat →
            parse_byte_pairs utf8_error digit_error hex = Ok address → String.length address = n) as Hgen.
  { clear. intros n. induction n as [|n IH]; intros [|a [|b hex]] address Hl; cbn in Hl; try lia.
    - cbn. intros H. by inv_ok.
    - cbn [parse_byte_pairs]. intros H. inv_ok. cbn. f_equal. eapply IH; [|done]. lia. }
  by eapply Hgen; [|done].
Qed.
Lemma format_address_inj a b : format_address a = format_address b → a = b.
Proof.
  unfold format_address. intros Hab%str_app_inj_l. pose proof (parse_byte_pairs_hex "" "" a) as Ha.
  rewrite Hab, parse_byte_pairs_hex in Ha. by injection Ha.
Qed.

(** the withdrawal address a status shows is the one a caller may send
    back: parsing the rendering of any 20 bytes, with or without [0x], gives
    those bytes, and a parsed destination always has 20 bytes. *)
Theorem destination_roundtrip utf8_error digit_error address value :
  (String.length address = 20%nat →
   parse_destination utf8_error digit_error (format_address address) = Ok address ∧
   parse_destination utf8_error digit_error (hex_bytes address) = Ok address) ∧
  (parse_destination utf8_error digit_error value = Ok address → String.length address = 20%nat).
Proof.
  split; [|apply parse_destination_length]. intros Hl. split; [by apply parse_destination_format|].
  unfold parse_destination. assert (strip_prefix "0x" (hex_bytes address) = None) as ->.
  { destruct address as [|c s]; [done|]. cbn [hex_bytes]. destruct c as [[] [] [] [] [] [] [] []]; reflexivity. }
  cbn [default id]. rewrite hex_bytes_length, Hl. cbn. by rewrite parse_byte_pairs_hex.
Qed.

(** Rust's integer parser takes a sign: a destination that is not hexadecimal
    passes. *)
Lemma signed_destination_accepted utf8_error digit_error :
  parse_destination utf8_error digit_error "0x+1+1+1+1+1+1+1+1+1+1+1+1+1+1+1+1+1+1+1+1" = Ok (bytes (repeat 1%nat 20)).
Proof. reflexivity. Qed.

(** A name that only begins with [localhost] passes the CORS predicate. *)
Lemma foreign_origin_allowed :
  origin_allowed "http://localhost.evil.example" = true ∧ origin_allowed "http://127.0.0.1.evil.example" = true.
Proof. done. Qed.

(** ** Session ids *)

Lemma session_chars_solid s : str_forall session_char s = true → str_forall solid s = true.
Proof.
  induction s as [|c s IH]; [done|]. cbn [str_forall]. intros [Hc Hs]%andb_true_iff. rewrite IH by done.
  rewrite andb_true_r. revert Hc. by destruct c as [[] [] [] [] [] [] [] []].
Qed.

(** A session id is 1 to 128 characters of a small alphabet, and normalizing it
    again changes nothing. *)
Lemma normalize_session_id_ok session_id sid :
  normalize_session_id session_id = Ok sid →
  (1 ≤ String.length sid ≤ 128)%nat ∧ str_forall session_char sid = true ∧ normalize_session_id (Some sid) = Ok sid.
Proof.
  unfold normalize_session_id. generalize (trim (default "default" session_id)) as value. intros value H. inv_ok.
  apply orb_false_iff in H as [He%String.eqb_neq Hl%Nat.ltb_ge].
  match goal with Hn : negb _ = false |- _ => apply negb_false_iff in Hn as Hc end.
  cbn [default id]. rewrite trim_solid by by apply session_chars_solid.
  rewrite (proj2 (String.eqb_neq _ _)), (proj2 (Nat.ltb_ge _ _)), Hc by done. cbn.
  repeat split; try done. destruct sid; [done|]. cbn. lia.
Qed.

(** ** Errors and delays *)

Lemma last_boundary_le max index best s : (best ≤ max)%nat → (last_boundary max index best s ≤ max)%nat.
Proof.
  revert index best. induction s as [|c s IH]; intros index best Hb; cbn [last_boundary]; [done|].
  destruct (is_char_start c); [|by apply IH].
  destruct (Nat.leb_spec index max); [by apply IH|done].
Qed.
Lemma substring_length_le n s : (String.length (String.substring 0 n s) ≤ n)%nat.
Proof. revert n. induction s as [|c s IH]; intros [|n]; simpl; try lia. specialize (IH n). lia. Qed.
Lemma truncate_for_error_length value max : (String.length (truncate_for_error value max) ≤ max + 3)%nat.
Proof.
  unfold truncate_for_error. destruct (Nat.leb_spec (String.length value) max); [lia|].
  rewrite str_length_app. pose proof (last_boundary_le max 0 0 value ltac:(lia)).
  pose proof (substring_length_le (last_boundary max 0 0 value) value). change (String.length ellipsis) with 3%nat. lia.
Qed.

(** Without a server's hint the delays double from a quarter of a second and
    stay below five seconds. *)
Lemma retry_delay_bounds attempt : (250 ≤ direct_remote_retry_delay attempt None ≤ 5000)%Z.
Proof.
  unfold direct_remote_retry_delay, DIRECT_REMOTE_RETRY_BASE_DELAY, DIRECT_REMOTE_RETRY_MAX_DELAY. cbn [default id].
  assert (1 ≤ 2 ^ Z.of_nat (Nat.min (attempt - 1) 8))%Z; [|lia].
  apply Z.lt_pred_le, Z.pow_pos_nonneg; lia.
Qed.

(** A retry is waited for only if it ends at least a second before the lease. *)
Lemma retry_fits_lease_spec now expires_at delay :
  in_u64 expires_at → (0 ≤ now)%Z → (0 ≤ delay)%Z → retry_fits_lease now expires_at delay = true →
  (now * 1000 + delay + 1000 < expires_at * 1000)%Z.
Proof.
  unfold retry_fits_lease, u64_add, saturating_add, in_u64. intros He Hn Hd Hf. apply Z.ltb_lt in Hf.
  pose proof (Z.div_mod delay 1000 ltac:(lia)). pose proof (Z.mod_pos_bound delay 1000 ltac:(lia)).
  destruct (Z.ltb_spec 0 (delay mod 1000)); lia.
Qed.
