(* ===== verification/ClientWorld.v ===== *)
(** * Running a handler of the client daemon

    The daemon's handlers run concurrently on the lease in memory, the prepared
    withdrawal and the state directory, each behind its lock, and on remote
    services. A handler is a program of the state and error monad [M]; what other
    handlers did before it got a lock is the world's choice, as are the answers
    of the services, the clock, the file system's faults and the wallet of the
    [protocol] submodule. *)

From Stdlib Require Import ZArith Lia.
From stdpp Require Import base tactics decidable numbers list gmap strings.
From S2P Require Import Prelude Text Float64 Json Http Types AuthScheme ClientTypes ClientHelpers.

Local Open Scope string_scope.

(** ** The state directory *)

Record Disk := { files : gmap string string; dirs : gset string }.
Definition path_exists (path : string) (d : Disk) : bool :=
  bool_decide (is_Some (files d !! path)) || bool_decide (path ∈ dirs d).
Definition write_file (path contents : string) (d : Disk) : Disk :=
  {| files := <[path := contents]> (files d); dirs := dirs d |}.
Definition remove_file (path : string) (d : Disk) : Disk :=
  {| files := delete path (files d); dirs := dirs d |}.
Definition add_dir (path : string) (d : Disk) : Disk :=
  {| files := files d; dirs := {[path]} ∪ dirs d |}.

(** [acquire_wallet_lock] after [wallet_mutex.lock()]. *)
Inductive LockOutcome := Locked | LockFailed (m : string) | LockHeldElsewhere.

Section world.
Context `{!FeltOps, !WireTypes, !ClientTypes}.

(** [zkapi_client::config::ClientConfig], as [client_config] fills it. *)
Record ClientConfig := {
  cc_protocol_version : Z;
  cc_chain_id : Z;
  cc_contract_address : Felt252;
  cc_request_charge_cap : Z;
  cc_policy_charge_cap : Z;
  cc_policy_enabled : bool;
  cc_server_url : string;
  cc_state_dir : string;
  (** [proof_mode: Groth16 { setup_dir }] *)
  cc_setup_dir : string;
  cc_trusted_epoch_roots : list EpochRoots;
  cc_state_signing_key : CurvePointWire;
  cc_clearance_signing_key : CurvePointWire;
}.

Definition client_config (config : AuthConfig) (trusted_epoch_roots : list EpochRoots) : ClientConfig := {|
  cc_protocol_version := ac_protocol_version config;
  cc_chain_id := ac_chain_id config;
  cc_contract_address := ac_contract_address config;
  cc_request_charge_cap := ac_request_charge_cap config;
  cc_policy_charge_cap := ac_policy_charge_cap config;
  cc_policy_enabled := ac_policy_enabled config;
  cc_server_url := ac_protocol_server_url config;
  cc_state_dir := ac_state_dir config;
  cc_setup_dir := ac_proof_setup_dir config;
  cc_trusted_epoch_roots := trusted_epoch_roots;
  cc_state_signing_key := ac_state_signing_key config;
  cc_clearance_signing_key := ac_clearance_signing_key config;
|}.

(** What reached the outside, oldest first, with the answer it got; a call of
    the wallet that spends or proves. *)
Inductive Event :=
| EvHttp (request : HttpRequest) (answer : result string HttpResponse)
| EvSleep (delay_ms : Z)
| EvPrepareRequest (payload : string)
| EvRequestFlow (payload : string)
| EvRecover
| EvClearPending
| EvConfirmDeposit (note_id : Z)
| EvWithdraw (mode : WithdrawalMode) (destination : string).

(** ** The wallet of [zkapi_client] *)

Class WalletOps := {
  Wallet : Type;
  wallet_state : Wallet → option NoteState;
  wallet_has_pending_request : Wallet → Disk → bool;
  (** [state.archive(&state_path)] *)
  note_archive : NoteState → string → Disk → Disk;
}.

Class ClientEnv `{!WalletOps} := {
  World : Type;
  (** Milliseconds that pass before the next answer. *)
  env_lapse : World → nat;
  (** What the other handlers left behind when a lock is taken, and what they
      did meanwhile. *)
  env_lease : World → option ActiveOpenRouterLease → (option ActiveOpenRouterLease * list Event) * World;
  env_prepared : World → option WithdrawalPlan → (option WithdrawalPlan * list Event) * World;
  env_disk : World → Disk → (Disk * list Event) * World;
  env_lock : World → LockOutcome * World;
  env_try_write : World → bool * World;
  (** The fault of a file operation or of building a runtime. *)
  env_io : World → option string * World;
  env_now : World → Z * World;
  env_timeout : World → bool * World;
  env_http : World → HttpRequest → result string HttpResponse * World;
  (** How much of a failed write reached the file. *)
  env_written : World → nat * World;
  wallet_new : World → ClientConfig → Disk → (result ClientError Wallet * Disk) * World;
  wallet_pending_api_request : World → Wallet → Disk → result ClientError (option ApiRequestV2) * World;
  wallet_clear_pending_request : World → Wallet → Disk → (result ClientError unit * Disk) * World;
  wallet_confirm_deposit : World → Wallet → Disk → Felt252 → Z → Z → Z →
    (result ClientError unit * Wallet * Disk) * World;
  wallet_generate_deposit_params : World → Wallet → (Felt252 * Felt252) * World;
  wallet_prepare_request : World → Wallet → Disk → string → Felt252 → Felt252 → list Felt252 →
    (result ClientError ApiRequestV2 * Wallet * Disk) * World;
  wallet_request_flow : World → Wallet → Disk → string → Felt252 → Felt252 → list Felt252 →
    (result ClientError RequestResponseV2 * Wallet * Disk) * World;
  wallet_recover : World → Wallet → Disk →
    (result ClientError (option RequestResponseV2) * Wallet * Disk) * World;
  wallet_withdrawal_mutual_close : World → Wallet → Disk → string → Felt252 → list Felt252 →
    (result ClientError (WithdrawalPublicInputsV2 * Groth16ProofWire) * Disk) * World;
  wallet_withdrawal_escape_hatch : World → Wallet → Disk → string → Felt252 → list Felt252 →
    (result ClientError (WithdrawalPublicInputsV2 * Groth16ProofWire) * Disk) * World;
  (** [response.bytes_stream()]: the body as it arrives. *)
  http_chunks : HttpResponse → list (result string string);
  status_text : Z → string;
}.

Context `{!WalletOps, !ClientEnv}.

(** [instant] is the monotonic clock in milliseconds; [events] is what all the
    handlers did so far, [own] what the running one did. *)
Record State := {
  direct_lease : option ActiveOpenRouterLease;
  prepared_withdrawal : option WithdrawalPlan;
  disk : Disk;
  world : World;
  instant : Z;
  events : list Event;
  own : list Event;
}.
Definition with_lease (l : option ActiveOpenRouterLease) (σ : State) : State := {|
  direct_lease := l; prepared_withdrawal := prepared_withdrawal σ; disk := disk σ; world := world σ;
  instant := instant σ; events := events σ; own := own σ |}.
Definition with_prepared (p : option WithdrawalPlan) (σ : State) : State := {|
  direct_lease := direct_lease σ; prepared_withdrawal := p; disk := disk σ; world := world σ;
  instant := instant σ; events := events σ; own := own σ |}.
Definition with_disk (d : Disk) (σ : State) : State := {|
  direct_lease := direct_lease σ; prepared_withdrawal := prepared_withdrawal σ; disk := d; world := world σ;
  instant := instant σ; events := events σ; own := own σ |}.
Definition with_world (w : World) (σ : State) : State := {|
  direct_lease := direct_lease σ; prepared_withdrawal := prepared_withdrawal σ; disk := disk σ; world := w;
  instant := instant σ; events := events σ; own := own σ |}.
Definition with_instant (i : Z) (σ : State) : State := {|
  direct_lease := direct_lease σ; prepared_withdrawal := prepared_withdrawal σ; disk := disk σ; world := world σ;
  instant := i; events := events σ; own := own σ |}.
Definition add_events (l : list Event) (σ : State) : State := {|
  direct_lease := direct_lease σ; prepared_withdrawal := prepared_withdrawal σ; disk := disk σ; world := world σ;
  instant := instant σ; events := (events σ ++ l)%list; own := own σ |}.
Definition add_own (e : Event) (σ : State) : State := {|
  direct_lease := direct_lease σ; prepared_withdrawal := prepared_withdrawal σ; disk := disk σ; world := world σ;
  instant := instant σ; events := (events σ ++ [e])%list; own := (own σ ++ [e])%list |}.

(** ** The monad *)

Definition M (A : Type) : Type := State → result AuthError A * State.
#[export] Instance M_ret : MRet M := λ A a σ, (Ok a, σ).
#[export] Instance M_bind : MBind M := λ A B f m σ,
  match m σ with
  | (Ok a, σ') => f a σ'
  | (Err e, σ') => (Err e, σ')
  end.

Definition lift {A} (r : result AuthError A) : M A := λ σ, (r, σ).
Definition throw {A} (e : AuthError) : M A := lift (Err e).
(** The outcome as a value. *)
Definition try {A} (m : M A) : M (result AuthError A) := λ σ, let '(r, σ') := m σ in (Ok r, σ').
(** [r.map_err(AuthError::from)?] of a wallet's result. *)
Definition lift_client {A} (r : result ClientError A) : M A := lift (map_err from_client_error r).

Definition gets {A} (f : State → A) : M A := λ σ, (Ok (f σ), σ).
Definition modify (f : State → State) : M unit := λ σ, (Ok tt, f σ).
Definition log (e : Event) : M unit := modify (add_own e).

(** An answer of the world; time passes. *)
Definition draw_at {A} (f : State → A * World) : M A := λ σ,
  let '(a, w) := f σ in
  (Ok a, with_instant (instant σ + Z.of_nat (env_lapse (world σ))) (with_world w σ)).
Definition draw {A} (f : World → A * World) : M A := draw_at (λ σ, f (world σ)).

Definition now_seconds : M Z := draw env_now.
Definition sleep (delay_ms : Z) : M unit :=
  _ ← log (EvSleep delay_ms);
  modify (λ σ, with_instant (instant σ + Z.max 0 delay_ms) σ).

Definition http (request : HttpRequest) : M (result string HttpResponse) :=
  answer ← draw (λ w, env_http w request);
  _ ← log (EvHttp request answer);
  mret answer.

(** [op.map_err(|err| f(err.to_string()))?] of a file operation that succeeds
    with [eff]. *)
Definition io (f : string → AuthError) (eff : Disk → Disk) : M unit :=
  fault ← draw env_io;
  match fault with
  | Some err => throw (f err)
  | None => modify (λ σ, with_disk (eff (disk σ)) σ)
  end.
(** [let _ = op;] *)
Definition io_ignored (eff : Disk → Disk) : M unit := _ ← try (io WalletErr eff); mret tt.

(** ** Locks *)

Definition lock_lease : M (option ActiveOpenRouterLease) :=
  '(l, evs) ← draw_at (λ σ, env_lease (world σ) (direct_lease σ));
  _ ← modify (λ σ, add_events evs (with_lease l σ));
  mret l.
Definition lock_prepared : M (option WithdrawalPlan) :=
  '(p, evs) ← draw_at (λ σ, env_prepared (world σ) (prepared_withdrawal σ));
  _ ← modify (λ σ, add_events evs (with_prepared p σ));
  mret p.
Definition set_lease (l : option ActiveOpenRouterLease) : M unit := modify (with_lease l).
Definition set_prepared (p : option WithdrawalPlan) : M unit := modify (with_prepared p).

(** Taking the wallet's mutex and lock file. *)
Definition lock_wallet : M unit :=
  outcome ← draw env_lock;
  match outcome with
  | LockFailed m => throw (WalletErr m)
  | LockHeldElsewhere => throw WalletBusy
  | Locked =>
      '(d', evs) ← draw_at (λ σ, env_disk (world σ) (disk σ));
      modify (λ σ, add_events evs (with_disk d' σ))
  end.

(** ** Wallet calls *)

Definition load_wallet (config : AuthConfig) (trusted_epoch_roots : list EpochRoots) : M Wallet :=
  '(r, d') ← draw_at (λ σ, wallet_new (world σ) (client_config config trusted_epoch_roots) (disk σ));
  _ ← modify (with_disk d');
  lift_client r.

Definition has_pending_request (wallet : Wallet) : M bool := gets (λ σ, wallet_has_pending_request wallet (disk σ)).

(** A call that may change wallet and files and reach the server. *)
Definition wallet_call {A} (e : Event)
    (call : World → Disk → (result ClientError A * Wallet * Disk) * World) : M (result ClientError A * Wallet) :=
  _ ← log e;
  '(r, wallet, d') ← draw_at (λ σ, call (world σ) (disk σ));
  _ ← modify (with_disk d');
  mret (r, wallet).

Definition current_thread_runtime : M unit := io WalletErr (λ d, d).
End world.
