(* ===== verification/ClientWallet.v ===== *)
(** * The daemon's wallet operations: [zkapi-clientd/src/service.rs], [indexer.rs]

    Status, deposits, recovery, retirement of a low-balance note, reset, and the
    proxied request; the client of the indexer and the prepared withdrawal's
    file. *)

From Stdlib Require Import ZArith Lia.
From stdpp Require Import base tactics decidable numbers list gmap strings.
From S2P Require Import Prelude Text Float64 Json Http Types AuthScheme ClientTypes ClientHelpers ClientWorld.

Local Open Scope string_scope.

Section wallet.
Context `{!FeltOps, !WireTypes, !ClientTypes, !JsonText, !SerdeText, !WalletOps, !ClientEnv}.

(** ** What the protocol crates and [serde] provide *)

Class ClientWire := {
  felt_to_string : Felt252 → string;
  curve_point_of_value : Value → option CurvePointWire;
  lease_response_of_value : Value → option OpenRouterLeaseResponse;
  lease_status_of_value : Value → option OpenRouterLeaseStatusResponse;
  recovery_of_value : Value → option RecoveryResponseV2;
  error_response_of_value : Value → option ErrorResponse;
  api_request_to_value : ApiRequestV2 → Value;
  authorization_to_json : OpenRouterLeaseAuthorization → result string string;
  core_request_to_json : CoreRequest → result string string;
  plan_to_json_pretty : WithdrawalPlan → result string string;
  plan_from_json : string → result string WithdrawalPlan;
  signature_r_x : SchnorrSignature → Felt252;
  core_payload_hash : string → Felt252;
  core_registration_commitment : Felt252 → Felt252;
  core_note_leaf : Z → Felt252 → Z → Z → Felt252;
  core_nullifier : Felt252 → Felt252 → Felt252;
}.
Context `{!ClientWire}.
Implicit Types (config : AuthConfig) (wallet : Wallet).

Definition hash_payload (payload : string) : Felt252 := core_payload_hash payload.

(** ** HTTP helpers *)

Definition get (url : string) : HttpRequest := {|
  http_method := "GET"; http_url := url; http_bearer := None; http_headers := []; http_query := [];
  http_body := NoBody |}.
Definition post (url : string) (body : Value) : HttpRequest := {|
  http_method := "POST"; http_url := url; http_bearer := None; http_headers := []; http_query := [];
  http_body := JsonBody body |}.

(** [response.json::<T>()] *)
Definition json_body {A} (dec : Value → option A) (response : HttpResponse) : result string A :=
  text ← http_text response; from_str dec text.
(** [response.error_for_status()] *)
Definition error_for_status (response : HttpResponse) : result string HttpResponse :=
  if is_http_error (http_status response) then Err (status_text (http_status response)) else Ok response.

(** [http.get(url).send()?.error_for_status()?.json()?] with the errors of the
    three steps. *)
Definition get_json {A} (dec : Value → option A) (send_error status_error decode_error : string → AuthError)
    (url : string) : M A :=
  answer ← http (get url);
  response ← lift (map_err send_error answer);
  response ← lift (map_err status_error (error_for_status response));
  lift (map_err decode_error (json_body dec response)).

Definition fetch_json {A} (dec : Value → option A) (url : string) : M (result string A) :=
  answer ← http (get url);
  mret (
    response ← map_err (λ err, "request failed for " +:+ url +:+ ": " +:+ err) answer;
    response ← map_err (λ err, "non-success response from " +:+ url +:+ ": " +:+ err) (error_for_status response);
    map_err (λ err, "invalid JSON from " +:+ url +:+ ": " +:+ err) (json_body dec response)).

Definition server_url config (path : string) : string := trim_slashes (ac_protocol_server_url config) +:+ path.

Definition decode_strings (v : Value) : option (list string) := l ← as_array v; mapM as_str l.
(** A [u16]. *)
Definition as_u16 (v : Value) : option Z :=
  n ← as_u64 v; if (n <=? u16_MAX)%Z then Some n else None.
Definition as_u32 (v : Value) : option Z :=
  n ← as_u64 v; if (n <=? u32_MAX)%Z then Some n else None.

Definition server_health_of_value (v : Value) : option ServerHealthSnapshot :=
  m ← as_object v;
  status ← field_req as_str "status" m;
  protocol_version ← field_req as_u16 "protocol_version" m;
  chain_id ← field_req as_u64 "chain_id" m;
  contract_address ← field_req felt_of_value "contract_address" m;
  current_root ← field_req felt_of_value "current_root" m;
  provider ← field_req as_str "provider" m;
  indexer_url ← field_opt as_str "indexer_url" m;
  policy_enabled ← field_req as_bool "policy_enabled" m;
  auth_scheme ← field_default as_str "" "auth_scheme" m;
  request_modes ← field_default decode_strings [] "request_modes" m;
  Some {| sh_status := status; sh_protocol_version := protocol_version; sh_chain_id := chain_id;
          sh_contract_address := contract_address; sh_current_root := current_root; sh_provider := provider;
          sh_indexer_url := indexer_url; sh_policy_enabled := policy_enabled; sh_auth_scheme := auth_scheme;
          sh_request_modes := request_modes |}.
Definition server_attestation_of_value (v : Value) : option ServerAttestationSnapshot :=
  m ← as_object v;
  status ← field_req as_str "status" m;
  protocol_version ← field_req as_u16 "protocol_version" m;
  chain_id ← field_req as_u64 "chain_id" m;
  contract_address ← field_req felt_of_value "contract_address" m;
  current_root ← field_req felt_of_value "current_root" m;
  state_signing_key ← field_req curve_point_of_value "state_signing_key" m;
  clearance_signing_key ← field_req curve_point_of_value "clearance_signing_key" m;
  auth_scheme ← field_default as_str "" "auth_scheme" m;
  Some {| sa_status := status; sa_protocol_version := protocol_version; sa_chain_id := chain_id;
          sa_contract_address := contract_address; sa_current_root := current_root;
          sa_state_signing_key := state_signing_key; sa_clearance_signing_key := clearance_signing_key;
          sa_auth_scheme := auth_scheme |}.

(** ** [IndexerClient] *)

Definition indexer_get {A} config (dec : Value → option A) (path : string) : M A :=
  get_json dec IndexerErr IndexerErr IndexerErr (trim_slashes (ac_indexer_url config) +:+ path).
Definition indexer_root config : M Felt252 :=
  indexer_get config (λ v, m ← as_object v; field_req felt_of_value "root" m) "/v1/tree/root".
Definition indexer_next_note_id config : M Z :=
  indexer_get config (λ v, m ← as_object v; field_req as_u32 "next_note_id" m) "/v1/tree/next-note-id".
Definition indexer_path config (path : string) : M (list Felt252) :=
  indexer_get config (λ v, m ← as_object v;
                      field_req (λ v, l ← as_array v; mapM felt_of_value l) "siblings" m) path.
Definition indexer_note_path config (note_id : Z) : M (list Felt252) :=
  indexer_path config ("/v1/tree/notes/" +:+ show_uint note_id +:+ "/path").
Definition indexer_zero_path config (note_id : Z) : M (list Felt252) :=
  indexer_path config ("/v1/tree/notes/" +:+ show_uint note_id +:+ "/zero-path").

(** ** Status and recovery *)

Definition wallet_status wallet : M WalletStatus :=
  pending ← has_pending_request wallet;
  mret {| ws_has_note := match wallet_state wallet with Some _ => true | None => false end;
          ws_pending_request := pending;
          ws_funding_url := "/funding";
          ws_note := note_status <$> wallet_state wallet |}.

Definition status config : M WalletStatus :=
  _ ← lock_wallet;
  wallet ← load_wallet config [];
  wallet_status wallet.

Definition recover config : M RecoverResult :=
  _ ← lock_wallet;
  wallet ← load_wallet config (ac_trusted_epoch_roots config);
  _ ← current_thread_runtime;
  '(r, wallet) ← wallet_call EvRecover (λ w d, wallet_recover w wallet d);
  recovered ← lift_client r;
  status ← wallet_status wallet;
  mret {| rr_recovered := match recovered with Some _ => true | None => false end;
          rr_request := (λ response, core_response response (note_current_balance <$> wallet_state wallet)) <$> recovered;
          rr_wallet := status |}.

Definition clear_pending_request config : M unit :=
  _ ← lock_wallet;
  wallet ← load_wallet config [];
  _ ← log EvClearPending;
  '(r, d') ← draw_at (λ σ, wallet_clear_pending_request (world σ) wallet (disk σ));
  _ ← modify (with_disk d');
  lift_client r.

(** ** Deposits *)

Definition prepare_deposit config (amount : Z) : M DepositPlan :=
  _ ← lock_wallet;
  wallet ← load_wallet config [];
  _ ← match wallet_state wallet with
      | Some _ => throw (InvalidInput "wallet already has an active note")
      | None => mret tt
      end;
  _ ← current_thread_runtime;
  next_note_id ← indexer_next_note_id config;
  active_root ← indexer_root config;
  zero_path ← indexer_zero_path config next_note_id;
  '(secret, commitment) ← draw (λ w, wallet_generate_deposit_params w wallet);
  mret {| dp_amount := amount; dp_secret := secret; dp_commitment := commitment; dp_next_note_id := next_note_id;
          dp_active_root := active_root; dp_zero_path := zero_path |}.

Definition confirm_deposit config (request : ConfirmDepositRequest) : M WalletStatus :=
  _ ← lock_wallet;
  wallet ← load_wallet config [];
  '(r, wallet) ← wallet_call (EvConfirmDeposit (cd_note_id request))
    (λ w d, wallet_confirm_deposit w wallet d (cd_secret request) (cd_note_id request) (cd_amount request)
              (cd_expiry_ts request));
  _ ← lift_client r;
  wallet_status wallet.

(** ** Retiring a note *)

(** The charge a proof may authorize. *)
Definition proof_bound config : Z :=
  if ac_policy_enabled config then ac_policy_charge_cap config else ac_request_charge_cap config.

Definition create_private_dir (path : string) : M unit :=
  _ ← io WalletErr (add_dir path);
  io WalletErr (λ d, d).

Definition retired_root config : string := join (ac_state_dir config) "retired".
Definition retired_candidate config (note_id suffix : Z) : string :=
  join (retired_root config)
    (if (suffix =? 1)%Z then "note_" +:+ show_uint note_id
     else "note_" +:+ show_uint note_id +:+ "_" +:+ show_uint suffix).

(** [for suffix in 1u32..]: one more candidate than there are directories and
    files is enough to find a free one. *)
Fixpoint find_free (fuel : nat) config (note_id suffix : Z) (d : Disk) : option string :=
  match fuel with
  | O => None
  | S fuel' =>
      if path_exists (retired_candidate config note_id suffix) d then find_free fuel' config note_id (suffix + 1) d
      else Some (retired_candidate config note_id suffix)
  end.
Definition next_retired_note_dir config (note_id : Z) : M string :=
  _ ← create_private_dir (retired_root config);
  d ← gets disk;
  match find_free (S (size (files d) + size (dirs d))) config note_id 1 d with
  | Some candidate => mret candidate
  | None => throw (WalletErr "the retired-note suffix space is non-empty")
  end.

(** [fs::rename] of a file. *)
Definition rename (from to : string) (d : Disk) : Disk :=
  match files d !! from with
  | Some contents => write_file to contents (remove_file from d)
  | None => d
  end.

Definition retire_low_balance_note config : M (option RetiredNote) :=
  _ ← lock_wallet;
  wallet ← load_wallet config [];
  match wallet_state wallet with
  | None => mret None
  | Some state =>
      if (proof_bound config <? note_current_balance state)%Z then mret None
      else
        d ← gets disk;
        if path_exists (pending_journal_path (ac_state_dir config)) d then throw PendingRequest
        else
          let note_id := note_note_id state in
          retired_dir ← next_retired_note_dir config note_id;
          _ ← create_private_dir retired_dir;
          let active_state_path := note_state_path (ac_state_dir config) in
          let retired_state_path := note_state_path retired_dir in
          let failed err := WalletErr ("failed to retire note " +:+ show_uint note_id +:+ " from "
                                       +:+ active_state_path +:+ " to " +:+ retired_state_path +:+ ": " +:+ err) in
          d ← gets disk;
          _ ← match files d !! active_state_path with
              | None => throw (failed "No such file or directory (os error 2)")
              | Some _ => io failed (rename active_state_path retired_state_path)
              end;
          mret (Some {| rn_note_id := note_id; rn_remaining_balance := note_current_balance state;
                        rn_state_dir := retired_dir |})
  end.

(** ** The prepared withdrawal's file *)

Definition load_prepared_withdrawal (state_dir : string) : M (option WithdrawalPlan) :=
  let path := prepared_withdrawal_path state_dir in
  d ← gets disk;
  if negb (path_exists path d) then mret None
  else
    _ ← io (λ error, WalletErr ("failed to read " +:+ path +:+ ": " +:+ error)) (λ d, d);
    match files d !! path with
    | None => throw (WalletErr ("failed to read " +:+ path +:+ ": Is a directory (os error 21)"))
    | Some encoded =>
        plan ← lift (map_err (λ error, WalletErr ("prepared withdrawal state " +:+ path +:+ " is invalid: " +:+ error))
                       (plan_from_json encoded));
        mret (Some plan)
    end.

(** Open, write, sync and set the mode of the temporary file, then rename. A
    failed write leaves some of the bytes. *)
Definition persist_prepared_withdrawal (state_dir : string) (plan : WithdrawalPlan) : M unit :=
  let path := prepared_withdrawal_path state_dir in
  let temporary := prepared_temporary_path state_dir in
  encoded ← lift (map_err Serialization (plan_to_json_pretty plan));
  _ ← io WalletErr (write_file temporary "");
  fault ← draw env_io;
  _ ← match fault with
      | Some error =>
          written ← draw env_written;
          _ ← modify (λ σ, with_disk (write_file temporary (String.substring 0 written encoded) (disk σ)) σ);
          throw (WalletErr error)
      | None => modify (λ σ, with_disk (write_file temporary encoded (disk σ)) σ)
      end;
  _ ← io WalletErr (λ d, d);
  io WalletErr (rename temporary path).

Definition remove_prepared_withdrawal (state_dir : string) : M unit :=
  let path := prepared_withdrawal_path state_dir in
  d ← gets disk;
  if path_exists path d then io WalletErr (remove_file path) else mret tt.

(** [AuthService::new]: what a started daemon holds in memory. *)
Definition service_new config : M unit :=
  _ ← io WalletErr (add_dir (ac_state_dir config));
  prepared ← load_prepared_withdrawal (ac_state_dir config);
  _ ← io WalletErr (λ d, d);
  _ ← set_prepared prepared;
  set_lease None.

(** ** Reset *)

Definition reset_wallet config : M WalletStatus :=
  _ ← lock_wallet;
  let state_path := note_state_path (ac_state_dir config) in
  let journal_path := pending_journal_path (ac_state_dir config) in
  let prepared_path := prepared_withdrawal_path (ac_state_dir config) in
  d ← gets disk;
  _ ← (if path_exists state_path d then
         loaded ← try (load_wallet config []);
         _ ← match loaded ≫= λ wallet, ok_or PendingRequest (wallet_state wallet) with
             | Ok state => modify (λ σ, with_disk (note_archive state state_path (disk σ)) σ)
             | Err _ => mret tt
             end;
         io_ignored (remove_file state_path)
       else mret tt);
  _ ← io_ignored (remove_file journal_path);
  _ ← io_ignored (remove_file prepared_path);
  wallet ← load_wallet config [];
  status ← wallet_status wallet;
  _ ← lock_prepared;
  _ ← set_prepared None;
  _ ← lock_lease;
  _ ← set_lease None;
  mret status.
End wallet.
