(* ===== verification/DirectLease.v ===== *)
(** * Direct OpenRouter leases: [zkapi-clientd/src/service.rs]

    In direct mode the daemon buys a short-lived OpenRouter key with a prompt-free
    proof, checks where the key comes from, sends the prompts to OpenRouter itself
    and settles the lease. *)

From Stdlib Require Import ZArith Lia.
From stdpp Require Import base tactics decidable numbers list gmap strings.
From S2P Require Import Prelude Text Float64 Json Http Types AuthScheme ClientTypes Compat ClientHelpers ClientWorld.
From S2P Require Import ClientWallet.

Local Open Scope string_scope.

Definition DIRECT_LEASE_RETIRE_POLL_INTERVAL : Z := 2000.
Definition DIRECT_LEASE_RETIRE_MAX_WAIT : Z := 45000.

Section direct.
Context `{!FeltOps, !WireTypes, !ClientTypes, !JsonText, !SerdeText, !WalletOps, !ClientEnv, !ClientWire}.
Implicit Types (config : AuthConfig) (lease : ActiveOpenRouterLease).

(** ** Leases *)

Definition evidence_of_value (v : Value) : option OaKeyVerificationEvidence :=
  m ← as_object v;
  verifier_url ← field_req as_str "verifier_url" m;
  station_id ← field_req as_str "station_id" m;
  station_recently_attested ← field_default as_bool false "station_recently_attested" m;
  key_valid_till ← field_req as_u64 "key_valid_till" m;
  station_signature ← field_req as_str "station_signature" m;
  org_signature ← field_req as_str "org_signature" m;
  Some {| ev_verifier_url := verifier_url; ev_station_id := station_id;
          ev_station_recently_attested := station_recently_attested; ev_key_valid_till := key_valid_till;
          ev_station_signature := station_signature; ev_org_signature := org_signature |}.
Definition extensions_of_value (v : Value) : option OpenRouterLeaseExtensions :=
  m ← as_object v;
  key_source ← field_default as_str default_openrouter_key_source "key_source" m;
  verification ← field_opt evidence_of_value "verification" m;
  Some {| ext_key_source := key_source; ext_verification := verification |}.

Definition set_verified lease : ActiveOpenRouterLease := {|
  al_session_id := al_session_id lease; al_client_request_id := al_client_request_id lease;
  al_api_key := al_api_key lease; al_openrouter_api_base := al_openrouter_api_base lease;
  al_expires_at := al_expires_at lease; al_settle_after := al_settle_after lease;
  al_verification := al_verification lease; al_verified := true;
  al_requests_served := al_requests_served lease |}.
Definition set_served (n : Z) lease : ActiveOpenRouterLease := {|
  al_session_id := al_session_id lease; al_client_request_id := al_client_request_id lease;
  al_api_key := al_api_key lease; al_openrouter_api_base := al_openrouter_api_base lease;
  al_expires_at := al_expires_at lease; al_settle_after := al_settle_after lease;
  al_verification := al_verification lease; al_verified := al_verified lease;
  al_requests_served := n |}.

Definition authorization_json : M string :=
  lift (map_err Serialization (authorization_to_json OpenRouterLeaseAuthorization_default)).

Definition prepare_direct_lease_request config : M ApiRequestV2 :=
  _ ← lock_wallet;
  wallet ← load_wallet config [];
  authorization ← authorization_json;
  pending ← has_pending_request wallet;
  if (pending : bool) then
    r ← draw_at (λ σ, wallet_pending_api_request (world σ) wallet (disk σ));
    stored ← lift_client r;
    request ← lift (ok_or (LeasePending "an older pending request has no retryable request body") stored);
    if String.eqb (payload request) authorization then mret request
    else throw (LeasePending "a non-lease zkAPI request is still pending")
  else
    state ← lift (ok_or NoActiveNote (wallet_state wallet));
    _ ← current_thread_runtime;
    active_root ← indexer_root config;
    siblings ← indexer_note_path config (note_note_id state);
    let payload_hash := core_payload_hash authorization in
    '(r, wallet) ← wallet_call (EvPrepareRequest authorization)
      (λ w d, wallet_prepare_request w wallet d authorization payload_hash active_root siblings);
    lift_client r.

Definition lease_url config (client_request_id : string) : string :=
  server_url config ("/v2/openrouter/leases/" +:+ client_request_id).

Definition fetch_direct_lease_status config (client_request_id : string) : M OpenRouterLeaseStatusResponse :=
  get_json lease_status_of_value WalletErr WalletErr Serialization (lease_url config client_request_id).

Definition fetch_optional_direct_lease_status config (client_request_id : string)
    : M (option OpenRouterLeaseStatusResponse) :=
  answer ← http (get (lease_url config client_request_id));
  response ← lift (map_err WalletErr answer);
  if (http_status response =? 404)%Z then mret None
  else
    response ← lift (map_err WalletErr (error_for_status response));
    status ← lift (map_err Serialization (json_body lease_status_of_value response));
    mret (Some status).

Definition fetch_request_recovery config (client_request_id : string) : M RecoveryResponseV2 :=
  get_json recovery_of_value WalletErr WalletErr Serialization
    (server_url config ("/v2/requests/" +:+ client_request_id)).
Definition fetch_nullifier_recovery config (nullifier : Felt252) : M RecoveryResponseV2 :=
  get_json recovery_of_value WalletErr WalletErr Serialization
    (server_url config ("/v2/nullifiers/" +:+ felt_to_string nullifier)).

(** ** Retirement *)

(** The polls before [deadline]. Every repetition sleeps two seconds of the 45,
    so 24 rounds are enough ([retire_loop_fuel]). *)
Fixpoint retire_loop (fuel : nat) config (client_request_id : string) (request : ApiRequestV2) (deadline : Z)
    : M OpenRouterLeaseStatusResponse :=
  match fuel with
  | O => throw (WalletErr "out of fuel")
  | S fuel' =>
      answer ← http (post (lease_url config client_request_id) (api_request_to_value request));
      response ← lift (map_err WalletErr answer);
      body ← lift (map_err WalletErr (http_text response));
      if is_success (http_status response) then
        lift (map_err Serialization (from_str lease_status_of_value body))
      else
        match from_str error_response_of_value body with
        | Ok error =>
            now ← gets instant;
            if er_retriable error && (now + DIRECT_LEASE_RETIRE_POLL_INTERVAL <? deadline)%Z then
              _ ← sleep DIRECT_LEASE_RETIRE_POLL_INTERVAL;
              retire_loop fuel' config client_request_id request deadline
            else if String.eqb (er_error_code error) "lease_pending" then
              throw (LeasePending ("lease " +:+ client_request_id +:+ " usage is not finalized yet"))
            else throw (WalletErr (er_error_code error +:+ ": " +:+ er_error_message error))
        | Err _ => throw (WalletErr ("HTTP " +:+ status_text (http_status response) +:+ ": " +:+ body))
        end
  end.
Definition RETIRE_FUEL : nat := 24.

Definition retire_direct_openrouter_lease config (client_request_id : string) : M unit :=
  request ← prepare_direct_lease_request config;
  _ ← (if String.eqb (Types.client_request_id request) client_request_id then mret tt
       else throw (LeasePending "pending proof does not match the rejected OpenRouter lease"));
  start ← gets instant;
  let deadline := (start + DIRECT_LEASE_RETIRE_MAX_WAIT)%Z in
  status ← retire_loop RETIRE_FUEL config client_request_id request deadline;
  _ ← (if String.eqb (ls_status status) "finalized" then mret tt
       else throw (LeasePending ("lease " +:+ ls_client_request_id status +:+ " was not finalized during retirement")));
  recovered ← recover config;
  if rr_recovered recovered then mret tt
  else throw (LeasePending ("lease " +:+ client_request_id +:+ " retired but its wallet update is not recoverable")).

Definition finish_direct_openrouter_lease config (client_request_id : string) : M unit :=
  _ ← try (retire_direct_openrouter_lease config client_request_id); mret tt.

(** ** Verification of a station's key *)

Definition verifier_request (api_key : string) (evidence : OaKeyVerificationEvidence) : Value :=
  json_object [
    ("station_id", Str (ev_station_id evidence));
    ("api_key", Str api_key);
    ("key_valid_till", Num (PosInt (ev_key_valid_till evidence)));
    ("station_signature", Str (ev_station_signature evidence));
    ("org_signature", Str (ev_org_signature evidence))].

(** [if attempt < MAX && retry_fits_lease(..) { sleep; continue }], else the
    error. *)
Definition retry_or {A} (attempt : nat) (expires_at delay : Z) (again : M A) (error : AuthError) : M A :=
  if Nat.ltb attempt DIRECT_REMOTE_MAX_ATTEMPTS then
    now ← now_seconds;
    if retry_fits_lease now expires_at delay then _ ← sleep delay; again else throw error
  else throw error.

(** What the daemon makes of one answer of the verifier. *)
Inductive VerifierVerdict :=
| Accepted
| Refused (retryable : bool) (error : AuthError).

Definition verifier_verdict (response : HttpResponse) (body : string) : VerifierVerdict :=
  let status := http_status response in
  match json_parse body with
  | Err error => Refused (is_transient_remote_status status) (KeyVerification ("invalid verifier response: " +:+ error))
  | Ok result =>
      if is_success status && bool_decide ((value_get "status" result ≫= as_str) = Some "verified") then Accepted
      else
        let retryable := default false (value_get "retryable" result ≫= as_bool) || is_transient_remote_status status in
        let detail := default "station key was not verified" (value_get "detail" result ≫= as_str) in
        Refused retryable (KeyVerification ("trusted verifier rejected the station key (HTTP " +:+ status_text status
                                            +:+ ": " +:+ detail +:+ ")"))
  end.

(** [for attempt in 1..=DIRECT_REMOTE_MAX_ATTEMPTS], from [attempt] with
    [left] rounds left. *)
Fixpoint verify_attempts (left : nat) (attempt : nat) (url : string) (request : Value) (expires_at : Z) : M unit :=
  match left with
  | O => throw (KeyVerification "OA verifier request exhausted its retry budget")
  | S left' =>
      let again := verify_attempts left' (S attempt) url request expires_at in
      answer ← http (post url request);
      match answer with
      | Err error =>
          retry_or attempt expires_at (direct_remote_retry_delay attempt None) again
            (KeyVerification ("verifier request failed: " +:+ error))
      | Ok response =>
          let retry_after := retry_after_delay (http_response_headers response) in
          body ← lift (map_err (λ error, KeyVerification ("invalid verifier response: " +:+ error)) (http_text response));
          match verifier_verdict response body with
          | Accepted => mret tt
          | Refused retryable error =>
              if (retryable : bool) then
                retry_or attempt expires_at (direct_remote_retry_delay attempt retry_after) again error
              else throw error
          end
      end
  end.

Definition verifier_url config : string := trim_slashes (ac_oa_verifier_url config) +:+ "/submit_key".

Definition verify_oa_key config (api_key : string) (expires_at : Z) (evidence : OaKeyVerificationEvidence) : M unit :=
  let expected_verifier := trim_slashes (ac_oa_verifier_url config) in
  _ ← (if matches_trusted_url (ev_verifier_url evidence) expected_verifier then mret tt
       else throw (KeyVerification "lease verifier does not match the client's trusted OA verifier"));
  _ ← lift (validate_oa_key_evidence expires_at evidence);
  verify_attempts DIRECT_REMOTE_MAX_ATTEMPTS 1 (verifier_url config) (verifier_request api_key evidence) expires_at.

(** [if !lease.verified { ... }] *)
Definition ensure_verified config lease : M ActiveOpenRouterLease :=
  if al_verified lease then mret lease
  else
    evidence ← lift (ok_or (KeyVerification "OA lease lost its verification evidence") (al_verification lease));
    _ ← verify_oa_key config (al_api_key lease) (al_expires_at lease) evidence;
    now ← now_seconds;
    if (al_expires_at lease <=? u64_add now 1)%Z then
      throw (KeyVerification "OA key expired while verification was in progress")
    else mret (set_verified lease).

(** ** Issuance *)

(** The lease of a successful reply. *)
Definition accept_lease config (session_id body : string) (now : Z) : result AuthError ActiveOpenRouterLease :=
  lease ← map_err Serialization (from_str lease_response_of_value body);
  extensions ← map_err Serialization (from_str extensions_of_value body);
  _ ← fail_if (String.eqb (lr_api_key lease) "" || (lr_expires_at lease <=? now)%Z)
        (WalletErr "server returned an unusable OpenRouter lease");
  _ ← fail_if (negb (matches_trusted_url (lr_openrouter_api_base lease) (ac_openrouter_inference_base config)))
        (KeyVerification "lease inference origin does not match the client's trusted OpenRouter origin");
  '(verification, verified) ←
    (if String.eqb (ext_key_source extensions) "openrouter" then
       _ ← enforce_required_key_source (ac_require_oa_org_key_source config) "openrouter";
       _ ← fail_if (match ext_verification extensions with Some _ => true | None => false end)
             (KeyVerification "direct OpenRouter lease included unexpected OA evidence");
       Ok (None, true)
     else if String.eqb (ext_key_source extensions) "oa_org" then
       evidence ← ok_or (KeyVerification "OA org lease omitted verification evidence") (ext_verification extensions);
       Ok (Some evidence, false)
     else Err (KeyVerification ("server returned unsupported key source " +:+ ext_key_source extensions)));
  Ok {| al_session_id := session_id; al_client_request_id := lr_client_request_id lease;
        al_api_key := lr_api_key lease; al_openrouter_api_base := lr_openrouter_api_base lease;
        al_expires_at := lr_expires_at lease; al_settle_after := lr_settle_after lease;
        al_verification := verification; al_verified := verified; al_requests_served := 0 |}.

(** A lease of this wallet that the server still knows, before another is
    issued. *)
Definition reconcile_lost_key config (lease_status : OpenRouterLeaseStatusResponse) : M unit :=
  if String.eqb (ls_status lease_status) "active" then
    retire_direct_openrouter_lease config (ls_client_request_id lease_status)
  else if String.eqb (ls_status lease_status) "finalized" then
    recovered ← recover config;
    if negb (rr_recovered recovered) && ws_pending_request (rr_wallet recovered) then
      throw (LeasePending ("finalized lease " +:+ ls_client_request_id lease_status +:+ " is not yet recoverable"))
    else mret tt
  else
    throw (LeasePending ("lease " +:+ ls_client_request_id lease_status +:+ " is " +:+ ls_status lease_status
                         +:+ "; key expiry " +:+ show_uint (ls_expires_at lease_status)
                         +:+ ", settlement after " +:+ show_uint (ls_settle_after lease_status))).

(** Each of the two flags is set at most once: three rounds are enough
    ([issue_loop_fuel]). *)
Fixpoint issue_loop (fuel : nat) config (session_id : string) (retried_stale_root reconciled_lost_key : bool)
    : M ActiveOpenRouterLease :=
  match fuel with
  | O => throw (WalletErr "out of fuel")
  | S fuel' =>
      request ← prepare_direct_lease_request config;
      answer ← http (post (server_url config "/v2/openrouter/leases") (api_request_to_value request));
      response ← lift (map_err WalletErr answer);
      body ← lift (map_err WalletErr (http_text response));
      if is_success (http_status response) then
        now ← now_seconds;
        lift (accept_lease config session_id body now)
      else
        match from_str error_response_of_value body with
        | Err _ => throw (WalletErr ("HTTP " +:+ status_text (http_status response) +:+ ": " +:+ body))
        | Ok error =>
            if String.eqb (er_error_code error) "stale_root" && negb retried_stale_root then
              _ ← clear_pending_request config;
              issue_loop fuel' config session_id true reconciled_lost_key
            else if String.eqb (er_error_code error) "lease_pending" then
              lease_status ← fetch_direct_lease_status config (Types.client_request_id request);
              if reconciled_lost_key then
                throw (LeasePending ("lease " +:+ ls_client_request_id lease_status +:+ " is still "
                                     +:+ ls_status lease_status +:+ " after local recovery"))
              else
                _ ← reconcile_lost_key config lease_status;
                issue_loop fuel' config session_id retried_stale_root true
            else throw (WalletErr (er_error_code error +:+ ": " +:+ er_error_message error))
        end
  end.
Definition issue_direct_openrouter_lease config (session_id : string) : M ActiveOpenRouterLease :=
  issue_loop 3 config session_id false false.

(** With the lock of [direct_lease] held: the slot is read and written without
    other handlers in between. *)
Definition ensure_direct_openrouter_lease config (session_id : string) : M unit :=
  slot ← gets direct_lease;
  now ← match slot with Some _ => now_seconds | None => mret 0%Z end;
  match slot with
  | Some lease =>
      if (u64_add now 1 <? al_expires_at lease)%Z then
        if String.eqb (al_session_id lease) session_id then mret tt
        else throw (LeaseSessionConflict (al_session_id lease) (al_expires_at lease))
      else
        _ ← set_lease None;
        _ ← retire_direct_openrouter_lease config (al_client_request_id lease);
        _ ← recover config;
        lease ← issue_direct_openrouter_lease config session_id;
        set_lease (Some lease)
  | None =>
      _ ← recover config;
      lease ← issue_direct_openrouter_lease config session_id;
      set_lease (Some lease)
  end.

(** ** Inference *)

Definition inference_request (url api_key : string) (body : Value) : HttpRequest := {|
  http_method := "POST"; http_url := url; http_bearer := Some api_key;
  http_headers := [("content-type", "application/json")]; http_query := []; http_body := JsonBody body |}.

Fixpoint send_attempts (left : nat) (attempt : nat) (url api_key : string) (body : Value) (expires_at : Z)
    : M HttpResponse :=
  match left with
  | O => throw (Upstream "OpenRouter request exhausted its retry budget")
  | S left' =>
      let again := send_attempts left' (S attempt) url api_key body expires_at in
      answer ← http (inference_request url api_key body);
      match answer with
      | Err error =>
          retry_or attempt expires_at (direct_remote_retry_delay attempt None) again (Upstream error)
      | Ok response =>
          let status := http_status response in
          let retry_after := retry_after_delay (http_response_headers response) in
          if is_success status then mret response
          else
            raw_payload ← lift (map_err Upstream (http_text response));
            let error := UpstreamResponse status (truncate_for_error raw_payload 500) in
            if is_transient_remote_status status then
              retry_or attempt expires_at (direct_remote_retry_delay attempt retry_after) again error
            else throw error
      end
  end.
Definition send_openrouter_request (url api_key : string) (body : Value) (expires_at : Z) : M HttpResponse :=
  send_attempts DIRECT_REMOTE_MAX_ATTEMPTS 1 url api_key body expires_at.

Definition send_verified_openrouter_request config lease (upstream_path : string) (upstream_body : Value)
    : M HttpResponse :=
  lease ← ensure_verified config lease;
  let url := trim_slashes (al_openrouter_api_base lease) +:+ upstream_path in
  send_openrouter_request url (al_api_key lease) upstream_body (al_expires_at lease).

Definition ensure_scheme_agreement config : M unit :=
  r ← fetch_json server_attestation_of_value (server_url config "/v1/attestation");
  match r with
  | Err _ => mret tt
  | Ok att =>
      let want := scheme_as_str (ac_auth_scheme config) in
      if negb (String.eqb (sa_auth_scheme att) "") && negb (String.eqb (sa_auth_scheme att) want) then
        throw (WalletErr ("auth scheme mismatch: client is '" +:+ want +:+ "', server is '" +:+ sa_auth_scheme att
                          +:+ "'"))
      else mret tt
  end.

(** [if lease_slot.is_some_and(|lease| lease.client_request_id == id) { *lease_slot = None }] *)
Definition drop_lease (client_request_id : string) : M unit :=
  slot ← lock_lease;
  match slot with
  | Some lease => if String.eqb (al_client_request_id lease) client_request_id then set_lease None else mret tt
  | None => mret tt
  end.

(** Under the lock: the session's lease, verified, with one more request
    reserved on it; the copy is the lease before the reservation. *)
Definition reserve_lease config (session_id : string) : M ActiveOpenRouterLease :=
  _ ← lock_lease;
  _ ← ensure_direct_openrouter_lease config session_id;
  slot ← gets direct_lease;
  lease ← lift (ok_or (WalletErr "OpenRouter lease disappeared") slot);
  reserved ← ensure_verified config lease;
  _ ← set_lease (Some (set_served (saturating_add u32_MAX (al_requests_served reserved) 1) reserved));
  mret reserved.

(** A rejected key is replaced once: two rounds ([open_loop_fuel]). *)
Fixpoint open_loop (fuel : nat) config (upstream_path : string) (upstream_body : Value) (session_id : string)
    (replaced_rejected_key : bool) : M (string * HttpResponse * bool) :=
  match fuel with
  | O => throw (WalletErr "out of fuel")
  | S fuel' =>
      reserved ← reserve_lease config session_id;
      let client_request_id := al_client_request_id reserved in
      outcome ← try (send_verified_openrouter_request config reserved upstream_path upstream_body);
      match outcome with
      | Ok response => mret (client_request_id, response, false)
      | Err error =>
          if negb replaced_rejected_key &&
             (is_rejected_openrouter_key error
              || ((0 <? al_requests_served reserved)%Z && is_exhausted_openrouter_key error)) then
            _ ← drop_lease client_request_id;
            _ ← retire_direct_openrouter_lease config client_request_id;
            open_loop fuel' config upstream_path upstream_body session_id true
          else
            _ ← drop_lease client_request_id;
            _ ← try (retire_direct_openrouter_lease config client_request_id);
            throw error
      end
  end.

Definition open_direct_openrouter_response config (request : CoreRequest) (session_id : string)
    : M (string * HttpResponse * bool) :=
  _ ← ensure_scheme_agreement config;
  let '(upstream_path, upstream_body) := openrouter_request (cq_path request) (cq_body request) in
  open_loop 2 config upstream_path upstream_body session_id false.

Definition execute_direct_openrouter config (request : CoreRequest) (session_id : string) : M CoreResponse :=
  '(client_request_id, upstream, retire_after_response) ← open_direct_openrouter_response config request session_id;
  let result := map_err Upstream (http_text upstream) in
  _ ← (if (retire_after_response : bool) then finish_direct_openrouter_lease config client_request_id else mret tt);
  raw_payload ← lift result;
  wallet ← status config;
  let '(remaining_balance, next_anchor) :=
    match ws_note wallet with
    | Some note => (Some (ns_current_balance note), ns_current_anchor note)
    | None => (None, ZERO)
    end in
  mret {| cr_client_request_id := client_request_id;
          cr_response_code := http_status upstream;
          cr_raw_payload := raw_payload;
          cr_payload := ok (json_parse raw_payload);
          cr_charge_applied := 0;
          cr_next_anchor := next_anchor;
          cr_remaining_balance := remaining_balance |}.

(** The response a streaming caller gets, whose body is the upstream's bytes as
    they come; dropping it releases the read lock. *)
Record StreamingCoreResponse := {
  st_status : Z;
  st_content_type : option (result string string);
  st_cache_control : option (result string string);
  st_body : list (result string string);
}.
Definition execute_direct_openrouter_streaming config (request : CoreRequest) (session_id : string)
    : M StreamingCoreResponse :=
  '(_, upstream, _) ← open_direct_openrouter_response config request session_id;
  mret {| st_status := http_status upstream;
          st_content_type := header "content-type" (http_response_headers upstream);
          st_cache_control := header "cache-control" (http_response_headers upstream);
          st_body := http_chunks upstream |}.
End direct.
