(* ===== verification/ClientService.v ===== *)
(** * Requests and withdrawals of the daemon: [AuthService] of [zkapi-clientd/src/service.rs]

    The proxied and the direct request behind the withdrawal guard, settlement,
    the preparation and confirmation of a withdrawal, and the views for the
    browser. *)

From Stdlib Require Import ZArith Lia.
From stdpp Require Import base tactics decidable numbers list gmap strings.
From S2P Require Import Prelude Text Float64 Json Http Types AuthScheme ClientTypes Compat ClientHelpers ClientWorld.
From S2P Require Import ClientWallet DirectLease.

Local Open Scope string_scope.

Section service.
Context `{!FeltOps, !WireTypes, !ClientTypes, !JsonText, !SerdeText, !WalletOps, !ClientEnv, !ClientWire}.
Implicit Types (config : AuthConfig) (request : CoreRequest).

(** ** The proxied request *)

Definition build_request_preview config (wallet : Wallet) request : M RequestPreview :=
  payload ← lift (map_err Serialization (core_request_to_json request));
  let payload_hash := hash_payload payload in
  state ← lift (ok_or NoActiveNote (wallet_state wallet));
  active_root ← indexer_root config;
  merkle_siblings ← indexer_note_path config (note_note_id state);
  let registration_commitment := core_registration_commitment (note_secret_s state) in
  mret {|
    rp_request := request;
    rp_payload := payload;
    rp_payload_hash := payload_hash;
    rp_registration_commitment := registration_commitment;
    rp_note_leaf := core_note_leaf (note_note_id state) registration_commitment (note_deposit_amount state)
                      (note_expiry_ts state);
    rp_request_nullifier := core_nullifier (note_secret_s state) (note_current_anchor state);
    rp_active_root := active_root;
    rp_merkle_siblings := merkle_siblings;
    rp_solvency_bound := note_solvency_bound state (ac_policy_enabled config) (ac_request_charge_cap config)
                           (ac_policy_charge_cap config);
    rp_wallet_note := note_status state;
    rp_state_sig_epoch := 0;
    rp_state_sig_root := point_x (ac_state_signing_key config);
    rp_runtime_proof_backend := proof_backend_label config |}.

Definition preview_request config request : M RequestPreview :=
  _ ← lock_wallet;
  wallet ← load_wallet config [];
  _ ← current_thread_runtime;
  build_request_preview config wallet request.

(** [for attempt in 0..2] *)
Fixpoint demo_attempts (left : nat) (attempt : nat) config (wallet : Wallet) request (payload : string)
    (payload_hash : Felt252) : M RequestDemoResult :=
  match left with
  | O => throw (WalletErr "request failed after retrying stale root")
  | S left' =>
      preview ← build_request_preview config wallet request;
      '(r, wallet) ← wallet_call (EvRequestFlow payload)
        (λ w d, wallet_request_flow w wallet d payload payload_hash (rp_active_root preview)
                  (rp_merkle_siblings preview));
      match r with
      | Ok response =>
          wallet_status ← wallet_status wallet;
          mret {| rd_preview := preview;
                  rd_response := core_response response (note_current_balance <$> wallet_state wallet);
                  rd_protocol_response := protocol_response_trace signature_r_x response;
                  rd_wallet := wallet_status |}
      | Err err =>
          match client_error_kind err, attempt with
          | CStaleRoot, O => demo_attempts left' (S attempt) config wallet request payload payload_hash
          | _, _ => throw (from_client_error err)
          end
      end
  end.

Definition execute_request_demo config request : M RequestDemoResult :=
  _ ← ensure_scheme_agreement config;
  _ ← lock_wallet;
  wallet ← load_wallet config (ac_trusted_epoch_roots config);
  payload ← lift (map_err Serialization (core_request_to_json request));
  let payload_hash := hash_payload payload in
  _ ← current_thread_runtime;
  pending ← has_pending_request wallet;
  wallet ← (if (pending : bool) then
              '(r, wallet) ← wallet_call EvRecover (λ w d, wallet_recover w wallet d);
              _ ← lift_client r;
              mret wallet
            else mret wallet);
  _ ← lift (ok_or NoActiveNote (wallet_state wallet));
  demo_attempts 2 0 config wallet request payload payload_hash.

(** ** Requests of a session *)

(** The guard both entry points start with. *)
Definition withdrawal_guard : M unit :=
  prepared ← lock_prepared;
  match prepared with
  | Some plan =>
      throw (WithdrawalPending (withdrawal_mode_label (wp_mode plan) +:+ " withdrawal for note "
        +:+ show_uint (withdrawal_note_id (wp_public_inputs plan))
        +:+ " is prepared; finish it before sending more requests"))
  | None => mret tt
  end.

Definition execute_request_in_session config request (session_id : option string) : M CoreResponse :=
  _ ← withdrawal_guard;
  match ac_request_mode config with
  | Proxy =>
      result ← execute_request_demo config request;
      mret (rd_response result)
  | DirectOpenrouter =>
      session_id ← lift (normalize_session_id session_id);
      execute_direct_openrouter config request session_id
  end.
Definition execute_request config request : M CoreResponse := execute_request_in_session config request None.

Definition execute_streaming_request_in_session config request (session_id : option string)
    : M StreamingCoreResponse :=
  _ ← withdrawal_guard;
  match ac_request_mode config with
  | DirectOpenrouter =>
      session_id ← lift (normalize_session_id session_id);
      execute_direct_openrouter_streaming config request session_id
  | Proxy => throw (InvalidInput "streaming is available only in direct-openrouter mode")
  end.

(** ** Settlement *)

(** Every error is logged and dropped: it succeeds. *)
Definition reconcile_direct_openrouter config : M unit :=
  match ac_request_mode config with
  | Proxy => mret tt
  | DirectOpenrouter =>
      guard ← draw env_try_write;
      if negb guard then mret tt
      else
        r ← try (recover config);
        match r with
        | Ok result =>
            if rr_recovered result then _ ← lock_lease; set_lease None else mret tt
        | Err _ => mret tt
        end
  end.

(** [for attempt in 0..ATTEMPTS], with [left] rounds left. *)
Fixpoint find_attempts (left : nat) config (request : ApiRequestV2) : M (option OpenRouterLeaseStatusResponse) :=
  match left with
  | O => mret None
  | S left' =>
      let client_request_id := Types.client_request_id request in
      found ← fetch_optional_direct_lease_status config client_request_id;
      match found with
      | Some lease => mret (Some lease)
      | None =>
          recovery ← fetch_request_recovery config client_request_id;
          if (match request_response recovery with Some _ => true | None => false end)
             || String.eqb (nullifier_status recovery) "finalized" then
            recovered ← recover config;
            if rr_recovered recovered || negb (ws_pending_request (rr_wallet recovered)) then mret None
            else throw (LeasePending ("request " +:+ client_request_id +:+ " is finalized but not yet recoverable"))
          else if negb (String.eqb (recovery_status recovery) "not_found")
                  || negb (String.eqb (nullifier_status recovery) "unknown") then
            throw (LeasePending ("request " +:+ client_request_id +:+ " has server status " +:+ recovery_status recovery
                                 +:+ " and nullifier status " +:+ nullifier_status recovery))
          else
            nullifier_recovery ← fetch_nullifier_recovery config (request_nullifier (public_inputs request));
            if String.eqb (nullifier_status nullifier_recovery) "clearance_reserved" then mret None
            else if negb (String.eqb (recovery_status nullifier_recovery) "not_found")
                    || negb (String.eqb (nullifier_status nullifier_recovery) "unknown") then
              throw (LeasePending ("request " +:+ client_request_id
                +:+ " is unknown, but its nullifier has server status " +:+ recovery_status nullifier_recovery
                +:+ " and nullifier status " +:+ nullifier_status nullifier_recovery))
            else
              _ ← (match left' with O => mret tt | S _ => sleep 500 end);
              find_attempts left' config request
      end
  end.
Definition find_direct_lease_for_withdrawal config (request : ApiRequestV2)
    : M (option OpenRouterLeaseStatusResponse) := find_attempts 3 config request.

(** The wallet's status, once nothing is pending. *)
Definition settled_status config : M WalletStatus :=
  status ← status config;
  if ws_pending_request status then throw PendingRequest else mret status.

(** A pending lease whose key is gone. [None] is an orphaned proof, already
    cleared. *)
Definition settle_pending_lease config : M (option WalletStatus) :=
  request ← prepare_direct_lease_request config;
  found ← find_direct_lease_for_withdrawal config request;
  match found with
  | None =>
      _ ← clear_pending_request config;
      status ← settled_status config;
      mret (Some status)
  | Some lease =>
      _ ← (if String.eqb (ls_status lease) "active" then
             retire_direct_openrouter_lease config (Types.client_request_id request)
           else if String.eqb (ls_status lease) "finalized" then
             recovered ← recover config;
             if negb (rr_recovered recovered) && ws_pending_request (rr_wallet recovered) then
               throw (LeasePending ("finalized lease " +:+ Types.client_request_id request +:+ " is not yet recoverable"))
             else mret tt
           else
             throw (LeasePending ("lease " +:+ Types.client_request_id request +:+ " is " +:+ ls_status lease
                                  +:+ "; key expiry " +:+ show_uint (ls_expires_at lease)
                                  +:+ ", settlement after " +:+ show_uint (ls_settle_after lease))));
      mret None
  end.

Definition settle_for_withdrawal config : M WalletStatus :=
  match ac_request_mode config with
  | DirectOpenrouter =>
      live ← lock_lease;
      _ ← set_lease None;
      match live with
      | Some lease =>
          _ ← retire_direct_openrouter_lease config (al_client_request_id lease);
          settled_status config
      | None =>
          before ← status config;
          if ws_pending_request before then
            orphaned ← settle_pending_lease config;
            match orphaned with
            | Some status => mret status
            | None => settled_status config
            end
          else settled_status config
      end
  | Proxy =>
      before ← status config;
      _ ← (if ws_pending_request before then
             recovered ← recover config;
             if negb (rr_recovered recovered) && ws_pending_request (rr_wallet recovered) then throw PendingRequest
             else mret tt
           else mret tt);
      settled_status config
  end.

(** ** Withdrawals *)

Definition create_withdrawal config (mode : WithdrawalMode) (destination : string) : M WithdrawalPlan :=
  prepared ← lock_prepared;
  let same_destination plan := String.eqb (withdrawal_destination (wp_public_inputs plan)) destination in
  match prepared with
  | Some plan =>
      if bool_decide (wp_mode plan = mode) && same_destination plan then mret (Some plan)
      else if bool_decide (wp_mode plan = Mutual) && bool_decide (mode = Escape) && same_destination plan then mret None
      else throw (WithdrawalPending (withdrawal_mode_label (wp_mode plan) +:+ " withdrawal for note "
             +:+ show_uint (withdrawal_note_id (wp_public_inputs plan)) +:+ " is already prepared for "
             +:+ format_address (withdrawal_destination (wp_public_inputs plan))))
  | None => mret None
  end ≫= λ existing : option WithdrawalPlan,
  match existing with
  | Some plan => mret plan
  | None =>
      _ ← reconcile_direct_openrouter config;
      slot ← lock_lease;
      _ ← match slot with
          | Some lease => throw (LeasePending ("chat " +:+ al_session_id lease +:+ " owns an unsettled key until "
              +:+ show_uint (al_expires_at lease) +:+ "; wait for settlement before withdrawing"))
          | None => mret tt
          end;
      _ ← lock_wallet;
      wallet ← load_wallet config (ac_trusted_epoch_roots config);
      _ ← current_thread_runtime;
      state ← lift (ok_or NoActiveNote (wallet_state wallet));
      root ← indexer_root config;
      siblings ← indexer_note_path config (note_note_id state);
      '(r, _) ← wallet_call (EvWithdraw mode destination) (λ w d,
        let '((r, d'), w') := match mode with
                              | Mutual => wallet_withdrawal_mutual_close w wallet d destination root siblings
                              | Escape => wallet_withdrawal_escape_hatch w wallet d destination root siblings
                              end in
        ((r, wallet, d'), w'));
      '(public_inputs, proof) ← lift_client r;
      let plan := {| wp_mode := mode; wp_public_inputs := public_inputs; wp_siblings := siblings; wp_proof := proof |} in
      _ ← set_prepared (Some plan);
      _ ← persist_prepared_withdrawal (ac_state_dir config) plan;
      mret plan
  end.

Definition vault_eth_call config (data : string) : M string :=
  rpc_url ← lift (ok_or (InvalidInput "deployment does not advertise an RPC URL for withdrawal confirmation")
                    (ac_demo_rpc_url config));
  answer ← http (post rpc_url (json_object [
    ("jsonrpc", Str "2.0");
    ("id", Num (PosInt 1));
    ("method", Str "eth_call");
    ("params", Array [json_object [("to", Str (format_felt_address (ac_contract_address config))); ("data", Str data)];
                      Str "latest"])]));
  response ← lift (map_err (λ error, WalletErr ("RPC call failed: " +:+ error)) answer);
  payload ← lift (map_err (λ error, WalletErr ("invalid RPC response: " +:+ error))
                    (text ← http_text response; json_parse text));
  let failure := value_get "error" payload in
  if negb (is_success (http_status response)) || (match failure with Some _ => true | None => false end) then
    throw (WalletErr ("RPC eth_call failed: "
                      +:+ json_print (default (Str (status_text (http_status response))) failure)))
  else lift (ok_or (WalletErr "RPC eth_call omitted result") (value_get "result" payload ≫= as_str)).

Definition NOTES_SELECTOR : string := "0x9f18e4ed".
Definition PENDING_SELECTOR : string := "0xa2f9f1ce".

Definition onchain_withdrawal_status config (note_id : Z) : M (string * option Z) :=
  encoded_note ← vault_eth_call config (NOTES_SELECTOR +:+ abi_encode_u32 note_id);
  note_words ← lift (abi_words encoded_note);
  word ← lift (ok_or (WalletErr "vault notes() returned a truncated response") (note_words !! 3%nat));
  raw_status ← lift (abi_word_u64 word);
  if (raw_status =? 1)%Z then mret ("active", None)
  else if (raw_status =? 2)%Z then
    encoded_pending ← vault_eth_call config (PENDING_SELECTOR +:+ abi_encode_u32 note_id);
    pending_words ← lift (abi_words encoded_pending);
    match pending_words !! 0%nat, pending_words !! 5%nat with
    | Some exists_word, Some deadline_word =>
        exists_flag ← lift (abi_word_u64 exists_word);
        _ ← (if (exists_flag =? 1)%Z then mret tt
             else throw (WalletErr "vault pending-withdrawal record is missing"));
        deadline ← lift (abi_word_u64 deadline_word);
        mret ("pending_withdrawal", Some deadline)
    | _, _ => throw (WalletErr "vault pending-withdrawal record is missing")
    end
  else if (raw_status =? 3)%Z then mret ("closed", None)
  else if (raw_status =? 0)%Z then throw (WalletErr ("vault note " +:+ show_uint note_id +:+ " is uninitialized"))
  else throw (WalletErr ("vault note " +:+ show_uint note_id +:+ " has unknown status " +:+ show_uint raw_status)).

Definition confirm_withdrawal config : M WithdrawalChainStatus :=
  wallet_before ← status config;
  note ← lift (ok_or NoActiveNote (ws_note wallet_before));
  let note_id := ns_note_id note in
  '(status, challenge_deadline) ← onchain_withdrawal_status config note_id;
  if String.eqb status "closed" then
    _ ← lock_prepared;
    _ ← set_prepared None;
    _ ← lock_lease;
    _ ← set_lease None;
    wallet ← reset_wallet config;
    mret {| wc_note_id := note_id; wc_status := status; wc_challenge_deadline := None; wc_wallet := wallet |}
  else if String.eqb status "active" then
    prepared ← lock_prepared;
    _ ← (if (match prepared with Some plan => bool_decide (wp_mode plan = Escape) | None => false end) then
           _ ← set_prepared None;
           remove_prepared_withdrawal (ac_state_dir config)
         else mret tt);
    mret {| wc_note_id := note_id; wc_status := status; wc_challenge_deadline := None; wc_wallet := wallet_before |}
  else if String.eqb status "pending_withdrawal" then
    mret {| wc_note_id := note_id; wc_status := status; wc_challenge_deadline := challenge_deadline;
            wc_wallet := wallet_before |}
  else throw (WalletErr ("vault returned unsupported note status " +:+ status)).

(** ** Views *)

Definition CREDITS_PER_USD : f64 := f64_of_Z 1000000.

(** Whether the request outlasted its two seconds is the world's choice. *)
Definition fetch_summary config : M (option Value) :=
  r ← fetch_json Some (server_url config "/v1/dashboard/summary");
  timed_out ← draw env_timeout;
  mret (if (timed_out : bool) then None else ok r).

Definition zkapi_config config : M ZkapiConfig :=
  summary ← fetch_summary config;
  let server : option Value := value_index "server" <$> summary in
  let upstream_kind : option string := (value_index "upstream_kind" <$> server) ≫= as_str in
  let credits_per_usd :=
    match (value_index "credits_per_usd" <$> server) ≫= as_f64 with
    | Some v => if f64_ltb f64_zero v then v else CREDITS_PER_USD
    | None => CREDITS_PER_USD
    end in
  let direct_openrouter_available :=
    default false ((value_index "openrouter_leases_enabled" <$> server) ≫= as_bool) in
  slot ← lock_lease;
  prepared ← lock_prepared;
  mret {|
    zc_credits_per_usd := credits_per_usd;
    zc_request_charge_cap := ac_request_charge_cap config;
    zc_request_charge_cap_usd := f64_div (f64_of_Z (ac_request_charge_cap config)) credits_per_usd;
    zc_policy_charge_cap := ac_policy_charge_cap config;
    zc_policy_enabled := ac_policy_enabled config;
    zc_funding := funding_config config;
    zc_upstream_kind := upstream_kind;
    zc_direct_openrouter_available := direct_openrouter_available;
    zc_request_mode := ac_request_mode config;
    zc_active_lease := (λ lease, {|
      dl_session_id := al_session_id lease; dl_client_request_id := al_client_request_id lease;
      dl_expires_at := al_expires_at lease; dl_settle_after := al_settle_after lease |}) <$> slot;
    zc_prepared_withdrawal := (λ plan, {|
      pw_mode := wp_mode plan; pw_note_id := withdrawal_note_id (wp_public_inputs plan);
      pw_destination := format_address (withdrawal_destination (wp_public_inputs plan)) |}) <$> prepared |}.

Definition ensure_request_mode_available config : M unit :=
  match ac_request_mode config with
  | Proxy => mret tt
  | DirectOpenrouter =>
      r ← fetch_json server_health_of_value (server_url config "/health");
      health ← lift (map_err WalletErr r);
      if existsb (String.eqb "direct_openrouter") (sh_request_modes health) then mret tt
      else throw (InvalidInput ("server " +:+ ac_protocol_server_url config
                                +:+ " does not advertise direct_openrouter mode"))
  end.

(** [try_join!] of two requests: the first error is the result. Both are
    sent. *)
Definition fetch_indexer_snapshot config : M IndexerSnapshot :=
  root ← try (indexer_root config);
  next_note_id ← try (indexer_next_note_id config);
  mret match root, next_note_id with
       | Ok root, Ok next_note_id =>
           {| is_available := true; is_root := Some root; is_next_note_id := Some next_note_id; is_error := None |}
       | Err err, _ | _, Err err =>
           {| is_available := false; is_root := None; is_next_note_id := None;
              is_error := Some (auth_error_to_string status_text err) |}
       end.
Definition fetch_server_snapshot config : M ServerSnapshot :=
  health ← fetch_json server_health_of_value (server_url config "/health");
  attestation ← fetch_json server_attestation_of_value (server_url config "/v1/attestation");
  mret match health, attestation with
       | Ok health, Ok attestation =>
           {| ss_available := true; ss_health := Some health; ss_attestation := Some attestation; ss_error := None |}
       | Err err, _ | _, Err err =>
           {| ss_available := false; ss_health := None; ss_attestation := None; ss_error := Some err |}
       end.
Definition demo_overview config : M DemoOverview :=
  wallet ← status config;
  indexer ← fetch_indexer_snapshot config;
  server ← fetch_server_snapshot config;
  mret {| do_wallet := wallet; do_funding := funding_config config; do_indexer := indexer; do_server := server;
          do_runtime_proof_backend := proof_backend_label config |}.
End service.
