(* ===== verification/ClientRoutes.v ===== *)
(** * The daemon's HTTP routes: [zkapi-clientd/src/routes.rs]

    The routing table and the handlers. A handler receives what its extractor read
    and returns status, headers and the value axum serializes; [ClientRouter] has
    the dispatch and the extraction. *)

From Stdlib Require Import ZArith Lia Ascii.
From stdpp Require Import base tactics decidable numbers list gmap strings.
From S2P Require Import Prelude Text Float64 Json Http Types AuthScheme ClientTypes Compat ClientHelpers OllamaStream Router.
From S2P Require Import ClientWorld ClientWallet DirectLease ClientService.

Local Open Scope string_scope.

(** ** The routing table of [build_router] *)

Inductive Handler :=
| FundingIndex | FundingFavicon | Healthz | CoreRequestHandler | WalletStatusHandler | PrepareDeposit
| ConfirmDeposit | ChatCompletions | ResponsesApi | OllamaChat | Models | Tags | FundingConfigHandler
| WalletRecover | WalletSettle | WalletReset | DemoOverviewHandler | RequestPreviewHandler | RequestSubmit
| WalletWithdraw | WalletWithdrawConfirm | ZkapiConfigHandler | ZkapiInference | FundingAsset.
#[export] Instance Handler_eq_dec : EqDecision Handler.
Proof. solve_decision. Defined.

Definition on_get (path : list Segment) (h : Handler) : Route Handler := {| rt_path := path; rt_methods := [("GET", h)] |}.
Definition on_post (path : list Segment) (h : Handler) : Route Handler := {| rt_path := path; rt_methods := [("POST", h)] |}.
Definition daemon_routes : list (Route Handler) := [
  on_get [Lit ""] FundingIndex;
  on_get [Lit "favicon.ico"] FundingFavicon;
  on_get [Lit "health"] Healthz;
  on_get [Lit "healthz"] Healthz;
  on_post [Lit "request"] CoreRequestHandler;
  on_get [Lit "status"] WalletStatusHandler;
  on_post [Lit "deposit"; Lit "prepare"] PrepareDeposit;
  on_post [Lit "deposit"; Lit "confirm"] ConfirmDeposit;
  on_post [Lit "v1"; Lit "chat"; Lit "completions"] ChatCompletions;
  on_post [Lit "v1"; Lit "responses"] ResponsesApi;
  on_post [Lit "api"; Lit "chat"] OllamaChat;
  on_get [Lit "v1"; Lit "models"] Models;
  on_get [Lit "api"; Lit "tags"] Tags;
  on_get [Lit "funding"; Lit "config"] FundingConfigHandler;
  on_get [Lit "wallet"; Lit "status"] WalletStatusHandler;
  on_post [Lit "wallet"; Lit "recover"] WalletRecover;
  on_post [Lit "wallet"; Lit "settle"] WalletSettle;
  on_post [Lit "wallet"; Lit "reset"] WalletReset;
  on_post [Lit "funding"; Lit "api"; Lit "reset"] WalletReset;
  on_get [Lit "funding"] FundingIndex;
  on_get [Lit "funding"; Lit ""] FundingIndex;
  on_get [Lit "funding"; Lit "api"; Lit "status"] WalletStatusHandler;
  on_get [Lit "funding"; Lit "api"; Lit "demo"] DemoOverviewHandler;
  on_post [Lit "funding"; Lit "api"; Lit "deposit"; Lit "prepare"] PrepareDeposit;
  on_post [Lit "funding"; Lit "api"; Lit "deposit"; Lit "confirm"] ConfirmDeposit;
  on_post [Lit "funding"; Lit "api"; Lit "request"; Lit "preview"] RequestPreviewHandler;
  on_post [Lit "funding"; Lit "api"; Lit "request"; Lit "submit"] RequestSubmit;
  on_post [Lit "funding"; Lit "api"; Lit "recover"] WalletRecover;
  on_post [Lit "wallet"; Lit "withdraw"] WalletWithdraw;
  on_post [Lit "funding"; Lit "api"; Lit "withdraw"] WalletWithdraw;
  on_post [Lit "wallet"; Lit "withdraw"; Lit "confirm"] WalletWithdrawConfirm;
  on_post [Lit "funding"; Lit "api"; Lit "withdraw"; Lit "confirm"] WalletWithdrawConfirm;
  on_get [Lit "zkapi"; Lit "v1"; Lit "config"] ZkapiConfigHandler;
  on_post [Lit "zkapi"; Lit "v1"; Lit "inference"] ZkapiInference;
  on_get [Lit "funding"; Rest] FundingAsset].

Section routes.
Context `{!FeltOps, !WireTypes, !ClientTypes, !JsonText, !SerdeText, !WalletOps, !ClientEnv, !ClientWire}.
Implicit Types (config : AuthConfig) (headers : list (string * result string string)).

(** The value a handler hands to axum. *)
Inductive ReplyBody :=
| BodyValue (v : Value)
| BodyCore (response : CoreResponse)
| BodyWallet (status : WalletStatus)
| BodyRecover (result : RecoverResult)
| BodyPlan (plan : WithdrawalPlan)
| BodyChain (status : WithdrawalChainStatus)
| BodyDemo (overview : DemoOverview)
| BodyFunding (funding : FundingConfig)
| BodyDeposit (plan : DepositPlan)
| BodyPreview (preview : RequestPreview)
| BodyDemoResult (result : RequestDemoResult)
| BodyConfig (zkapi : ZkapiConfig)
| BodyStream (chunks : list (result string string))
| BodyOllama (model : string) (chunks : list (result string string))
| BodyBytes (bytes : string)
| BodyEmpty.
(** A header whose value is the upstream's own, or text. *)
Record Reply := { reply_status : Z; reply_headers : list (string * result string string); reply_body : ReplyBody }.
Definition json_reply (body : ReplyBody) : Reply := {| reply_status := 200; reply_headers := []; reply_body := body |}.

(** ** Errors *)

Definition opt_str (o : option string) : Value := match o with Some s => Str s | None => Null end.
Definition generic_error (err : AuthError) : Reply := {|
  reply_status := status_code err;
  reply_headers := [];
  reply_body := BodyValue (json_object [("error", json_object [
    ("code", Str (code err));
    ("message", Str (auth_error_to_string status_text err));
    ("funding_url", opt_str (funding_url err))])]) |}.
Definition openai_error (err : AuthError) : Reply := {|
  reply_status := status_code err;
  reply_headers := [];
  reply_body := BodyValue (json_object [("error", json_object [
    ("message", Str (auth_error_to_string status_text err));
    ("type", Str (code err));
    ("param", Null);
    ("code", Str (code err));
    ("funding_url", opt_str (funding_url err))])]) |}.

(** [match m { Ok(a) => .., Err(err) => .. }] *)
Definition respond {A} (m : M A) (on_ok : A → Reply) (on_err : AuthError → Reply) : M Reply :=
  r ← try m;
  mret match r with Ok a => on_ok a | Err e => on_err e end.

(** ** Requests *)

Definition SESSION_ID_HEADER : string := "x-zkapi-session-id".
Definition session_id headers : option string := header SESSION_ID_HEADER headers ≫= ok.

Definition streaming_openrouter_response (upstream : StreamingCoreResponse) : Reply := {|
  reply_status := st_status upstream;
  reply_headers := [("content-type", default (Ok "text/event-stream") (st_content_type upstream));
                    ("cache-control", default (Ok "no-cache") (st_cache_control upstream));
                    ("x-accel-buffering", Ok "no")];
  reply_body := BodyStream (st_body upstream) |}.
Definition streaming_ollama_response (upstream : StreamingCoreResponse) (model : string) : Reply := {|
  reply_status := st_status upstream;
  reply_headers := [("content-type", Ok "application/x-ndjson"); ("cache-control", Ok "no-cache, no-transform");
                    ("x-accel-buffering", Ok "no")];
  reply_body := BodyOllama model (st_body upstream) |}.

Definition core_request config (request : CoreRequest) : M Reply :=
  respond (execute_request config request) (λ response, json_reply (BodyCore response)) generic_error.

(** The reshaped reply, at the time it is shaped; [None] is a panic of
    [json!]. *)
Definition shaped (m : M CoreResponse) (shape : Z → CoreResponse → option Value) (on_err : AuthError → Reply) : M Reply :=
  r ← try m;
  match r with
  | Err e => mret (on_err e)
  | Ok response =>
      now ← now_seconds;
      v ← lift (ok_or (WalletErr "panicked: number out of range") (shape now response));
      mret (json_reply (BodyValue v))
  end.

Definition chat_completions config headers (body : Value) : M Reply :=
  if stream_requested body then
    respond (execute_streaming_request_in_session config (post_json "/v1/chat/completions" body) (session_id headers))
      streaming_openrouter_response openai_error
  else
    let model := extract_model body (default_model config) in
    shaped (execute_request_in_session config (post_json "/v1/chat/completions" body) (session_id headers))
      (λ now, chat_completion now model) openai_error.

Definition responses_api config headers (body : Value) : M Reply :=
  let model := extract_model body (default_model config) in
  shaped (execute_request_in_session config (post_json "/v1/responses" body) (session_id headers))
    (λ now, Compat.responses_api now model) openai_error.

Definition ollama_chat config headers (body : Value) : M Reply :=
  let model := extract_model body (default_model config) in
  if ollama_stream_requested body then
    let body := match body with Object object => Object (map_insert "stream" (Bool true) object) | body => body end in
    respond (execute_streaming_request_in_session config (post_json "/api/chat" body) (session_id headers))
      (λ upstream, streaming_ollama_response upstream model) generic_error
  else
    shaped (execute_request_in_session config (post_json "/api/chat" body) (session_id headers))
      (λ _, Compat.ollama_chat model) generic_error.

Definition zkapi_inference config headers (body : Value) : M Reply :=
  respond (execute_request_in_session config (post_json "/v1/chat/completions" body) (session_id headers))
    (λ result, json_reply (BodyCore result)) generic_error.

Definition request_submit config (body : CoreRequest) : M Reply :=
  respond (execute_request_demo config body) (λ result, json_reply (BodyDemoResult result)) generic_error.
Definition request_preview config (body : CoreRequest) : M Reply :=
  respond (preview_request config body) (λ preview, json_reply (BodyPreview preview)) generic_error.

(** ** Wallet *)

Definition wallet_status_route config : M Reply :=
  respond (status config) (λ status, json_reply (BodyWallet status)) generic_error.
Definition wallet_recover_route config : M Reply :=
  respond (recover config) (λ status, json_reply (BodyRecover status)) generic_error.
Definition wallet_settle config : M Reply :=
  respond (settle_for_withdrawal config) (λ status, json_reply (BodyWallet status)) generic_error.
Definition wallet_reset config : M Reply :=
  respond (reset_wallet config) (λ status, json_reply (BodyWallet status)) generic_error.

(** [mode] and [destination] are the fields of [WithdrawBody]. *)
Definition wallet_withdraw (utf8_error digit_error : string) config (mode destination : string) : M Reply :=
  match parse_withdrawal_mode mode with
  | Err err => mret (generic_error err)
  | Ok mode =>
      match parse_destination utf8_error digit_error destination with
      | Err msg => mret (generic_error (InvalidInput msg))
      | Ok destination =>
          respond (create_withdrawal config mode destination) (λ plan, json_reply (BodyPlan plan)) generic_error
      end
  end.
Definition wallet_withdraw_confirm config : M Reply :=
  respond (confirm_withdrawal config) (λ status, json_reply (BodyChain status)) generic_error.

Definition prepare_deposit_route config (amount : Z) : M Reply :=
  respond (prepare_deposit config amount) (λ plan, json_reply (BodyDeposit plan)) generic_error.
Definition confirm_deposit_route config (body : ConfirmDepositRequest) : M Reply :=
  respond (confirm_deposit config body) (λ status, json_reply (BodyWallet status)) generic_error.

(** ** Views *)

Definition healthz : Reply := json_reply (BodyValue (json_object [("status", Str "ok")])).
Definition models_route config : Reply := json_reply (BodyValue (openai_models (ac_models config))).
Definition tags_route config : Reply := json_reply (BodyValue (ollama_tags (ac_models config))).
Definition demo_overview_route config : M Reply :=
  respond (demo_overview config) (λ overview, json_reply (BodyDemo overview)) generic_error.
Definition funding_config_route config : Reply := json_reply (BodyFunding (funding_config config)).
Definition zkapi_config_route config : M Reply :=
  zkapi ← zkapi_config config;
  mret (json_reply (BodyConfig zkapi)).

Definition LOCAL_CSP : string :=
  "default-src 'self'; script-src 'self' 'unsafe-inline'; style-src 'self' 'unsafe-inline'; img-src 'self' data: blob:; font-src 'self'; connect-src 'self'; object-src 'none'; base-uri 'self'; frame-ancestors 'none'".
Definition local_asset_headers : list (string * result string string) :=
  [("content-security-policy", Ok LOCAL_CSP); ("cache-control", Ok "no-store"); ("x-content-type-options", Ok "nosniff")].

(** The assets the build embeds: bytes and content type by path. *)
Definition funding_asset (embedded : string → option (string * string)) (path : string) : Reply :=
  match embedded path with
  | Some (body, content_type) =>
      {| reply_status := 200; reply_headers := ("content-type", Ok content_type) :: local_asset_headers;
         reply_body := BodyBytes body |}
  | None => {| reply_status := 404; reply_headers := []; reply_body := BodyEmpty |}
  end.
Definition funding_index (embedded : string → option (string * string)) : Reply :=
  {| reply_status := 200; reply_headers := ("content-type", Ok "text/html; charset=utf-8") :: local_asset_headers;
     reply_body := BodyBytes (default "" (fst <$> embedded "index.html")) |}.
Definition funding_favicon (embedded : string → option (string * string)) : Reply :=
  funding_asset embedded "favicon.svg".

(** ** Serving a request *)

(** What a handler's extractor read: the decoded body or the captured path. *)
Inductive RequestBody :=
| NoRequestBody
| RawJson (v : Value)
| CoreBody (request : CoreRequest)
| AmountBody (amount : Z)
| ConfirmBody (request : ConfirmDepositRequest)
| WithdrawBody (mode destination : string)
| AssetPath (path : string).

(** [None]: not what the handler takes. *)
Definition serve (embedded : string → option (string * string)) (utf8_error digit_error : string) config
    (handler : Handler) headers (body : RequestBody) : option (M Reply) :=
  match handler, body with
  | FundingIndex, _ => Some (mret (funding_index embedded))
  | FundingFavicon, _ => Some (mret (funding_favicon embedded))
  | Healthz, _ => Some (mret healthz)
  | CoreRequestHandler, CoreBody request => Some (core_request config request)
  | WalletStatusHandler, _ => Some (wallet_status_route config)
  | PrepareDeposit, AmountBody amount => Some (prepare_deposit_route config amount)
  | ConfirmDeposit, ConfirmBody request => Some (confirm_deposit_route config request)
  | ChatCompletions, RawJson v => Some (chat_completions config headers v)
  | ResponsesApi, RawJson v => Some (responses_api config headers v)
  | OllamaChat, RawJson v => Some (ollama_chat config headers v)
  | Models, _ => Some (mret (models_route config))
  | Tags, _ => Some (mret (tags_route config))
  | FundingConfigHandler, _ => Some (mret (funding_config_route config))
  | WalletRecover, _ => Some (wallet_recover_route config)
  | WalletSettle, _ => Some (wallet_settle config)
  | WalletReset, _ => Some (wallet_reset config)
  | DemoOverviewHandler, _ => Some (demo_overview_route config)
  | RequestPreviewHandler, CoreBody request => Some (request_preview config request)
  | RequestSubmit, CoreBody request => Some (request_submit config request)
  | WalletWithdraw, WithdrawBody mode destination =>
      Some (wallet_withdraw utf8_error digit_error config mode destination)
  | WalletWithdrawConfirm, _ => Some (wallet_withdraw_confirm config)
  | ZkapiConfigHandler, _ => Some (zkapi_config_route config)
  | ZkapiInference, RawJson v => Some (zkapi_inference config headers v)
  | FundingAsset, AssetPath path => Some (mret (funding_asset embedded (trim_start_matches "/"%char path)))
  | _, _ => None
  end.
End routes.
