(* ===== verification/ClientRel.v ===== *)
(** * What the daemon's handlers leave alone, and the calls they make

    A preorder on states that every step of a handler respects relates the
    handler's first state to its last. The rules are proved for any such relation;
    [own_grows], [note_kept] and [lease_kept] are the ones the withdrawal's theorems
    use. In the same way the calls a handler makes are in any set that has those of
    its steps: [calls], with one lemma per handler. *)

From Stdlib Require Import ZArith Lia.
From stdpp Require Import base tactics decidable numbers list gmap strings.
From S2P Require Import Prelude Text Float64 Json Http Types AuthScheme ClientTypes Compat ClientHelpers ClientWorld.
From S2P Require Import ClientWallet DirectLease ClientService.

Local Open Scope string_scope.

Section rel.
Context `{!FeltOps, !WireTypes, !ClientTypes, !JsonText, !SerdeText, !WalletOps, !ClientEnv, !ClientWire}.
Implicit Types (config : AuthConfig) (σ : State).

(** A relation on states, with the changes of the disk it allows. *)
Class StateRel (R : relation State) (D : relation Disk) := {
  rel_preorder :: PreOrder R;
  rel_world σ w i : R σ (with_instant i (with_world w σ));
  rel_own σ e : R σ (add_own e σ);
  rel_prepared σ p evs : R σ (add_events evs (with_prepared p σ));
  rel_disk σ d evs : D (disk σ) d → R σ (add_events evs (with_disk d σ));
  rel_same d : D d d;
  rel_lock w d d' evs w' : env_disk w d = ((d', evs), w') → D d d';
  rel_new w c d r d' w' : wallet_new w c d = ((r, d'), w') → D d d';
}.

Context (R : relation State) (D : relation Disk) `{!StateRel R D}.

Definition moves {A} (m : M A) : Prop := ∀ σ, R σ (m σ).2.

Lemma add_no_events σ : add_events [] σ = σ.
Proof. destruct σ. unfold add_events; cbn. by rewrite app_nil_r. Qed.
Lemma rel_disk' σ d : D (disk σ) d → R σ (with_disk d σ).
Proof. intros Hd. rewrite <-(add_no_events (with_disk d σ)). by apply rel_disk. Qed.

Lemma moves_bind {A B} (m : M A) (f : A → M B) : moves m → (∀ a, moves (f a)) → moves (m ≫= f).
Proof.
  intros Hm Hf σ. unfold mbind, M_bind. specialize (Hm σ). destruct (m σ) as [[a|e] σ1]; [|done].
  etransitivity; [exact Hm|apply Hf].
Qed.
Lemma moves_ret {A} (a : A) : moves (mret a).
Proof. intros σ. reflexivity. Qed.
Lemma moves_lift {A} (r : result AuthError A) : moves (lift r).
Proof. intros σ. reflexivity. Qed.
Lemma moves_throw {A} e : moves (@throw _ _ _ _ _ A e).
Proof. apply moves_lift. Qed.
Lemma moves_gets {A} (g : State → A) : moves (gets g).
Proof. intros σ. reflexivity. Qed.
Lemma moves_try {A} (m : M A) : moves m → moves (try m).
Proof. intros Hm σ. unfold try. specialize (Hm σ). by destruct (m σ). Qed.
Lemma moves_draw_at {A} (f : State → A * World) : moves (draw_at f).
Proof. intros σ. unfold draw_at. destruct (f σ). apply rel_world. Qed.
Lemma moves_draw {A} (f : World → A * World) : moves (draw f).
Proof. apply moves_draw_at. Qed.
Lemma moves_now : moves now_seconds.
Proof. apply moves_draw. Qed.
Lemma moves_log e : moves (log e).
Proof. intros σ. apply rel_own. Qed.
Lemma moves_sleep delay : moves (sleep delay).
Proof.
  apply moves_bind; [apply moves_log|]. intros _ σ. cbn.
  assert (σ = with_world (world σ) σ) as Hσ by by destruct σ. rewrite Hσ at 2. apply rel_world.
Qed.
Lemma moves_io f eff : (∀ d, D d (eff d)) → moves (io f eff).
Proof.
  intros He. apply moves_bind; [apply moves_draw|]. intros [err|]; [apply moves_throw|].
  intros σ. by apply rel_disk'.
Qed.
Lemma moves_io_same f : moves (io f (λ d, d)).
Proof. apply moves_io. intros d. apply (rel_same d). Qed.
Lemma moves_http request : moves (http request).
Proof. apply moves_bind; [apply moves_draw|]. intros answer. apply moves_bind; [apply moves_log|]. intros _. apply moves_ret. Qed.
Lemma moves_lock_prepared : moves lock_prepared.
Proof.
  apply moves_bind; [apply moves_draw_at|]. intros [p evs]. apply moves_bind; [|intros _; apply moves_ret].
  intros σ. apply rel_prepared.
Qed.
Lemma moves_set_prepared p : moves (set_prepared p).
Proof. intros σ. cbn. rewrite <-(add_no_events (with_prepared p σ)). apply rel_prepared. Qed.
Lemma moves_lock_wallet : moves lock_wallet.
Proof.
  apply moves_bind; [apply moves_draw|]. intros [|m|]; try apply moves_throw.
  intros σ. unfold mbind, M_bind, draw_at, modify. destruct (env_disk _ _) as [[d evs] w] eqn:E. cbn.
  etransitivity; [apply (rel_world σ w)|]. apply rel_disk. by eapply rel_lock.
Qed.
Lemma moves_load_wallet config roots : moves (load_wallet config roots).
Proof.
  intros σ. unfold load_wallet, mbind, M_bind, draw_at, modify. destruct (wallet_new _ _ _) as [[r d] w] eqn:E. cbn.
  etransitivity; [apply (rel_world σ w)|]. apply rel_disk'. by eapply rel_new.
Qed.
Lemma moves_wallet_call {A} e (call : World → Disk → (result ClientError A * Wallet * Disk) * World) :
  (∀ w d r wallet d' w', call w d = ((r, wallet, d'), w') → D d d') → moves (wallet_call e call).
Proof.
  intros Hcall. apply moves_bind; [apply moves_log|]. intros _ σ. unfold mbind, M_bind, draw_at, modify.
  destruct (call _ _) as [[[r wallet] d] w] eqn:E. cbn.
  etransitivity; [apply (rel_world σ w)|]. apply rel_disk'. by eapply Hcall.
Qed.
End rel.

Create HintDb moves.
#[export] Hint Resolve moves_now moves_lock_prepared moves_set_prepared moves_lock_wallet moves_load_wallet moves_gets
  moves_draw moves_draw_at moves_io_same moves_log moves_sleep moves_http moves_throw moves_ret moves_lift : moves.
Ltac moves_step :=
  cbv beta;
  first
    [ solve [eauto with moves nocore]
    | lazymatch goal with
      | |- moves _ (_ ≫= _) => eapply moves_bind; [exact _| |intros ?]
      | |- moves _ (match ?x with _ => _ end) => destruct x
      | |- moves _ (try _) => apply moves_try
      end ].
Ltac moves_auto := repeat moves_step.

(** ** Handlers *)

Section handlers.
Context `{!FeltOps, !WireTypes, !ClientTypes, !JsonText, !SerdeText, !WalletOps, !ClientEnv, !ClientWire}.
Context (R : relation State) (D : relation Disk) `{!StateRel R D}.
Implicit Types (config : AuthConfig) (σ : State).

Lemma moves_get_json {A} (dec : Value → option A) f g h url : moves R (get_json dec f g h url).
Proof. unfold get_json. moves_auto. Qed.
Lemma moves_wallet_status wallet : moves R (wallet_status wallet).
Proof. unfold wallet_status, has_pending_request. moves_auto. Qed.
Hint Resolve moves_get_json moves_wallet_status : moves.
Lemma moves_status config : moves R (status config).
Proof. unfold status. moves_auto. Qed.
Lemma moves_vault_call config data : moves R (vault_eth_call config data).
Proof. unfold vault_eth_call. moves_auto. Qed.
Hint Resolve moves_vault_call : moves.
Lemma moves_onchain config note_id : moves R (onchain_withdrawal_status config note_id).
Proof. unfold onchain_withdrawal_status. moves_auto. Qed.
Lemma moves_remove_prepared dir :
  (∀ d, D d (remove_file (prepared_withdrawal_path dir) d)) → moves R (remove_prepared_withdrawal dir).
Proof.
  intros Hd. unfold remove_prepared_withdrawal. moves_step; [moves_step|]. moves_step; [|moves_step].
  by eapply moves_io.
Qed.

(** With no condition on the disk. *)
Section any_disk.
Hypothesis any_disk : ∀ d d', D d d'.
Lemma moves_any_io f eff : moves R (io f eff).
Proof. by eapply moves_io. Qed.
Lemma moves_any_call {A} e (call : World → Disk → (result ClientError A * Wallet * Disk) * World) :
  moves R (wallet_call e call).
Proof. by eapply moves_wallet_call. Qed.
Lemma moves_any_modify d : moves R (modify (with_disk d)).
Proof. intros σ. cbn. by eapply rel_disk'. Qed.
Lemma moves_any_modify_f (f : Disk → Disk) : moves R (modify (λ σ, with_disk (f (disk σ)) σ)).
Proof. intros σ. cbn. by eapply rel_disk'. Qed.
Hint Resolve moves_any_io moves_any_call moves_any_modify moves_any_modify_f moves_status : moves.

Lemma moves_recover config : moves R (recover config).
Proof. unfold recover, current_thread_runtime, lift_client. moves_auto. Qed.
Hint Resolve moves_recover : moves.
Lemma moves_clear_pending config : moves R (clear_pending_request config).
Proof. unfold clear_pending_request, lift_client. moves_auto. Qed.
Lemma moves_prepare_lease config : moves R (prepare_direct_lease_request config).
Proof.
  unfold prepare_direct_lease_request, authorization_json, has_pending_request, lift_client, current_thread_runtime,
    indexer_root, indexer_note_path, indexer_path, indexer_get. moves_auto.
Qed.
Hint Resolve moves_clear_pending moves_prepare_lease : moves.
Lemma moves_retire_loop fuel config id request deadline : moves R (retire_loop fuel config id request deadline).
Proof. induction fuel as [|fuel IH]; cbn [retire_loop]; moves_auto; exact IH. Qed.
Hint Resolve moves_retire_loop : moves.
Lemma moves_retire config id : moves R (retire_direct_openrouter_lease config id).
Proof. unfold retire_direct_openrouter_lease. moves_auto. Qed.
Lemma moves_find left config request : moves R (find_attempts left config request).
Proof.
  induction left as [|left IH]; cbn [find_attempts];
    unfold fetch_optional_direct_lease_status, fetch_request_recovery, fetch_nullifier_recovery; moves_auto; exact IH.
Qed.
Lemma moves_settled config : moves R (settled_status config).
Proof. unfold settled_status. moves_auto. Qed.
Hint Resolve moves_retire moves_find moves_settled : moves.
Lemma moves_settle_pending config : moves R (settle_pending_lease config).
Proof. unfold settle_pending_lease, find_direct_lease_for_withdrawal. moves_auto. Qed.
End any_disk.
End handlers.

(** ** Relations *)

Section relations.
Context `{!FeltOps, !WireTypes, !ClientTypes, !JsonText, !SerdeText, !WalletOps, !ClientEnv, !ClientWire}.

Definition own_grows (σ σ' : State) : Prop := ∃ l, own σ' = (own σ ++ l)%list.
Definition lease_kept (σ σ' : State) : Prop := direct_lease σ' = direct_lease σ.

#[export] Instance own_grows_rel : StateRel own_grows (λ _ _, True).
Proof.
  split; try done; try (intros; exists []; by rewrite app_nil_r).
  - split; [intros σ; exists []; by rewrite app_nil_r|].
    intros σ1 σ2 σ3 [l Hl] [l' Hl']. exists (l ++ l')%list. by rewrite Hl', Hl, app_assoc.
  - intros σ e. by exists [e].
Qed.
#[export] Instance lease_kept_rel : StateRel lease_kept (λ _ _, True).
Proof. split; try done. split; [done|]. intros σ1 σ2 σ3. unfold lease_kept. congruence. Qed.

(** The note and the journal on disk. *)
Definition same_note (config : AuthConfig) (d d' : Disk) : Prop :=
  files d' !! note_state_path (ac_state_dir config) = files d !! note_state_path (ac_state_dir config) ∧
  files d' !! pending_journal_path (ac_state_dir config) = files d !! pending_journal_path (ac_state_dir config).
Definition note_kept (config : AuthConfig) (σ σ' : State) : Prop := same_note config (disk σ) (disk σ').

(** Loading a wallet and the other handlers leave the note alone. *)
Class NoteLaws (config : AuthConfig) := {
  note_lock w d d' evs w' : env_disk w d = ((d', evs), w') → same_note config d d';
  note_new w c d r d' w' : wallet_new w c d = ((r, d'), w') → same_note config d d';
}.
#[export] Instance note_kept_rel config `{!NoteLaws config} : StateRel (note_kept config) (same_note config).
Proof.
  split; try done; try apply note_lock; try apply note_new.
  split; [by intros σ|]. intros σ1 σ2 σ3 [? ?] [? ?]. split; congruence.
Qed.

Lemma grows_lock_lease : moves own_grows lock_lease.
Proof.
  intros σ. unfold lock_lease, mbind, M_bind, draw_at, modify. destruct (env_lease _ _) as [[l evs] w]. cbn.
  exists []. by rewrite app_nil_r.
Qed.
Lemma grows_set_lease l : moves own_grows (set_lease l).
Proof. intros σ. exists []. cbn. by rewrite app_nil_r. Qed.
Hint Resolve grows_lock_lease grows_set_lease own_grows_rel : moves.
Lemma grows_io f eff : moves own_grows (io f eff).
Proof. by apply (moves_any_io own_grows (λ _ _, True)). Qed.
Lemma grows_modify_disk (f : Disk → Disk) : moves own_grows (modify (λ σ, with_disk (f (disk σ)) σ)).
Proof. by apply (moves_any_modify_f own_grows (λ _ _, True)). Qed.
Lemma grows_wallet_status wallet : moves own_grows (wallet_status wallet).
Proof. eapply moves_wallet_status. exact _. Qed.
Hint Resolve grows_io grows_modify_disk grows_wallet_status : moves.
Lemma grows_reset config : moves own_grows (reset_wallet config).
Proof. unfold reset_wallet, io_ignored. moves_auto. Qed.
End relations.
#[export] Hint Resolve grows_lock_lease grows_set_lease grows_reset own_grows_rel lease_kept_rel : moves.

(** ** The calls of a handler itself *)

Section calls.
Context `{!FeltOps, !WireTypes, !ClientTypes, !JsonText, !SerdeText, !WalletOps, !ClientEnv, !ClientWire}.
Context (OK : Event → Prop).

(** [m] adds only events in [OK] to those of its daemon. *)
Definition calls {A} (m : M A) : Prop := ∀ σ, ∃ l, own (m σ).2 = (own σ ++ l)%list ∧ Forall OK l.

Lemma calls_none {A} (m : M A) : (∀ σ, own (m σ).2 = own σ) → calls m.
Proof. intros Hm σ. exists []. by rewrite Hm, app_nil_r. Qed.
Lemma calls_bind {A B} (m : M A) (f : A → M B) : calls m → (∀ a, calls (f a)) → calls (m ≫= f).
Proof.
  intros Hm Hf σ. unfold mbind, M_bind. destruct (Hm σ) as (l & Ho & Hl). destruct (m σ) as [[a|e] σ1]; [|by exists l].
  destruct (Hf a σ1) as (l' & Ho' & Hl'). exists (l ++ l')%list. cbn in *. rewrite Ho', Ho, app_assoc.
  split; [done|]. by apply Forall_app.
Qed.
Lemma calls_ret {A} (a : A) : calls (mret a).
Proof. by apply calls_none. Qed.
Lemma calls_lift {A} (r : result AuthError A) : calls (lift r).
Proof. by apply calls_none. Qed.
Lemma calls_throw {A} e : calls (@throw _ _ _ _ _ A e).
Proof. apply calls_lift. Qed.
Lemma calls_gets {A} (g : State → A) : calls (gets g).
Proof. by apply calls_none. Qed.
Lemma calls_try {A} (m : M A) : calls m → calls (try m).
Proof. intros Hm σ. unfold try. destruct (Hm σ) as (l & Ho & Hl). destruct (m σ). by exists l. Qed.
Lemma calls_draw_at {A} (f : State → A * World) : calls (draw_at f).
Proof. apply calls_none. intros σ. unfold draw_at. by destruct (f σ). Qed.
Lemma calls_draw {A} (f : World → A * World) : calls (draw f).
Proof. apply calls_draw_at. Qed.
Lemma calls_modify f : (∀ σ, own (f σ) = own σ) → calls (modify f).
Proof. intros Hf. by apply calls_none. Qed.
Lemma calls_log e : OK e → calls (log e).
Proof. intros He σ. exists [e]. split; [done|]. by constructor. Qed.
Lemma calls_http request : (∀ answer, OK (EvHttp request answer)) → calls (http request).
Proof.
  intros Hr. apply calls_bind; [apply calls_draw|]. intros answer. apply calls_bind; [by apply calls_log|].
  intros. apply calls_ret.
Qed.
Lemma calls_io f eff : calls (io f eff).
Proof.
  apply calls_bind; [apply calls_draw|]. intros [e|]; [apply calls_throw|by apply calls_modify].
Qed.
Lemma calls_wallet_call {A} e (call : World → Disk → (result ClientError A * Wallet * Disk) * World) :
  OK e → calls (wallet_call e call).
Proof.
  intros He. apply calls_bind; [by apply calls_log|]. intros _. apply calls_bind; [apply calls_draw_at|].
  intros [[r wallet] d]. apply calls_bind; [by apply calls_modify|]. intros. apply calls_ret.
Qed.
Lemma calls_sleep delay : OK (EvSleep delay) → calls (sleep delay).
Proof. intros He. apply calls_bind; [by apply calls_log|]. intros. by apply calls_modify. Qed.
Lemma calls_set_lease l : calls (set_lease l).
Proof. by apply calls_modify. Qed.
Lemma calls_set_prepared p : calls (set_prepared p).
Proof. by apply calls_modify. Qed.
Lemma calls_lock_lease : calls lock_lease.
Proof.
  apply calls_bind; [apply calls_draw_at|]. intros [l evs]. apply calls_bind; [by apply calls_modify|].
  intros. apply calls_ret.
Qed.
Lemma calls_lock_prepared : calls lock_prepared.
Proof.
  apply calls_bind; [apply calls_draw_at|]. intros [l evs]. apply calls_bind; [by apply calls_modify|].
  intros. apply calls_ret.
Qed.
Lemma calls_lock_wallet : calls lock_wallet.
Proof.
  apply calls_bind; [apply calls_draw|]. intros [|m|]; [|apply calls_throw..].
  apply calls_bind; [apply calls_draw_at|]. intros [d evs]. by apply calls_modify.
Qed.
Lemma calls_load_wallet config roots : calls (load_wallet config roots).
Proof.
  apply calls_bind; [apply calls_draw_at|]. intros [r d]. apply calls_bind; [by apply calls_modify|].
  intros. apply calls_lift.
Qed.
End calls.

Create HintDb calls.
#[export] Hint Resolve calls_ret calls_lift calls_throw calls_gets calls_draw_at calls_draw calls_io calls_set_lease
  calls_set_prepared calls_lock_lease calls_lock_prepared calls_lock_wallet calls_load_wallet calls_log calls_http
  calls_wallet_call calls_sleep : calls.
#[export] Hint Extern 1 (http_bearer _ = None) => reflexivity : calls.
Ltac calls_step :=
  cbv beta zeta;
  first
    [ solve [eauto with calls nocore]
    | lazymatch goal with
      | |- calls _ (_ ≫= _) => apply calls_bind; [|intros ?]
      | |- calls _ (match ?x with _ => _ end) => destruct x
      | |- calls _ (try _) => apply calls_try
      | |- calls _ (modify _) => by apply calls_modify
      end ].
Ltac calls_auto := repeat calls_step.

(** ** The calls of the handlers

    Each lemma is about any set of events with the calls a handler makes: all of
    them that move no note and carry no key, and for those that serve prompts the
    inference requests. *)

(** A call that neither moves a whole note nor carries a key as bearer. *)
Definition plain_event `{!FeltOps} (e : Event) : bool :=
  match e with
  | EvWithdraw _ _ | EvConfirmDeposit _ => false
  | EvHttp request _ => match http_bearer request with None => true | Some _ => false end
  | _ => true
  end.

Section handlers.
Context `{!FeltOps, !WireTypes, !ClientTypes, !JsonText, !SerdeText, !WalletOps, !ClientEnv, !ClientWire}.
Context (config : AuthConfig) (OK : Event → Prop).
Context (Hbase : ∀ e, plain_event e = true → OK e)
  (Hkey : ∀ url key body answer, OK (EvHttp (inference_request url key body) answer)).

Lemma base_http request answer : http_bearer request = None → OK (EvHttp request answer).
Proof. intros Hr. apply Hbase. cbn. by rewrite Hr. Qed.
Lemma base_sleep delay : OK (EvSleep delay).
Proof. by apply Hbase. Qed.
Lemma base_prepare payload : OK (EvPrepareRequest payload).
Proof. by apply Hbase. Qed.
Lemma base_flow payload : OK (EvRequestFlow payload).
Proof. by apply Hbase. Qed.
Lemma base_recover : OK EvRecover.
Proof. by apply Hbase. Qed.
Lemma base_clear : OK EvClearPending.
Proof. by apply Hbase. Qed.
Hint Resolve Hkey base_http base_sleep base_prepare base_flow base_recover base_clear : calls.

Lemma calls_get_json {A} (dec : Value → option A) f g h url : calls OK (get_json dec f g h url).
Proof. unfold get_json. calls_auto. Qed.
Lemma calls_fetch_json {A} (dec : Value → option A) url : calls OK (fetch_json dec url).
Proof. unfold fetch_json. calls_auto. Qed.
Lemma calls_wallet_status wallet : calls OK (wallet_status wallet).
Proof. unfold wallet_status, has_pending_request. calls_auto. Qed.
Hint Resolve calls_get_json calls_fetch_json calls_wallet_status : calls.
Lemma calls_indexer_root : calls OK (indexer_root config).
Proof. apply calls_get_json. Qed.
Lemma calls_indexer_next : calls OK (indexer_next_note_id config).
Proof. apply calls_get_json. Qed.
Lemma calls_note_path note_id : calls OK (indexer_note_path config note_id).
Proof. apply calls_get_json. Qed.
Lemma calls_zero_path note_id : calls OK (indexer_zero_path config note_id).
Proof. apply calls_get_json. Qed.
Hint Resolve calls_indexer_root calls_indexer_next calls_note_path calls_zero_path : calls.
Lemma calls_status : calls OK (status config).
Proof. unfold status. calls_auto. Qed.
Lemma calls_runtime : calls OK current_thread_runtime.
Proof. apply calls_io. Qed.
Hint Resolve calls_status calls_runtime : calls.
Lemma calls_recover : calls OK (recover config).
Proof. unfold recover, lift_client. calls_auto. Qed.
Lemma calls_clear_pending : calls OK (clear_pending_request config).
Proof. unfold clear_pending_request, lift_client. calls_auto. Qed.
Hint Resolve calls_recover calls_clear_pending : calls.

Lemma calls_prepare_lease : calls OK (prepare_direct_lease_request config).
Proof. unfold prepare_direct_lease_request, authorization_json, has_pending_request, lift_client. calls_auto. Qed.
Hint Resolve calls_prepare_lease : calls.
Lemma calls_retire_loop fuel id request deadline : calls OK (retire_loop fuel config id request deadline).
Proof. induction fuel as [|fuel IH]; cbn [retire_loop]; calls_auto; exact IH. Qed.
Hint Resolve calls_retire_loop : calls.
Lemma calls_retire id : calls OK (retire_direct_openrouter_lease config id).
Proof. unfold retire_direct_openrouter_lease. calls_auto. Qed.
Hint Resolve calls_retire : calls.
Lemma calls_retry_or {A} attempt expires_at delay (again : M A) error :
  calls OK again → calls OK (retry_or attempt expires_at delay again error).
Proof. intros Ha. unfold retry_or. calls_auto. Qed.
Hint Resolve calls_retry_or : calls.
Lemma calls_verify left attempt url request expires_at : calls OK (verify_attempts left attempt url request expires_at).
Proof. revert attempt. induction left as [|left IH]; intros attempt; cbn [verify_attempts]; calls_auto. Qed.
Lemma calls_send left attempt url key body expires_at : calls OK (send_attempts left attempt url key body expires_at).
Proof. revert attempt. induction left as [|left IH]; intros attempt; cbn [send_attempts]; calls_auto. Qed.
Hint Resolve calls_verify calls_send : calls.
Lemma calls_ensure_verified lease : calls OK (ensure_verified config lease).
Proof. unfold ensure_verified, verify_oa_key. calls_auto. Qed.
Hint Resolve calls_ensure_verified : calls.
Lemma calls_issue fuel session_id stale lost : calls OK (issue_loop fuel config session_id stale lost).
Proof.
  revert stale lost. induction fuel as [|fuel IH]; intros stale lost; cbn [issue_loop];
    unfold fetch_direct_lease_status, reconcile_lost_key; calls_auto.
Qed.
Hint Resolve calls_issue : calls.
Lemma calls_reserve session_id : calls OK (reserve_lease config session_id).
Proof. unfold reserve_lease, ensure_direct_openrouter_lease, issue_direct_openrouter_lease. calls_auto. Qed.
Lemma calls_drop id : calls OK (drop_lease id).
Proof. unfold drop_lease. calls_auto. Qed.
Lemma calls_scheme : calls OK (ensure_scheme_agreement config).
Proof. unfold ensure_scheme_agreement. calls_auto. Qed.
Hint Resolve calls_reserve calls_drop calls_scheme : calls.
Lemma calls_open fuel path body session_id replaced : calls OK (open_loop fuel config path body session_id replaced).
Proof.
  revert replaced. induction fuel as [|fuel IH]; intros replaced; cbn [open_loop];
    unfold send_verified_openrouter_request, send_openrouter_request; calls_auto.
Qed.
Hint Resolve calls_open : calls.
Lemma calls_preview wallet request : calls OK (build_request_preview config wallet request).
Proof. unfold build_request_preview. calls_auto. Qed.
Hint Resolve calls_preview : calls.
Lemma calls_demo left attempt wallet request payload hash :
  calls OK (demo_attempts left attempt config wallet request payload hash).
Proof.
  revert attempt wallet. induction left as [|left IH]; intros attempt wallet; cbn [demo_attempts]; calls_auto; apply IH.
Qed.
Hint Resolve calls_demo : calls.
Lemma calls_execute_demo request : calls OK (execute_request_demo config request).
Proof. unfold execute_request_demo, has_pending_request, lift_client. calls_auto. Qed.
Hint Resolve calls_execute_demo : calls.
Lemma calls_session request session_id : calls OK (execute_request_in_session config request session_id).
Proof.
  unfold execute_request_in_session, withdrawal_guard, execute_direct_openrouter, open_direct_openrouter_response,
    finish_direct_openrouter_lease. calls_auto.
Qed.
Lemma calls_streaming request session_id : calls OK (execute_streaming_request_in_session config request session_id).
Proof.
  unfold execute_streaming_request_in_session, withdrawal_guard, execute_direct_openrouter_streaming,
    open_direct_openrouter_response. calls_auto.
Qed.
Hint Resolve calls_session calls_streaming : calls.
Lemma calls_reconcile : calls OK (reconcile_direct_openrouter config).
Proof. unfold reconcile_direct_openrouter. calls_auto. Qed.
Hint Resolve calls_reconcile : calls.
Lemma calls_find left request : calls OK (find_attempts left config request).
Proof.
  induction left as [|left IH]; cbn [find_attempts];
    unfold fetch_optional_direct_lease_status, fetch_request_recovery, fetch_nullifier_recovery; calls_auto; exact IH.
Qed.
Hint Resolve calls_find : calls.
Lemma calls_settle : calls OK (settle_for_withdrawal config).
Proof.
  unfold settle_for_withdrawal, settle_pending_lease, settled_status, find_direct_lease_for_withdrawal. calls_auto.
Qed.
Hint Resolve calls_settle : calls.
Lemma calls_reset : calls OK (reset_wallet config).
Proof. unfold reset_wallet, io_ignored. calls_auto. Qed.
Hint Resolve calls_reset : calls.
Lemma calls_remove_prepared dir : calls OK (remove_prepared_withdrawal dir).
Proof. unfold remove_prepared_withdrawal. calls_auto. Qed.
Lemma calls_persist dir plan : calls OK (persist_prepared_withdrawal dir plan).
Proof. unfold persist_prepared_withdrawal. calls_auto. Qed.
Hint Resolve calls_remove_prepared calls_persist : calls.
Lemma calls_confirm_withdrawal : calls OK (confirm_withdrawal config).
Proof. unfold confirm_withdrawal, onchain_withdrawal_status, vault_eth_call. calls_auto. Qed.
Lemma calls_prepare_deposit amount : calls OK (prepare_deposit config amount).
Proof. unfold prepare_deposit. calls_auto. Qed.
Lemma calls_preview_request request : calls OK (preview_request config request).
Proof. unfold preview_request. calls_auto. Qed.
Lemma calls_demo_overview : calls OK (demo_overview config).
Proof. unfold demo_overview, fetch_indexer_snapshot, fetch_server_snapshot. calls_auto. Qed.
Lemma calls_zkapi_config : calls OK (zkapi_config config).
Proof. unfold zkapi_config, fetch_summary. calls_auto. Qed.
Lemma calls_service_new : calls OK (service_new config).
Proof. unfold service_new, load_prepared_withdrawal. calls_auto. Qed.

(** The two that move a note make the call they are asked for. *)
Lemma calls_create_withdrawal mode destination : OK (EvWithdraw mode destination) →
  calls OK (create_withdrawal config mode destination).
Proof. intros Ho. unfold create_withdrawal, lift_client. calls_auto. Qed.
Lemma calls_confirm_deposit request : OK (EvConfirmDeposit (cd_note_id request)) → calls OK (confirm_deposit config request).
Proof. intros Ho. unfold confirm_deposit, lift_client. calls_auto. Qed.
End handlers.
