(* ===== verification/Assets.v ===== *)
(** * Embedding the funding page: [zkapi-clientd/build_support.rs] and [build.rs]

    What the build publishes of a directory, as a tree of entries, and the map of
    assets that the daemon's [/funding/] routes serve; and that exactly the regular
    files under public names are served. *)

From Stdlib Require Import ZArith Lia Ascii.
From stdpp Require Import base tactics decidable numbers list sorting strings.
From S2P Require Import Prelude Text Float64 Json Http Types AuthScheme ClientTypes Compat ClientHelpers ClientWorld.
From S2P Require Import ClientWallet DirectLease ClientService ClientRoutes.

Local Open Scope string_scope.

(** ** The tree *)

(** An entry of a directory by its file type; [Unreadable] is one whose type cannot
    be read. Names are bytes. *)
#[warnings="-register-all"]
Inductive Entry :=
| File (contents : string)
| Directory (listing : result string (list (string * Entry)))
| Symlink
| Special
| Unreadable (error : string).

Fixpoint Entry_rect' (P : Entry → Prop)
    (Hfile : ∀ c, P (File c)) (Hok : ∀ l, Forall (λ p, P p.2) l → P (Directory (Ok l))) (Herr : ∀ e, P (Directory (Err e)))
    (Hlink : P Symlink) (Hspecial : P Special) (Hunreadable : ∀ e, P (Unreadable e)) (e : Entry) : P e :=
  match e with
  | File c => Hfile c
  | Directory (Ok l) => Hok l ((fix go l : Forall (λ p, P p.2) l :=
      match l with
      | [] => Forall_nil_2 _
      | p :: l' => Forall_cons_2 _ p l' (Entry_rect' P Hfile Hok Herr Hlink Hspecial Hunreadable p.2) (go l')
      end) l)
  | Directory (Err err) => Herr err
  | Symlink => Hlink
  | Special => Hspecial
  | Unreadable err => Hunreadable err
  end.

(** ** [build_support.rs] *)

(** [Path::extension] of a file name. *)
Definition extension (name : string) : string :=
  match rsplit "." name with Some (EmptyString, _) | None => "" | Some (_, ext) => ext end.
Definition content_type_of (ext : string) : string :=
  let among l := existsb (String.eqb ext) l in
  if among ["html"] then "text/html; charset=utf-8"
  else if among ["css"] then "text/css; charset=utf-8"
  else if among ["js"; "mjs"; "cjs"] then "application/javascript; charset=utf-8"
  else if among ["json"] then "application/json; charset=utf-8"
  else if among ["svg"] then "image/svg+xml"
  else if among ["png"] then "image/png"
  else if among ["jpg"; "jpeg"] then "image/jpeg"
  else if among ["ico"] then "image/x-icon"
  else if among ["woff2"] then "font/woff2"
  else if among ["wasm"] then "application/wasm"
  else if among ["txt"; "md"] then "text/plain; charset=utf-8"
  else "application/octet-stream".
Definition content_type (path : string) : string :=
  content_type_of (extension match rsplit "/" path with Some (_, name) => name | None => path end).

Definition non_public (name : string) : bool :=
  starts_with "." name || String.eqb name "node_modules" || str_contains "\" name.
(** [relative.replace('\\', "/")] *)
Fixpoint slashes (s : string) : string :=
  match s with
  | EmptyString => ""
  | String c s' => String (if Ascii.eqb c "\" then "/"%char else c) (slashes s')
  end.

Definition name_le {A} (p q : string * A) : Prop := String.leb p.1 q.1 = true.
#[export] Instance name_le_dec {A} : RelDecision (@name_le A) := λ p q, decide (String.leb p.1 q.1 = true).
(** The files of the entries, in order, up to the first error. *)
Fixpoint all_files (l : list (string * result string (list (string * string)))) : result string (list (string * string)) :=
  match l with
  | [] => Ok []
  | (_, r) :: l' => files ← r; rest ← all_files l'; Ok (files ++ rest)%list
  end.

(** An entry of [collect_files]: the files below it, by their path from the root. *)
Fixpoint visit (prefix name : string) (entry : Entry) : result string (list (string * string)) :=
  _ ← fail_if (negb (utf8_valid name)) "frontend paths must be UTF-8";
  _ ← fail_if (non_public name) ("frontend dist contains a non-public entry: " +:+ name);
  match entry with
  | Unreadable err => Err err
  | Symlink => Err ("frontend dist must not contain symlinks: " +:+ name)
  | Directory (Err err) => Err err
  | Directory (Ok entries) =>
      all_files (merge_sort name_le (map (λ p, (p.1, visit (prefix +:+ name +:+ "/") p.1 p.2)) entries))
  | File contents => Ok [(slashes (prefix +:+ name), contents)]
  | Special => Err ("frontend dist contains a non-file entry: " +:+ name)
  end.
Definition collect_files (prefix : string) (entries : list (string * Entry)) : result string (list (string * string)) :=
  all_files (merge_sort name_le (map (λ p, (p.1, visit prefix p.1 p.2)) entries)).

Definition frontend_assets (root : Entry) : result string (list (string * string)) :=
  match root with
  | Directory listing =>
      entries ← listing;
      files ← collect_files "" entries;
      match List.find (λ p : string * string, String.eqb p.1 "index.html") files with
      | None => Err "frontend dist must contain index.html at its root"
      | Some (_, index) =>
          _ ← fail_if (negb (utf8_valid index)) "stream did not contain valid UTF-8";
          _ ← fail_if (String.eqb (trim index) "") "frontend index.html must not be empty";
          Ok files
      end
  | _ => Err "frontend dist must be a real directory"
  end.

(** ** [build.rs] *)

(** The directory, from the variable [ZKAPI_FRONTEND_DIST] ([dist] looks paths up from
    the manifest's directory), and the generated function; [Err] is a panic. *)
Definition build (supplied : option string) (dist : string → Entry) : result string (list (string * string)) :=
  root ← match supplied with
         | Some "" => Err "ZKAPI_FRONTEND_DIST must name a prebuilt static directory, or be unset"
         | Some path => Ok path
         | None => Ok "static/funding"
         end;
  map_err (λ error, "Cannot embed frontend " +:+ root +:+ ": " +:+ error) (frontend_assets (dist root)).
Definition embedded_funding_asset (files : list (string * string)) (path : string) : option (string * string) :=
  (λ p, (p.2, content_type p.1)) <$> List.find (λ p : string * string, String.eqb p.1 path) files.

(** ** What is published *)

(** The regular file [contents] is at the names [path] below the entry, through
    directories only. *)
Inductive file_at : Entry → list string → string → Prop :=
| file_here contents : file_at (File contents) [] contents
| file_below entries name entry path contents :
    (name, entry) ∈ entries → file_at entry path contents → file_at (Directory (Ok entries)) (name :: path) contents.
Definition join (path : list string) : string := String.concat "/" path.
Definition public (name : string) : Prop := utf8_valid name = true ∧ non_public name = false.

Lemma slashes_app a b : slashes (a +:+ b) = slashes a +:+ slashes b.
Proof. induction a as [|c a IH]; [done|]. change (String (if Ascii.eqb c "\" then "/"%char else c) (slashes (a +:+ b)) =
  String (if Ascii.eqb c "\" then "/"%char else c) (slashes a +:+ slashes b)). by rewrite IH. Qed.
Lemma slashes_none s : str_contains "\" s = false → slashes s = s.
Proof.
  induction s as [|c s IH]; [done|]. cbn [str_contains slashes]. intros [Hc Hs]%orb_false_iff. rewrite IH by done.
  destruct (Ascii.eqb_spec c "\") as [->|]; [|done]. by destruct s.
Qed.
Lemma public_slashes name : public name → slashes name = name.
Proof. intros [_ Hn]. apply slashes_none. unfold non_public in Hn. by apply orb_false_iff in Hn as [_ Hn]. Qed.

Lemma all_files_elem l files : all_files l = Ok files →
  (∀ n r, (n, r) ∈ l → ∃ fs, r = Ok fs) ∧ ∀ f, f ∈ files ↔ ∃ n fs, (n, Ok fs) ∈ l ∧ f ∈ fs.
Proof.
  revert files. induction l as [|[n r] l IH]; intros files; cbn [all_files].
  - intros [= <-]. split; [by intros n r Hin%elem_of_nil|]. intros f. split; [by intros Hin%elem_of_nil|].
    by intros (n & fs & Hin%elem_of_nil & _).
  - intros (fs & -> & (rest & Hrest & [= <-])%bind_Ok)%bind_Ok. destruct (IH rest Hrest) as [Hok Hel]. split.
    + intros n' r' [[= -> ->]|Hin]%elem_of_cons; [by exists fs|by eapply Hok].
    + intros f. rewrite elem_of_app, Hel. split.
      * intros [Hf|(n' & fs' & Hin & Hf)]; [exists n, fs|exists n', fs']; (split; [|done]); [by left|by right].
      * intros (n' & fs' & [[= -> ->]|Hin]%elem_of_cons & Hf); [by left|right]. by exists n', fs'.
Qed.

(** The files of a directory are those of its entries. *)
Lemma collect_files_elem prefix entries files : collect_files prefix entries = Ok files →
  (∀ n e, (n, e) ∈ entries → ∃ fs, visit prefix n e = Ok fs) ∧
  ∀ f, f ∈ files ↔ ∃ n e fs, (n, e) ∈ entries ∧ visit prefix n e = Ok fs ∧ f ∈ fs.
Proof.
  intros [Hok Hel]%all_files_elem. split.
  - intros n e Hin. apply (Hok n). rewrite merge_sort_Permutation. apply list_elem_of_fmap. by exists (n, e).
  - intros f. rewrite Hel. split.
    + intros (n & fs & Hin & Hf). rewrite merge_sort_Permutation in Hin. apply list_elem_of_fmap in Hin as ([n' e] & [= -> Hv] & Hin).
      exists n', e, fs. by rewrite <-Hv.
    + intros (n & e & fs & Hin & Hv & Hf). exists n, fs. split; [|done]. rewrite merge_sort_Permutation.
      apply list_elem_of_fmap. exists (n, e). by rewrite <-Hv.
Qed.

Lemma join_cons name path : path ≠ [] → join (name :: path) = name +:+ "/" +:+ join path.
Proof. destruct path; [done|]. intros _. reflexivity. Qed.
Lemma visit_exact e : ∀ prefix name files, slashes prefix = prefix → visit prefix name e = Ok files →
  public name ∧ (∀ path c, file_at e path c → Forall public path) ∧
  ∀ rel c, (rel, c) ∈ files ↔ ∃ path, file_at e path c ∧ rel = prefix +:+ join (name :: path).
Proof.
  induction e as [c|entries IH|err| | |err] using Entry_rect'; intros prefix name files Hpre;
    cbn [visit]; intros (? & Hu%fail_if_Ok & (? & Hn%fail_if_Ok & Hr)%bind_Ok)%bind_Ok; try discriminate Hr;
    apply negb_false_iff in Hu; (assert (public name) as Hpub by done); split_and!; try done.
  - injection Hr as <-. inversion 1; subst. constructor.
  - injection Hr as <-. intros rel c'. rewrite slashes_app, Hpre, (public_slashes name Hpub), list_elem_of_singleton. split.
    + intros [= -> ->]. exists []. split; [constructor|reflexivity].
    + intros (path & Hf & ->). inversion Hf; subst. reflexivity.
  - intros path c Hf. inversion Hf as [|es n e p c' Hin He]; subst. rewrite Forall_forall in IH.
    destruct (collect_files_elem (prefix +:+ name +:+ "/") entries files Hr) as [Hok _]. destruct (Hok n e Hin) as [fs Hv].
    apply (IH (n, e) Hin) in Hv as (Hp & Hall & _); [|by rewrite !slashes_app, Hpre, (public_slashes name Hpub)].
    constructor; [done|by eapply Hall].
  - intros rel c. rewrite Forall_forall in IH.
    assert (slashes (prefix +:+ name +:+ "/") = prefix +:+ name +:+ "/") as Hpre'
      by by rewrite !slashes_app, Hpre, (public_slashes name Hpub).
    destruct (collect_files_elem (prefix +:+ name +:+ "/") entries files Hr) as [Hok Hel]. rewrite Hel. split.
    + intros (n & e & fs & Hin & Hv & Hf). apply (IH (n, e) Hin) in Hv as (_ & _ & Hx); [|done].
      apply Hx in Hf as (path & Hf & ->). exists (n :: path). split; [by eapply file_below|].
      rewrite (join_cons name) by done. by rewrite !str_app_assoc.
    + intros (path & Hf & ->). inversion Hf as [|es n e p c' Hin He]; subst. destruct (Hok n e Hin) as [fs Hv].
      exists n, e, fs. split; [done|]. split; [done|]. apply (IH (n, e) Hin) in Hv as (_ & _ & Hx); [|done].
      apply Hx. exists p. split; [done|]. rewrite (join_cons name) by done. by rewrite !str_app_assoc.
Qed.

(** The published files are exactly the regular files of the directory, under their
    paths; all their names are public, and there is an index that is not empty. *)
Theorem frontend_assets_exact root files : frontend_assets root = Ok files →
  (∀ rel c, (rel, c) ∈ files ↔ ∃ path, file_at root path c ∧ rel = join path)
  ∧ (∀ path c, file_at root path c → Forall public path)
  ∧ ∃ index, ("index.html", index) ∈ files ∧ trim index ≠ "".
Proof.
  destruct root as [|listing| | |]; try done. cbn [frontend_assets].
  intros (entries & -> & (files' & Hc & Hr)%bind_Ok)%bind_Ok.
  destruct (List.find _ files') as [[rel index]|] eqn:Hf; [|done].
  apply bind_Ok in Hr as (? & _ & (? & Hi%fail_if_Ok & [= ->])%bind_Ok).
  apply find_some in Hf as [Hin Hrel%String.eqb_eq]. cbn in Hrel. subst rel.
  destruct (collect_files_elem "" entries files Hc) as [Hok Hel]. split_and!.
  - intros rel c. rewrite Hel. split.
    + intros (n & e & fs & He & Hv & Hx). apply visit_exact in Hv as (_ & _ & Hv); [|done].
      apply Hv in Hx as (path & Hx & ->). exists (n :: path). split; [by eapply file_below|done].
    + intros (path & Hx & ->). inversion Hx as [|es n e p c' He Hp]; subst. destruct (Hok n e He) as [fs Hv].
      exists n, e, fs. split; [done|]. split; [done|]. apply visit_exact in Hv as (_ & _ & Hv); [|done].
      apply Hv. by exists p.
  - intros path c Hx. inversion Hx as [|es n e p c' He Hp]; subst. destruct (Hok n e He) as [fs Hv].
    apply visit_exact in Hv as (Hpub & Hall & _); [|done]. constructor; [done|by eapply Hall].
  - exists index. split; [by apply list_elem_of_In|]. by apply String.eqb_neq.
Qed.

(** ** A small page *)

Definition toy_page_dir : Entry := Directory (Ok [
  ("index.html", File "<title>Host app</title>");
  ("assets", Directory (Ok [("proof.wasm", File "wasm"); ("app.js", File "export const host = true;")]))]).
Example toy_assets : frontend_assets toy_page_dir =
  Ok [("assets/app.js", "export const host = true;"); ("assets/proof.wasm", "wasm"); ("index.html", "<title>Host app</title>")].
Proof. reflexivity. Qed.
Example hidden_entry_refused :
  frontend_assets (Directory (Ok [("index.html", File "page"); (".env", File "secret")])) =
  Err "frontend dist contains a non-public entry: .env".
Proof. reflexivity. Qed.

Section serve.
Context `{!FeltOps, !WireTypes, !ClientTypes, !JsonText, !SerdeText, !WalletOps, !ClientEnv, !ClientWire}.

(** What the daemon serves of a directory that passed the build: a path gets a file of
    the directory under public names, with the type of its name, or a 404; and every
    file is served. *)
Theorem assets_served supplied dist files path : build supplied dist = Ok files →
  let root := dist (default "static/funding" supplied) in
  let reply := funding_asset (embedded_funding_asset files) path in
  (reply_status reply = 404%Z ∧ ∀ names c, file_at root names c → path ≠ join names) ∨
  ∃ names c, path = join names ∧ file_at root names c ∧ Forall public names ∧
    reply_status reply = 200%Z ∧ reply_body reply = BodyBytes c ∧
    header "content-type" (reply_headers reply) = Some (Ok (content_type path)).
Proof.
  intros Hb. cbv zeta. set (root := dist _).
  assert (frontend_assets root = Ok files) as Hf.
  { unfold build in Hb. apply bind_Ok in Hb as (r & Hr & Hm). assert (r = default "static/funding" supplied) as ->.
    { destruct supplied as [[|]|]; [done|by injection Hr as <-..]. }
    fold root in Hm. destruct (frontend_assets root); [by injection Hm as ->|done]. }
  apply frontend_assets_exact in Hf as (Hel & Hpub & _). unfold funding_asset, embedded_funding_asset.
  destruct (List.find _ files) as [[rel c]|] eqn:Hx; cbn.
  - right. apply find_some in Hx as [Hin Hrel%String.eqb_eq]. cbn in Hrel. subst rel.
    apply list_elem_of_In, Hel in Hin as (names & Hat & ->). exists names, c. split_and!; try done. by eapply Hpub.
  - left. split; [done|]. intros names c Hat ->. assert (In (join names, c) files) as Hin.
    { apply list_elem_of_In, Hel. by exists names. }
    apply (find_none _ _ Hx) in Hin. cbn in Hin. by rewrite String.eqb_refl in Hin.
Qed.
End serve.
