(* ===== verification/ClientTheory.v ===== *)
(** * A program logic for the daemon's handlers

    A handler keeps the invariant of the lease slot and the log, extends the log,
    and does only allowed calls itself. This file has the invariant, the laws of
    the world and the rules; [ClientCustody] applies them to the handlers in the
    order of their code. *)

From Stdlib Require Import ZArith Lia.
From stdpp Require Import base tactics decidable numbers list gmap strings.
From S2P Require Import Prelude Text Float64 Json Http Types AuthScheme ClientTypes Compat ClientHelpers ClientWorld.
From S2P Require Import ClientWallet DirectLease ClientService ClientRoutes.

Local Open Scope string_scope.

Section theory.
Context `{!FeltOps, !WireTypes, !ClientTypes, !JsonText, !SerdeText, !WalletOps, !ClientEnv, !ClientWire}.
Variable config : AuthConfig.

(** ** What may be in the log *)

(** The verifier the daemon is configured with accepted the key. *)
Definition key_verified (key : string) (evs : list Event) : Prop :=
  ∃ evidence response body,
    EvHttp (post (verifier_url config) (verifier_request key evidence)) (Ok response) ∈ evs ∧
    http_text response = Ok body ∧ verifier_verdict response body = Accepted.

Definition inference_url : string := trim_slashes (ac_openrouter_inference_base config) +:+ CHAT_PATH.

(** Every call and where it goes: a key only to the trusted inference origin,
    as bearer, and to the trusted verifier; under the OA policy to the former
    only once the latter accepted it. *)
Inductive event_ok (evs : list Event) : Event → Prop :=
| ok_inference key body answer :
    (ac_require_oa_org_key_source config = true → key_verified key evs) →
    event_ok evs (EvHttp (inference_request inference_url key body) answer)
| ok_verifier key evidence answer :
    event_ok evs (EvHttp (post (verifier_url config) (verifier_request key evidence)) answer)
| ok_server_get path answer : event_ok evs (EvHttp (get (server_url config path)) answer)
| ok_server_post path request answer :
    event_ok evs (EvHttp (post (server_url config path) (api_request_to_value request)) answer)
| ok_indexer path answer : event_ok evs (EvHttp (get (trim_slashes (ac_indexer_url config) +:+ path)) answer)
| ok_rpc url data answer :
    ac_demo_rpc_url config = Some url →
    event_ok evs (EvHttp (post url (json_object [
      ("jsonrpc", Str "2.0"); ("id", Num (PosInt 1)); ("method", Str "eth_call");
      ("params", Array [json_object [("to", Str (format_felt_address (ac_contract_address config))); ("data", Str data)];
                        Str "latest"])])) answer)
| ok_wallet e : (∀ request answer, e ≠ EvHttp request answer) → event_ok evs e.

(** Each entry is allowed after the ones before it. *)
Definition log_ok (evs : list Event) : Prop :=
  ∀ before e after, evs = (before ++ e :: after)%list → event_ok before e.

Definition lease_ok (lease : ActiveOpenRouterLease) (evs : list Event) : Prop :=
  matches_trusted_url (al_openrouter_api_base lease) (ac_openrouter_inference_base config) = true ∧
  (ac_require_oa_org_key_source config = true → al_verified lease = true → key_verified (al_api_key lease) evs).

Definition custody (σ : State) : Prop :=
  log_ok (events σ) ∧ ∀ lease, direct_lease σ = Some lease → lease_ok lease (events σ).

(** A call of the vault at the node, as [vault_eth_call] makes it. *)
Definition vault_rpc (url data : string) : HttpRequest :=
  post url (json_object [
    ("jsonrpc", Str "2.0"); ("id", Num (PosInt 1)); ("method", Str "eth_call");
    ("params", Array [json_object [("to", Str (format_felt_address (ac_contract_address config))); ("data", Str data)];
                      Str "latest"])]).
(** The calls that carry no prompt. *)
Inductive prompt_free : Event → Prop :=
| free_verifier key evidence answer :
    prompt_free (EvHttp (post (verifier_url config) (verifier_request key evidence)) answer)
| free_server_get path answer : prompt_free (EvHttp (get (server_url config path)) answer)
| free_lease path request answer :
    authorization_to_json OpenRouterLeaseAuthorization_default = Ok (payload request) →
    prompt_free (EvHttp (post (server_url config path) (api_request_to_value request)) answer)
| free_indexer path answer : prompt_free (EvHttp (get (trim_slashes (ac_indexer_url config) +:+ path)) answer)
| free_prepare authorization :
    authorization_to_json OpenRouterLeaseAuthorization_default = Ok authorization →
    prompt_free (EvPrepareRequest authorization)
| free_sleep delay : prompt_free (EvSleep delay)
| free_recover : prompt_free EvRecover
| free_clear : prompt_free EvClearPending
| free_rpc url selector note_id answer :
    ac_demo_rpc_url config = Some url → selector = NOTES_SELECTOR ∨ selector = PENDING_SELECTOR →
    prompt_free (EvHttp (vault_rpc url (selector +:+ abi_encode_u32 note_id)) answer)
| free_withdraw mode destination : prompt_free (EvWithdraw mode destination)
| free_deposit note_id : prompt_free (EvConfirmDeposit note_id).

(** ** Laws of the world *)

(** The other handlers keep the invariant; a prepared request has the payload it
    was prepared for. *)
Class ClientLaws := {
  rely_lease w slot evs slot' new w' :
    env_lease w slot = ((slot', new), w') → log_ok evs → (∀ l, slot = Some l → lease_ok l evs) →
    log_ok (evs ++ new) ∧ ∀ l, slot' = Some l → lease_ok l (evs ++ new);
  rely_prepared w p evs p' new w' : env_prepared w p = ((p', new), w') → log_ok evs → log_ok (evs ++ new);
  rely_disk w d evs d' new w' : env_disk w d = ((d', new), w') → log_ok evs → log_ok (evs ++ new);
  prepared_payload w wallet d text hash root siblings request wallet' d' w' :
    wallet_prepare_request w wallet d text hash root siblings = ((Ok request, wallet', d'), w') →
    payload request = text;
}.
Context `{!ClientLaws}.

(** ** The logic *)

Definition Assertion := list Event → Prop.
Definition mono (F : Assertion) : Prop := ∀ evs l, F evs → F (evs ++ l)%list.

(** From a state with the invariant and [P] of the log, [m] keeps the invariant,
    extends the log, does itself only calls in [OK], and a result satisfies
    [Q]. *)
Definition spec (OK : Event → Prop) {A} (P : Assertion) (m : M A) (Q : A → Assertion) : Prop :=
  ∀ σ, custody σ → P (events σ) →
    custody (m σ).2 ∧
    (∃ l, events (m σ).2 = (events σ ++ l)%list) ∧
    (∃ l, own (m σ).2 = (own σ ++ l)%list ∧ Forall OK l) ∧
    ∀ a, (m σ).1 = Ok a → Q a (events (m σ).2).

Lemma mono_and (F G : Assertion) : mono F → mono G → mono (λ evs, F evs ∧ G evs).
Proof. intros HF HG evs l [??]. split; [by apply HF|by apply HG]. Qed.
Lemma mono_elem e : mono (λ evs, e ∈ evs).
Proof. intros evs l He. apply elem_of_app. by left. Qed.
Lemma key_verified_mono key : mono (key_verified key).
Proof.
  intros evs l (evidence & response & body & He & Hrest). exists evidence, response, body.
  split; [apply elem_of_app; by left|done].
Qed.
Lemma lease_ok_mono lease : mono (lease_ok lease).
Proof. intros evs l [Hu Hv]. split; [done|]. intros Hr Hb. by apply key_verified_mono, Hv. Qed.

Lemma log_ok_app evs l :
  log_ok evs → (∀ before e after, l = (before ++ e :: after)%list → event_ok (evs ++ before)%list e) →
  log_ok (evs ++ l)%list.
Proof.
  intros Hevs Hl before e after Heq. apply app_eq_app in Heq as (k & [[Hk1 Hk2]|[Hk1 Hk2]]).
  - destruct k as [|e' k]; simpl in Hk2.
    + rewrite app_nil_r in Hk1. subst. specialize (Hl [] e after eq_refl). by rewrite app_nil_r in Hl.
    + injection Hk2 as <- ->. by eapply Hevs.
  - subst. by eapply Hl.
Qed.
Lemma log_ok_snoc evs e : log_ok evs → event_ok evs e → log_ok (evs ++ [e])%list.
Proof.
  intros Hevs He. apply log_ok_app; [done|]. intros [|a before] e' after Heq.
  - injection Heq as <- _. by rewrite app_nil_r.
  - injection Heq as _ Heq. by destruct before.
Qed.

(** ** The rules *)

Section rules.
Context (OK : Event → Prop).

Lemma spec_conseq (OK' : Event → Prop) {A} (P P' : Assertion) (m : M A) (Q Q' : A → Assertion) :
  spec OK' P' m Q' → (∀ e, OK' e → OK e) → (∀ evs, P evs → P' evs) → (∀ a evs, Q' a evs → Q a evs) →
  spec OK P m Q.
Proof.
  intros Hm HOK HP HQ σ Hc Hp. destruct (Hm σ Hc (HP _ Hp)) as (Hc' & Hl & (l & Ho & Hf) & HQ').
  split; [done|]. split; [done|]. split; [exists l; split; [done|]; by eapply Forall_impl|].
  intros a Ha. by apply HQ, HQ'.
Qed.
Lemma spec_post {A} (P : Assertion) (m : M A) (Q Q' : A → Assertion) :
  spec OK P m Q' → (∀ a evs, Q' a evs → Q a evs) → spec OK P m Q.
Proof. intros Hm HQ. by eapply spec_conseq. Qed.

(** A fact of the log stays. *)
Lemma spec_frame {A} (F P : Assertion) (m : M A) (Q : A → Assertion) :
  mono F → spec OK P m Q → spec OK (λ evs, P evs ∧ F evs) m (λ a evs, Q a evs ∧ F evs).
Proof.
  intros HF Hm σ Hc [HP Hf]. destruct (Hm σ Hc HP) as (Hc' & (l & Hl) & Ho & HQ).
  split; [done|]. split; [by exists l|]. split; [done|]. intros a Ha. split; [by apply HQ|]. rewrite Hl. by apply HF.
Qed.

(** Steps that leave log and slot alone. *)
Lemma spec_silent {A} (P : Assertion) (m : M A) (Q : A → Assertion) :
  (∀ σ, events (m σ).2 = events σ ∧ own (m σ).2 = own σ ∧ direct_lease (m σ).2 = direct_lease σ) →
  (∀ σ a, P (events σ) → (m σ).1 = Ok a → Q a (events σ)) →
  spec OK P m Q.
Proof.
  intros Hm HQ σ [Hl Hs] HP. destruct (Hm σ) as (He & Ho & Hd). unfold custody. rewrite He, Ho, Hd.
  split; [by split|]. split; [exists []; by rewrite app_nil_r|]. split; [exists []; by rewrite app_nil_r|].
  intros a Ha. by eapply HQ.
Qed.

Lemma spec_bind {A B} (P : Assertion) (m : M A) (f : A → M B) (Q : A → Assertion) (R : B → Assertion) :
  spec OK P m Q → (∀ a, spec OK (Q a) (f a) R) → spec OK P (m ≫= f) R.
Proof.
  intros Hm Hf σ Hc HP. unfold mbind, M_bind. destruct (Hm σ Hc HP) as (Hc' & (l & Hl) & (o & Ho & HOK) & HQ).
  destruct (m σ) as [[a|e] σ1]; cbn [fst snd] in *.
  - destruct (Hf a σ1 Hc' (HQ a eq_refl)) as (Hc2 & (l2 & Hl2) & (o2 & Ho2 & HOK2) & HR).
    split; [done|]. split; [exists (l ++ l2)%list; by rewrite Hl2, Hl, app_assoc|].
    split; [exists (o ++ o2)%list; split; [by rewrite Ho2, Ho, app_assoc|by apply Forall_app]|done].
  - split; [done|]. split; [by exists l|]. split; [by exists o|]. done.
Qed.

Lemma spec_ret {A} (P : Assertion) (a : A) (Q : A → Assertion) : (∀ evs, P evs → Q a evs) → spec OK P (mret a) Q.
Proof. intros HQ. apply spec_silent; [done|]. intros σ a' HP [= <-]. by apply HQ. Qed.
Lemma spec_lift {A} (P : Assertion) (r : result AuthError A) (Q : A → Assertion) :
  (∀ a evs, r = Ok a → P evs → Q a evs) → spec OK P (lift r) Q.
Proof. intros HQ. apply spec_silent; [done|]. intros σ a HP Ha. by apply HQ. Qed.
Lemma spec_throw {A} (P : Assertion) e (Q : A → Assertion) : spec OK P (throw e) Q.
Proof. by apply spec_lift. Qed.
Lemma spec_gets {A} (P : Assertion) (g : State → A) : spec OK P (gets g) (λ _, P).
Proof. by apply spec_silent. Qed.
Lemma spec_draw_at {A} (P : Assertion) (f : State → A * World) :
  spec OK P (draw_at f) (λ a evs, P evs ∧ ∃ σ, (f σ).1 = a).
Proof.
  apply spec_silent.
  - intros σ. unfold draw_at. by destruct (f σ).
  - intros σ a HP. unfold draw_at. destruct (f σ) as [a' w] eqn:E. cbn. intros [= ->].
    split; [done|]. exists σ. by rewrite E.
Qed.
Lemma spec_modify (P : Assertion) (f : State → State) :
  (∀ σ, events (f σ) = events σ ∧ own (f σ) = own σ ∧ direct_lease (f σ) = direct_lease σ) →
  spec OK P (modify f) (λ _, P).
Proof. intros Hf. by apply spec_silent. Qed.
Lemma spec_try {A} (P : Assertion) (m : M A) (Q : A → Assertion) :
  mono P → spec OK P m Q →
  spec OK P (try m) (λ r evs, P evs ∧ ∀ a, r = Ok a → Q a evs).
Proof.
  intros HP Hm σ Hc Hp. unfold try. destruct (Hm σ Hc Hp) as (Hc' & (l & Hl) & Ho & HQ).
  destruct (m σ) as [r σ1]. cbn [fst snd] in *. split; [done|]. split; [by exists l|]. split; [done|].
  intros r' [= <-]. split; [|done]. rewrite Hl. by apply HP.
Qed.

Lemma spec_log (P : Assertion) (e : Event) :
  OK e → (∀ evs, P evs → event_ok evs e) →
  spec OK P (log e) (λ _ evs, ∃ before, evs = (before ++ [e])%list ∧ P before).
Proof.
  intros HOK He σ [Hl Hs] HP. cbn. split.
  - split; [by apply log_ok_snoc, He|]. intros lease Hlease. by apply lease_ok_mono, Hs.
  - split; [by eexists|]. split; [exists [e]; split; [done|by constructor]|]. intros a _. by exists (events σ).
Qed.

Lemma spec_http (P : Assertion) (request : HttpRequest) :
  (∀ answer, OK (EvHttp request answer)) → (∀ answer evs, P evs → event_ok evs (EvHttp request answer)) →
  spec OK P (http request) (λ answer evs, ∃ before, evs = (before ++ [EvHttp request answer])%list ∧ P before).
Proof.
  intros HOK He. unfold http. eapply spec_bind; [apply spec_draw_at|]. intros answer. eapply spec_bind.
  - apply spec_log; [apply HOK|]. intros evs [HP _]. by apply He.
  - intros u. apply spec_ret. intros evs (before & Hb & HP & _). by exists before.
Qed.

(** ** Handlers that keep every fact of the log, with a fact of the result *)

Definition keeps {A} (m : M A) (φ : A → Prop) : Prop :=
  ∀ P, mono P → spec OK P m (λ a evs, P evs ∧ φ a).
Definition safe {A} (m : M A) : Prop := keeps m (λ _, True).

Lemma keeps_bind {A B} (m : M A) (f : A → M B) φ ψ :
  keeps m φ → (∀ a, φ a → keeps (f a) ψ) → keeps (m ≫= f) ψ.
Proof.
  intros Hm Hf P HP. eapply spec_bind; [by apply Hm|]. intros a σ Hc [Hp Hφ]. exact (Hf a Hφ P HP σ Hc Hp).
Qed.
Lemma keeps_impl {A} (m : M A) (φ ψ : A → Prop) : keeps m φ → (∀ a, φ a → ψ a) → keeps m ψ.
Proof. intros Hm Hi P HP. eapply spec_post; [by apply Hm|]. intros a evs [? ?]. split; auto. Qed.
Lemma keeps_safe {A} (m : M A) φ : keeps m φ → safe m.
Proof. intros Hm. by eapply keeps_impl. Qed.
Lemma safe_bind {A B} (m : M A) (f : A → M B) ψ : safe m → (∀ a, keeps (f a) ψ) → keeps (m ≫= f) ψ.
Proof. intros Hm Hf. eapply keeps_bind; [exact Hm|]. auto. Qed.

Lemma keeps_ret {A} (a : A) (φ : A → Prop) : φ a → keeps (mret a) φ.
Proof. intros Ha P HP. by apply spec_ret. Qed.
Lemma keeps_lift {A} (r : result AuthError A) (φ : A → Prop) : (∀ a, r = Ok a → φ a) → keeps (lift r) φ.
Proof. intros Hr P HP. apply spec_lift. eauto. Qed.
Lemma keeps_throw {A} e (φ : A → Prop) : keeps (throw e) φ.
Proof. by apply keeps_lift. Qed.
Lemma safe_gets {A} (g : State → A) : safe (gets g).
Proof. intros P HP. eapply spec_post; [apply spec_gets|]. done. Qed.
Lemma keeps_draw_at {A} (f : State → A * World) (φ : A → Prop) : (∀ σ, φ (f σ).1) → keeps (draw_at f) φ.
Proof. intros Hf P HP. eapply spec_post; [apply spec_draw_at|]. intros a evs [? [σ <-]]. done. Qed.
Lemma safe_modify (f : State → State) :
  (∀ σ, events (f σ) = events σ ∧ own (f σ) = own σ ∧ direct_lease (f σ) = direct_lease σ) → safe (modify f).
Proof. intros Hf P HP. eapply spec_post; [by apply spec_modify|]. done. Qed.
Lemma keeps_try {A} (m : M A) (φ : A → Prop) : keeps m φ → keeps (try m) (λ r, ∀ a, r = Ok a → φ a).
Proof.
  intros Hm P HP. eapply spec_post; [apply spec_try; [done|by apply Hm]|].
  intros r evs [? Hr]. split; [done|]. intros a Ha. by apply Hr.
Qed.
Lemma safe_try {A} (m : M A) : safe m → safe (try m).
Proof. intros Hm. eapply keeps_safe. by apply keeps_try. Qed.
Lemma safe_log (e : Event) : OK e → (∀ evs, event_ok evs e) → safe (log e).
Proof.
  intros HOK He P HP. eapply spec_post; [apply spec_log; auto|]. intros _ evs (before & -> & Hp). split; [by apply HP|done].
Qed.
Lemma safe_http (request : HttpRequest) :
  (∀ answer, OK (EvHttp request answer)) → (∀ answer evs, event_ok evs (EvHttp request answer)) → safe (http request).
Proof.
  intros HOK He P HP. eapply spec_post; [apply spec_http; auto|]. intros a evs (before & -> & Hp). split; [by apply HP|done].
Qed.

(** A handler's step in the middle of one that tracks the log. *)
Lemma spec_pure {A} (φ : Prop) (P : Assertion) (m : M A) (Q : A → Assertion) :
  (φ → spec OK P m Q) → spec OK (λ evs, P evs ∧ φ) m Q.
Proof. intros Hm σ Hc [HP Hφ]. by apply Hm. Qed.
Lemma spec_step {A B} (P : Assertion) (m : M A) (f : A → M B) φ (Q : B → Assertion) :
  mono P → keeps m φ → (∀ a, φ a → spec OK P (f a) Q) → spec OK P (m ≫= f) Q.
Proof. intros HP Hm Hf. eapply spec_bind; [by apply Hm|]. intros a. apply spec_pure, Hf. Qed.
Lemma spec_safe_step {A B} (P : Assertion) (m : M A) (f : A → M B) (Q : B → Assertion) :
  mono P → safe m → (∀ a, spec OK P (f a) Q) → spec OK P (m ≫= f) Q.
Proof. intros HP Hm Hf. eapply spec_step; [done|exact Hm|auto]. Qed.
Lemma spec_http_step {B} (P : Assertion) (request : HttpRequest) (f : result string HttpResponse → M B) (Q : B → Assertion) :
  mono P → (∀ answer, OK (EvHttp request answer)) → (∀ answer evs, P evs → event_ok evs (EvHttp request answer)) →
  (∀ answer, spec OK (λ evs, P evs ∧ EvHttp request answer ∈ evs) (f answer) Q) → spec OK P (http request ≫= f) Q.
Proof.
  intros HP HOK He Hf. eapply spec_bind; [by apply spec_http|]. intros answer. eapply spec_conseq; [apply Hf|done| |done].
  intros evs (before & -> & Hb). split; [by apply HP|]. apply elem_of_app; right. by constructor.
Qed.
Lemma spec_if {A} (b : bool) (P : Assertion) (m m' : M A) (Q : A → Assertion) :
  spec OK P m Q → spec OK P m' Q → spec OK P (if b then m else m') Q.
Proof. by destruct b. Qed.
Lemma spec_weaken {A} (P P' : Assertion) (m : M A) (Q : A → Assertion) :
  spec OK P' m Q → (∀ evs, P evs → P' evs) → spec OK P m Q.
Proof. intros Hm HP. by eapply spec_conseq. Qed.

(** ** Primitives *)

Lemma safe_draw {A} (f : World → A * World) : safe (draw f).
Proof. by apply keeps_draw_at. Qed.
Lemma safe_now : safe now_seconds.
Proof. apply safe_draw. Qed.
Lemma safe_io f eff : safe (io f eff).
Proof.
  unfold io. apply safe_bind; [apply safe_draw|]. intros [err|]; [apply keeps_throw|by apply safe_modify].
Qed.
Lemma safe_io_ignored eff : safe (io_ignored eff).
Proof. apply safe_bind; [apply safe_try, safe_io|]. intros _. by apply keeps_ret. Qed.
Lemma safe_set_prepared p : safe (set_prepared p).
Proof. by apply safe_modify. Qed.

(** Taking a lock lets the others' calls into the log. *)
Lemma spec_lock_lease (P : Assertion) :
  mono P → spec OK P lock_lease (λ slot evs, P evs ∧ ∀ l, slot = Some l → lease_ok l evs).
Proof.
  intros HP σ [Hl Hs] Hp. unfold lock_lease, mbind, M_bind, draw_at, modify.
  destruct (env_lease (world σ) (direct_lease σ)) as [[slot new] w] eqn:E. cbn.
  destruct (rely_lease _ _ (events σ) _ _ _ E Hl Hs) as [Hl' Hs'].
  split; [by split|]. split; [by eexists|]. split; [exists []; by rewrite app_nil_r|].
  intros a [= <-]. split; [by apply HP|done].
Qed.
Lemma safe_lock_lease : safe lock_lease.
Proof. intros P HP. eapply spec_post; [by apply spec_lock_lease|]. by intros a evs [? _]. Qed.
Lemma safe_lock_prepared : safe lock_prepared.
Proof.
  intros P HP σ [Hl Hs] Hp. unfold lock_prepared, mbind, M_bind, draw_at, modify.
  destruct (env_prepared (world σ) (prepared_withdrawal σ)) as [[p new] w] eqn:E. cbn.
  pose proof (rely_prepared _ _ (events σ) _ _ _ E Hl) as Hl'.
  split; [split; [done|]; intros lease Hlease; by apply lease_ok_mono, Hs|].
  split; [by eexists|]. split; [exists []; by rewrite app_nil_r|]. intros a [= <-]. split; [by apply HP|done].
Qed.
Lemma safe_lock_wallet : safe lock_wallet.
Proof.
  unfold lock_wallet. apply safe_bind; [apply safe_draw|]. intros [|m|]; try apply keeps_throw.
  intros P HP σ [Hl Hs] Hp. unfold mbind, M_bind, draw_at, modify.
  destruct (env_disk (world σ) (disk σ)) as [[d new] w] eqn:E. cbn.
  pose proof (rely_disk _ _ (events σ) _ _ _ E Hl) as Hl'.
  split; [split; [done|]; intros lease Hlease; by apply lease_ok_mono, Hs|].
  split; [by eexists|]. split; [exists []; by rewrite app_nil_r|]. intros a [= <-]. split; [by apply HP|done].
Qed.

Lemma spec_set_lease (P : Assertion) slot :
  (∀ evs l, P evs → slot = Some l → lease_ok l evs) → spec OK P (set_lease slot) (λ _, P).
Proof.
  intros Hs σ [Hl _] HP. cbn. split; [split; [done|]; intros l Hslot; by eapply Hs|].
  split; [exists []; by rewrite app_nil_r|]. split; [exists []; by rewrite app_nil_r|done].
Qed.
Lemma safe_clear_lease : safe (set_lease None).
Proof. intros P HP. eapply spec_post; [by apply spec_set_lease|]. done. Qed.

Lemma keeps_wallet_call {A} e (call : World → Disk → (result ClientError A * Wallet * Disk) * World) (φ : A → Prop) :
  OK e → (∀ request answer, e ≠ EvHttp request answer) →
  (∀ w d a wallet d' w', call w d = ((Ok a, wallet, d'), w') → φ a) →
  keeps (wallet_call e call) (λ r, ∀ a, r.1 = Ok a → φ a).
Proof.
  intros HOK He Hcall. unfold wallet_call. apply safe_bind; [apply safe_log; [done|]; intros; by apply ok_wallet|].
  intros _. eapply keeps_bind.
  - apply (keeps_draw_at _ (λ p : result ClientError A * Wallet * Disk, ∀ a, p.1.1 = Ok a → φ a)).
    intros σ a Ha. destruct (call (world σ) (disk σ)) as [[[r wallet] d'] w'] eqn:E. simpl in Ha. subst r.
    by eapply Hcall.
  - intros [[r wallet] d'] Hr. apply safe_bind; [by apply safe_modify|]. intros _. by apply keeps_ret.
Qed.
Lemma safe_wallet_call {A} e (call : World → Disk → (result ClientError A * Wallet * Disk) * World) :
  OK e → (∀ request answer, e ≠ EvHttp request answer) → safe (wallet_call e call).
Proof. intros HOK He. eapply keeps_safe, (keeps_wallet_call e call (λ _, True)); done. Qed.

Lemma safe_load_wallet roots : safe (load_wallet config roots).
Proof.
  unfold load_wallet. apply safe_bind; [by apply keeps_draw_at|]. intros [r d']. apply safe_bind; [by apply safe_modify|].
  intros _. by apply keeps_lift.
Qed.
End rules.
End theory.

(** ** Automation *)

Create HintDb custody.
#[export] Hint Resolve safe_now safe_io safe_io_ignored safe_set_prepared safe_lock_lease safe_lock_prepared
  safe_lock_wallet safe_clear_lease safe_load_wallet safe_gets safe_draw : custody.

(** One step of a [keeps] goal: a known operation, a bind, or a case. *)
Ltac safe_step :=
  cbv beta;
  lazymatch goal with |- keeps ?c ?OK ?m (λ _, True) => change (safe c OK m) | _ => idtac end;
  first
    [ solve [auto with custody nocore]
    | lazymatch goal with
      | |- safe _ _ (_ ≫= _) => apply safe_bind; [|intros ?]
      | |- keeps _ _ (_ ≫= _) _ => apply safe_bind; [|intros ?]
      | |- safe _ _ (match ?x with _ => _ end) => destruct x
      | |- keeps _ _ (match ?x with _ => _ end) _ => destruct x
      | |- safe _ _ (try _) => apply safe_try
      end
    | apply keeps_throw
    | solve [apply keeps_ret; done]
    | solve [apply keeps_lift; done]
    | solve [apply safe_modify; done]
    | solve [apply keeps_draw_at; done] ].
Ltac safe_auto := repeat safe_step.

