(* ===== verification/ClientCustody.v ===== *)
(** * Key custody and prompt privacy of the daemon's handlers

    Every handler of the daemon keeps the custody of OpenRouter keys, and in
    direct mode sends a prompt to no one but the trusted inference origin. *)

From Stdlib Require Import ZArith Lia.
From stdpp Require Import base tactics decidable numbers list gmap strings.
From S2P Require Import Prelude Text Float64 Json Http Types AuthScheme ClientTypes Compat ClientHelpers ClientWorld.
From S2P Require Import ClientWallet DirectLease ClientService ClientRoutes ClientTheory.

Local Open Scope string_scope.

Section custody.
Context `{!FeltOps, !WireTypes, !ClientTypes, !JsonText, !SerdeText, !WalletOps, !ClientEnv, !ClientWire}.
Variable config : AuthConfig.
Context `{!ClientLaws config}.

Section free.
(** The calls the handler may make include those without a prompt. *)
Variable OK : Event → Prop.
Hypothesis HOK : ∀ e, prompt_free config e → OK e.

Lemma safe_get_json {A} (dec : Value → option A) f g h url :
  (∀ answer, OK (EvHttp (get url) answer)) → (∀ answer evs, event_ok config evs (EvHttp (get url) answer)) →
  safe config OK (get_json dec f g h url).
Proof. intros H1' H2'. unfold get_json. apply safe_bind; [by apply safe_http|]. intros answer. safe_auto. Qed.
Lemma safe_indexer {A} (dec : Value → option A) path : safe config OK (indexer_get config dec path).
Proof. apply safe_get_json; intros; [apply HOK|]; constructor. Qed.
Lemma safe_fetch_json {A} (dec : Value → option A) path : safe config OK (fetch_json dec (server_url config path)).
Proof.
  unfold fetch_json. apply safe_bind; [apply safe_http; intros; [apply HOK|]; constructor|]. intros answer. safe_auto.
Qed.
Lemma safe_server_get {A} (dec : Value → option A) f g h path :
  safe config OK (get_json dec f g h (server_url config path)).
Proof. apply safe_get_json; intros; [apply HOK|]; constructor. Qed.
Lemma safe_wallet_free {A} e (call : World → Disk → (result ClientError A * Wallet * Disk) * World) :
  prompt_free config e → (∀ request answer, e ≠ EvHttp request answer) → safe config OK (wallet_call e call).
Proof. intros He Hn. apply safe_wallet_call; auto. Qed.
Hint Resolve safe_indexer safe_fetch_json safe_server_get : custody.

Lemma safe_wallet_status wallet : safe config OK (wallet_status wallet).
Proof. unfold wallet_status, has_pending_request. safe_auto. Qed.
Hint Resolve safe_wallet_status : custody.
Lemma safe_status : safe config OK (status config).
Proof. unfold status. safe_auto. Qed.
Lemma safe_wallet_recover wallet : safe config OK (wallet_call EvRecover (λ w d, wallet_recover w wallet d)).
Proof. apply safe_wallet_free; [constructor|done]. Qed.
Hint Resolve safe_status safe_wallet_recover : custody.
Lemma safe_recover : safe config OK (recover config).
Proof. unfold recover, current_thread_runtime, lift_client. safe_auto. Qed.
Lemma safe_log_clear : safe config OK (log EvClearPending).
Proof. apply safe_log; [apply HOK; constructor|intros; by apply ok_wallet]. Qed.
Hint Resolve safe_recover safe_log_clear : custody.
Lemma safe_clear_pending : safe config OK (clear_pending_request config).
Proof. unfold clear_pending_request, lift_client. safe_auto. Qed.
Hint Resolve safe_clear_pending : custody.
Lemma safe_log_sleep delay : safe config OK (sleep delay).
Proof.
  unfold sleep. safe_step; [apply safe_log; [apply HOK; constructor|intros; by apply ok_wallet]|]. safe_auto.
Qed.
Hint Resolve safe_log_sleep : custody.
Lemma safe_indexer_root : safe config OK (indexer_root config).
Proof. apply safe_indexer. Qed.
Lemma safe_indexer_next : safe config OK (indexer_next_note_id config).
Proof. apply safe_indexer. Qed.
Lemma safe_note_path note_id : safe config OK (indexer_note_path config note_id).
Proof. apply safe_indexer. Qed.
Lemma safe_zero_path note_id : safe config OK (indexer_zero_path config note_id).
Proof. apply safe_indexer. Qed.
Hint Resolve safe_indexer_root safe_indexer_next safe_note_path safe_zero_path : custody.

(** ** Leases *)

(** The payload of a lease request: an authorization, no prompt. *)
Definition lease_payload (request : ApiRequestV2) : Prop :=
  authorization_to_json OpenRouterLeaseAuthorization_default = Ok (payload request).

Lemma keeps_authorization :
  keeps config OK authorization_json (λ a, authorization_to_json OpenRouterLeaseAuthorization_default = Ok a).
Proof.
  unfold authorization_json. apply keeps_lift. intros a Ha.
  destruct (authorization_to_json _) as [a'|e]; by simplify_eq/=.
Qed.
Lemma keeps_prepare_lease : keeps config OK (prepare_direct_lease_request config) lease_payload.
Proof.
  unfold prepare_direct_lease_request, has_pending_request, current_thread_runtime, lift_client.
  safe_step; [safe_step|]. safe_step; [safe_step|].
  eapply keeps_bind; [apply keeps_authorization|]. intros authorization Ha. safe_step; [safe_step|]. safe_step.
  - safe_step; [safe_step|]. safe_step; [safe_step|]. safe_step; [safe_step|].
    match goal with |- context [String.eqb (payload ?r) _] => destruct (String.eqb_spec (payload r) authorization) as [Heq|] end;
      [|apply keeps_throw].
    apply keeps_ret. unfold lease_payload. by rewrite Heq.
  - safe_step; [safe_step|]. safe_step; [safe_step|]. safe_step; [safe_step|]. safe_step; [safe_step|].
    eapply keeps_bind.
    + apply (keeps_wallet_call _ _ _ _ (λ request, payload request = authorization)); [apply HOK; by constructor|done|].
      intros w d request wallet' d' w' Hcall. by eapply prepared_payload.
    + intros [r wallet'] Hr. apply keeps_lift. intros request Hreq. unfold lease_payload.
      destruct r as [request'|e]; [|done]. injection Hreq as ->. by rewrite (Hr request eq_refl).
Qed.

Lemma safe_lease_post path request : lease_payload request →
  safe config OK (http (post (server_url config path) (api_request_to_value request))).
Proof. intros Hp. apply safe_http; intros; [apply HOK; by constructor|constructor]. Qed.

Lemma safe_retire_loop fuel id request deadline :
  lease_payload request → safe config OK (retire_loop fuel config id request deadline).
Proof.
  intros Hp. induction fuel as [|fuel IH]; [apply keeps_throw|]. cbn [retire_loop].
  safe_step; [by apply safe_lease_post|]. safe_auto.
Qed.
Lemma safe_retire id : safe config OK (retire_direct_openrouter_lease config id).
Proof.
  unfold retire_direct_openrouter_lease. eapply keeps_bind; [apply keeps_prepare_lease|]. intros request Hp.
  safe_step; [safe_step; safe_step|]. safe_step; [safe_step|].
  safe_step; [by apply safe_retire_loop|]. safe_auto.
Qed.
Hint Resolve safe_retire : custody.

Lemma safe_retry_or {A} attempt expires_at delay (again : M A) error :
  safe config OK again → safe config OK (retry_or attempt expires_at delay again error).
Proof. intros Hagain. unfold retry_or. safe_auto. Qed.

Lemma spec_retry_or {A} (P : Assertion) attempt expires_at delay (again : M A) error (Q : A → Assertion) :
  mono P → spec config OK P again Q → spec config OK P (retry_or attempt expires_at delay again error) Q.
Proof.
  intros HP Hagain. unfold retry_or. apply spec_if; [|apply spec_throw].
  eapply spec_safe_step; [done|apply safe_now|]. intros now. apply spec_if; [|apply spec_throw].
  eapply spec_safe_step; [done|apply safe_log_sleep|]. done.
Qed.

Lemma spec_verify_attempts (P : Assertion) left attempt key evidence expires_at : mono P →
  spec config OK P (verify_attempts left attempt (verifier_url config) (verifier_request key evidence) expires_at)
    (λ _ evs, P evs ∧ key_verified config key evs).
Proof.
  intros HP. revert attempt. induction left as [|left IH]; intros attempt; cbn [verify_attempts]; [apply spec_throw|].
  apply spec_http_step; [done|intros; apply HOK; constructor|intros; constructor|].
  intros [response|error].
  - set (P' := λ evs, P evs ∧ _). assert (mono P') as HP' by (apply mono_and; [done|apply mono_elem]).
    eapply (spec_step _ _ _ _ _ (λ body, http_text response = Ok body)); [done| |].
    { apply keeps_lift. intros body. by destruct (http_text response); intros; simplify_eq/=. }
    intros body Hbody. destruct (verifier_verdict response body) as [|retryable error] eqn:Hv.
    + apply spec_ret. intros evs [Hp He]. split; [done|]. by exists evidence, response, body.
    + apply (spec_weaken _ _ _ P); [|by intros evs [? _]]. destruct retryable; [|apply spec_throw].
      apply spec_retry_or; [done|]. apply IH.
  - apply (spec_weaken _ _ _ P); [|by intros evs [? _]]. apply spec_retry_or; [done|]. apply IH.
Qed.

Lemma spec_ensure_verified (P : Assertion) lease : mono P →
  spec config OK (λ evs, P evs ∧ lease_ok config lease evs) (ensure_verified config lease)
    (λ l evs, P evs ∧ lease_ok config l evs ∧ al_verified l = true).
Proof.
  intros HP. unfold ensure_verified. destruct (al_verified lease) eqn:Hv.
  { apply spec_ret. intros evs [? ?]. done. }
  set (P' := λ evs, P evs ∧ _). assert (mono P') as HP' by (apply mono_and; [done|apply lease_ok_mono]).
  eapply spec_safe_step; [done|by apply keeps_lift|]. intros evidence.
  eapply spec_bind.
  { unfold verify_oa_key. eapply spec_safe_step; [done|destruct (matches_trusted_url _ _); safe_step|]. intros _.
    eapply spec_safe_step; [done|by apply keeps_lift|]. intros _. by apply spec_verify_attempts. }
  intros []. eapply spec_safe_step; [apply mono_and; [done|apply key_verified_mono]|apply safe_now|].
  intros now. apply spec_if; [apply spec_throw|]. apply spec_ret. intros evs [[Hp [Hu _]] Hk]. done.
Qed.

(** ** Issuance *)

Lemma accept_lease_ok session_id body now lease :
  accept_lease config session_id body now = Ok lease →
  al_session_id lease = session_id ∧ (now < al_expires_at lease)%Z ∧ ∀ evs, lease_ok config lease evs.
Proof.
  unfold accept_lease. intros H'. inv_ok.
  match goal with H : (_ || _) = false |- _ => apply orb_false_iff in H as [_ Hexp%Z.leb_gt] end.
  match goal with H : negb (matches_trusted_url _ _) = false |- _ => apply negb_false_iff in H as Hu end.
  match goal with H : (match ?p with _ => _ end) = Ok lease |- _ => destruct p as [verification verified] end.
  inv_ok. cbn. split; [done|]. split; [done|]. intros evs. split; [done|]. cbn. intros Hr Hv. exfalso.
  match goal with H : (if String.eqb _ "openrouter" then _ else _) = Ok _ |- _ => rename H into Hs end.
  destruct (String.eqb _ "openrouter").
  - inv_ok. unfold enforce_required_key_source in *. rewrite Hr in *. by inv_ok.
  - destruct (String.eqb _ "oa_org"); inv_ok. naive_solver.
Qed.

Lemma safe_reconcile_lost_key lease_status : safe config OK (reconcile_lost_key config lease_status).
Proof. unfold reconcile_lost_key. safe_auto. Qed.
Hint Resolve safe_reconcile_lost_key : custody.
Lemma keeps_issue_loop fuel session_id stale lost :
  keeps config OK (issue_loop fuel config session_id stale lost)
    (λ lease, al_session_id lease = session_id ∧ ∀ evs, lease_ok config lease evs).
Proof.
  revert stale lost. induction fuel as [|fuel IH]; intros stale lost; [apply keeps_throw|]. cbn [issue_loop].
  eapply keeps_bind; [apply keeps_prepare_lease|]. intros request Hp.
  safe_step; [by apply safe_lease_post|]. safe_step; [safe_step|]. safe_step; [safe_step|]. safe_step.
  - safe_step; [safe_step|]. apply keeps_lift. intros lease Hl. by apply accept_lease_ok in Hl as (? & _ & ?).
  - safe_step; [|apply keeps_throw]. safe_step; [safe_step; [safe_step|apply IH]|]. safe_step; [|apply keeps_throw].
    safe_step; [apply safe_server_get|]. safe_step; [apply keeps_throw|]. safe_step; [safe_step|apply IH].
Qed.

(** The session's lease, with the slot's lock held. *)
Lemma spec_ensure_lease (P : Assertion) session_id : mono P →
  spec config OK P (ensure_direct_openrouter_lease config session_id) (λ _, P).
Proof.
  intros HP. unfold ensure_direct_openrouter_lease.
  assert (∀ slot : unit, spec config OK P
    (_ ← recover config; lease ← issue_direct_openrouter_lease config session_id; set_lease (Some lease)) (λ _, P)) as Hnew.
  { intros _. eapply spec_safe_step; [done|apply safe_recover|]. intros _.
    eapply spec_step; [done|apply keeps_issue_loop|]. intros lease [_ Hl].
    apply spec_set_lease. intros evs l _ [= <-]. apply Hl. }
  eapply spec_safe_step; [done|apply safe_gets|]. intros slot.
  eapply spec_safe_step; [done|destruct slot; safe_auto|]. intros now. destruct slot as [lease|]; [|by apply Hnew].
  apply spec_if.
  - destruct (String.eqb _ _); [by apply spec_ret|apply spec_throw].
  - eapply spec_safe_step; [done|apply safe_clear_lease|]. intros _.
    eapply spec_safe_step; [done|apply safe_retire|]. intros _. by apply Hnew.
Qed.

(** The slot under the lock, once the invariant is used. *)
Lemma spec_gets_lease (P : Assertion) : mono P →
  spec config OK P (gets direct_lease) (λ slot evs, P evs ∧ ∀ l, slot = Some l → lease_ok config l evs).
Proof.
  intros HP σ [Hl Hs] Hp. cbn. split; [done|]. split; [exists []; by rewrite app_nil_r|].
  split; [exists []; by rewrite app_nil_r|]. intros slot [= <-]. done.
Qed.

Lemma spec_reserve (P : Assertion) session_id : mono P →
  spec config OK P (reserve_lease config session_id) (λ l evs, P evs ∧ lease_ok config l evs ∧ al_verified l = true).
Proof.
  intros HP. unfold reserve_lease. eapply spec_safe_step; [done|by apply safe_lock_lease|]. intros _.
  eapply spec_bind; [by apply spec_ensure_lease|]. intros []. eapply spec_bind; [by apply spec_gets_lease|].
  intros slot. cbv beta. eapply (spec_bind _ _ _ _ _ (λ l evs, P evs ∧ lease_ok config l evs)).
  { apply spec_lift. intros l evs Hl [Hp Hs]. split; [done|]. apply Hs. by destruct slot; simplify_eq/=. }
  intros lease. cbv beta. eapply spec_bind; [by apply spec_ensure_verified|]. intros reserved. cbv beta.
  eapply spec_bind.
  { apply spec_set_lease. intros evs l (_ & Hok & _) [= <-]. exact Hok. }
  intros []. by apply spec_ret.
Qed.

(** ** Wallet operations *)

Lemma safe_prepare_deposit amount : safe config OK (prepare_deposit config amount).
Proof. unfold prepare_deposit, current_thread_runtime. safe_auto. Qed.
Lemma safe_confirm_deposit request : safe config OK (confirm_deposit config request).
Proof.
  unfold confirm_deposit, lift_client. do 2 (safe_step; [safe_step|]).
  safe_step; [apply safe_wallet_free; [constructor|done]|]. safe_auto.
Qed.
Lemma safe_next_retired note_id : safe config OK (next_retired_note_dir config note_id).
Proof. unfold next_retired_note_dir, create_private_dir. safe_auto. Qed.
Hint Resolve safe_next_retired : custody.
Lemma safe_retire_note : safe config OK (retire_low_balance_note config).
Proof. unfold retire_low_balance_note, create_private_dir. safe_auto. Qed.
Lemma safe_load_prepared dir : safe config OK (load_prepared_withdrawal dir).
Proof. unfold load_prepared_withdrawal. safe_auto. Qed.
Lemma safe_persist dir plan : safe config OK (persist_prepared_withdrawal dir plan).
Proof. unfold persist_prepared_withdrawal. safe_auto. Qed.
Lemma safe_remove_prepared dir : safe config OK (remove_prepared_withdrawal dir).
Proof. unfold remove_prepared_withdrawal. safe_auto. Qed.
Hint Resolve safe_load_prepared safe_persist safe_remove_prepared : custody.
Lemma safe_service_new : safe config OK (service_new config).
Proof. unfold service_new. safe_auto. Qed.
Lemma safe_reset : safe config OK (reset_wallet config).
Proof. unfold reset_wallet. safe_auto. Qed.
Hint Resolve safe_reset : custody.

(** ** Settlement and withdrawals *)

Lemma safe_reconcile : safe config OK (reconcile_direct_openrouter config).
Proof. unfold reconcile_direct_openrouter. safe_auto. Qed.
Hint Resolve safe_reconcile : custody.
Lemma safe_fetch_optional id : safe config OK (fetch_optional_direct_lease_status config id).
Proof.
  unfold fetch_optional_direct_lease_status.
  safe_step; [apply safe_http; intros; [apply HOK|]; constructor|]. safe_auto.
Qed.
Lemma safe_fetch_recovery id : safe config OK (fetch_request_recovery config id).
Proof. apply safe_server_get. Qed.
Lemma safe_fetch_nullifier nullifier : safe config OK (fetch_nullifier_recovery config nullifier).
Proof. apply safe_server_get. Qed.
Hint Resolve safe_fetch_optional safe_fetch_recovery safe_fetch_nullifier : custody.
Lemma safe_find left request : safe config OK (find_attempts left config request).
Proof. induction left as [|left IH]; cbn [find_attempts]; safe_auto; exact IH. Qed.
Lemma safe_settled_status : safe config OK (settled_status config).
Proof. unfold settled_status. safe_auto. Qed.
Hint Resolve safe_find safe_settled_status : custody.
Lemma safe_settle_pending : safe config OK (settle_pending_lease config).
Proof.
  unfold settle_pending_lease, find_direct_lease_for_withdrawal.
  eapply keeps_bind; [apply keeps_prepare_lease|]. intros request _. safe_auto.
Qed.
Hint Resolve safe_settle_pending : custody.
Lemma safe_settle : safe config OK (settle_for_withdrawal config).
Proof. unfold settle_for_withdrawal. safe_auto. Qed.

Lemma safe_withdraw_call wallet mode destination root siblings :
  safe config OK (wallet_call (EvWithdraw mode destination) (λ w d,
    let '((r, d'), w') := match mode with
                          | Mutual => wallet_withdrawal_mutual_close w wallet d destination root siblings
                          | Escape => wallet_withdrawal_escape_hatch w wallet d destination root siblings
                          end in
    ((r, wallet, d'), w'))).
Proof. apply safe_wallet_free; [constructor|done]. Qed.
Hint Resolve safe_withdraw_call : custody.
Lemma safe_create_withdrawal mode destination : safe config OK (create_withdrawal config mode destination).
Proof. unfold create_withdrawal, current_thread_runtime, lift_client. safe_auto. Qed.

Lemma safe_vault_call selector note_id : selector = NOTES_SELECTOR ∨ selector = PENDING_SELECTOR →
  safe config OK (vault_eth_call config (selector +:+ abi_encode_u32 note_id)).
Proof.
  intros Hsel. unfold vault_eth_call.
  eapply keeps_bind; [apply (keeps_lift _ _ _ (λ url, ac_demo_rpc_url config = Some url))|].
  { intros url. destruct (ac_demo_rpc_url config); intros; by simplify_eq/=. }
  intros url Hurl. safe_step; [apply safe_http; intros; [apply HOK; by apply free_rpc|by apply ok_rpc]|]. safe_auto.
Qed.
Hint Resolve safe_vault_call or_introl or_intror eq_refl : custody.
Lemma safe_onchain note_id : safe config OK (onchain_withdrawal_status config note_id).
Proof. unfold onchain_withdrawal_status. safe_auto. Qed.
Hint Resolve safe_onchain : custody.
Lemma safe_confirm_withdrawal : safe config OK (confirm_withdrawal config).
Proof. unfold confirm_withdrawal. safe_auto. Qed.

(** ** Views and previews *)

Lemma safe_zkapi_config : safe config OK (zkapi_config config).
Proof. unfold zkapi_config, fetch_summary. safe_auto. Qed.
Lemma safe_request_mode : safe config OK (ensure_request_mode_available config).
Proof. unfold ensure_request_mode_available. safe_auto. Qed.
Lemma safe_demo_overview : safe config OK (demo_overview config).
Proof. unfold demo_overview, fetch_indexer_snapshot, fetch_server_snapshot. safe_auto. Qed.
Lemma safe_build_preview wallet request : safe config OK (build_request_preview config wallet request).
Proof. unfold build_request_preview. safe_auto. Qed.
Hint Resolve safe_build_preview : custody.
Lemma safe_preview request : safe config OK (preview_request config request).
Proof. unfold preview_request, current_thread_runtime. safe_auto. Qed.
Lemma safe_scheme : safe config OK (ensure_scheme_agreement config).
Proof. unfold ensure_scheme_agreement. safe_auto. Qed.
Lemma safe_guard : safe config OK withdrawal_guard.
Proof. unfold withdrawal_guard. safe_auto. Qed.
End free.

(** ** Inference *)

Section inference.
Variable body : Value.
(** The calls of a handler that serves [body] in direct mode. *)
Inductive direct_call : Event → Prop :=
| direct_free e : prompt_free config e → direct_call e
| direct_inference key answer : direct_call (EvHttp (inference_request (inference_url config) key body) answer).
Hint Constructors direct_call : core.

Lemma spec_send (P : Assertion) left attempt key expires_at : mono P →
  (∀ evs, P evs → ac_require_oa_org_key_source config = true → key_verified config key evs) →
  spec config direct_call P (send_attempts left attempt (inference_url config) key body expires_at) (λ _, P).
Proof.
  intros HP Hk. revert attempt. induction left as [|left IH]; intros attempt; cbn [send_attempts]; [apply spec_throw|].
  apply spec_http_step; [done|done|intros answer evs Hp; apply ok_inference; by apply Hk|].
  intros answer. apply (spec_weaken _ _ _ P); [|by intros evs [? _]]. destruct answer as [response|error].
  - apply spec_if; [by apply spec_ret|]. eapply spec_safe_step; [done|by apply keeps_lift|]. intros raw.
    apply spec_if; [|apply spec_throw]. apply spec_retry_or; [auto|done|apply IH].
  - apply spec_retry_or; [auto|done|apply IH].
Qed.

Lemma trusted_inference_url lease evs :
  lease_ok config lease evs → trim_slashes (al_openrouter_api_base lease) +:+ CHAT_PATH = inference_url config.
Proof.
  intros [Hu _]. unfold matches_trusted_url in Hu. apply andb_true_iff in Hu as [_ Hu%String.eqb_eq].
  unfold inference_url. by rewrite Hu.
Qed.

Lemma spec_send_verified (P : Assertion) lease : mono P →
  spec config direct_call (λ evs, P evs ∧ lease_ok config lease evs ∧ al_verified lease = true)
    (send_verified_openrouter_request config lease CHAT_PATH body) (λ _, P).
Proof.
  intros HP σ Hc (Hp & Hok & Hv).
  assert (send_verified_openrouter_request config lease CHAT_PATH body σ =
          send_openrouter_request (inference_url config) (al_api_key lease) body (al_expires_at lease) σ) as ->.
  { rewrite <-(trusted_inference_url _ _ Hok). unfold send_verified_openrouter_request, ensure_verified. by rewrite Hv. }
  pose (P' := λ evs, P evs ∧ lease_ok config lease evs). assert (mono P') as HP' by (apply mono_and; [done|apply lease_ok_mono]).
  assert (spec config direct_call P' (send_openrouter_request (inference_url config) (al_api_key lease) body
            (al_expires_at lease)) (λ _, P)) as Hs.
  { eapply spec_post; [apply spec_send; [done|]|by intros a evs [? _]]. intros evs [_ [_ Hkey]] Hr. by apply Hkey. }
  by apply Hs.
Qed.

Lemma safe_drop_lease id : safe config direct_call (drop_lease id).
Proof.
  intros P HP. unfold drop_lease. eapply spec_bind; [by apply spec_lock_lease|]. intros slot. cbv beta.
  eapply spec_post; [|intros a evs Hp; split; [exact Hp|done]]. apply (spec_weaken _ _ _ P); [|by intros evs [? _]].
  destruct slot; [|by apply spec_ret]. apply spec_if; [by apply spec_set_lease|by apply spec_ret].
Qed.

Lemma safe_open_loop fuel session_id replaced :
  safe config direct_call (open_loop fuel config CHAT_PATH body session_id replaced).
Proof.
  revert replaced. induction fuel as [|fuel IH]; intros replaced P HP; [apply spec_throw|]. cbn [open_loop].
  eapply spec_bind; [apply spec_reserve; [auto|exact HP]|]. intros reserved. cbv beta.
  eapply spec_bind.
  { eapply (spec_weaken _ _ _ (λ evs, (P evs ∧ lease_ok config reserved evs) ∧ al_verified reserved = true)).
    - apply spec_pure. intros Hv. eapply spec_try; [apply mono_and; [done|apply lease_ok_mono]|].
      eapply spec_weaken; [by apply (spec_send_verified P)|]. by intros evs [? ?].
    - by intros evs (? & ? & ?). }
  intros outcome. cbv beta. apply (spec_weaken _ _ _ P); [|by intros evs [[? _] _]].
  destruct outcome as [response|error]; [by apply spec_ret|]. apply spec_if.
  - eapply spec_safe_step; [done|apply safe_drop_lease|]. intros _.
    eapply spec_safe_step; [done|apply safe_retire; auto|]. intros _. by apply IH.
  - eapply spec_safe_step; [done|apply safe_drop_lease|]. intros _.
    eapply spec_safe_step; [done|apply safe_try, safe_retire; auto|]. intros _. apply spec_throw.
Qed.

Lemma direct_of_free e : prompt_free config e → direct_call e.
Proof. auto. Qed.
Hint Resolve direct_of_free : custody.

Lemma safe_open request session_id :
  openrouter_request (cq_path request) (cq_body request) = (CHAT_PATH, body) →
  safe config direct_call (open_direct_openrouter_response config request session_id).
Proof.
  intros Hb. unfold open_direct_openrouter_response. rewrite Hb.
  safe_step; [apply safe_scheme; auto|]. apply safe_open_loop.
Qed.
Lemma safe_execute_direct request session_id :
  openrouter_request (cq_path request) (cq_body request) = (CHAT_PATH, body) →
  safe config direct_call (execute_direct_openrouter config request session_id).
Proof.
  intros Hb. unfold execute_direct_openrouter, finish_direct_openrouter_lease.
  safe_step; [by apply safe_open|]. safe_step. safe_step.
  safe_step; [safe_step; [safe_step; [safe_step; apply safe_retire; auto|safe_step]|safe_step]|].
  safe_step; [safe_step|]. safe_step; [apply safe_status; auto|]. safe_auto.
Qed.
Lemma safe_execute_streaming request session_id :
  openrouter_request (cq_path request) (cq_body request) = (CHAT_PATH, body) →
  safe config direct_call (execute_direct_openrouter_streaming config request session_id).
Proof. intros Hb. unfold execute_direct_openrouter_streaming. safe_step; [by apply safe_open|]. safe_auto. Qed.

Lemma safe_session_direct request session_id :
  ac_request_mode config = DirectOpenrouter →
  openrouter_request (cq_path request) (cq_body request) = (CHAT_PATH, body) →
  safe config direct_call (execute_request_in_session config request session_id) ∧
  safe config direct_call (execute_streaming_request_in_session config request session_id).
Proof.
  intros Hm Hb. unfold execute_request_in_session, execute_streaming_request_in_session. rewrite Hm. split.
  - safe_step; [by apply safe_guard|]. safe_step; [safe_step|]. by apply safe_execute_direct.
  - safe_step; [by apply safe_guard|]. safe_step; [safe_step|]. by apply safe_execute_streaming.
Qed.
End inference.

(** ** Every handler *)

Definition any_call (e : Event) : Prop := True.

Lemma safe_weaken (OK OK' : Event → Prop) {A} (m : M A) : (∀ e, OK e → OK' e) → safe config OK m → safe config OK' m.
Proof. intros HOK Hm P HP. eapply spec_conseq; [by apply Hm|done..]. Qed.
Lemma safe_demo_attempts left attempt wallet request payload payload_hash :
  safe config any_call (demo_attempts left attempt config wallet request payload payload_hash).
Proof.
  revert attempt wallet. induction left as [|left IH]; intros attempt wallet; cbn [demo_attempts]; [apply keeps_throw|].
  safe_step; [by apply safe_build_preview|]. safe_step; [by apply safe_wallet_call|]. safe_step. safe_step.
  - safe_step; [by apply safe_wallet_status|]. safe_step.
  - repeat safe_step; apply IH.
Qed.
Lemma safe_execute_demo request : safe config any_call (execute_request_demo config request).
Proof.
  unfold execute_request_demo, has_pending_request, current_thread_runtime, lift_client.
  safe_step; [by apply safe_scheme|]. do 5 (safe_step; [safe_step|]).
  safe_step; [safe_step; [safe_step; [by apply safe_wallet_recover|safe_auto]|safe_step]|].
  safe_step; [safe_step|]. apply safe_demo_attempts.
Qed.
Lemma safe_session request session_id : safe config any_call (execute_request_in_session config request session_id).
Proof.
  destruct (ac_request_mode config) eqn:Hm.
  - unfold execute_request_in_session. rewrite Hm. safe_step; [by apply safe_guard|].
    safe_step; [apply safe_execute_demo|]. safe_auto.
  - destruct (openrouter_request_field (cq_path request) (cq_body request)) as (m & Hb & _).
    eapply safe_weaken; [|eapply (safe_session_direct (Object m)); done]; done.
Qed.
Lemma safe_session_streaming request session_id :
  safe config any_call (execute_streaming_request_in_session config request session_id).
Proof.
  destruct (ac_request_mode config) eqn:Hm.
  - unfold execute_streaming_request_in_session. rewrite Hm. safe_step; [by apply safe_guard|]. apply keeps_throw.
  - destruct (openrouter_request_field (cq_path request) (cq_body request)) as (m & Hb & _).
    eapply safe_weaken; [|eapply (safe_session_direct (Object m)); done]; done.
Qed.

Lemma safe_respond OK {A} (m : M A) f g : safe config OK m → safe config OK (respond m f g).
Proof. intros Hm. unfold respond. safe_step; [by safe_step|]. by apply keeps_ret. Qed.
Lemma safe_shaped OK m shape on_err : safe config OK m → safe config OK (shaped m shape on_err).
Proof. intros Hm. unfold shaped. safe_step; [by safe_step|]. safe_auto. Qed.

Lemma safe_serve embedded utf8_error digit_error handler headers body m :
  serve embedded utf8_error digit_error config handler headers body = Some m → safe config any_call m.
Proof.
  unfold serve. intros Hs.
  destruct handler, body; simplify_eq; try (by apply keeps_ret);
    try (apply safe_respond; first
      [ apply safe_session | apply safe_session_streaming | by apply safe_status | by apply safe_prepare_deposit
      | by apply safe_confirm_deposit | by apply safe_recover | by apply safe_settle | by apply safe_reset
      | by apply safe_demo_overview | by apply safe_preview | apply safe_execute_demo
      | by apply safe_confirm_withdrawal ]);
    try (apply safe_shaped; apply safe_session).
  all: try (unfold chat_completions, ollama_chat; destruct (_ : bool);
            [apply safe_respond, safe_session_streaming|apply safe_shaped, safe_session]).
  all: try (unfold zkapi_config_route; safe_step; [by apply safe_zkapi_config|safe_step]).
  unfold wallet_withdraw. destruct (parse_withdrawal_mode _); [|by apply keeps_ret].
  destruct (parse_destination _ _ _); [|by apply keeps_ret]. apply safe_respond. by apply safe_create_withdrawal.
Qed.

(** Custody of the keys. Whatever route is served and however the handler
    ends, it keeps the invariant: an OpenRouter key is sent to the trusted
    inference origin as bearer and to the trusted verifier, and nowhere else;
    under the OA-org policy it reaches the inference origin only after the
    verifier accepted it; the key in memory belongs to the trusted origin. *)
Theorem handlers_keep_custody embedded utf8_error digit_error handler headers body m σ :
  serve embedded utf8_error digit_error config handler headers body = Some m →
  custody config σ → custody config (m σ).2.
Proof.
  intros Hs Hc. apply safe_serve in Hs. by destruct (Hs (λ _, True) ltac:(done) σ Hc I) as [Hc' _].
Qed.

(** Some handler's call in direct mode: no prompt, or one to the trusted origin. *)
Definition local_call (e : Event) : Prop := ∃ body, direct_call body e.
Lemma local_free e : prompt_free config e → local_call e.
Proof. intros He. exists Null. by constructor. Qed.
Lemma safe_session_local request session_id : ac_request_mode config = DirectOpenrouter →
  safe config local_call (execute_request_in_session config request session_id) ∧
  safe config local_call (execute_streaming_request_in_session config request session_id).
Proof.
  intros Hm. destruct (openrouter_request_field (cq_path request) (cq_body request)) as (m & Hb & _).
  destruct (safe_session_direct (Object m) request session_id Hm Hb) as [He Hs].
  split; (eapply safe_weaken; [|first [exact He|exact Hs]]; intros e Hd; by exists (Object m)).
Qed.
Lemma safe_serve_local embedded utf8_error digit_error handler headers body m :
  ac_request_mode config = DirectOpenrouter → handler ≠ RequestSubmit →
  serve embedded utf8_error digit_error config handler headers body = Some m → safe config local_call m.
Proof.
  unfold serve. intros Hm Hh Hs. pose proof local_free as Hfree.
  assert (∀ request id, safe config local_call (execute_request_in_session config request id)) as He
    by (intros; by apply safe_session_local).
  assert (∀ request id, safe config local_call (execute_streaming_request_in_session config request id)) as Ht
    by (intros; by apply safe_session_local).
  destruct handler, body; simplify_eq; try (by apply keeps_ret);
    try (apply safe_respond; first
      [ apply He | apply Ht | by apply safe_status | by apply safe_prepare_deposit
      | by apply safe_confirm_deposit | by apply safe_recover | by apply safe_settle | by apply safe_reset
      | by apply safe_demo_overview | by apply safe_preview | by apply safe_confirm_withdrawal ]);
    try (apply safe_shaped; apply He).
  all: try (unfold chat_completions, ollama_chat; destruct (_ : bool);
            [apply safe_respond, Ht|apply safe_shaped, He]).
  all: try (unfold zkapi_config_route; safe_step; [by apply safe_zkapi_config|safe_step]).
  unfold wallet_withdraw. destruct (parse_withdrawal_mode _); [|by apply keeps_ret].
  destruct (parse_destination _ _ _); [|by apply keeps_ret]. apply safe_respond. by apply safe_create_withdrawal.
Qed.

(** C14: prompts stay local on the routes of a session. In direct mode a request of
    a session, streamed or not, makes only calls without a prompt besides the
    inference calls that carry the normalized body to the trusted origin: what
    reaches the zkAPI server is the lease authorization, never the body. The same
    holds of every handler of the daemon's routes except the one of
    [/funding/api/request/submit], which serves through the zkAPI server in every
    mode. *)
Theorem prompts_stay_local σ :
  ac_request_mode config = DirectOpenrouter → custody config σ →
  (∀ request session_id m body, openrouter_request (cq_path request) (cq_body request) = (m, body) →
    (∃ l, own (execute_request_in_session config request session_id σ).2 = (own σ ++ l)%list ∧
          Forall (direct_call body) l) ∧
    (∃ l, own (execute_streaming_request_in_session config request session_id σ).2 = (own σ ++ l)%list ∧
          Forall (direct_call body) l)) ∧
  (∀ embedded utf8_error digit_error handler headers body m, handler ≠ RequestSubmit →
    serve embedded utf8_error digit_error config handler headers body = Some m →
    ∃ l, own (m σ).2 = (own σ ++ l)%list ∧ Forall local_call l).
Proof.
  intros Hm Hc. split.
  - intros request session_id m body Hb.
    destruct (openrouter_request_field (cq_path request) (cq_body request)) as (o & Ho & _).
    rewrite Ho in Hb. injection Hb as <- <-.
    destruct (safe_session_direct (Object o) request session_id Hm Ho) as [He Hst]. split.
    + by destruct (He (λ _, True) ltac:(done) σ Hc I) as (_ & _ & Hown & _).
    + by destruct (Hst (λ _, True) ltac:(done) σ Hc I) as (_ & _ & Hown & _).
  - intros embedded utf8_error digit_error handler headers body m Hh Hs.
    apply safe_serve_local in Hs; [|done..]. by destruct (Hs (λ _, True) ltac:(done) σ Hc I) as (_ & _ & Hown & _).
Qed.
End custody.
