(* ===== verification/ClientRouter.v ===== *)
(** * The daemon's router: [build_router] and [run] of [zkapi-clientd/src/routes.rs]

    Which handler serves a request line and what its extractor reads; the life of
    the daemon, its requests and its ticks; that the whole life keeps the custody
    of the keys, that only POST routes spend, and that a note moves only as a
    request asked. *)

From Stdlib Require Import ZArith Lia Ascii.
From stdpp Require Import base tactics decidable numbers list gmap strings.
From S2P Require Import Prelude Text Float64 Json Http Types AuthScheme ClientTypes Compat ClientHelpers Router.
From S2P Require Import ClientWorld ClientWallet DirectLease ClientService ClientRoutes ClientTheory ClientCustody ClientRel.

Local Open Scope string_scope.

Section daemon.
Context `{!FeltOps, !WireTypes, !ClientTypes, !JsonText, !SerdeText, !WalletOps, !ClientEnv, !ClientWire, !Axum}.
Implicit Types (config : AuthConfig).

(** ** The bodies: derived [Deserialize] *)

(** [BTreeMap<String, String>] *)
Definition string_map (v : Value) : option (list (string * string)) :=
  m ← as_object v; mapM (λ kv : string * Value, (λ s, (kv.1, s)) <$> as_str kv.2) m.
Definition default_method : string := "POST".
Definition default_body : Value := Object [].
Definition decode_CoreRequest (v : Value) : option CoreRequest :=
  m ← as_object v;
  method ← field_default as_str default_method "method" m;
  path ← field_req as_str "path" m;
  headers ← field_default string_map [] "headers" m;
  body ← field_default Some default_body "body" m;
  Some {| cq_method := method; cq_path := path; cq_headers := headers; cq_body := body |}.
Definition decode_PrepareDepositBody (v : Value) : option Z := m ← as_object v; field_req as_u128 "amount" m.
Definition decode_ConfirmDepositRequest (v : Value) : option ConfirmDepositRequest :=
  m ← as_object v;
  secret ← field_req felt_of_value "secret" m;
  note_id ← field_req as_u32 "note_id" m;
  amount ← field_req as_u128 "amount" m;
  expiry_ts ← field_req as_u64 "expiry_ts" m;
  Some {| cd_secret := secret; cd_note_id := note_id; cd_amount := amount; cd_expiry_ts := expiry_ts |}.
Definition decode_WithdrawBody (v : Value) : option (string * string) :=
  m ← as_object v;
  mode ← field_req as_str "mode" m;
  destination ← field_req as_str "destination" m;
  Some (mode, destination).

(** ** Serving a request line *)

Record DaemonRequest := {
  dr_method : string;
  dr_path : string;
  dr_headers : list (string * result string string);
  dr_body : string;
}.
(** Axum's default limit of a body: 2 MiB. *)
Definition DEFAULT_BODY_LIMIT : Z := 2 * 1024 * 1024.
Definition json_extractor {T} (dec : Value → option T) (request : DaemonRequest) : result Z T :=
  axum_json DEFAULT_BODY_LIMIT (from_str dec) (header "content-type" (dr_headers request) ≫= ok) (dr_body request).

Definition extract (h : Handler) (params : list string) (request : DaemonRequest) : result Z RequestBody :=
  match h with
  | CoreRequestHandler | RequestPreviewHandler | RequestSubmit =>
      body ← json_extractor decode_CoreRequest request; Ok (CoreBody body)
  | PrepareDeposit => amount ← json_extractor decode_PrepareDepositBody request; Ok (AmountBody amount)
  | ConfirmDeposit => body ← json_extractor decode_ConfirmDepositRequest request; Ok (ConfirmBody body)
  | ChatCompletions | ResponsesApi | OllamaChat | ZkapiInference =>
      body ← json_extractor Some request; Ok (RawJson body)
  | WalletWithdraw => body ← json_extractor decode_WithdrawBody request; Ok (WithdrawBody body.1 body.2)
  | FundingAsset => path ← axum_path_string params; Ok (AssetPath path)
  | _ => Ok NoRequestBody
  end.

Definition bare_status (status : Z) : Reply := {| reply_status := status; reply_headers := []; reply_body := BodyEmpty |}.

Context (embedded : string → option (string * string)) (utf8_error digit_error : string).

(** A handler that takes another body than it extracts does not exist:
    [extract_serves]. *)
Definition daemon_serve config (request : DaemonRequest) : M Reply :=
  match axum_dispatch daemon_routes (dr_method request) (dr_path request) with
  | Handled h params =>
      match extract h params request with
      | Ok body => default (mret (bare_status 500)) (serve embedded utf8_error digit_error config h (dr_headers request) body)
      | Err status => mret (bare_status status)
      end
  | MethodNotAllowed => mret (bare_status 405)
  | NotFound => mret (bare_status 404)
  end.

Lemma extract_serves config h params request body : extract h params request = Ok body →
  is_Some (serve embedded utf8_error digit_error config h (dr_headers request) body).
Proof.
  destruct h; cbn; intros He; try (by eexists);
    apply bind_Ok in He as (a & _ & [= <-]); by eexists.
Qed.

(** ** The daemon's life

    [run] serves requests while a task reconciles every five seconds. *)

Inductive DaemonStep := Tick | Request (request : DaemonRequest).
Definition daemon_step config (σ : State) (step : DaemonStep) : State :=
  match step with
  | Tick => (reconcile_direct_openrouter config σ).2
  | Request request => (daemon_serve config request σ).2
  end.
(** [AuthService::new] and then the steps. *)
Definition run config (steps : list DaemonStep) (σ : State) : result AuthError unit * State :=
  match service_new config σ with
  | (Ok _, σ') => (Ok tt, foldl (daemon_step config) σ' steps)
  | (Err e, σ') => (Err e, σ')
  end.
End daemon.

(** ** Custody *)

Section custody.
Context `{!FeltOps, !WireTypes, !ClientTypes, !JsonText, !SerdeText, !WalletOps, !ClientEnv, !ClientWire, !Axum}.
Context (config : AuthConfig) `{!ClientLaws config}.
Context (embedded : string → option (string * string)) (utf8_error digit_error : string).

Lemma safe_custody {A} OK (m : M A) σ : safe config OK m → custody config σ → custody config (m σ).2.
Proof. intros Hs Hc. by destruct (Hs (λ _, True) ltac:(done) σ Hc I) as [Hc' _]. Qed.

Lemma daemon_serve_custody request σ : custody config σ →
  custody config (daemon_serve embedded utf8_error digit_error config request σ).2.
Proof.
  intros Hc. unfold daemon_serve. destruct (axum_dispatch _ _ _) as [h params| |]; [|done..].
  destruct (extract _ _ _) as [body|]; [|done].
  destruct (serve _ _ _ _ _ _ _) as [m|] eqn:Hs; [|done]. cbn. eapply safe_custody; [by eapply safe_serve|done].
Qed.

(** C11: custody of the keys, for life. From a fresh start, whatever requests the
    daemon serves, on whatever route and however their handlers end, and however
    often it reconciles, its log and its memory keep the invariant: an OpenRouter
    key is sent to the trusted inference origin as bearer and to the trusted
    verifier, and nowhere else; under the OA-org policy it reaches the inference
    origin only after the verifier accepted it; the key in memory belongs to the
    trusted origin. *)
Theorem daemon_keeps_custody steps σ : events σ = [] → direct_lease σ = None →
  custody config (run embedded utf8_error digit_error config steps σ).2.
Proof.
  intros He Hl. assert (custody config σ) as Hc.
  { split; [|by rewrite Hl]. rewrite He. intros [|] ev after Heq; discriminate Heq. }
  unfold run. pose proof (safe_custody any_call _ _ (safe_service_new config any_call) Hc) as Hn.
  destruct (service_new config σ) as [[[]|e] σ']; [|done]. cbn in *.
  clear He Hl Hc. revert σ' Hn. induction steps as [|[|request] steps IH]; intros σ' Hn; [done|..]; apply IH.
  - by apply (safe_custody any_call); [apply safe_reconcile|].
  - by apply daemon_serve_custody.
Qed.
End custody.

(** ** The calls of a reply *)

Section reply.
Context `{!FeltOps, !WireTypes, !ClientTypes, !JsonText, !SerdeText, !WalletOps, !ClientEnv, !ClientWire}.
Context (OK : Event → Prop).
Lemma calls_respond {A} (m : M A) f g : calls OK m → calls OK (respond m f g).
Proof. intros Hm. apply calls_bind; [by apply calls_try|]. intros. apply calls_ret. Qed.
End reply.

(** ** Reading *)

Section reading.
Context `{!FeltOps, !WireTypes, !ClientTypes, !JsonText, !SerdeText, !WalletOps, !ClientEnv, !ClientWire, !Axum, !AxumLaws}.
Context (config : AuthConfig) (embedded : string → option (string * string)) (utf8_error digit_error : string).

(** A GET of the zkAPI server or the indexer, without body, bearer or headers. *)
Inductive reads : Event → Prop :=
| reads_server path answer : reads (EvHttp (get (server_url config path)) answer)
| reads_indexer path answer : reads (EvHttp (get (trim_slashes (ac_indexer_url config) +:+ path)) answer).
Hint Resolve reads_server reads_indexer : calls.

Lemma reading_status : calls reads (status config).
Proof. unfold status, wallet_status, has_pending_request. calls_auto. Qed.
Hint Resolve reading_status : calls.
Lemma reading_zkapi_config : calls reads (zkapi_config config).
Proof. unfold zkapi_config, fetch_summary, fetch_json. calls_auto. Qed.
Lemma reading_demo_overview : calls reads (demo_overview config).
Proof.
  unfold demo_overview, fetch_indexer_snapshot, fetch_server_snapshot, indexer_root, indexer_next_note_id, indexer_get,
    fetch_json, get_json. calls_auto.
Qed.

(** The handlers of the GET routes. *)
Definition reader (h : Handler) : bool :=
  match h with
  | FundingIndex | FundingFavicon | Healthz | WalletStatusHandler | Models | Tags | FundingConfigHandler
  | DemoOverviewHandler | ZkapiConfigHandler | FundingAsset => true
  | _ => false
  end.
Lemma reading_serve h headers body m :
  reader h = true → serve embedded utf8_error digit_error config h headers body = Some m → calls reads m.
Proof.
  destruct h; intros Hr; try discriminate Hr; unfold serve; try (intros [= <-]; apply calls_ret).
  - intros [= <-]. apply calls_respond, reading_status.
  - intros [= <-]. apply calls_respond, reading_demo_overview.
  - intros [= <-]. apply calls_bind; [apply reading_zkapi_config|]. intros. apply calls_ret.
  - destruct body; try discriminate. intros [= <-]. apply calls_ret.
Qed.
Lemma not_posted method path h params : axum_dispatch daemon_routes method path = Handled h params →
  method ≠ "POST" → reader h = true.
Proof.
  intros (r & Hr%list_elem_of_In & _ & Hs)%axum_handled Hm.
  assert (forallb (λ r, forallb (λ p : string * Handler, String.eqb p.1 "POST" || reader p.2) (rt_methods r))
            daemon_routes = true) as Hall by reflexivity.
  rewrite forallb_forall in Hall. specialize (Hall r Hr). rewrite forallb_forall in Hall.
  destruct Hs as [Hin|[-> Hin]]; apply list_elem_of_In in Hin; specialize (Hall _ Hin); cbn in Hall; [|done].
  apply orb_true_iff in Hall as [Heq|]; [|done]. by apply String.eqb_eq in Heq.
Qed.

(** C13: reading spends nothing. A request of another method than POST, to any path
    with any headers and body, makes the daemon at most read the zkAPI server and
    the indexer with bare GETs: no wallet call that spends or proves, no prompt, no
    key and no lease authorization leaves it. *)
Theorem only_posts_spend request σ : dr_method request ≠ "POST" →
  ∃ l, own (daemon_serve embedded utf8_error digit_error config request σ).2 = (own σ ++ l)%list ∧ Forall reads l.
Proof.
  intros Hm. revert σ. change (calls reads (daemon_serve embedded utf8_error digit_error config request)).
  unfold daemon_serve. destruct (axum_dispatch _ _ _) as [h params| |] eqn:Hd; [|apply calls_ret..].
  apply not_posted in Hd; [|done]. destruct (extract _ _ _) as [body|]; [|apply calls_ret].
  destruct (serve _ _ _ _ _ _ _) as [m|] eqn:Hs; [|apply calls_ret]. by eapply reading_serve.
Qed.
End reading.

(** ** Withdrawals and deposits are asked for *)

Section authority.
Context `{!FeltOps, !WireTypes, !ClientTypes, !JsonText, !SerdeText, !WalletOps, !ClientEnv, !ClientWire, !Axum}.
Context (config : AuthConfig).

(** The wallet calls that move a whole note. *)
Definition moves_note (e : Event) : bool :=
  match e with EvWithdraw _ _ | EvConfirmDeposit _ => true | _ => false end.

Context (embedded : string → option (string * string)) (utf8_error digit_error : string).

(** What the body of a request asks the wallet to do with the note. *)
Definition asks (request : DaemonRequest) (e : Event) : Prop :=
  match e with
  | EvWithdraw mode destination =>
      dr_method request = "POST"
      ∧ segments (dr_path request) ∈ [Some ["wallet"; "withdraw"]; Some ["funding"; "api"; "withdraw"]]
      ∧ ∃ m d, json_extractor decode_WithdrawBody request = Ok (m, d)
          ∧ parse_withdrawal_mode m = Ok mode ∧ parse_destination utf8_error digit_error d = Ok destination
  | EvConfirmDeposit note_id =>
      dr_method request = "POST"
      ∧ segments (dr_path request) ∈ [Some ["deposit"; "confirm"]; Some ["funding"; "api"; "deposit"; "confirm"]]
      ∧ ∃ body, json_extractor decode_ConfirmDepositRequest request = Ok body ∧ cd_note_id body = note_id
  | _ => False
  end.
(** An event is one that moves no note, or what [request] asks for. *)
Definition as_asked (request : DaemonRequest) (e : Event) : Prop := moves_note e = true → asks request e.
Lemma handled_at `{!AxumLaws} method path h params : axum_dispatch daemon_routes method path = Handled h params →
  ∃ r, r ∈ daemon_routes ∧ match_path (rt_path r) path = Some params ∧ ∃ m, rt_methods r = [(m, h)]
    ∧ (m = method ∨ method = "HEAD" ∧ m = "GET").
Proof.
  intros (r & Hr & Hp & Hs)%axum_handled. exists r. split; [done|]. split; [done|].
  assert (∃ m h', rt_methods r = [(m, h')]) as (m & h' & Hm).
  { assert (Forall (λ r, ∃ m h', rt_methods r = [(m, h')]) daemon_routes) as Hall by (repeat constructor; by do 2 eexists).
    rewrite Forall_forall in Hall. by apply Hall. }
  rewrite Hm. unfold serves in Hs. rewrite Hm in Hs.
  destruct Hs as [[= -> ->]%list_elem_of_singleton|[-> [= <- ->]%list_elem_of_singleton]]; eexists; split; [done|auto|done|auto].
Qed.

(** The requests whose handler moves a note. *)
Lemma withdraw_asked `{!AxumLaws} request params m d mode destination :
  axum_dispatch daemon_routes (dr_method request) (dr_path request) = Handled WalletWithdraw params →
  json_extractor decode_WithdrawBody request = Ok (m, d) →
  parse_withdrawal_mode m = Ok mode → parse_destination utf8_error digit_error d = Ok destination →
  asks request (EvWithdraw mode destination).
Proof.
  intros (r & Hr & Hp & m' & Hm & Hpost)%handled_at Hj Hmode Hd. unfold match_path in Hp.
  destruct (segments (dr_path request)) as [l|] eqn:Hl; [|discriminate Hp]. cbn in Hp. unfold asks. rewrite Hl.
  repeat (apply elem_of_cons in Hr as [->|Hr]; [try discriminate Hm|]); [..|by apply not_elem_of_nil in Hr].
  all: injection Hm as <-; first [apply (match_literal ["wallet"; "withdraw"]) in Hp as [-> _]
    | apply (match_literal ["funding"; "api"; "withdraw"]) in Hp as [-> _]].
  all: destruct Hpost as [<-|[_ Hx]]; [|discriminate Hx].
  all: split; [done|]; split; [set_solver|]; eauto.
Qed.
Lemma confirm_asked `{!AxumLaws} request params body :
  axum_dispatch daemon_routes (dr_method request) (dr_path request) = Handled ConfirmDeposit params →
  json_extractor decode_ConfirmDepositRequest request = Ok body → asks request (EvConfirmDeposit (cd_note_id body)).
Proof.
  intros (r & Hr & Hp & m' & Hm & Hpost)%handled_at Hj. unfold match_path in Hp.
  destruct (segments (dr_path request)) as [l|] eqn:Hl; [|discriminate Hp]. cbn in Hp. unfold asks. rewrite Hl.
  repeat (apply elem_of_cons in Hr as [->|Hr]; [try discriminate Hm|]); [..|by apply not_elem_of_nil in Hr].
  all: injection Hm as <-; first [apply (match_literal ["deposit"; "confirm"]) in Hp as [-> _]
    | apply (match_literal ["funding"; "api"; "deposit"; "confirm"]) in Hp as [-> _]].
  all: destruct Hpost as [<-|[_ Hx]]; [|discriminate Hx].
  all: split; [done|]; split; [set_solver|]; eauto.
Qed.

Lemma calls_shaped OK (m : M CoreResponse) shape on_err : calls OK m → calls OK (shaped m shape on_err).
Proof. intros Hm. unfold shaped, now_seconds. calls_auto; exact Hm. Qed.

Lemma calls_serve `{!AxumLaws} request : calls (as_asked request) (daemon_serve embedded utf8_error digit_error config request).
Proof.
  assert (∀ e, plain_event e = true → as_asked request e) as Hb by (intros [] ? ?; done).
  assert (∀ url key body answer, as_asked request (EvHttp (inference_request url key body) answer)) as Hk by done.
  unfold daemon_serve. destruct (axum_dispatch _ _ _) as [h params| |] eqn:Hd; [|apply calls_ret..].
  destruct (extract h params request) as [body|] eqn:He; [|apply calls_ret].
  destruct h; cbn [extract] in He;
    try (apply bind_Ok in He as (b & Hj & [= <-])); try (injection He as <-); cbn [serve default from_option id];
    try apply calls_ret.
  all: try (apply calls_respond; first
    [ by apply calls_session | by apply calls_status | by apply calls_recover | by apply calls_settle
    | by apply calls_reset | by apply calls_execute_demo | by apply calls_confirm_withdrawal
    | by apply calls_prepare_deposit | by apply calls_preview_request | by apply calls_demo_overview
    | apply calls_confirm_deposit; intros _; exact (confirm_asked _ _ _ Hd Hj) ]).
  all: try (by apply calls_shaped, calls_session).
  all: try (cbv beta zeta delta [chat_completions ollama_chat];
    match goal with |- calls _ (if ?c then _ else _) => destruct c end;
    [by apply calls_respond, calls_streaming|by apply calls_shaped, calls_session]).
  2: { apply calls_bind; [by apply calls_zkapi_config|]. intros. apply calls_ret. }
  unfold wallet_withdraw. destruct b as [m d]. cbn [fst snd]. destruct (parse_withdrawal_mode m) as [mode|] eqn:Hm; [|apply calls_ret].
  destruct (parse_destination _ _ d) as [destination|] eqn:Ht; [|apply calls_ret].
  apply calls_respond, calls_create_withdrawal; [done|]. intros _. by eapply withdraw_asked.
Qed.

Lemma calls_weaken {A} (P Q : Event → Prop) (m : M A) : (∀ e, P e → Q e) → calls P m → calls Q m.
Proof. intros HPQ Hm σ. destruct (Hm σ) as (l & Ho & Hl). exists l. split; [done|]. by eapply Forall_impl. Qed.

(** An event moves no note, or a request of [steps] asks for it. *)
Definition asked_in (steps : list DaemonStep) (e : Event) : Prop :=
  moves_note e = true → ∃ request, Request request ∈ steps ∧ asks request e.
Lemma calls_steps `{!AxumLaws} steps all σ : steps ⊆ all →
  ∃ l, own (foldl (daemon_step embedded utf8_error digit_error config) σ steps) = (own σ ++ l)%list ∧ Forall (asked_in all) l.
Proof.
  revert σ. induction steps as [|step steps IH]; intros σ Hs; [exists []; by rewrite app_nil_r|].
  assert (∃ l, own (daemon_step embedded utf8_error digit_error config σ step) = (own σ ++ l)%list ∧ Forall (asked_in all) l)
    as (l & Ho & Hl).
  { destruct step as [|request]; cbn [daemon_step].
    - apply (calls_reconcile config (asked_in all)). by intros [] ? ?.
    - apply (calls_weaken (as_asked request)), calls_serve. intros e He Hm. exists request. split; [|by apply He].
      apply Hs. by left. }
  destruct (IH (daemon_step embedded utf8_error digit_error config σ step)) as (l' & Ho' & Hl').
  { intros x Hx. apply Hs. by right. }
  exists (l ++ l')%list. cbn [foldl]. rewrite Ho', Ho, app_assoc. split; [done|]. by apply Forall_app.
Qed.

(** C12: a note moves only as it was asked. From its start and through every
    request and reconciliation, each withdrawal the daemon has the wallet prepare
    has the mode and the destination of the JSON body of a POST to one of the two
    withdraw routes it was sent, and each deposit it confirms the note id of the
    body of a POST to one of the two confirm routes. No other route, no answer of
    the zkAPI server, the indexer or the provider and no reconciliation moves a
    note. *)
Theorem notes_move_as_asked `{!AxumLaws} steps σ :
  ∃ l, own (run embedded utf8_error digit_error config steps σ).2 = (own σ ++ l)%list
  ∧ ∀ e, e ∈ l → moves_note e = true → ∃ request, Request request ∈ steps ∧ asks request e.
Proof.
  assert (∃ l, own (run embedded utf8_error digit_error config steps σ).2 = (own σ ++ l)%list ∧ Forall (asked_in steps) l)
    as (l & Ho & Hl); [|exists l; by rewrite Forall_forall in Hl].
  unfold run. destruct (calls_service_new config (asked_in steps) σ) as (l & Ho & Hl).
  destruct (service_new config σ) as [[[]|e] σ']; [|by exists l]. cbn in *.
  destruct (calls_steps steps steps σ' (reflexivity _)) as (l' & Ho' & Hl'). exists (l ++ l')%list.
  rewrite Ho', Ho, app_assoc. split; [done|]. by apply Forall_app.
Qed.
End authority.
