(* ===== verification/ClientProps.v ===== *)
(** * Sessions, retries and loops of the daemon

    The lease of a session, the bounds of the retries, and that no loop of the
    daemon runs out of rounds. *)

From Stdlib Require Import ZArith Lia.
From stdpp Require Import base tactics decidable numbers list gmap strings.
From S2P Require Import Prelude Text Float64 Json Http Types AuthScheme ClientTypes Compat ClientHelpers ClientWorld.
From S2P Require Import ClientWallet DirectLease ClientService ClientRel.

Local Open Scope string_scope.

Section props.
Context `{!FeltOps, !WireTypes, !ClientTypes, !JsonText, !SerdeText, !WalletOps, !ClientEnv, !ClientWire}.
Implicit Types (config : AuthConfig) (lease : ActiveOpenRouterLease) (σ : State).

(** ** Running a program *)

Lemma bind_inv {A B} (m : M A) (f : A → M B) σ b σ' :
  (m ≫= f) σ = (Ok b, σ') → ∃ a σ1, m σ = (Ok a, σ1) ∧ f a σ1 = (Ok b, σ').
Proof. unfold mbind, M_bind. destruct (m σ) as [[a|e] σ1]; [|done]. intros H'. by exists a, σ1. Qed.
Lemma bind_run {A B} (m : M A) (f : A → M B) σ a σ1 : m σ = (Ok a, σ1) → (m ≫= f) σ = f a σ1.
Proof. unfold mbind, M_bind. by intros ->. Qed.
Lemma bind_err {A B} (m : M A) (f : A → M B) σ e σ1 : m σ = (Err e, σ1) → (m ≫= f) σ = (Err e, σ1).
Proof. unfold mbind, M_bind. by intros ->. Qed.
(** Equal steps, then equal continuations on every outcome. *)
Lemma bind_ext {A B} (m : M A) (f g : A → M B) σ :
  (∀ a σ1, m σ = (Ok a, σ1) → f a σ1 = g a σ1) → (m ≫= f) σ = (m ≫= g) σ.
Proof. unfold mbind, M_bind. destruct (m σ) as [[a|e] σ1]; auto. Qed.

Definition returns {A} (m : M A) (φ : A → Prop) : Prop := ∀ σ a σ', m σ = (Ok a, σ') → φ a.
Lemma returns_bind {A B} (m : M A) (f : A → M B) φ : (∀ a, returns (f a) φ) → returns (m ≫= f) φ.
Proof. intros Hf σ b σ' (a & σ1 & _ & H')%bind_inv. by eapply Hf. Qed.
Lemma returns_throw {A} e (φ : A → Prop) : returns (throw e) φ.
Proof. by intros σ a σ' H'. Qed.

Ltac inv_run :=
  repeat match goal with
  | H' : (_ ≫= _) _ = (Ok _, _) |- _ => apply bind_inv in H' as (? & ? & ? & ?)
  | H' : throw _ _ = (Ok _, _) |- _ => discriminate H'
  end.

(** ** The session's lease *)

Lemma issue_loop_session fuel config session_id stale lost :
  returns (issue_loop fuel config session_id stale lost) (λ lease, al_session_id lease = session_id).
Proof.
  revert stale lost. induction fuel as [|fuel IH]; intros stale lost; [apply returns_throw|]. cbn [issue_loop].
  do 4 (apply returns_bind; intros ?). destruct (is_success _).
  { apply returns_bind. intros now σ lease σ' H'. injection H' as Ha _. revert Ha. unfold accept_lease.
    intros H'. inv_ok. match goal with H : (match ?p with _ => _ end) = Ok lease |- _ => destruct p end. by inv_ok. }
  destruct (from_str _ _); [|apply returns_throw]. destruct (_ && _); [apply returns_bind; intros _; apply IH|].
  destruct (String.eqb _ "lease_pending"); [|apply returns_throw]. apply returns_bind. intros status.
  destruct lost; [apply returns_throw|]. apply returns_bind. intros _. apply IH.
Qed.

(** The slot's lease is live at the clock. *)
Definition live_lease σ lease : Prop :=
  direct_lease σ = Some lease ∧ (u64_add (env_now (world σ)).1 1 <? al_expires_at lease)%Z = true.

Lemma ensure_lease_run config session_id σ r σ' :
  ensure_direct_openrouter_lease config session_id σ = (r, σ') →
  (r = Ok tt → ∃ lease, direct_lease σ' = Some lease ∧ al_session_id lease = session_id) ∧
  (∀ lease, live_lease σ lease → al_session_id lease ≠ session_id →
     r = Err (LeaseSessionConflict (al_session_id lease) (al_expires_at lease)) ∧
     own σ' = own σ ∧ direct_lease σ' = Some lease).
Proof.
  unfold ensure_direct_openrouter_lease. intros Hrun. split.
  - intros ->. apply bind_inv in Hrun as (slot & σ1 & Hg & Hrun). injection Hg as <- <-.
    apply bind_inv in Hrun as (now & σ2 & Hn & Hrun).
    assert (direct_lease σ2 = direct_lease σ) as Hd.
    { revert Hn. destruct (direct_lease σ) eqn:E0; [|by intros [= _ <-]]. unfold now_seconds, draw, draw_at.
      destruct (env_now (world σ)). by intros [= _ <-]. }
    assert (∀ σ3, (_ ← recover config; lease ← issue_direct_openrouter_lease config session_id; set_lease (Some lease)) σ3
              = (Ok tt, σ') → ∃ lease, direct_lease σ' = Some lease ∧ al_session_id lease = session_id) as Hnew.
    { intros σ3 H'. apply bind_inv in H' as (? & ? & _ & H'). apply bind_inv in H' as (lease & ? & Hi & H').
      apply issue_loop_session in Hi. injection H' as <-. by exists lease. }
    destruct (direct_lease σ) as [lease|] eqn:E; [|by eapply Hnew].
    destruct (_ <? _)%Z.
    + destruct (String.eqb_spec (al_session_id lease) session_id) as [Hs|]; [|done]. injection Hrun as <-. by exists lease.
    + apply bind_inv in Hrun as (? & ? & _ & Hrun). apply bind_inv in Hrun as (? & ? & _ & Hrun). by eapply Hnew.
  - intros lease [Hd Hlive] Hs. rewrite (bind_run _ _ _ _ _ (eq_refl : gets direct_lease σ = (Ok _, _))) in Hrun.
    rewrite Hd in Hrun. unfold now_seconds, draw, draw_at in Hrun. unfold mbind, M_bind in Hrun.
    destruct (env_now (world σ)) as [now w] eqn:En. cbn in Hlive, Hrun. rewrite Hlive in Hrun.
    rewrite (proj2 (String.eqb_neq _ _) Hs) in Hrun. by injection Hrun as <- <-.
Qed.

Lemma ensure_verified_returns config lease :
  returns (ensure_verified config lease)
    (λ l, al_session_id l = al_session_id lease ∧ al_api_key l = al_api_key lease ∧ al_verified l = true).
Proof.
  unfold ensure_verified. destruct (al_verified lease) eqn:Hv; [by intros σ a σ' [= <- _]|].
  do 3 (apply returns_bind; intros ?). destruct (_ <=? _)%Z; [apply returns_throw|]. by intros σ l σ' [= <- _].
Qed.

(** What a reservation gives: a verified lease of the session, that stays in the
    slot. *)
Definition own_lease (session_id : string) lease σ : Prop :=
  al_session_id lease = session_id ∧ al_verified lease = true ∧
  ∃ kept, direct_lease σ = Some kept ∧ al_session_id kept = session_id ∧ al_api_key kept = al_api_key lease.
Lemma reserve_lease_own config session_id σ lease σ' :
  reserve_lease config session_id σ = (Ok lease, σ') → own_lease session_id lease σ'.
Proof.
  unfold reserve_lease. intros (slot & σ1 & _ & Hrun)%bind_inv. apply bind_inv in Hrun as ([] & σ2 & He & Hrun).
  apply ensure_lease_run in He as [He _]. destruct (He eq_refl) as (l & Hd & Hs).
  apply bind_inv in Hrun as (? & ? & [= <- <-] & Hrun). apply bind_inv in Hrun as (l' & σ3 & Hl & Hrun).
  rewrite Hd in Hl. injection Hl as <- <-. apply bind_inv in Hrun as (reserved & σ4 & Hv & Hrun).
  apply ensure_verified_returns in Hv as (Hs' & _ & Hv). apply bind_inv in Hrun as (? & ? & [= _ <-] & [= <- <-]).
  split; [congruence|]. split; [done|]. eexists. split; [done|]. cbn. split; [congruence|done].
Qed.
Lemma reserve_lease_conflict config session_id σ slot σ1 lease r σ' :
  lock_lease σ = (Ok slot, σ1) → live_lease σ1 lease → al_session_id lease ≠ session_id →
  reserve_lease config session_id σ = (r, σ') →
  r = Err (LeaseSessionConflict (al_session_id lease) (al_expires_at lease)) ∧
  own σ' = own σ1 ∧ direct_lease σ' = Some lease.
Proof.
  intros Hlock Hlive Hs. unfold reserve_lease. rewrite (bind_run _ _ _ _ _ Hlock). intros Hrun.
  destruct (ensure_direct_openrouter_lease config session_id σ1) as [r1 σ2] eqn:He.
  pose proof (ensure_lease_run _ _ _ _ _ He) as [_ Hc]. destruct (Hc lease Hlive Hs) as (-> & Ho & Hd).
  rewrite (bind_err _ _ _ _ _ He) in Hrun. by injection Hrun as <- <-.
Qed.

(** ** Retries *)

Lemma http_run request σ : ∃ answer σ1,
  http request σ = (Ok answer, σ1) ∧ own σ1 = (own σ ++ [EvHttp request answer])%list.
Proof.
  unfold http, draw, draw_at, mbind, M_bind. destruct (env_http (world σ) request) as [answer w]. cbn. by do 2 eexists.
Qed.

Definition is_http (e : Event) : bool := match e with EvHttp _ _ => true | _ => false end.

(** What a failed answer means: the error, and for a transient failure how long
    the service wants the next attempt to wait, if it says so. *)
Inductive failure : result string HttpResponse → AuthError → option (option Z) → Prop :=
| fail_transport error : failure (Err error) (Upstream error) (Some None)
| fail_unread response error :
    is_success (http_status response) = false → http_text response = Err error →
    failure (Ok response) (Upstream error) None
| fail_status response text :
    is_success (http_status response) = false → http_text response = Ok text →
    failure (Ok response) (UpstreamResponse (http_status response) (truncate_for_error text 500))
      (if is_transient_remote_status (http_status response)
       then Some (retry_after_delay (http_response_headers response)) else None).

Section retries.
Context (request : HttpRequest) (expires_at : Z).

(** The attempts from number [k] on, from [σ] through the events to the result
    and the state it leaves: an answer with a success status is the result; a
    failure for good, the third failure, and one after which the pause would not
    fit the lease at the time read then, are the result; after any other the
    program sleeps and asks again. *)
Inductive attempts : nat → State → list Event → result AuthError HttpResponse → State → Prop :=
| at_sent k σ response σ1 :
    http request σ = (Ok (Ok response), σ1) → is_success (http_status response) = true →
    attempts k σ [EvHttp request (Ok response)] (Ok response) σ1
| at_failed k σ answer σ1 error :
    http request σ = (Ok answer, σ1) → failure answer error None →
    attempts k σ [EvHttp request answer] (Err error) σ1
| at_last σ answer σ1 error hint :
    http request σ = (Ok answer, σ1) → failure answer error (Some hint) →
    attempts DIRECT_REMOTE_MAX_ATTEMPTS σ [EvHttp request answer] (Err error) σ1
| at_late k σ answer σ1 error hint now σ2 :
    (k < DIRECT_REMOTE_MAX_ATTEMPTS)%nat → http request σ = (Ok answer, σ1) → failure answer error (Some hint) →
    now_seconds σ1 = (Ok now, σ2) → retry_fits_lease now expires_at (direct_remote_retry_delay k hint) = false →
    attempts k σ [EvHttp request answer] (Err error) σ2
| at_again k σ answer σ1 error hint now σ2 σ3 l r σ' :
    (k < DIRECT_REMOTE_MAX_ATTEMPTS)%nat → http request σ = (Ok answer, σ1) → failure answer error (Some hint) →
    now_seconds σ1 = (Ok now, σ2) → retry_fits_lease now expires_at (direct_remote_retry_delay k hint) = true →
    sleep (direct_remote_retry_delay k hint) σ2 = (Ok tt, σ3) → attempts (S k) σ3 l r σ' →
    attempts k σ (EvHttp request answer :: EvSleep (direct_remote_retry_delay k hint) :: l) r σ'.

Lemma http_logged σ answer σ1 : http request σ = (Ok answer, σ1) → own σ1 = (own σ ++ [EvHttp request answer])%list.
Proof. destruct (http_run request σ) as (a & σ' & -> & Ho). by intros [= <- <-]. Qed.
Lemma now_logged σ now σ1 : now_seconds σ = (Ok now, σ1) → own σ1 = own σ.
Proof. unfold now_seconds, draw, draw_at. destruct (env_now (world σ)). by intros [= _ <-]. Qed.
Lemma attempts_events k σ l r σ' : attempts k σ l r σ' → (1 ≤ k ≤ DIRECT_REMOTE_MAX_ATTEMPTS)%nat →
  own σ' = (own σ ++ l)%list ∧ (1 ≤ length (List.filter is_http l) ≤ S DIRECT_REMOTE_MAX_ATTEMPTS - k)%nat.
Proof.
  unfold DIRECT_REMOTE_MAX_ATTEMPTS.
  induction 1 as [k σ response σ1 Hh|k σ answer σ1 error Hh|σ answer σ1 error hint Hh|k σ answer σ1 error hint now σ2 _ Hh _ Hn
    |k σ answer σ1 error hint now σ2 σ3 l r σ' Hk Hh _ Hn _ Hs _ IH]; intros Hb; apply http_logged in Hh; try apply now_logged in Hn.
  1-4: split; [congruence|cbn; unfold DIRECT_REMOTE_MAX_ATTEMPTS in *; lia].
  unfold DIRECT_REMOTE_MAX_ATTEMPTS in *. destruct IH as [Ho Hl]; [lia|].
  injection Hs as <-. cbn in Ho |- *. rewrite Ho, Hn, Hh, <- !app_assoc. split; [done|lia].
Qed.
End retries.

(** The rounds left and the attempt's number add up: the last attempt does not
    retry, so the budget's own error is never reached. *)
Lemma retry_or_run attempt expires_at delay (again : M HttpResponse) error σ r σ' :
  retry_or attempt expires_at delay again error σ = (r, σ') →
  ((DIRECT_REMOTE_MAX_ATTEMPTS ≤ attempt)%nat ∧ r = Err error ∧ σ' = σ) ∨
  (attempt < DIRECT_REMOTE_MAX_ATTEMPTS)%nat ∧ ∃ now σ1, now_seconds σ = (Ok now, σ1) ∧
   (retry_fits_lease now expires_at delay = false ∧ r = Err error ∧ σ' = σ1 ∨
    retry_fits_lease now expires_at delay = true ∧ ∃ σ2, sleep delay σ1 = (Ok tt, σ2) ∧ again σ2 = (r, σ')).
Proof.
  unfold retry_or. destruct (Nat.ltb_spec attempt DIRECT_REMOTE_MAX_ATTEMPTS) as [Ha|Ha]; [|intros [= <- <-]; by left].
  intros Hrun. right. split; [done|]. unfold mbind at 1, M_bind at 1 in Hrun.
  destruct (now_seconds σ) as [[now|e] σ1] eqn:Hn;
    [|unfold now_seconds, draw, draw_at in Hn; by destruct (env_now (world σ))].
  exists now, σ1. split; [done|]. destruct (retry_fits_lease now expires_at delay); [right|left; by injection Hrun as <- <-].
  split; [done|]. destruct (sleep delay σ1) as [[[]|e] σ2] eqn:Hs; [|by unfold sleep in Hs].
  rewrite (bind_run _ _ _ _ _ Hs) in Hrun. by exists σ2.
Qed.
Lemma send_attempts_run left k url key body expires_at σ r σ' :
  (left + k = S DIRECT_REMOTE_MAX_ATTEMPTS)%nat → (0 < left)%nat →
  send_attempts left k url key body expires_at σ = (r, σ') →
  ∃ l, attempts (inference_request url key body) expires_at k σ l r σ'.
Proof.
  revert k σ. induction left as [|left IH]; intros k σ Hsum Hpos; [lia|]. cbn [send_attempts].
  destruct (http_run (inference_request url key body) σ) as (answer & σ1 & Hh & _).
  rewrite (bind_run _ _ _ _ _ Hh).
  assert (∀ hint error, failure answer error (Some hint) →
    retry_or k expires_at (direct_remote_retry_delay k hint) (send_attempts left (S k) url key body expires_at) error σ1
      = (r, σ') → ∃ l, attempts (inference_request url key body) expires_at k σ l r σ') as Hretry.
  { intros hint error Hfail [(Hk & -> & ->)|(Hk & now & σ2 & Hn & [(Hf & -> & ->)|(Hf & σ3 & Hs & Hrun)])]%retry_or_run.
    - assert (k = DIRECT_REMOTE_MAX_ATTEMPTS) as -> by lia. eexists. by eapply at_last.
    - eexists. by eapply at_late.
    - destruct (IH (S k) σ3) as (l & Hl); [lia|lia|done|]. eexists. by eapply at_again. }
  destruct answer as [response|error]; [|by apply Hretry; constructor].
  destruct (is_success _) eqn:Hs.
  { intros [= <- <-]. eexists. by apply at_sent. }
  destruct (http_text response) as [text|error] eqn:Ht.
  - rewrite (bind_run _ _ _ text σ1) by done. pose proof (fail_status response text Hs Ht) as Hfail.
    destruct (is_transient_remote_status _); [by apply Hretry|]. intros [= <- <-]. eexists. by apply at_failed.
  - rewrite (bind_err _ _ _ (Upstream error) σ1) by done. intros [= <- <-]. eexists. by apply at_failed; [|constructor].
Qed.

(** C20: an inference request is sent at least once and at most three times. Each
    attempt is the same request; a response with a success status is the result;
    after a failure the request is sent again only if the failure is transient (no
    response, or a transient status), fewer than three attempts were made, and the
    pause the service or the backoff asks for ends before the lease by the clock
    read right after that failure; otherwise the result is exactly the error of
    that last attempt, with its status and body. The loop never gives up with an
    error of its own. *)
Theorem inference_retries url key body expires_at σ r σ' :
  send_openrouter_request url key body expires_at σ = (r, σ') →
  ∃ l, attempts (inference_request url key body) expires_at 1 σ l r σ' ∧
       own σ' = (own σ ++ l)%list ∧ (1 ≤ length (List.filter is_http l) ≤ 3)%nat.
Proof.
  intros Hrun. destruct (send_attempts_run 3 1 url key body expires_at σ r σ') as (l & Hl); [done|lia|done|].
  exists l. split; [done|]. apply attempts_events in Hl as [Ho Hn]; [|unfold DIRECT_REMOTE_MAX_ATTEMPTS; lia].
  by split.
Qed.

(** ** The keys of a session *)

(** From [σ] to [σ'] no call carries a key as bearer and none moves the note. *)
Definition quiet σ σ' : Prop := ∃ l, own σ' = (own σ ++ l)%list ∧ Forall (λ e, plain_event e = true) l.
(** From [σ] to [σ'] only [request] is sent, again after a pause. *)
Definition only_sends (request : HttpRequest) σ σ' : Prop :=
  ∃ l, own σ' = (own σ ++ l)%list ∧ Forall (λ e, match e with EvHttp q _ => q = request | EvSleep _ => True | _ => False end) l.

Lemma calls_quiet {A} (m : M A) σ r σ' : calls (λ e, plain_event e = true) m → m σ = (r, σ') → quiet σ σ'.
Proof. intros Hm Hrun. specialize (Hm σ). by rewrite Hrun in Hm. Qed.
Lemma quiet_refl σ : quiet σ σ.
Proof. exists []. by rewrite app_nil_r. Qed.
Lemma quiet_trans σ1 σ2 σ3 : quiet σ1 σ2 → quiet σ2 σ3 → quiet σ1 σ3.
Proof.
  intros (l & Hl & Hp) (l' & Hl' & Hp'). exists (l ++ l')%list. rewrite Hl', Hl, app_assoc. split; [done|]. by apply Forall_app.
Qed.
Lemma send_only url key body expires_at σ r σ' :
  send_openrouter_request url key body expires_at σ = (r, σ') → only_sends (inference_request url key body) σ σ'.
Proof.
  intros Hrun. destruct (send_attempts_run 3 1 url key body expires_at σ r σ') as (l & Hl); [done|lia|done|]. exists l. split.
  - apply attempts_events in Hl as [Ho _]; [done|unfold DIRECT_REMOTE_MAX_ATTEMPTS; lia].
  - clear Hrun. induction Hl; repeat (apply Forall_cons; split; [done|]); try apply Forall_nil; done.
Qed.

Section keys.
Context (config : AuthConfig) (session_id path : string) (body : Value).

(** The request on a lease. *)
Definition on_lease lease : HttpRequest :=
  inference_request (trim_slashes (al_openrouter_api_base lease) +:+ path) (al_api_key lease) body.
Definition send_on lease : M HttpResponse :=
  send_openrouter_request (trim_slashes (al_openrouter_api_base lease) +:+ path) (al_api_key lease) body (al_expires_at lease).

(** The rounds of a request, each from the state the one before left: the session's
    lease is reserved, the request is sent on it and only on it, and after a
    failure the lease may be retired for another round. *)
Inductive key_rounds : nat → State → State → Prop :=
| rounds_refused n σ e σ' : reserve_lease config session_id σ = (Err e, σ') → quiet σ σ' → key_rounds n σ σ'
| rounds_sent n σ lease σ1 r σ2 σ' :
    reserve_lease config session_id σ = (Ok lease, σ1) → quiet σ σ1 → own_lease session_id lease σ1 →
    send_on lease σ1 = (r, σ2) → only_sends (on_lease lease) σ1 σ2 → quiet σ2 σ' → key_rounds n σ σ'
| rounds_again n σ lease σ1 e σ2 σ3 σ' :
    reserve_lease config session_id σ = (Ok lease, σ1) → quiet σ σ1 → own_lease session_id lease σ1 →
    send_on lease σ1 = (Err e, σ2) → only_sends (on_lease lease) σ1 σ2 →
    (_ ← drop_lease (al_client_request_id lease); retire_direct_openrouter_lease config (al_client_request_id lease)) σ2
      = (Ok tt, σ3) → quiet σ2 σ3 → key_rounds n σ3 σ' → key_rounds (S n) σ σ'.

Lemma verified_send lease : al_verified lease = true →
  send_verified_openrouter_request config lease path body = send_on lease.
Proof. intros Hv. unfold send_verified_openrouter_request, ensure_verified. by rewrite Hv. Qed.
Lemma open_loop_rounds n replaced σ r σ' : (n = if replaced : bool then 0 else 1)%nat →
  open_loop (S n) config path body session_id replaced σ = (r, σ') → key_rounds n σ σ'.
Proof.
  revert replaced σ. induction n as [|n IH]; intros replaced σ Hn; cbn [open_loop]; intros Hrun.
  all: unfold mbind at 1, M_bind at 1 in Hrun; destruct (reserve_lease config session_id σ) as [[lease|e] σ1] eqn:Hres;
    (assert (quiet σ σ1) as Hq by (eapply calls_quiet; [apply calls_reserve|exact Hres]; done));
    [|injection Hrun as <- <-; by eapply rounds_refused].
  all: pose proof (reserve_lease_own _ _ _ _ _ Hres) as Hown; pose proof Hown as (_ & Hv & _);
    rewrite (verified_send _ Hv) in Hrun; destruct (send_on lease σ1) as [o σ2] eqn:Hsend;
    pose proof (send_only _ _ _ _ _ _ _ Hsend) as Ho;
    rewrite (bind_run _ _ _ o σ2) in Hrun by (unfold try; by rewrite Hsend).
  all: destruct o as [response|error]; [injection Hrun as <- <-; eapply rounds_sent; try done; apply quiet_refl|].
  all: assert (calls (λ e, plain_event e = true) (_ ← drop_lease (al_client_request_id lease);
      _ ← try (retire_direct_openrouter_lease config (al_client_request_id lease));
      @throw _ _ _ _ _ (string * HttpResponse * bool) error)) as Hlast
    by (apply calls_bind; [by apply calls_drop|]; intros _; apply calls_bind; [apply calls_try, calls_retire; by intros|];
        intros _; apply calls_throw).
  - destruct replaced; [|done]. cbn [negb andb] in Hrun. eapply rounds_sent; try done. by eapply calls_quiet.
  - destruct (_ && _); [|eapply rounds_sent; try done; by eapply calls_quiet]. destruct replaced; [done|].
    destruct ((_ ← drop_lease (al_client_request_id lease);
      retire_direct_openrouter_lease config (al_client_request_id lease)) σ2) as [o3 σ3] eqn:Hret.
    assert (quiet σ2 σ3) as Hq3.
    { eapply calls_quiet; [|exact Hret]. apply calls_bind; [by apply calls_drop|]. intros _. apply calls_retire; by intros. }
    revert Hret Hrun. unfold mbind, M_bind. destruct (drop_lease _ σ2) as [[[]|e4] σ4] eqn:Hd4.
    + destruct (retire_direct_openrouter_lease _ _ σ4) as [[[]|e5] σ5] eqn:Hd5; intros [= <- <-] Hrun.
      * eapply rounds_again; try done; [|eapply (IH true); [lia|exact Hrun]]. unfold mbind, M_bind. by rewrite Hd4.
      * injection Hrun as <- <-. by eapply rounds_sent.
    + intros [= <- <-] [= <- <-]. by eapply rounds_sent.
Qed.
End keys.

(** How a request of [session_id] may use keys: not at all, or, past the guard and
    the scheme check, in at most two rounds on leases of its session. *)
Definition isolated config (request : CoreRequest) (session_id : option string) σ σ' : Prop :=
  quiet σ σ' ∨
  ∃ id σ0 σ1, normalize_session_id session_id = Ok id ∧
    (_ ← withdrawal_guard; ensure_scheme_agreement config) σ = (Ok tt, σ0) ∧ quiet σ σ0 ∧
    key_rounds config id (openrouter_request (cq_path request) (cq_body request)).1
      (openrouter_request (cq_path request) (cq_body request)).2 1 σ0 σ1 ∧
    quiet σ1 σ'.

Lemma isolated_session {A} config request session_id (rest : string * HttpResponse * bool → M A) σ r σ' :
  (∀ a, calls (λ e, plain_event e = true) (rest a)) →
  (_ ← withdrawal_guard;
   id ← lift (normalize_session_id session_id);
   a ← open_direct_openrouter_response config request id; rest a) σ = (r, σ') →
  isolated config request session_id σ σ'.
Proof.
  intros Hrest Hrun. unfold mbind at 1, M_bind at 1 in Hrun. destruct (withdrawal_guard σ) as [[[]|e] σ1] eqn:Hg;
    (assert (quiet σ σ1) as Hq1 by (eapply calls_quiet; [|exact Hg]; unfold withdrawal_guard; calls_auto));
    [|injection Hrun as <- <-; by left].
  destruct (normalize_session_id session_id) as [id|e] eqn:Hid; [|injection Hrun as <- <-; by left].
  rewrite (bind_run _ _ _ id σ1) in Hrun by done. unfold open_direct_openrouter_response in Hrun.
  destruct (openrouter_request _ _) as [path body] eqn:Hb.
  destruct (ensure_scheme_agreement config σ1) as [[[]|e] σ2] eqn:Hs;
    (assert (quiet σ1 σ2) as Hq2 by (eapply calls_quiet; [apply calls_scheme|exact Hs]; by intros));
    [|left; rewrite (bind_err _ _ _ e σ2) in Hrun; [injection Hrun as <- <-; by eapply quiet_trans|by apply bind_err]].
  assert (∃ r3 σ3, open_loop 2 config path body id false σ2 = (r3, σ3) ∧ quiet σ3 σ') as (r3 & σ3 & Hl & Hq3).
  { destruct (open_loop 2 config path body id false σ2) as [o σ3] eqn:Hl. exists o, σ3. split; [done|].
    assert ((_ ← ensure_scheme_agreement config; open_loop 2 config path body id false) σ1 = (o, σ3)) as Ho
      by (rewrite (bind_run _ _ _ _ _ Hs); exact Hl).
    destruct o as [a|e]; [rewrite (bind_run _ _ _ _ _ Ho) in Hrun; by eapply calls_quiet|].
    rewrite (bind_err _ _ _ _ _ Ho) in Hrun. injection Hrun as <- <-. apply quiet_refl. }
  right. exists id, σ2, σ3. split; [done|]. split; [unfold mbind, M_bind; by rewrite Hg|].
  split; [by eapply quiet_trans|]. split; [|done]. rewrite Hb. cbn [fst snd]. eapply (open_loop_rounds _ _ _ _ 1 false); [done|exact Hl].
Qed.

(** C15: a chat's key is its own. In direct mode a request of a session, streamed
    or not, sends a key only in one of at most two rounds: the round reserves a
    lease of the request's own session, verified, that stays in the slot with its
    key, and sends the request with that lease's key to that lease's origin and
    nothing else; no other call carries a key as bearer. If the slot the
    reservation locks holds another session's live lease, the reservation is
    refused with the conflict, without any call, and that lease stays. *)
Theorem session_isolation config request session_id :
  ac_request_mode config = DirectOpenrouter →
  (∀ σ r σ', execute_request_in_session config request session_id σ = (r, σ') → isolated config request session_id σ σ') ∧
  (∀ σ r σ', execute_streaming_request_in_session config request session_id σ = (r, σ') →
     isolated config request session_id σ σ') ∧
  (∀ id σ slot σ1 lease r σ', lock_lease σ = (Ok slot, σ1) → live_lease σ1 lease → al_session_id lease ≠ id →
     reserve_lease config id σ = (r, σ') →
     r = Err (LeaseSessionConflict (al_session_id lease) (al_expires_at lease)) ∧
     own σ' = own σ1 ∧ direct_lease σ' = Some lease).
Proof.
  intros Hmode. split; [|split].
  - intros σ r σ'. unfold execute_request_in_session. rewrite Hmode. unfold execute_direct_openrouter.
    apply isolated_session. intros [[id upstream] retire]. unfold finish_direct_openrouter_lease.
    assert (∀ e, plain_event e = true → plain_event e = true) as Hb by done.
    pose proof (calls_status config (λ e, plain_event e = true)).
    pose proof (calls_retire config (λ e, plain_event e = true) Hb id). calls_auto.
  - intros σ r σ'. unfold execute_streaming_request_in_session. rewrite Hmode. apply isolated_session.
    intros [[? ?] ?]. apply calls_ret.
  - intros id σ slot σ1 lease r σ'. apply reserve_lease_conflict.
Qed.

(** ** The loops end *)

Lemma http_instant request σ answer σ1 : http request σ = (Ok answer, σ1) → (instant σ ≤ instant σ1)%Z.
Proof.
  unfold http, draw, draw_at, mbind, M_bind. destruct (env_http (world σ) request) as [a w]. cbn.
  intros [= _ <-]. cbn. lia.
Qed.

(** Rounds that cannot be used up before the deadline. *)
Lemma retire_loop_fuel n m config id request deadline σ :
  (1 ≤ n)%nat → (deadline - instant σ ≤ DIRECT_LEASE_RETIRE_POLL_INTERVAL * Z.of_nat n)%Z →
  (1 ≤ m)%nat → (deadline - instant σ ≤ DIRECT_LEASE_RETIRE_POLL_INTERVAL * Z.of_nat m)%Z →
  retire_loop n config id request deadline σ = retire_loop m config id request deadline σ.
Proof.
  unfold DIRECT_LEASE_RETIRE_POLL_INTERVAL. revert m σ.
  induction n as [|n IH]; intros [|m] σ H1' Hn H2' Hm; try lia. cbn [retire_loop].
  apply bind_ext. intros answer σ1 Hi%http_instant. apply bind_ext. intros response σ2 Hl1.
  apply bind_ext. intros body σ3 Hl2. injection Hl1 as _ <-. injection Hl2 as _ <-.
  destruct (is_success _); [done|]. destruct (from_str _ body) as [error|]; [|done].
  apply bind_ext. intros now σ4 [= <- <-]. destruct (er_retriable error); [|done]. cbn [andb].
  unfold DIRECT_LEASE_RETIRE_POLL_INTERVAL.
  destruct (Z.ltb_spec (instant σ1 + 2000) deadline) as [Hlt|]; [|done].
  apply bind_ext. intros [] σ5 Hs. unfold sleep, log, modify, mbind, M_bind in Hs. injection Hs as <-.
  apply IH; cbn; lia.
Qed.

Lemma issue_loop_fuel n m config session_id stale lost σ :
  let rounds := S ((if stale : bool then 0 else 1) + (if lost : bool then 0 else 1)) in
  (rounds ≤ n)%nat → (rounds ≤ m)%nat →
  issue_loop n config session_id stale lost σ = issue_loop m config session_id stale lost σ.
Proof.
  revert m stale lost σ. induction n as [|n IH]; intros [|m] stale lost σ rounds Hn Hm; try (unfold rounds in *; lia).
  cbn [issue_loop]. do 4 (apply bind_ext; intros ? ? _).
  destruct (is_success _); [done|]. destruct (from_str _ _) as [error|]; [|done].
  destruct (String.eqb _ "stale_root"), stale; cbn [andb negb].
  2: { apply bind_ext. intros _ σ5 _. apply IH; unfold rounds in *; destruct lost; lia. }
  all: destruct (String.eqb _ "lease_pending"); [|done]; apply bind_ext; intros ? ? _;
    destruct lost; [done|]; apply bind_ext; intros ? ? _; apply IH; unfold rounds in *; lia.
Qed.

Lemma open_loop_fuel n m config path body session_id replaced σ :
  let rounds := (if replaced : bool then 1 else 2)%nat in
  (rounds ≤ n)%nat → (rounds ≤ m)%nat →
  open_loop n config path body session_id replaced σ = open_loop m config path body session_id replaced σ.
Proof.
  revert m replaced σ. induction n as [|n IH]; intros [|m] replaced σ rounds Hn Hm;
    try (unfold rounds in *; destruct replaced; lia).
  cbn [open_loop]. do 2 (apply bind_ext; intros ? ? _). destruct (_ : result AuthError HttpResponse); [done|].
  destruct replaced; cbn [andb negb]; [done|]. destruct (_ || _); [|done].
  do 2 (apply bind_ext; intros ? ? _). apply IH; unfold rounds in *; lia.
Qed.

(** C21: the daemon's loops end. More rounds than the model gives them change
    nothing: the polls of a retirement stop at their 45 seconds whatever the
    server answers, an issuance repeats at most twice, a rejected key is replaced
    once. *)
Theorem loops_end config :
  (∀ n id request σ, (RETIRE_FUEL ≤ n)%nat →
     retire_loop n config id request (instant σ + DIRECT_LEASE_RETIRE_MAX_WAIT) σ =
     retire_loop RETIRE_FUEL config id request (instant σ + DIRECT_LEASE_RETIRE_MAX_WAIT) σ) ∧
  (∀ n session_id σ, (3 ≤ n)%nat →
     issue_loop n config session_id false false σ = issue_direct_openrouter_lease config session_id σ) ∧
  (∀ n path body session_id σ, (2 ≤ n)%nat →
     open_loop n config path body session_id false σ = open_loop 2 config path body session_id false σ).
Proof.
  split; [|split].
  - intros n id request σ Hn. unfold RETIRE_FUEL in *.
    apply retire_loop_fuel; unfold DIRECT_LEASE_RETIRE_MAX_WAIT, DIRECT_LEASE_RETIRE_POLL_INTERVAL; lia.
  - intros n session_id σ Hn. apply issue_loop_fuel; cbn; lia.
  - intros n path body session_id σ Hn. apply open_loop_fuel; cbn; lia.
Qed.
End props.
