(* ===== verification/IndexerApi.v ===== *)
(** * The daemon reads the indexer

    The responses of the indexer's routes as HTTP messages, and what the daemon's
    [IndexerClient] makes of them: a deposit plan is drawn up for the vault, through
    the contract's log, the poller, the mirror, the routes and the daemon. And the
    root that [poll_root] of [zkapi-serverd/src/routes.rs] adopts is a root of the
    vault, through the same parts. *)

From Stdlib Require Import ZArith Lia Ascii.
From stdpp Require Import base tactics decidable numbers list gmap fin_maps relations strings.
From S2P Require Import Prelude Text Float64 Json Http Types AuthScheme Errors Store StoreTheory.
From S2P Require Import TreeMirror TreeMirrorTheory Poller PollerTheory Router IndexerServer.
From S2P Require Import ClientTypes Compat ClientHelpers ClientWorld ClientWallet DirectLease ClientService ClientTheory.
From S2P Require Import ClientProps ClientRel.

Local Open Scope string_scope.

(** ** Paths with a note id *)

Lemma segments_note_path n last : in_u32 n → str_forall (λ c, negb (Ascii.eqb c "/")) last = true →
  segments ("/v1/tree/notes/" +:+ show_uint n +:+ "/" +:+ last) = Some ["v1"; "tree"; "notes"; show_uint n; last].
Proof.
  intros Hn Hl. unfold segments.
  change (strip_prefix "/" ("/v1/tree/notes/" +:+ show_uint n +:+ "/" +:+ last))
    with (Some ("v1/tree/notes/" +:+ show_uint n +:+ "/" +:+ last)).
  cbn [fmap option_fmap option_map]. f_equal.
  change ("v1/tree/notes/" +:+ show_uint n +:+ "/" +:+ last)
    with ("v1" +:+ String "/" ("tree" +:+ String "/" ("notes" +:+ String "/" (show_uint n +:+ String "/" last)))).
  assert (str_forall (λ c, negb (Ascii.eqb c "/")) (show_uint n) = true) as Hs.
  { apply (str_forall_weaken is_ascii_digit); [intros c; by apply digit_not|]. apply show_uint_decimal. apply Hn. }
  rewrite 3!split_char_app by reflexivity. by rewrite split_char_app, split_char_solid.
Qed.

(** ** The responses *)

Section api.
Context `{!FeltOps, !MerkleOps, !WireTypes, !WireOps, !JsonText, !SerdeText, !PollerOps, !ClientTypes}.

(** The body of a handler's answer; the order of a struct's members, which no reader
    of JSON sees, is that of their keys. *)
Definition path_value (p : TreePathResponse) : Value :=
  json_object [("note_id", Num (PosInt (tp_note_id p))); ("leaf", felt_to_value (tp_leaf p));
               ("siblings", Array (map felt_to_value (tp_siblings p)))].
Definition reply_value (r : IndexerReply) : option Value :=
  match r with
  | IxHealth _ text => Some (json_object [("status", Str text)])
  | IxRoot r => (λ root, json_object [("root", felt_to_value root)]) <$> ok r
  | IxNextNoteId r => (λ n, json_object [("next_note_id", Num (PosInt n))]) <$> ok r
  | IxSnapshot r =>
      (λ s, json_object [("root", felt_to_value (ts_root s)); ("next_note_id", Num (PosInt (ts_next_note_id s)));
                         ("leaves", Array (map felt_to_value (ts_leaves s)))]) <$> ok r
  | IxNotePath r | IxZeroPath r => path_value <$> ok r
  | IxStatus _ => None
  end.
Definition result_status {A} (r : result Z A) : Z := match r with Ok _ => 200 | Err status => status end.
Definition reply_status_code (r : IndexerReply) : Z :=
  match r with
  | IxHealth status _ => status
  | IxRoot r => result_status r
  | IxNextNoteId r => result_status r
  | IxSnapshot r => result_status r
  | IxNotePath r | IxZeroPath r => result_status r
  | IxStatus status => status
  end.
(** Without the headers of the transport. *)
Definition reply_http (r : IndexerReply) : HttpResponse := {|
  http_status := reply_status_code r;
  http_response_headers := match reply_value r with Some _ => [("content-type", Ok "application/json")] | None => [] end;
  http_text := Ok (match reply_value r with Some v => json_print v | None => "" end);
|}.

(** What the handlers put in their replies: [u32] ids, and the two health texts. *)
Definition reply_wf (r : IndexerReply) : Prop :=
  match r with
  | IxHealth _ text => text = "ok" ∨ text = "syncing"
  | IxNextNoteId (Ok n) => in_u32 n
  | IxSnapshot (Ok s) => in_u32 (ts_next_note_id s)
  | IxNotePath (Ok p) | IxZeroPath (Ok p) => in_u32 (tp_note_id p)
  | _ => True
  end.
(** [serde_json] reads what it printed of such a reply. *)
Class ReplyLaws := {
  reply_parse r v : reply_wf r → reply_value r = Some v → json_parse (json_print v) = Ok v;
  felt_parse f : felt_of_value (felt_to_value f) = Some f;
}.

(** ** What a client reads of a response *)

Context `{!ReplyLaws}.

Lemma felts_parse l : mapM felt_of_value (map felt_to_value l) = Some l.
Proof. induction l as [|f l IH]; [done|]. cbn. rewrite felt_parse. cbn. by rewrite IH. Qed.
Lemma path_value_siblings p :
  (m ← as_object (path_value p); field_req (λ v, l ← as_array v; mapM felt_of_value l) "siblings" m) = Some (tp_siblings p).
Proof. change (mapM felt_of_value (map felt_to_value (tp_siblings p)) = Some (tp_siblings p)). apply felts_parse. Qed.
End api.

(** ** Where the client's requests go *)

Section dispatch.
Context `{!Axum, !AxumLaws}.

(** A GET route is found by its place in the table, when no other matches. *)
Lemma indexer_dispatch k path l r h params : segments path = Some l → indexer_routes !! k = Some r →
  rt_methods r = [("GET", h)] → match_segments (rt_path r) l = Some params →
  (∀ k' r', indexer_routes !! k' = Some r' → is_Some (match_segments (rt_path r') l) → k' = k) →
  axum_dispatch indexer_routes "GET" path = Handled h params.
Proof.
  intros Hl Hk Hh Hm Hone. eapply axum_found.
  - by eapply list_elem_of_lookup_2.
  - unfold match_path. by rewrite Hl.
  - rewrite Hh. by left.
  - intros r' [k' Hk']%list_elem_of_lookup_1 Hm'. unfold match_path in Hm'. rewrite Hl in Hm'.
    rewrite (Hone k' r' Hk' Hm') in Hk'. congruence.
  - intros h'. rewrite Hh. intros [= ->]%list_elem_of_singleton. done.
Qed.
Ltac one_route :=
  intros k' r' Hk' Hm'; do 6 (destruct k' as [|k']; [injection Hk' as <-; first [reflexivity|by destruct Hm']|]); done.
Lemma dispatch_root : axum_dispatch indexer_routes "GET" "/v1/tree/root" = Handled IxHandleRoot [].
Proof. eapply (indexer_dispatch 1); [reflexivity..|one_route]. Qed.
Lemma dispatch_next_note_id : axum_dispatch indexer_routes "GET" "/v1/tree/next-note-id" = Handled IxHandleNextNoteId [].
Proof. eapply (indexer_dispatch 2); [reflexivity..|one_route]. Qed.
Lemma dispatch_zero_path n : in_u32 n →
  axum_dispatch indexer_routes "GET" ("/v1/tree/notes/" +:+ show_uint n +:+ "/zero-path") = Handled IxHandleZeroPath [show_uint n].
Proof.
  intros Hn. assert (show_uint n ≠ "") as Hne%String.eqb_neq by (apply show_uint_not_empty, Hn).
  eapply (indexer_dispatch 5); [by apply segments_note_path|reflexivity..| |].
  - cbn -[show_uint]. by rewrite Hne.
  - intros k' r' Hk' Hm'. do 6 (destruct k' as [|k']; [injection Hk' as <-; revert Hm'; cbn -[show_uint]; rewrite ?Hne;
      first [reflexivity|by intros []]|]). done.
Qed.
End dispatch.

(** ** The daemon beside an indexer *)

Section deposit.
Context `{!FeltOps, !MerkleOps, !MerkleLaws, !WireTypes, !WireOps, !JsonText, !SerdeText, !PollerOps, !PollerLaws}.
Context `{!ClientTypes, !WalletOps, !ClientEnv, !ClientWire, !ReplyLaws, !Axum, !AxumLaws}.
Context (chain : Z → list RpcLog) (indexer : IndexerConfig) (ticks : list Tick) (read_fails : bool) (d : Poller.Disk).
Context (config : AuthConfig).

(** What the indexer answers at some time of its life, its reads of the service in
    order and perhaps in the middle of a poll. *)
Definition indexed (path : string) (response : HttpResponse) : Prop :=
  ∃ k i j first self self', (k ≤ i ≤ j)%nat ∧
    run_indexer read_fails indexer d ticks !! k = Some first ∧
    run_indexer read_fails indexer d ticks !! i = Some self ∧
    run_indexer read_fails indexer d ticks !! j = Some self' ∧
    response = reply_http (indexer_serve (seen first self) self' "GET" path).
Context (Hpolls : polls_vault chain indexer ticks d).

(** An answer that is no error comes from a service that is ready, and its mirror
    refines the vault at a moment. *)
Lemma indexed_ready path response : indexed path response → ∃ self self',
  response = reply_http (indexer_serve self self' "GET" path) ∧
  (ready self = true → ∃ es, moment chain indexer ticks es ∧ refines (mirror self) (vault_of es)).
Proof.
  intros (k & i & j & first & self & self' & Hle & Hk & Hi & Hj & ->). exists (seen first self), self'.
  split; [done|]. intros Hready.
  destruct (run_indexer_moments chain indexer ticks read_fails d Hpolls k i j first self self' Hle Hk Hi Hj Hready)
    as (es & _ & He & _ & _ & Hr & _). by exists es.
Qed.

Lemma get_json_inv {A} (dec : Value → option A) f g h url σ a σ' : get_json dec f g h url σ = (Ok a, σ') →
  ∃ response, EvHttp (get url) (Ok response) ∈ own σ' ∧ is_http_error (http_status response) = false ∧
    json_body dec response = Ok a.
Proof.
  intros (answer & σ1 & Hh & Hrun)%bind_inv. destruct (http_run (get url) σ) as (answer' & σ2 & Hh' & Hown).
  rewrite Hh in Hh'. injection Hh' as <- <-.
  apply bind_inv in Hrun as (response & σ2 & [= Hr <-] & Hrun).
  apply bind_inv in Hrun as (response' & σ3 & [= Hs <-] & Hrun). injection Hrun as Hj <-.
  destruct answer as [resp|]; [|done]. injection Hr as ->. unfold error_for_status in Hs.
  destruct (is_http_error (http_status response)) eqn:He; [done|]. injection Hs as <-.
  exists response. split; [rewrite Hown; apply elem_of_app; right; by left|]. split; [done|].
  destruct (json_body dec response); [by injection Hj as ->|done].
Qed.

Lemma own_kept {A} (m : M A) σ r σ' : moves own_grows m → m σ = (r, σ') → ∀ e, e ∈ own σ → e ∈ own σ'.
Proof. intros Hm Hrun e He. specialize (Hm σ). rewrite Hrun in Hm. destruct Hm as [l Hl]. cbn in Hl. rewrite Hl. apply elem_of_app. by left. Qed.
Lemma kept_get {A} (dec : Value → option A) f g h url σ r σ' : get_json dec f g h url σ = (r, σ') →
  ∀ e, e ∈ own σ → e ∈ own σ'.
Proof. apply own_kept, (moves_get_json own_grows (λ _ _, True)). Qed.

(** The body of a reply, as its reader decodes it. *)
Lemma json_body_reply {A} (dec : Value → option A) r v a : reply_wf r → reply_value r = Some v →
  json_body dec (reply_http r) = Ok a → dec v = Some a.
Proof.
  intros Hwf Hv. unfold json_body, reply_http. rewrite Hv. cbn. unfold from_str. rewrite (reply_parse r v Hwf Hv).
  destruct (dec v); [by intros [= ->]|done].
Qed.
Lemma refines_next_u32 m v : refines m v → in_u32 (TreeMirror.next_note_id m).
Proof. intros Hr. destruct (ref_next _ _ Hr) as [[Hn _]|[Hn _]]; unfold in_u32, u32_MAX in *; lia. Qed.

Lemma read_root response root : indexed "/v1/tree/root" response → is_http_error (http_status response) = false →
  json_body (λ v, m ← as_object v; field_req felt_of_value "root" m) response = Ok root →
  ∃ es, moment chain indexer ticks es ∧ root_of (vault_of es) root.
Proof.
  intros (self & self' & -> & Hr)%indexed_ready.
  unfold indexer_serve. rewrite dispatch_root. unfold handle_root, ensure_ready. destruct (ready self); [|done].
  intros _ Hj. destruct (Hr eq_refl) as (es & He & Hm). exists es. split; [done|].
  apply (json_body_reply _ _ (json_object [("root", felt_to_value (mirror_root (mirror self)))])) in Hj; [|done..].
  cbn in Hj. rewrite felt_parse in Hj. injection Hj as <-. by apply refines_root.
Qed.

Lemma read_next_note_id response n : indexed "/v1/tree/next-note-id" response → is_http_error (http_status response) = false →
  json_body (λ v, m ← as_object v; field_req as_u32 "next_note_id" m) response = Ok n →
  in_u32 n ∧ ∃ es, moment chain indexer ticks es ∧ next_id (vault_of es) n.
Proof.
  intros (self & self' & -> & Hr)%indexed_ready.
  unfold indexer_serve. rewrite dispatch_next_note_id. unfold handle_next_note_id, ensure_ready. destruct (ready self); [|done].
  intros _ Hj. destruct (Hr eq_refl) as (es & He & Hm). pose proof (refines_next_u32 _ _ Hm) as Hn.
  apply (json_body_reply _ _ (json_object [("next_note_id", Num (PosInt (TreeMirror.next_note_id (mirror self))))])) in Hj; [|done..].
  assert (n = TreeMirror.next_note_id (mirror self)) as ->.
  { cbn in Hj. unfold as_u32, as_u64 in Hj. revert Hj. destruct (_ && _); [|done].
    cbn [mbind option_bind]. destruct (_ <=? _)%Z; [by intros [= <-]|done]. }
  split; [done|]. exists es. split; [done|by apply refines_next].
Qed.

Lemma read_zero_path response n siblings : in_u32 n →
  indexed ("/v1/tree/notes/" +:+ show_uint n +:+ "/zero-path") response → is_http_error (http_status response) = false →
  json_body (λ v, m ← as_object v; field_req (λ v, l ← as_array v; mapM felt_of_value l) "siblings" m) response = Ok siblings →
  ∃ es, moment chain indexer ticks es ∧ path_of (vault_of es) n siblings.
Proof.
  intros Hn (self & self' & -> & Hr)%indexed_ready.
  unfold indexer_serve. rewrite (dispatch_zero_path n Hn), (axum_u32_show n Hn).
  unfold handle_zero_path, ensure_ready. destruct (ready self); [|done].
  intros _ Hj. destruct (Hr eq_refl) as (es & He & Hm). exists es. split; [done|].
  eapply json_body_reply in Hj; [|exact Hn|reflexivity]. rewrite path_value_siblings in Hj. injection Hj as <-.
  by apply refines_path.
Qed.

(** C28: a deposit plan is drawn up for the vault. When the daemon's [indexer_url] is
    an indexer that polls the contract's log at a node that tells the truth or
    fails, a plan it returns has exactly the first free note id, the root of the
    vault's tree, and the path of the empty leaf at that id, each of the vault at
    one moment of the indexer: after an initial part of the contract's events that
    reaches at least a head the node reported. This goes through the contract's
    log, the poller, the mirror, the routes while the poller runs, the JSON of the
    replies and the daemon's reads. *)
Theorem deposit_plan_fits_vault amount σ plan σ' :
  prepare_deposit config amount σ = (Ok plan, σ') →
  (∀ path response, EvHttp (get (trim_slashes (ac_indexer_url config) +:+ path)) (Ok response) ∈ own σ' → indexed path response) →
  ∃ es1 es2 es3,
    (moment chain indexer ticks es1 ∧ next_id (vault_of es1) (dp_next_note_id plan))
    ∧ (moment chain indexer ticks es2 ∧ root_of (vault_of es2) (dp_active_root plan))
    ∧ (moment chain indexer ticks es3 ∧ path_of (vault_of es3) (dp_next_note_id plan) (dp_zero_path plan)).
Proof.
  intros Hrun Hserved. unfold prepare_deposit in Hrun.
  apply bind_inv in Hrun as (? & ? & _ & Hrun). apply bind_inv in Hrun as (wallet & ? & _ & Hrun).
  apply bind_inv in Hrun as (? & ? & _ & Hrun). apply bind_inv in Hrun as (? & ? & _ & Hrun).
  apply bind_inv in Hrun as (n & σ1 & Hn & Hrun). apply bind_inv in Hrun as (root & σ2 & Hroot & Hrun).
  apply bind_inv in Hrun as (siblings & σ3 & Hpath & Hrun). apply bind_inv in Hrun as ([secret commitment] & σ4 & Hd & Hrun).
  injection Hrun as <- <-.
  pose proof (kept_get _ _ _ _ _ _ _ _ Hroot) as Hk12. pose proof (kept_get _ _ _ _ _ _ _ _ Hpath) as Hk23.
  assert (∀ e, e ∈ own σ3 → e ∈ own σ4) as Hk34.
  { intros e. by apply (own_kept (draw (λ w, wallet_generate_deposit_params w wallet)) _ _ _ (moves_draw own_grows _ _) Hd). }
  apply get_json_inv in Hn as (rn & Hen & Hsn & Hjn). apply get_json_inv in Hroot as (rr & Her & Hsr & Hjr).
  apply get_json_inv in Hpath as (rp & Hep & Hsp & Hjp).
  apply read_next_note_id in Hjn as (Hrange & es1 & Hid); [|by eauto 10|done].
  apply read_root in Hjr as (es2 & Hroot'); [|by eauto 10|done].
  apply (read_zero_path rp n) in Hjp as (es3 & Hpath'); [|done|by eauto 10|done].
  by exists es1, es2, es3.
Qed.
End deposit.

(** ** The server *)

From stdpp Require Import relations.
From S2P Require Import Config StoreProps Pricing ProviderTypes Dashboard World WorldTheory.
From S2P Require Import OpenRouter OaOrg Provider ProviderTheory Processor Leases Routes.

Section follow.
Context `{!FeltOps, !MerkleOps, !MerkleLaws, !WireTypes, !WireOps, !JsonText, !SerdeText, !PollerOps, !PollerLaws}.
Context `{!ClientTypes, !ReplyLaws, !CoreOps, !SqliteText, !Env, !Axum, !AxumLaws}.
Context (chain : Z → list RpcLog) (indexer : IndexerConfig) (ticks : list Tick) (read_fails : bool) (d : Poller.Disk).

(** C29: the server serves roots of the vault. When its [indexer_url] is an indexer
    that polls the contract's log at a node that tells the truth or fails, a poll of
    the server always returns, and leaves the root it serves as it was or sets it
    to the root of the vault after an initial part of the contract's events that
    reaches at least a head the node reported. *)
Theorem server_follows_vault indexer_url σ r σ' :
  polls_vault chain indexer ticks d →
  (∀ request response, http_url request = trim_end_matches "/" indexer_url +:+ "/v1/tree/root" →
    (env_http (world σ) request).1 = Ok response → indexed indexer ticks read_fails d "/v1/tree/root" response) →
  poll_root felt_of_value indexer_url σ = (r, σ') →
  r = Ok tt ∧ (root (shared σ') = root (shared σ)
    ∨ ∃ es, moment chain indexer ticks es ∧ root_of (vault_of es) (root (shared σ'))).
Proof.
  intros Hpolls Hserved Hrun.
  unfold poll_root, fetch_indexer_root in Hrun. set (q := {| http_method := "GET" |}) in Hrun.
  unfold http, mbind, M_bind, log_call, draw in Hrun. cbn in Hrun.
  destruct (env_http (world σ) q) as [answer w] eqn:He. cbn in Hrun.
  destruct answer as [response|]; cbn in Hrun; [|injection Hrun as <- <-; split; [done|by left]].
  destruct (is_http_error (http_status response)) eqn:Hs; cbn in Hrun; [injection Hrun as <- <-; split; [done|by left]|].
  destruct (http_text response) as [text|] eqn:Ht; cbn in Hrun; [|injection Hrun as <- <-; split; [done|by left]].
  destruct (from_str (decode_RootResponse felt_of_value) text) as [served|] eqn:Hd; cbn in Hrun;
    injection Hrun as <- <-; (split; [done|]); [right|by left]. cbn.
  apply (IndexerApi.read_root chain indexer ticks read_fails d Hpolls response); [|done|].
  - apply (Hserved q); [done|]. by rewrite He.
  - unfold json_body. rewrite Ht. exact Hd.
Qed.
End follow.
