(* ===== verification/WithdrawalProps.v ===== *)
(** * The withdrawal and the retired note

    A prepared withdrawal blocks requests, is returned again and survives a
    restart; the wallet is cleared only for a note the vault reports closed; a
    retired note keeps its file. *)

From Stdlib Require Import ZArith Lia Ascii.
From stdpp Require Import base tactics decidable numbers list gmap strings.
From S2P Require Import Prelude Text Float64 Json Http Types AuthScheme ClientTypes Compat ClientHelpers ClientWorld.
From S2P Require Import ClientWallet DirectLease ClientService ClientProps ClientRel.

Local Open Scope string_scope.

Section withdrawals.
Context `{!FeltOps, !WireTypes, !ClientTypes, !JsonText, !SerdeText, !WalletOps, !ClientEnv, !ClientWire}.
Implicit Types (config : AuthConfig) (plan : WithdrawalPlan) (σ : State).

(** ** The guard *)

(** C17: a prepared withdrawal blocks the sessions. Once the lock shows one, both
    entry points answer that it is pending, whatever the mode, the request and
    the session id, and make no call. *)
Theorem prepared_withdrawal_blocks config plan request session_id σ σ1 :
  lock_prepared σ = (Ok (Some plan), σ1) →
  ∃ m, execute_request_in_session config request session_id σ = (Err (WithdrawalPending m), σ1) ∧
       execute_streaming_request_in_session config request session_id σ = (Err (WithdrawalPending m), σ1) ∧
       own σ1 = own σ ∧ direct_lease σ1 = direct_lease σ ∧ disk σ1 = disk σ.
Proof.
  intros Hlock. eexists.
  unfold execute_request_in_session, execute_streaming_request_in_session, withdrawal_guard.
  assert (∀ A (f : () → M A), ((prepared ← lock_prepared;
      match prepared with
      | Some plan => throw (WithdrawalPending (withdrawal_mode_label (wp_mode plan) +:+ " withdrawal for note "
          +:+ show_uint (withdrawal_note_id (wp_public_inputs plan))
          +:+ " is prepared; finish it before sending more requests"))
      | None => mret tt
      end) ≫= f) σ = (Err (WithdrawalPending (withdrawal_mode_label (wp_mode plan) +:+ " withdrawal for note "
          +:+ show_uint (withdrawal_note_id (wp_public_inputs plan))
          +:+ " is prepared; finish it before sending more requests")), σ1)) as Hg.
  { intros A f. apply bind_err. by rewrite (bind_run _ _ _ _ _ Hlock). }
  split; [apply Hg|]. split; [apply Hg|]. revert Hlock. unfold lock_prepared, mbind, M_bind, draw_at, modify.
  destruct (env_prepared _ _) as [[p evs] w]. by intros [= _ <-].
Qed.

(** ** The file *)

Lemma io_inv f eff σ r σ' : io f eff σ = (r, σ') →
  own σ' = own σ ∧ events σ' = events σ ∧ direct_lease σ' = direct_lease σ ∧
  prepared_withdrawal σ' = prepared_withdrawal σ ∧
  ((r = Ok tt ∧ disk σ' = eff (disk σ)) ∨ (∃ err, r = Err (f err) ∧ disk σ' = disk σ)).
Proof.
  unfold io, draw, draw_at, mbind, M_bind, modify. destruct (env_io (world σ)) as [[err|] w]; intros [= <- <-];
    cbn; repeat split; eauto.
Qed.

Lemma persist_inv dir plan σ σ' :
  persist_prepared_withdrawal dir plan σ = (Ok tt, σ') →
  prepared_withdrawal σ' = prepared_withdrawal σ ∧
  ∃ encoded, plan_to_json_pretty plan = Ok encoded ∧ files (disk σ') !! prepared_withdrawal_path dir = Some encoded.
Proof.
  unfold persist_prepared_withdrawal. intros Hrun.
  apply bind_inv in Hrun as (encoded & σ1 & [= Henc <-] & Hrun).
  assert (plan_to_json_pretty plan = Ok encoded) as Hp by (destruct (plan_to_json_pretty plan); by simplify_eq/=).
  apply bind_inv in Hrun as ([] & σ2 & (_ & _ & _ & Hp2 & Hio2)%io_inv & Hrun).
  apply bind_inv in Hrun as (fault & σ3 & Hf & Hrun). apply bind_inv in Hrun as ([] & σ4 & Hw & Hrun).
  unfold draw, draw_at in Hf. destruct (env_io (world σ2)) as [fl w] eqn:E. injection Hf as <- <-.
  destruct fl as [err|].
  { apply bind_inv in Hw as (? & ? & _ & Hw). by apply bind_inv in Hw as (? & ? & _ & Hw). }
  injection Hw as <-.
  apply bind_inv in Hrun as ([] & σ5 & (_ & _ & _ & Hp5 & Hio5)%io_inv & Hrun).
  destruct Hio5 as [[_ Hd5]|(? & ? & _)]; [|done].
  apply io_inv in Hrun as (_ & _ & _ & Hp6 & [[_ Hd6]|(? & ? & _)]); [|done].
  split; [by rewrite Hp6, Hp5|]. exists encoded. split; [done|]. rewrite Hd6, Hd5. unfold rename. cbn.
  rewrite lookup_insert_eq. cbn. apply lookup_insert_eq.
Qed.

(** A daemon started on a disk that holds the plan's file has the plan. *)
Lemma service_new_loads config plan encoded σ σ' :
  files (disk σ) !! prepared_withdrawal_path (ac_state_dir config) = Some encoded →
  plan_from_json encoded = Ok plan →
  service_new config σ = (Ok tt, σ') → prepared_withdrawal σ' = Some plan ∧ direct_lease σ' = None.
Proof.
  intros Hfile Hdec Hrun. unfold service_new in Hrun.
  apply bind_inv in Hrun as ([] & σ1 & (_ & _ & _ & _ & Hio1)%io_inv & Hrun).
  destruct Hio1 as [[_ Hd1]|(? & ? & _)]; [|done].
  apply bind_inv in Hrun as (prepared & σ2 & Hload & Hrun).
  assert (prepared = Some plan) as ->.
  { unfold load_prepared_withdrawal in Hload. apply bind_inv in Hload as (? & ? & [= <- <-] & Hload).
    assert (files (disk σ1) !! prepared_withdrawal_path (ac_state_dir config) = Some encoded) as Hf1 by (by rewrite Hd1).
    assert (path_exists (prepared_withdrawal_path (ac_state_dir config)) (disk σ1) = true) as Hex.
    { unfold path_exists. by rewrite Hf1. }
    rewrite Hex in Hload. cbn [negb] in Hload. apply bind_inv in Hload as ([] & σ3 & _ & Hload).
    rewrite Hf1, Hdec in Hload. by injection Hload as <- _. }
  apply bind_inv in Hrun as ([] & σ4 & _ & Hrun). apply bind_inv in Hrun as ([] & ? & [= <-] & Hrun).
  by injection Hrun as <-.
Qed.

(** ** Creation *)

(** With a plan already prepared: the same request gets it back, an escape to
    the same address replaces a mutual close, anything else is refused. *)
Lemma create_existing config mode destination plan σ σ1 :
  lock_prepared σ = (Ok (Some plan), σ1) →
  (wp_mode plan = mode → withdrawal_destination (wp_public_inputs plan) = destination →
   create_withdrawal config mode destination σ = (Ok plan, σ1)) ∧
  (withdrawal_destination (wp_public_inputs plan) ≠ destination ∨ (wp_mode plan = Escape ∧ mode = Mutual) →
   ∃ m, create_withdrawal config mode destination σ = (Err (WithdrawalPending m), σ1)).
Proof.
  intros Hlock. unfold create_withdrawal. rewrite !(bind_run _ _ _ _ _ Hlock). split.
  - intros -> ->. rewrite bool_decide_true, String.eqb_refl by done. done.
  - intros [Hd|[-> ->]].
    + rewrite (proj2 (String.eqb_neq _ _)) by done. rewrite !andb_false_r. by eexists.
    + cbn. by eexists.
Qed.

Lemma create_fresh config mode destination σ σ1 plan σ' :
  lock_prepared σ = (Ok None, σ1) →
  create_withdrawal config mode destination σ = (Ok plan, σ') →
  wp_mode plan = mode ∧ prepared_withdrawal σ' = Some plan ∧
  ∃ encoded, plan_to_json_pretty plan = Ok encoded ∧
             files (disk σ') !! prepared_withdrawal_path (ac_state_dir config) = Some encoded.
Proof.
  intros Hlock. unfold create_withdrawal. rewrite (bind_run _ _ _ _ _ Hlock). intros Hrun.
  apply bind_inv in Hrun as (existing & ? & [= <- <-] & Hrun). cbn beta iota in Hrun.
  do 10 (apply bind_inv in Hrun as (? & ? & _ & Hrun)).
  match type of Hrun with (match ?p with _ => _ end) _ = _ => destruct p as [? ?] end.
  apply bind_inv in Hrun as ([inputs proof] & ? & _ & Hrun).
  apply bind_inv in Hrun as ([] & σp & [= <-] & Hrun). apply bind_inv in Hrun as ([] & σe & Hper & [= <- <-]).
  apply persist_inv in Hper as [Hp Hfile]. split; [done|]. split; [by rewrite Hp|done].
Qed.

(** C16: a prepared withdrawal is durable. When a fresh preparation returns a
    plan, the plan is in memory and on disk: a daemon restarted on that file
    prepares the same plan, and asking again for the same mode and address
    returns it without a call. *)
Theorem withdrawal_survives_restart config mode destination σ σ1 plan σ' :
  (∀ plan encoded, plan_to_json_pretty plan = Ok encoded → plan_from_json encoded = Ok plan) →
  lock_prepared σ = (Ok None, σ1) →
  create_withdrawal config mode destination σ = (Ok plan, σ') →
  prepared_withdrawal σ' = Some plan ∧
  (∀ σr σs, files (disk σr) !! prepared_withdrawal_path (ac_state_dir config) =
            files (disk σ') !! prepared_withdrawal_path (ac_state_dir config) →
   service_new config σr = (Ok tt, σs) → prepared_withdrawal σs = Some plan) ∧
  (∀ σr σs, lock_prepared σr = (Ok (Some plan), σs) → withdrawal_destination (wp_public_inputs plan) = destination →
   create_withdrawal config mode destination σr = (Ok plan, σs)).
Proof.
  intros Hround Hlock Hrun. pose proof (create_fresh _ _ _ _ _ _ _ Hlock Hrun) as (Hm & Hp & encoded & Henc & Hfile).
  split; [done|]. split.
  - intros σr σs Hsame Hnew. rewrite Hfile in Hsame.
    by eapply service_new_loads in Hnew as [? _]; [|done|by apply Hround].
  - intros σr σs Hl Hd. by apply create_existing.
Qed.

(** ** What the vault says *)

(** The vault answered [notes(note_id)] with status word [n]. *)
Definition vault_reports config (note_id n : Z) (evs : list Event) : Prop :=
  ∃ url body response text payload encoded words word,
    ac_demo_rpc_url config = Some url ∧ EvHttp (post url body) (Ok response) ∈ evs ∧
    body = json_object [
      ("jsonrpc", Str "2.0"); ("id", Num (PosInt 1)); ("method", Str "eth_call");
      ("params", Array [json_object [("to", Str (format_felt_address (ac_contract_address config)));
                                     ("data", Str (NOTES_SELECTOR +:+ abi_encode_u32 note_id))];
                        Str "latest"])] ∧
    is_success (http_status response) = true ∧ http_text response = Ok text ∧ json_parse text = Ok payload ∧
    (value_get "result" payload ≫= as_str) = Some encoded ∧ abi_words encoded = Ok words ∧
    words !! 3%nat = Some word ∧ abi_word_u64 word = Ok n.

Lemma lift_map_err_inv {A E} (f : E → AuthError) (r : result E A) σ a σ' :
  lift (map_err f r) σ = (Ok a, σ') → r = Ok a ∧ σ' = σ.
Proof. intros [= H' <-]. split; [|done]. by destruct r; simplify_eq/=. Qed.
Lemma lift_ok_or_inv {A} e (o : option A) σ a σ' : lift (ok_or e o) σ = (Ok a, σ') → o = Some a ∧ σ' = σ.
Proof. intros [= H' <-]. split; [|done]. by destruct o; simplify_eq/=. Qed.

Lemma onchain_reports config note_id σ s d σ' :
  onchain_withdrawal_status config note_id σ = (Ok (s, d), σ') →
  ∃ n asked, (own σ ++ asked)%list `prefix_of` own σ' ∧ vault_reports config note_id n asked ∧
       ((n = 1%Z ∧ s = "active") ∨ (n = 2%Z ∧ s = "pending_withdrawal") ∨ (n = 3%Z ∧ s = "closed")).
Proof.
  unfold onchain_withdrawal_status. intros Hrun.
  apply bind_inv in Hrun as (encoded & σ1 & Hcall & Hrun).
  apply bind_inv in Hrun as (words & σ1' & Hwords & Hrun). injection Hwords as Hwords <-.
  apply bind_inv in Hrun as (word & ? & [Hword ->]%lift_ok_or_inv & Hrun).
  apply bind_inv in Hrun as (n & σ1' & Hn & Hrun). injection Hn as Hn <-.
  assert (∃ asked, own σ1 = (own σ ++ asked)%list ∧ vault_reports config note_id n asked) as (asked & Ho & Hv).
  { unfold vault_eth_call in Hcall. apply bind_inv in Hcall as (url & ? & [Hurl ->]%lift_ok_or_inv & Hcall).
    match type of Hcall with (http ?q ≫= _) _ = _ => destruct (http_run q σ) as (answer & σ2 & Hh & Ho) end.
    rewrite (bind_run _ _ _ _ _ Hh) in Hcall.
    apply bind_inv in Hcall as (response & ? & [-> ->]%lift_map_err_inv & Hcall).
    apply bind_inv in Hcall as (payload & ? & [Hp ->]%lift_map_err_inv & Hcall).
    apply bind_Ok in Hp as (text & Htext & Hparse).
    destruct (is_success (http_status response)) eqn:Hs; [|done]. destruct (value_get "error" payload); [done|].
    apply lift_ok_or_inv in Hcall as [Hres ->].
    eexists. split; [exact Ho|]. do 8 eexists. split; [done|]. split; [by left|]. done. }
  assert ((own σ ++ asked)%list `prefix_of` own σ1) as Hp by by rewrite Ho.
  destruct (Z.eqb_spec n 1) as [->|]; [injection Hrun as <- _ <-; exists 1%Z, asked; by auto|].
  destruct (Z.eqb_spec n 2) as [->|].
  { apply bind_inv in Hrun as (encoded2 & σ2 & Hcall2 & Hrun).
    pose proof (moves_vault_call own_grows (λ _ _, True) config (PENDING_SELECTOR +:+ abi_encode_u32 note_id) σ1) as [l Hl].
    rewrite Hcall2 in Hl. cbn in Hl.
    apply bind_inv in Hrun as (words2 & ? & Hw2 & Hrun). injection Hw2 as _ <-.
    destruct (words2 !! 0%nat) as [w0|], (words2 !! 5%nat) as [w5|]; try done.
    apply bind_inv in Hrun as (flag & ? & Hf & Hrun). injection Hf as _ <-.
    apply bind_inv in Hrun as (? & ? & Hok & Hrun). apply bind_inv in Hrun as (deadline & ? & Hd & Hrun).
    destruct (flag =? 1)%Z; [|done]. injection Hok as _ <-. injection Hd as _ <-. injection Hrun as <- _ <-.
    exists 2%Z, asked. split; [rewrite Hl; by apply prefix_app_r|]. by auto. }
  destruct (Z.eqb_spec n 3) as [->|]; [injection Hrun as <- _ <-; exists 3%Z, asked; by auto 6|].
  by destruct (n =? 0)%Z.
Qed.

(** C18: only a closed note is cleared. Confirming a withdrawal leaves the note
    and its journal on disk as they are, however the handler ends and whatever the
    services answer, unless it read the wallet's note at its start and, after that,
    the vault answered this very call, for that note's id, with the status of a
    closed note. *)
Theorem confirm_clears_only_closed config `{!NoteLaws config} σ r σ' :
  confirm_withdrawal config σ = (r, σ') →
  same_note config (disk σ) (disk σ') ∨
  ∃ before σ1 note asked,
    status config σ = (Ok before, σ1) ∧ ws_note before = Some note ∧
    (own σ1 ++ asked)%list `prefix_of` own σ' ∧ vault_reports config (ns_note_id note) 3 asked.
Proof.
  intros Hrun. unfold confirm_withdrawal in Hrun.
  pose proof (moves_status (note_kept config) (same_note config) config σ) as Hm1.
  destruct (status config σ) as [[before|e] σ1] eqn:Hst.
  2: { left. rewrite (bind_err _ _ _ _ _ Hst) in Hrun. by injection Hrun as _ <-. }
  rewrite (bind_run _ _ _ _ _ Hst) in Hrun. destruct (ws_note before) as [note|] eqn:Hnote; [|left; by injection Hrun as _ <-].
  rewrite (bind_run _ _ _ note σ1) in Hrun by done.
  pose proof (moves_onchain (note_kept config) (same_note config) config (ns_note_id note) σ1) as Hm2.
  destruct (onchain_withdrawal_status config (ns_note_id note) σ1) as [[[s d]|e] σ2] eqn:Hon; cbn in Hm1, Hm2.
  2: { left. rewrite (bind_err _ _ _ _ _ Hon) in Hrun. injection Hrun as _ <-.
       exact (transitivity (R := note_kept config) Hm1 Hm2). }
  rewrite (bind_run _ _ _ _ _ Hon) in Hrun. cbn beta iota in Hrun.
  apply onchain_reports in Hon as (n & asked & Hp & Hv & Hcases).
  pose proof (transitivity (R := note_kept config) Hm1 Hm2) as Hm.
  destruct Hcases as [[-> ->]|[[-> ->]|[-> ->]]].
  - left. change (note_kept config σ σ'). etransitivity; [exact Hm|].
    assert (moves (note_kept config) (prepared ← lock_prepared;
      _ ← (if (match prepared with Some plan => bool_decide (wp_mode plan = Escape) | None => false end) then
             _ ← set_prepared None; remove_prepared_withdrawal (ac_state_dir config)
           else mret tt);
      mret {| wc_note_id := ns_note_id note; wc_status := "active"; wc_challenge_deadline := None; wc_wallet := before |}))
      as Hact.
    { assert (moves (note_kept config) (remove_prepared_withdrawal (ac_state_dir config))) as Hrem.
      { apply (moves_remove_prepared _ (same_note config)). intros d0. unfold same_note, remove_file. cbn.
        rewrite !lookup_delete_ne; [done|..]; intros Heq%join_inj; discriminate. }
      pose proof (note_kept_rel config). moves_auto. }
    specialize (Hact σ2). cbn in Hrun. by rewrite Hrun in Hact.
  - left. cbn in Hrun. by injection Hrun as _ <-.
  - right. exists before, σ1, note, asked.
    assert (moves own_grows (_ ← lock_prepared; _ ← set_prepared None; _ ← lock_lease; _ ← set_lease None;
      wallet ← reset_wallet config;
      mret {| wc_note_id := ns_note_id note; wc_status := "closed"; wc_challenge_deadline := None; wc_wallet := wallet |}))
      as Hclosed by moves_auto.
    specialize (Hclosed σ2). cbn in Hrun. rewrite Hrun in Hclosed. destruct Hclosed as [l Hl]. cbn in Hl.
    split; [done|]. split; [done|]. split; [rewrite Hl; by apply prefix_app_r|done].
Qed.

(** ** Settlement *)

Lemma settled_not_pending config σ s σ' : settled_status config σ = (Ok s, σ') → ws_pending_request s = false.
Proof.
  unfold settled_status. intros (st & σ1 & _ & Hrun)%bind_inv. destruct (ws_pending_request st) eqn:Hp; [done|].
  by injection Hrun as <- _.
Qed.
Lemma settle_pending_not_pending config σ s σ' :
  settle_pending_lease config σ = (Ok (Some s), σ') → ws_pending_request s = false.
Proof.
  unfold settle_pending_lease. intros (request & σ1 & _ & Hrun)%bind_inv.
  apply bind_inv in Hrun as ([lease|] & σ2 & _ & Hrun); apply bind_inv in Hrun as (? & σ3 & _ & Hrun); [done|].
  apply bind_inv in Hrun as (st & σ4 & Hst & [= <- _]). by eapply settled_not_pending.
Qed.

(** settlement before a withdrawal is complete. When it succeeds the
    wallet has no pending request, and in direct mode no lease is left in
    memory: the live key was retired, or the pending proof recovered or found
    orphaned. *)
Theorem settlement_is_complete config σ s σ' :
  settle_for_withdrawal config σ = (Ok s, σ') →
  ws_pending_request s = false ∧ (ac_request_mode config = DirectOpenrouter → direct_lease σ' = None).
Proof.
  unfold settle_for_withdrawal. destruct (ac_request_mode config).
  { intros (before & σ1 & _ & Hrun)%bind_inv. apply bind_inv in Hrun as ([] & σ2 & _ & Hrun).
    split; [by eapply settled_not_pending|done]. }
  intros (live & σ1 & _ & Hrun)%bind_inv. apply bind_inv in Hrun as ([] & σ2 & [= <-] & Hrun).
  assert (direct_lease (with_lease None σ1) = None) as Hnone by done. revert Hrun Hnone.
  generalize (with_lease None σ1) as σ2. intros σ2 Hrun Hnone.
  pose proof (λ A (m : M A) (Hm : moves lease_kept m) σ, Hm σ) as Hkeep. unfold lease_kept in Hkeep.
  destruct live as [lease|].
  - apply bind_inv in Hrun as ([] & σ3 & Hret & Hst). split; [by eapply settled_not_pending|]. intros _.
    pose proof (Hkeep _ _ (moves_settled _ (λ _ _, True) config) σ3) as Hk. rewrite Hst in Hk. cbn in Hk. rewrite Hk.
    pose proof (Hkeep _ _ (moves_retire _ (λ _ _, True) (λ _ _, I) config (al_client_request_id lease)) σ2) as Hk2.
    rewrite Hret in Hk2. cbn in Hk2. by rewrite Hk2.
  - apply bind_inv in Hrun as (before & σ3 & Hbefore & Hrun).
    pose proof (Hkeep _ _ (moves_status _ (λ _ _, True) config) σ2) as Hk. rewrite Hbefore in Hk. cbn in Hk.
    assert (∀ σ4, direct_lease σ4 = None → settled_status config σ4 = (Ok s, σ') →
                  ws_pending_request s = false ∧ (DirectOpenrouter = DirectOpenrouter → direct_lease σ' = None)) as Hend.
    { intros σ4 Hl4 Hst. split; [by eapply settled_not_pending|]. intros _.
      pose proof (Hkeep _ _ (moves_settled _ (λ _ _, True) config) σ4) as Hk4. rewrite Hst in Hk4. cbn in Hk4. by rewrite Hk4. }
    destruct (ws_pending_request before); [|apply (Hend σ3); [congruence|done]].
    apply bind_inv in Hrun as (orphaned & σ4 & Hp & Hrun).
    pose proof (Hkeep _ _ (moves_settle_pending _ (λ _ _, True) (λ _ _, I) config) σ3) as Hk4. rewrite Hp in Hk4.
    cbn in Hk4. destruct orphaned as [st|]; [|apply (Hend σ4); [congruence|done]].
    injection Hrun as <- <-. split; [by eapply settle_pending_not_pending|]. intros _. congruence.
Qed.

(** ** The retired note *)

Lemma retired_candidate_inj config note_id i j :
  (1 ≤ i)%Z → (1 ≤ j)%Z → retired_candidate config note_id i = retired_candidate config note_id j → i = j.
Proof.
  unfold retired_candidate. intros Hi Hj Heq%join_inj.
  destruct (Z.eqb_spec i 1) as [->|], (Z.eqb_spec j 1) as [->|]; [done| | |].
  - apply str_app_inj_l in Heq. apply (f_equal String.length) in Heq. rewrite !str_length_app in Heq. cbn in Heq. lia.
  - apply str_app_inj_l in Heq. apply (f_equal String.length) in Heq. rewrite !str_length_app in Heq. cbn in Heq. lia.
  - do 2 apply str_app_inj_l in Heq. apply str_app_inj_l in Heq. apply show_uint_inj; [lia|lia|done].
Qed.

Lemma find_free_Some fuel config note_id suffix d c :
  find_free fuel config note_id suffix d = Some c → path_exists c d = false.
Proof.
  revert suffix. induction fuel as [|fuel IH]; intros suffix; cbn [find_free]; [done|].
  destruct (path_exists (retired_candidate config note_id suffix) d) eqn:Hex; [apply IH|]. by intros [= <-].
Qed.

(** Among more names than there are paths, one is free. *)
Lemma find_free_total config note_id d : is_Some (find_free (S (size (files d) + size (dirs d))) config note_id 1 d).
Proof.
  destruct (find_free _ _ _ _ _) as [c|] eqn:Hf; [by eexists|]. exfalso.
  assert (∀ fuel suffix, (1 ≤ suffix)%Z → find_free fuel config note_id suffix d = None →
    ∃ l, length l = fuel ∧ NoDup l ∧ (∀ c, c ∈ l → ∃ i, (suffix ≤ i)%Z ∧ c = retired_candidate config note_id i) ∧
         ∀ c, c ∈ l → c ∈ dom (files d) ∪ dirs d) as Hgen.
  { clear Hf. intros fuel. induction fuel as [|fuel IH]; intros suffix Hs; cbn [find_free].
    { intros _. exists []. split; [done|]. split; [constructor|]. split; intros c Hc; by apply not_elem_of_nil in Hc. }
    destruct (path_exists _ d) eqn:Hex; [|done]. intros Hnone.
    destruct (IH (suffix + 1)%Z ltac:(lia) Hnone) as (l & Hlen & Hnd & Hl & Hin).
    exists (retired_candidate config note_id suffix :: l). split; [cbn; by rewrite Hlen|]. split; [|split].
    - constructor; [|done]. intros Hc. destruct (Hl _ Hc) as (i & Hi & Heq). apply retired_candidate_inj in Heq; lia.
    - intros c [->|Hc]%elem_of_cons; [by exists suffix; split; [lia|]|].
      destruct (Hl _ Hc) as (i & Hi & ->). exists i. split; [lia|done].
    - intros c [->|Hc]%elem_of_cons; [|by apply Hin]. unfold path_exists in Hex.
      apply orb_true_iff in Hex as [Hex%bool_decide_eq_true|Hex%bool_decide_eq_true]; apply elem_of_union; [left|by right].
      by apply elem_of_dom. }
  destruct (Hgen _ 1%Z ltac:(lia) Hf) as (l & Hlen & Hnd & _ & Hin).
  assert (list_to_set l ⊆ dom (files d) ∪ dirs d) as Hsub.
  { intros c Hc%elem_of_list_to_set. by apply Hin. }
  apply subseteq_size in Hsub. rewrite size_list_to_set in Hsub by done.
  pose proof (size_union_alt (dom (files d)) (dirs d)) as Hu.
  assert (size (dirs d ∖ dom (files d)) ≤ size (dirs d))%nat by (apply subseteq_size; set_solver).
  rewrite size_dom in Hu. lia.
Qed.

Lemma private_dir_inv path σ r σ' : create_private_dir path σ = (r, σ') →
  files (disk σ') = files (disk σ) ∧ (∀ p, path_exists p (disk σ') = false → path_exists p (disk σ) = false).
Proof.
  assert (∀ p q d, path_exists p (add_dir q d) = false → path_exists p d = false) as Hdir.
  { intros p q d. unfold path_exists, add_dir. cbn. rewrite !orb_false_iff. intros [Hf Hd]. split; [done|].
    apply bool_decide_eq_false in Hd. apply bool_decide_eq_false. set_solver. }
  unfold create_private_dir. destruct (io WalletErr (add_dir path) σ) as [[[]|e] σ1] eqn:Hio.
  - rewrite (bind_run _ _ _ _ _ Hio). intros (_ & _ & _ & _ & Hio2)%io_inv.
    apply io_inv in Hio as (_ & _ & _ & _ & [[_ Hd]|(? & ? & _)]); [|done].
    assert (disk σ' = disk σ1) as -> by (destruct Hio2 as [[_ ->]|(? & _ & ->)]; done).
    rewrite Hd. split; [done|]. intros p. apply Hdir.
  - rewrite (bind_err _ _ _ _ _ Hio). intros [= _ <-].
    apply io_inv in Hio as (_ & _ & _ & _ & [[? _]|(? & _ & ->)]); done.
Qed.

Lemma next_retired_inv config note_id σ r σ' : next_retired_note_dir config note_id σ = (r, σ') →
  files (disk σ') = files (disk σ) ∧
  (∀ dir, r = Ok dir → path_exists dir (disk σ) = false).
Proof.
  unfold next_retired_note_dir. destruct (create_private_dir (retired_root config) σ) as [[[]|e] σ1] eqn:Hdir.
  - rewrite (bind_run _ _ _ _ _ Hdir). apply private_dir_inv in Hdir as [Hf Hp].
    rewrite (bind_run (gets disk) _ σ1 (disk σ1) σ1) by done.
    destruct (find_free _ _ _ _ _) as [c|] eqn:Hfree; intros [= <- <-]; (split; [done|]); intros dir [= <-].
    by eapply Hp, find_free_Some.
  - rewrite (bind_err _ _ _ _ _ Hdir). apply private_dir_inv in Hdir as [Hf _]. by intros [= <- <-].
Qed.

(** C19: retiring a note keeps it. If a note is retired, its balance was within
    the bound of one proof, no journal was pending, and its file, unchanged, is
    in a directory that did not exist, as the only change to the files; if
    nothing is retired, or anything fails, note and journal stay in place. *)
Theorem retired_note_kept config `{!NoteLaws config} σ r σ' :
  retire_low_balance_note config σ = (r, σ') →
  (∀ rn, r = Ok (Some rn) → ∃ wallet state contents σ1,
     (_ ← lock_wallet; load_wallet config []) σ = (Ok wallet, σ1) ∧ wallet_state wallet = Some state ∧
     rn_note_id rn = note_note_id state ∧ (note_current_balance state ≤ proof_bound config)%Z ∧
     path_exists (pending_journal_path (ac_state_dir config)) (disk σ1) = false ∧
     path_exists (rn_state_dir rn) (disk σ1) = false ∧
     files (disk σ1) !! note_state_path (ac_state_dir config) = Some contents ∧
     files (disk σ') = <[note_state_path (rn_state_dir rn) := contents]>
                         (delete (note_state_path (ac_state_dir config)) (files (disk σ1)))) ∧
  ((∀ rn, r ≠ Ok (Some rn)) → same_note config (disk σ) (disk σ')).
Proof.
  unfold retire_low_balance_note. intros Hrun.
  pose proof (moves_lock_wallet (note_kept config) (same_note config) σ) as Hm1.
  destruct (lock_wallet σ) as [[[]|e] σ0] eqn:Hlock; cbn in Hm1.
  2: { rewrite (bind_err _ _ _ _ _ Hlock) in Hrun. injection Hrun as <- <-. split; [done|]. by intros _. }
  rewrite (bind_run _ _ _ _ _ Hlock) in Hrun.
  pose proof (moves_load_wallet (note_kept config) (same_note config) config [] σ0) as Hm2.
  destruct (load_wallet config [] σ0) as [[wallet|e] σ1] eqn:Hload; cbn in Hm2;
    pose proof (transitivity (R := note_kept config) Hm1 Hm2) as Hm.
  2: { rewrite (bind_err _ _ _ _ _ Hload) in Hrun. injection Hrun as <- <-. split; [done|]. by intros _. }
  rewrite (bind_run _ _ _ _ _ Hload) in Hrun.
  destruct (wallet_state wallet) as [state|] eqn:Hstate; [|by injection Hrun as <- <-].
  destruct (Z.ltb_spec (proof_bound config) (note_current_balance state)) as [|Hbal]; [by injection Hrun as <- <-|].
  rewrite (bind_run (gets disk) _ σ1 (disk σ1) σ1) in Hrun by done.
  destruct (path_exists (pending_journal_path _) _) eqn:Hj; [by injection Hrun as <- <-|].
  assert (∀ σx, files (disk σx) = files (disk σ1) → same_note config (disk σ) (disk σx)) as Hsame.
  { intros σx Hx. destruct Hm as [Hn Hjn]. split; by rewrite Hx. }
  destruct (next_retired_note_dir config (note_note_id state) σ1) as [[dir|e] σ2] eqn:Hnext;
    pose proof (next_retired_inv _ _ _ _ _ Hnext) as [Hf2 Hfresh].
  2: { rewrite (bind_err _ _ _ _ _ Hnext) in Hrun. injection Hrun as <- <-. split; [done|]. intros _. by apply Hsame. }
  rewrite (bind_run _ _ _ _ _ Hnext) in Hrun.
  destruct (create_private_dir dir σ2) as [[[]|e] σ3] eqn:Hdir; pose proof (private_dir_inv _ _ _ _ Hdir) as [Hf3 _].
  2: { rewrite (bind_err _ _ _ _ _ Hdir) in Hrun. injection Hrun as <- <-. split; [done|]. intros _. apply Hsame. congruence. }
  rewrite (bind_run _ _ _ _ _ Hdir) in Hrun. rewrite (bind_run (gets disk) _ σ3 (disk σ3) σ3) in Hrun by done.
  assert (files (disk σ3) = files (disk σ1)) as Hf by congruence.
  destruct (files (disk σ3) !! _) as [contents|] eqn:Hnote.
  2: { injection Hrun as <- <-. split; [done|]. intros _. by apply Hsame. }
  match type of Hrun with (io ?f ?eff ≫= _) _ = _ => destruct (io f eff σ3) as [[[]|e] σ4] eqn:Hio end;
    pose proof (io_inv _ _ _ _ _ Hio) as (_ & _ & _ & _ & Hd).
  - rewrite (bind_run _ _ _ _ _ Hio) in Hrun. injection Hrun as <- <-. split; [|by intros Hr; destruct (Hr _ eq_refl)].
    destruct Hd as [[_ Hd]|(? & ? & _)]; [|done]. intros rn [= <-]. exists wallet, state, contents, σ1. cbn.
    split; [by rewrite (bind_run _ _ _ _ _ Hlock)|]. split; [done|]. split; [done|]. split; [done|]. split; [done|].
    split; [by apply Hfresh|]. split; [by rewrite <-Hf|]. rewrite Hd. unfold rename. rewrite Hnote. cbn. by rewrite Hf.
  - rewrite (bind_err _ _ _ _ _ Hio) in Hrun. injection Hrun as <- <-. split; [done|]. intros _.
    destruct Hd as [[? _]|(? & _ & Hd)]; [done|]. apply Hsame. by rewrite Hd.
Qed.
End withdrawals.
