(* ===== verification/ClientToy.v ===== *)
(** * A concrete daemon

    Instances of the client daemon's parameters for evaluating its handlers: a
    wallet kept in two files, a fixed clock, a list of file faults, a function
    for the remote services, and no other handler running; with a JSON codec that
    knows a table of documents. *)

From Stdlib Require Import ZArith Lia.
From stdpp Require Import base tactics decidable numbers list gmap strings.
From S2P Require Import Prelude Text Float64 Json Http Types AuthScheme Store Toy ClientTypes Compat ClientHelpers.
From S2P Require Import ClientWorld ClientWallet DirectLease ClientService ClientRoutes ClientTheory ClientRel.

Local Open Scope string_scope.

(** ** Types *)

Record ToyNote := { tn_id : Z; tn_balance : Z }.
Record ToyInputs := { ti_note_id : Z; ti_destination : string }.

#[export] Instance toy_client_types : @ClientTypes toy_felt := {|
  felt_to_value := λ x : @Felt252 toy_felt, Str x;
  felt_of_value := as_str;
  EpochRoots := unit;
  WithdrawalPublicInputsV2 := ToyInputs;
  withdrawal_note_id := ti_note_id;
  withdrawal_destination := ti_destination;
  NoteState := ToyNote;
  note_note_id := tn_id;
  note_deposit_amount := λ _, 2000000%Z;
  note_current_balance := tn_balance;
  note_expiry_ts := λ _, 9000%Z;
  note_is_genesis := λ n, bool_decide (tn_balance n = 2000000%Z);
  note_current_anchor := λ _, "anchor";
  note_current_commitment_x := λ _, "cx";
  note_current_commitment_y := λ _, "cy";
  note_secret_s := λ _, "secret";
  note_solvency_bound := λ _ policy request_cap policy_cap, if (policy : bool) then policy_cap else request_cap;
  ClientError := ClientErrorKind * string;
  client_error_kind := fst;
  client_error_text := snd;
|}.

(** ** JSON *)

Definition zero_word : string := String.concat "" (repeat "0000000000000000" 4).
(** What [notes()] returns for a note with this status digit. *)
Definition note_words (digit : string) : string :=
  "0x" +:+ zero_word +:+ zero_word +:+ zero_word +:+ String.concat "" (repeat "0000000000000000" 3)
  +:+ "000000000000000" +:+ digit.

Definition OPENROUTER : string := "https://openrouter.ai/api/v1".
Definition lease_fields (key_source : Value) (evidence : list (string * Value)) : Value :=
  Object ([("api_key", Str "sk-or-1"); ("client_request_id", Str "req-1"); ("expires_at", Num (PosInt 1600));
           ("key_source", key_source); ("openrouter_api_base", Str OPENROUTER);
           ("settle_after", Num (PosInt 1660))] ++ evidence)%list.
(** What a deployment, the daemon and [cast] print. *)
Definition command_documents : list (string * Value) :=
  let key := Object [("x", Str "kx"); ("y", Str "ky")] in
  let note := Object [("current_anchor", Str "a"); ("current_balance", Num (PosInt 1500000));
    ("current_commitment_x", Str "cx"); ("current_commitment_y", Str "cy"); ("deposit_amount", Num (PosInt 2000000));
    ("expiry_ts", Num (PosInt 9000)); ("is_genesis", Bool false); ("note_id", Num (PosInt 7))] in
  let wallet (has_note : bool) := Object [("funding_url", Str ""); ("has_note", Bool has_note);
    ("note", if has_note then note else Null); ("pending_request", Bool false)] in
  let vault_note (status : Z) := Array [Str "0x0"; Num (PosInt 0); Num (PosInt 9000); Num (PosInt status)] in [
  ("manifest", Object [("billing_token_address", Str "0xbe"); ("chain_id", Num (PosInt 1));
     ("clearance_signing_key", key); ("contract_address", Str "0xc0"); ("deployment_id", Str "toy");
     ("indexer_url", Str "http://indexer/"); ("proof_backend", Str "groth16_bn254");
     ("protocol_server_url", Str "http://server"); ("protocol_version", Num (PosInt 2));
     ("request_charge_cap", Num (PosInt 1000000)); ("rpc_url", Str "http://rpc"); ("state_signing_key", key)]);
  ("funding", Object [("chain_id", Num (PosInt 1)); ("contract_address", Str "0xc0"); ("demo_mint_enabled", Bool false);
     ("indexer_url", Str "http://indexer"); ("models", Array []); ("protocol_server_url", Str "http://server");
     ("suggested_deposit_amount", Num (PosInt 2000000))]);
  ("wallet", wallet true); ("empty wallet", wallet false);
  ("plan", Object [("mode", Str "mutual"); ("proof", Str "close");
     ("public_inputs", Object [("destination", Str "12345678901234567890"); ("note_id", Num (PosInt 7))]);
     ("siblings", Array (repeat (Str "s0") 32))]);
  ("pending note", vault_note 2%Z); ("closed note", vault_note 3%Z);
  ("next 7", Object [("next_note_id", Num (PosInt 7))]); ("next 8", Object [("next_note_id", Num (PosInt 8))])].
Definition documents : list (string * Value) := command_documents ++ [
  ("root", Object [("root", Str "r1")]);
  ("path", Object [("siblings", Array [Str "s0"])]);
  ("lease", lease_fields (Str "openrouter") []);
  ("oa lease", lease_fields (Str "oa_org") [("verification", Object [
     ("key_valid_till", Num (PosInt 1600)); ("org_signature", Str "os"); ("station_id", Str "st-1");
     ("station_recently_attested", Bool true); ("station_signature", Str "ss");
     ("verifier_url", Str "https://verifier2.openanonymity.ai")])]);
  ("verified", Object [("status", Str "verified")]);
  ("rejected", Object [("detail", Str "no such station"); ("status", Str "rejected")]);
  ("finalized", Object [("client_request_id", Str "req-1"); ("status", Str "finalized")]);
  ("answer", Object [("choices", Array [])]);
  ("closed", Object [("result", Str (note_words "3"))]);
  ("active", Object [("result", Str (note_words "1"))]);
  ("delta", Object [("choices", Array [Object [("delta", Object [("content", Str "hi")])]])]);
  ("withdraw", Object [("destination", Str "0x3132333435363738393031323334353637383930"); ("mode", Str "mutual")])
]%list.
#[export] Instance toy_json_text : JsonText := {|
  json_parse := λ s, match List.find (λ d, String.eqb d.1 s) documents with
                     | Some d => Ok d.2
                     | None => Err ("unknown document " +:+ s)
                     end;
  json_print := λ v, match List.find (λ d, value_eqb d.2 v) documents with
                     | Some d => d.1
                     | None => "?"
                     end;
|}.
#[export] Instance toy_serde_text : SerdeText := {| decode_error := λ s, "cannot decode " +:+ s |}.

(** ** The wallet and the world *)

(** The balance is what [note_state.json] holds. *)
Record ToyWallet := { tw_note : option ToyNote; tw_dir : string }.
#[export] Instance toy_wallet_ops : WalletOps := {|
  Wallet := ToyWallet;
  wallet_state := tw_note;
  wallet_has_pending_request := λ w d, path_exists (pending_journal_path (tw_dir w)) d;
  note_archive := λ n path d, write_file (path +:+ ".note_" +:+ show_uint (tn_id n)) (enc_Z (tn_balance n)) d;
|}.

Record ToyClientWorld := {
  cw_now : Z;
  cw_faults : list (option string);
  cw_serve : HttpRequest → result string HttpResponse;
}.

(** A request for [text], and the server's answer to it. *)
Definition toy_request (text hash root : string) : ApiRequestV2 := {|
  client_request_id := "req-1";
  payload := text;
  payload_hash := (hash : @Felt252 toy_felt);
  public_inputs := {|
    protocol_version := 2; chain_id := 1; contract_address := ("0xc0" : @Felt252 toy_felt);
    active_root := root; state_signing_key_x := "kx"; state_signing_key_y := "ky"; request_time := 1000;
    solvency_bound := 1000000; request_nullifier := "n1"; authorization_tag := "t1";
    anonymous_commitment_x := "ax"; anonymous_commitment_y := "ay" |};
  request_proof := {| backend := (tt : @ProofBackendWire toy_types); proof := "proof" |} |}.
Definition toy_answer : RequestResponseV2 := {|
  resp_status := "ok"; resp_client_request_id := "req-1"; resp_request_nullifier := ("n1" : @Felt252 toy_felt);
  resp_response_code := 200; resp_response_payload := "answer"; resp_response_hash := "h"; resp_charge_applied := 5;
  resp_next_commitment := {| point_x := ("x" : @Felt252 toy_felt); point_y := "y" |};
  resp_next_anchor := "a2"; resp_blind_delta_srv := "d"; resp_next_state_signature := ("sig" : @SchnorrSignature toy_types);
  resp_policy_reason_code := None; resp_policy_evidence_hash := None |}.
Definition toy_journal (w : ToyWallet) (d : Disk) : option string := files d !! pending_journal_path (tw_dir w).
Definition toy_withdrawal (w : ToyWallet) (destination : string)
    : result (ClientErrorKind * string) (ToyInputs * Groth16ProofWire) :=
  match tw_note w with
  | Some n => Ok ({| ti_note_id := tn_id n; ti_destination := destination |},
                  {| backend := (tt : @ProofBackendWire toy_types); proof := "close" |})
  | None => Err (CNoActiveNote, "no note")
  end.

#[export] Instance toy_client_env : ClientEnv := {|
  World := ToyClientWorld;
  env_lapse := λ _, 1%nat;
  env_lease := λ w slot, ((slot, []), w);
  env_prepared := λ w p, ((p, []), w);
  env_disk := λ w d, ((d, []), w);
  env_lock := λ w, (Locked, w);
  env_try_write := λ w, (true, w);
  env_io := λ w, match cw_faults w with
                 | [] => (None, w)
                 | f :: l => (f, {| cw_now := cw_now w; cw_faults := l; cw_serve := cw_serve w |})
                 end;
  env_now := λ w, (cw_now w, w);
  env_timeout := λ w, (false, w);
  env_http := λ w request, (cw_serve w request, w);
  env_written := λ w, (0%nat, w);
  wallet_new := λ w c d,
    ((Ok {| tw_note := (λ s, {| tn_id := 7; tn_balance := dec_Z s |}) <$> files d !! note_state_path (cc_state_dir c);
            tw_dir := cc_state_dir c |}, d), w);
  wallet_pending_api_request := λ w wallet d, (Ok ((λ text, toy_request text "hash" "r1") <$> toy_journal wallet d), w);
  wallet_clear_pending_request := λ w wallet d, ((Ok tt, remove_file (pending_journal_path (tw_dir wallet)) d), w);
  wallet_confirm_deposit := λ w wallet d secret note_id amount expiry,
    ((Ok tt, {| tw_note := Some {| tn_id := note_id; tn_balance := amount |}; tw_dir := tw_dir wallet |},
      write_file (note_state_path (tw_dir wallet)) (enc_Z amount) d), w);
  wallet_generate_deposit_params := λ w wallet, ((("s1", "c1") : @Felt252 toy_felt * @Felt252 toy_felt), w);
  wallet_prepare_request := λ w wallet d text hash root siblings,
    ((Ok (toy_request text hash root), wallet, write_file (pending_journal_path (tw_dir wallet)) text d), w);
  wallet_request_flow := λ w wallet d text hash root siblings, ((Ok toy_answer, wallet, d), w);
  wallet_recover := λ w wallet d,
    ((Ok ((λ _, toy_answer) <$> toy_journal wallet d), wallet, remove_file (pending_journal_path (tw_dir wallet)) d), w);
  wallet_withdrawal_mutual_close := λ w wallet d destination root siblings, ((toy_withdrawal wallet destination, d), w);
  wallet_withdrawal_escape_hatch := λ w wallet d destination root siblings, ((toy_withdrawal wallet destination, d), w);
  http_chunks := λ response, [http_text response];
  status_text := show_uint;
|}.

(** ** The wire *)

(** The authorization to lease, and the path and document of a request. *)
Definition plan_fields (p : WithdrawalPlan) : list string :=
  match wp_mode p with Mutual => "m" | Escape => "e" end
  :: enc_Z (ti_note_id (wp_public_inputs p)) :: ti_destination (wp_public_inputs p) :: proof (wp_proof p)
  :: wp_siblings p.
Definition fields_plan (l : list string) : option WithdrawalPlan :=
  match l with
  | mode :: note :: destination :: pr :: siblings => Some {|
      wp_mode := if String.eqb mode "m" then Mutual else Escape;
      wp_public_inputs := ({| ti_note_id := dec_Z note; ti_destination := destination |}
                             : @WithdrawalPublicInputsV2 _ toy_client_types);
      wp_siblings := (siblings : list (@Felt252 toy_felt));
      wp_proof := {| backend := (tt : @ProofBackendWire toy_types); proof := pr |} |}
  | _ => None
  end.
#[export] Instance toy_client_wire : ClientWire := {|
  felt_to_string := λ x : @Felt252 toy_felt, x;
  curve_point_of_value := λ _, None;
  lease_response_of_value := λ v,
    m ← as_object v;
    api_key ← field_req as_str "api_key" m;
    client_request_id ← field_req as_str "client_request_id" m;
    expires_at ← field_req as_u64 "expires_at" m;
    base ← field_req as_str "openrouter_api_base" m;
    settle_after ← field_req as_u64 "settle_after" m;
    Some {| lr_status := "active"; lr_client_request_id := client_request_id; lr_api_key := api_key;
            lr_openrouter_api_base := base; lr_issued_at := 1000; lr_expires_at := expires_at;
            lr_valid_for_seconds := 600; lr_settle_after := settle_after; lr_spending_limit_usd := f64_zero |};
  lease_status_of_value := λ v,
    m ← as_object v;
    client_request_id ← field_req as_str "client_request_id" m;
    status ← field_req as_str "status" m;
    Some {| ls_status := status; ls_client_request_id := client_request_id; ls_issued_at := 1000;
            ls_expires_at := 1600; ls_settle_after := 1660; ls_spending_limit_usd := f64_zero;
            ls_usage_usd := None; ls_charge_applied := None; ls_last_error := None |};
  recovery_of_value := λ _, None;
  error_response_of_value := λ _, None;
  api_request_to_value := λ r, Object [("client_request_id", Str (client_request_id r)); ("payload", Str (payload r))];
  authorization_to_json := λ _, Ok "authorization";
  core_request_to_json := λ request, Ok (cq_path request +:+ " " +:+ json_print (cq_body request));
  plan_to_json_pretty := λ p, Ok (enc_list (plan_fields p));
  plan_from_json := λ s, ok_or "malformed plan" (dec_list (String.length s) s ≫= fields_plan);
  signature_r_x := λ s : @SchnorrSignature toy_types, (s : @Felt252 toy_felt);
  core_payload_hash := λ s, ("h" +:+ s : @Felt252 toy_felt);
  core_registration_commitment := λ s : @Felt252 toy_felt, ("reg-" +:+ s : @Felt252 toy_felt);
  core_note_leaf := λ _ (c : @Felt252 toy_felt) _ _, ("leaf-" +:+ c : @Felt252 toy_felt);
  core_nullifier := λ s a : @Felt252 toy_felt, (s +:+ a : @Felt252 toy_felt);
|}.

Lemma toy_plan_roundtrip plan encoded :
  plan_to_json_pretty plan = Ok encoded → plan_from_json encoded = Ok plan.
Proof.
  intros Heq. assert (encoded = enc_list (plan_fields plan)) as ->.
  { unfold plan_to_json_pretty, toy_client_wire in Heq. congruence. }
  unfold plan_from_json, toy_client_wire. rewrite dec_enc_list by apply enc_list_length.
  destruct plan as [[] [id dest] siblings [[] pr]]; cbn; by rewrite dec_enc_Z.
Qed.

(** ** The laws *)

#[export] Instance toy_client_laws config : ClientLaws config.
Proof.
  split; cbn.
  - intros w slot evs slot' new w' [= -> <- _] Hl Hs. by rewrite app_nil_r.
  - intros w p evs p' new w' [= _ <- _] Hl. by rewrite app_nil_r.
  - intros w d evs d' new w' [= _ <- _] Hl. by rewrite app_nil_r.
  - by intros w wallet d text hash root siblings request wallet' d' w' [= <- _ _ _].
Qed.
#[export] Instance toy_note_laws config : NoteLaws config.
Proof. split; cbn; [by intros w d d' evs w' [= <- _ _]|by intros w c d r d' w' [= _ <- _]]. Qed.

(** ** States *)

Definition toy_client_config (mode : RequestMode) : AuthConfig :=
  let c := AuthConfig_default "1" in {|
  ac_protocol_version := ac_protocol_version c; ac_chain_id := ac_chain_id c;
  ac_contract_address := ("0xc0" : @Felt252 toy_felt); ac_request_charge_cap := ac_request_charge_cap c;
  ac_policy_charge_cap := ac_policy_charge_cap c; ac_policy_enabled := ac_policy_enabled c;
  ac_auth_scheme := ac_auth_scheme c; ac_protocol_server_url := "http://server"; ac_indexer_url := "http://indexer";
  ac_listen_addr := ac_listen_addr c; ac_state_dir := "state"; ac_models := ac_models c;
  ac_suggested_deposit_amount := ac_suggested_deposit_amount c; ac_demo_rpc_url := Some "http://rpc";
  ac_demo_billing_token_address := None; ac_demo_mint_enabled := false; ac_demo_note_ttl_seconds := None;
  ac_proof_mode := ac_proof_mode c; ac_cairo_dir := ac_cairo_dir c; ac_trusted_epoch_roots := [];
  ac_proof_setup_dir := ac_proof_setup_dir c; ac_state_signing_key := ac_state_signing_key c;
  ac_clearance_signing_key := ac_clearance_signing_key c; ac_request_mode := mode;
  ac_oa_verifier_url := ac_oa_verifier_url c; ac_openrouter_inference_base := ac_openrouter_inference_base c;
  ac_require_oa_org_key_source := false |}.

Definition http_reply (status : Z) (text : string) : result string HttpResponse :=
  Ok {| http_status := status; http_response_headers := []; http_text := Ok text |}.
(** The services by method and URL; [note] is the vault's answer and
    [inference] OpenRouter's status. *)
Definition toy_services (note : string) (inference : Z) (request : HttpRequest) : result string HttpResponse :=
  let url := http_url request in
  if String.eqb url "http://indexer/v1/tree/root" then http_reply 200 "root"
  else if String.eqb url "http://indexer/v1/tree/notes/7/path" then http_reply 200 "path"
  else if String.eqb url "http://rpc" then http_reply 200 note
  else if String.eqb url "http://server/v2/openrouter/leases" then http_reply 200 "lease"
  else if String.eqb url "http://server/v2/openrouter/leases/req-1" then http_reply 200 "finalized"
  else if String.eqb url (OPENROUTER +:+ CHAT_PATH) then http_reply inference "answer"
  else Err "offline".

Definition toy_client_world (faults : list (option string)) (note : string) (inference : Z) : ToyClientWorld :=
  {| cw_now := 1000; cw_faults := faults; cw_serve := toy_services note inference |}.
(** A wallet with a note of [balance]. *)
Definition toy_disk (balance : Z) : Disk :=
  {| files := {["state/note_state.json" := enc_Z balance]}; dirs := {["state"]} |}.
Definition toy_state (w : ToyClientWorld) (balance : Z) : State := {|
  direct_lease := None; prepared_withdrawal := None; disk := toy_disk balance; world := w; instant := 0;
  events := []; own := [] |}.

Lemma toy_custody config w balance : custody config (toy_state w balance).
Proof. split; [|done]. by intros [|? ?] ev after. Qed.

Definition toy_lease (session_id : string) : ActiveOpenRouterLease := {|
  al_session_id := session_id; al_client_request_id := "req-1"; al_api_key := "sk-or-1";
  al_openrouter_api_base := OPENROUTER; al_expires_at := 1600; al_settle_after := 1660; al_verification := None;
  al_verified := true; al_requests_served := 0 |}.
Definition toy_plan (destination : string) : WithdrawalPlan := {|
  wp_mode := Mutual;
  wp_public_inputs := ({| ti_note_id := 7; ti_destination := destination |} : @WithdrawalPublicInputsV2 _ toy_client_types);
  wp_siblings := ["s0" : @Felt252 toy_felt];
  wp_proof := {| backend := (tt : @ProofBackendWire toy_types); proof := "close" |} |}.
