(* ===== verification/ClientWitnesses.v ===== *)
(** * The daemon's theorems at a concrete wallet

    Each theorem with hypotheses is applied at the instance of [ClientToy], and
    runs of the handlers show behaviour the comments of the code do not promise. *)

From Stdlib Require Import ZArith Lia Ascii.
From stdpp Require Import base tactics decidable numbers list gmap strings.
From S2P Require Import Prelude Text Float64 Json Http Types AuthScheme Store Toy ClientTypes Compat ClientHelpers.
From S2P Require Import OllamaStream ClientWorld ClientWallet DirectLease ClientService ClientRoutes ClientTheory.
From S2P Require Import ClientRel ClientCustody ClientProps WithdrawalProps ClientToy Router ClientRouter.

Local Open Scope string_scope.

(** ** Inputs *)

Definition direct : AuthConfig := toy_client_config DirectOpenrouter.
Lemma direct_mode : ac_request_mode direct = DirectOpenrouter.
Proof. reflexivity. Qed.
(** A note of 1.5 million credits, OpenRouter answering with [inference]. *)
Definition funded (inference : Z) : State := toy_state (toy_client_world [] "closed" inference) 1500000.
Definition leased (session_id : string) (inference : Z) : State := with_lease (Some (toy_lease session_id)) (funded inference).
Definition chat : CoreRequest := post_json "/api/chat" (Object [("model", Str "m")]).
Definition no_assets : string → option (string * string) := λ _, None.
Definition ADDRESS : string := "12345678901234567890".

(** The requests of a log, by method and URL. *)
Definition calls (evs : list Event) : list (string * string) :=
  omap (λ e, match e with EvHttp request _ => Some (http_method request, http_url request) | _ => None end) evs.
(** [m] succeeds with a result and a state that satisfy [P]. *)
Definition run_says {A} (m : M A) σ (P : A → State → bool) : bool :=
  match m σ with (Ok a, σ') => P a σ' | (Err _, _) => false end.
Lemma run_says_inv {A} (m : M A) σ (P : A → State → bool) :
  run_says m σ P = true → ∃ a σ', m σ = (Ok a, σ') ∧ P a σ' = true.
Proof. unfold run_says. destruct (m σ) as [[a|e] σ']; [|done]. intros HP. by exists a, σ'. Qed.
Abbreviation succeeds m σ := (run_says m σ (λ _ _, true)).

(** ** Witnesses *)

Definition two_chunks : list string := ["data: delta" +:+ String "010"%char "data: [DO"; "NE]" +:+ String "010"%char ""].
Lemma chunking_irrelevant_witness :
  items (map Ok two_chunks ++ []) (stream_start "m")
    (whole_text_items [] (foldr String.append "" two_chunks) (stream_start "m")) ∧
  length (whole_text_items [] (foldr String.append "" two_chunks) (stream_start "m")) = 2%nat.
Proof. split; [apply (chunking_irrelevant two_chunks [] "m"); [exact I|reflexivity]|by vm_compute]. Defined.

Lemma handlers_keep_custody_witness : ∃ m,
  serve no_assets "utf8" "digit" direct ChatCompletions [("x-zkapi-session-id", Ok "session-1")]
    (RawJson (Object [("model", Str "m")])) = Some m ∧
  custody direct (m (funded 200)).2 ∧ length (events (m (funded 200)).2) = 7%nat.
Proof.
  eexists. split; [reflexivity|]. split; [|by vm_compute].
  apply (handlers_keep_custody direct no_assets "utf8" "digit" ChatCompletions
           [("x-zkapi-session-id", Ok "session-1")] (RawJson (Object [("model", Str "m")]))); [reflexivity|].
  apply toy_custody.
Defined.

#[local] Instance daemon_axum : Axum := first_match (λ T _ dec _ body, map_err (λ _, 422%Z) (dec body)).
#[local] Instance daemon_axum_laws : AxumLaws := first_match_laws _.
Definition line (method path : string) : DaemonRequest :=
  {| dr_method := method; dr_path := path; dr_headers := [("x-zkapi-session-id", Ok "session-1")]; dr_body := "" |}.
Definition day : list DaemonStep :=
  [Tick; Request (line "GET" "/funding/api/demo"); Request (line "POST" "/wallet/recover"); Tick;
   Request (line "GET" "/funding/../wallet"); Request (line "DELETE" "/wallet/reset")].
Lemma daemon_keeps_custody_witness :
  let σ := (run no_assets "utf8" "digit" direct day (funded 200)).2 in
  custody direct σ ∧ length (own σ) = 7%nat.
Proof. split; [by apply (daemon_keeps_custody direct no_assets "utf8" "digit" day (funded 200))|by vm_compute]. Defined.

(** Two withdrawals asked for, the first by a line that reaches no route. *)
Definition post (path body : string) : DaemonStep :=
  Request {| dr_method := "POST"; dr_path := path; dr_headers := []; dr_body := body |}.
Definition withdrawals : list DaemonStep :=
  [post "/wallet/withdraw/" "withdraw"; Tick; post "/wallet/withdraw" "withdraw"; post "/wallet/settle" "withdraw"].
Lemma notes_move_as_asked_witness :
  let σ := (run no_assets "utf8" "digit" direct withdrawals (funded 200)).2 in
  List.filter moves_note (own σ) = [EvWithdraw Mutual ADDRESS]
  ∧ ∃ request, Request request ∈ withdrawals ∧ asks "utf8" "digit" request (EvWithdraw Mutual ADDRESS).
Proof.
  cbv zeta. destruct (notes_move_as_asked direct no_assets "utf8" "digit" withdrawals (funded 200)) as (l & Ho & Hl).
  assert (List.filter moves_note (own (run no_assets "utf8" "digit" direct withdrawals (funded 200)).2)
          = [EvWithdraw Mutual ADDRESS]) as Hf by by vm_compute.
  split; [exact Hf|]. apply Hl; [|reflexivity]. rewrite Ho in Hf. change (List.filter moves_note l = [EvWithdraw Mutual ADDRESS]) in Hf.
  apply list_elem_of_In, (List.filter_In moves_note). rewrite Hf. left. reflexivity.
Defined.

Lemma only_posts_spend_witness :
  let served request := daemon_serve no_assets "utf8" "digit" direct request (funded 200) in
  (∃ l, own (served (line "GET" "/funding/api/demo")).2 = l ∧ Forall (reads direct) l ∧ length l = 4%nat)
  ∧ length (own (served (line "POST" "/wallet/recover")).2) = 1%nat
  ∧ map (λ request, match (served request).1 with Ok r => reply_status r | Err _ => 0%Z end)
      [line "GET" "/wallet/status"; line "GET" "/wallet/recover"; line "GET" "/funding/a/b.css"; line "GET" "/wallet"]
    = [200; 405; 404; 404]%Z.
Proof.
  split; [|by vm_compute].
  destruct (only_posts_spend direct no_assets "utf8" "digit" (line "GET" "/funding/api/demo") (funded 200) ltac:(discriminate))
    as (l & Ho & Hl).
  assert (length (own (daemon_serve no_assets "utf8" "digit" direct (line "GET" "/funding/api/demo") (funded 200)).2) = 4%nat)
    as Hn by by vm_compute.
  rewrite Ho in Hn. exists l. split; [exact Ho|]. split; [exact Hl|exact Hn].
Defined.

Lemma prompts_stay_local_witness : ∃ body,
  (openrouter_request "/api/chat" (Object [("model", Str "m")])).2 = body ∧
  ∃ l, own (execute_request_in_session direct chat (Some "session-1") (funded 200)).2 = l ∧
       Forall (direct_call direct body) l ∧ length l = 7%nat.
Proof.
  eexists. split; [reflexivity|].
  destruct (prompts_stay_local direct (funded 200) eq_refl (toy_custody _ _ _)) as [Hs _].
  destruct (Hs chat (Some "session-1") _ _ (surjective_pairing _)) as [(l & Ho & Hl) _].
  assert (length (own (execute_request_in_session direct chat (Some "session-1") (funded 200)).2) = 7%nat) as Hn
    by by vm_compute.
  rewrite Ho in Hn. exists l. split; [exact Ho|]. split; [exact Hl|exact Hn].
Defined.

(** The keys a log carries as bearer. *)
Definition keys_sent (evs : list Event) : list string :=
  omap (λ e, match e with EvHttp request _ => http_bearer request | _ => None end) evs.
(** A request that buys a lease and sends its key, one that is sent on the key its
    session has, and one that finds another session's. *)
Lemma session_isolation_witness :
  (let σ' := (execute_request_in_session direct chat (Some "session-1") (funded 200)).2 in
   isolated direct chat (Some "session-1") (funded 200) σ' ∧ keys_sent (own σ') = ["sk-or-1"]) ∧
  (let σ' := (execute_streaming_request_in_session direct chat (Some "session-1") (leased "session-1" 200)).2 in
   isolated direct chat (Some "session-1") (leased "session-1" 200) σ' ∧ length (keys_sent (own σ')) = 1%nat) ∧
  (reserve_lease direct "session-2" (leased "session-1" 200)).1 = Err (LeaseSessionConflict "session-1" 1600).
Proof.
  destruct (session_isolation direct chat (Some "session-1") direct_mode) as (He & Hs & Hc). split; [|split].
  - cbv zeta. split; [|by vm_compute]. eapply He, surjective_pairing.
  - cbv zeta. split; [|by vm_compute]. eapply Hs, surjective_pairing.
  - eapply (Hc "session-2" (leased "session-1" 200) _ _ (toy_lease "session-1"));
      [reflexivity|by split|done|apply surjective_pairing].
Defined.

(** Three answers with a transient status, two pauses. *)
Lemma inference_retries_witness :
  let url := "https://openrouter.ai/api/v1/chat/completions" in
  let run := send_openrouter_request url "sk-or-1" Null 1600 (funded 503) in
  ∃ l, attempts (inference_request url "sk-or-1" Null) 1600 1 (funded 503) l run.1 run.2 ∧ own run.2 = l ∧ length l = 5%nat.
Proof.
  destruct (inference_retries "https://openrouter.ai/api/v1/chat/completions" "sk-or-1" Null 1600 (funded 503) _ _
              (surjective_pairing _)) as (l & Hl & Ho & _).
  assert (length (own (send_openrouter_request "https://openrouter.ai/api/v1/chat/completions" "sk-or-1" Null 1600
    (funded 503)).2) = 5%nat) as Hn by by vm_compute.
  exists l. split; [exact Hl|]. rewrite Ho in Hn. split; [exact Ho|exact Hn].
Defined.

Lemma prepared_withdrawal_blocks_witness : ∃ m σ1,
  execute_request_in_session direct chat (Some "session-1") (with_prepared (Some (toy_plan ADDRESS)) (funded 200))
    = (Err (WithdrawalPending m), σ1) ∧ own σ1 = [].
Proof.
  destruct (prepared_withdrawal_blocks direct (toy_plan ADDRESS) chat (Some "session-1")
    (with_prepared (Some (toy_plan ADDRESS)) (funded 200)) _ eq_refl) as (m & Hr & _ & Ho & _).
  by exists m, (lock_prepared (with_prepared (Some (toy_plan ADDRESS)) (funded 200))).2.
Defined.

Lemma withdrawal_survives_restart_witness : ∃ plan σ' σs,
  create_withdrawal direct Mutual ADDRESS (funded 200) = (Ok plan, σ') ∧ prepared_withdrawal σ' = Some plan ∧
  service_new direct (with_prepared None σ') = (Ok tt, σs) ∧ prepared_withdrawal σs = Some plan.
Proof.
  assert (run_says (create_withdrawal direct Mutual ADDRESS) (funded 200)
            (λ _ σ', succeeds (service_new direct) (with_prepared None σ')) = true) as Hs by by vm_compute.
  apply run_says_inv in Hs as (plan & σ' & Hrun & Hs). apply run_says_inv in Hs as ([] & σs & Hnew & _).
  destruct (withdrawal_survives_restart direct Mutual ADDRESS (funded 200) _ plan σ' toy_plan_roundtrip eq_refl Hrun)
    as (Hp & Hr & _).
  exists plan, σ', σs. split; [exact Hrun|]. split; [exact Hp|]. split; [exact Hnew|]. exact (Hr (with_prepared None σ') σs eq_refl Hnew).
Defined.

(** The vault says the note is closed: it is cleared. It says active: it is
    kept. *)
Definition note_at (path : string) σ : option string := files (disk σ) !! path.
Definition active_note σ : option string := note_at (note_state_path (ac_state_dir direct)) σ.
Definition cleared σ : bool := match active_note σ with None => true | Some _ => false end.
Lemma cleared_note_differs σ σ' :
  cleared σ = false → cleared σ' = true → ¬ same_note direct (disk σ) (disk σ').
Proof. unfold cleared, active_note, note_at. intros Hthere Hgone [Hs _]. by rewrite Hs, Hthere in Hgone. Qed.
Lemma confirm_clears_only_closed_witness :
  (∃ asked, asked `prefix_of` own (confirm_withdrawal direct (funded 200)).2 ∧ vault_reports direct 7 3 asked) ∧
  cleared (confirm_withdrawal direct (funded 200)).2 = true ∧
  cleared (confirm_withdrawal direct (toy_state (toy_client_world [] "active" 200) 1500000)).2 = false.
Proof.
  assert (cleared (confirm_withdrawal direct (funded 200)).2 = true) as Hgone by by vm_compute.
  split; [|split; [exact Hgone|by vm_compute]].
  destruct (confirm_clears_only_closed direct (funded 200) _ _ (surjective_pairing _)) as [Hs|(before & σ1 & note & asked & Hst & Hnote & Hp & Hv)].
  - assert (cleared (funded 200) = false) as Hthere by by vm_compute.
    destruct (cleared_note_differs _ _ Hthere Hgone Hs).
  - assert (run_says (status direct) (funded 200) (λ s σ, match ws_note s with Some n => Z.eqb (ns_note_id n) 7 | None => false end
      && bool_decide (length (own σ) = 0%nat)) = true) as Hs by by vm_compute.
    unfold run_says in Hs. rewrite Hst, Hnote in Hs. apply andb_true_iff in Hs as [Hid%Z.eqb_eq Hlen%bool_decide_eq_true].
    apply nil_length_inv in Hlen. rewrite Hid in Hv. rewrite Hlen in Hp. exists asked. split; [exact Hp|exact Hv].
Defined.

Lemma settlement_is_complete_witness : ∃ s σ',
  settle_for_withdrawal direct (leased "session-1" 200) = (Ok s, σ') ∧ ws_pending_request s = false ∧
  direct_lease σ' = None.
Proof.
  assert (succeeds (settle_for_withdrawal direct) (leased "session-1" 200) = true) as Hok by by vm_compute.
  apply run_says_inv in Hok as (s & σ' & Hrun & _).
  destruct (settlement_is_complete direct (leased "session-1" 200) s σ' Hrun) as [Hs Hl].
  exists s, σ'. split; [exact Hrun|]. split; [exact Hs|exact (Hl direct_mode)].
Defined.

Definition low : State := toy_state (toy_client_world [] "active" 200) 500.
Definition is_retired (rn : option RetiredNote) (path : string) : bool :=
  match rn with
  | Some rn => Z.eqb (rn_note_id rn) 7 && Z.eqb (rn_remaining_balance rn) 500 && String.eqb (rn_state_dir rn) path
  | None => false
  end.
Lemma retired_note_kept_witness : ∃ rn contents σ',
  retire_low_balance_note direct low = (Ok (Some rn), σ') ∧ rn_state_dir rn = "state/retired/note_7" ∧
  note_at (note_state_path (rn_state_dir rn)) σ' = Some contents ∧ active_note σ' = None.
Proof.
  assert (run_says (retire_low_balance_note direct) low (λ rn _, is_retired rn "state/retired/note_7") = true) as Hs
    by by vm_compute.
  apply run_says_inv in Hs as ([rn|] & σ' & Hrun & Hs); [|discriminate Hs].
  apply andb_true_iff in Hs as [_ Hd%String.eqb_eq].
  destruct (retired_note_kept direct low _ σ' Hrun) as [Hk _].
  destruct (Hk rn eq_refl) as (wallet & state & contents & σ1 & _ & _ & _ & _ & _ & _ & _ & Hf).
  exists rn, contents, σ'. split; [exact Hrun|]. split; [exact Hd|]. unfold active_note, note_at. rewrite Hf, Hd. split.
  - by rewrite lookup_insert.
  - rewrite lookup_insert_ne by done. by rewrite lookup_delete.
Defined.

Lemma abi_word_roundtrip_witness :
  abi_word_u64 (abi_encode_u32 7) = Ok 7%Z ∧
  abi_word_u64 (zero_word) = Ok 0%Z ∧ is_ok (abi_word_u64 ("1" +:+ String.substring 1 63 zero_word)) = false.
Proof. split; [apply (abi_word_roundtrip 7 zero_word); by split|by vm_compute]. Defined.

(** ** Runs *)

(** The demo's submit handler does not look at the prepared withdrawal, and in
    direct mode it sends the prompt to the zkAPI server. *)
Example submit_beside_withdrawal :
  let r := request_submit direct chat (with_prepared (Some (toy_plan ADDRESS)) (funded 200)) in
  is_ok r.1 = true ∧ EvRequestFlow "/api/chat ?" ∈ own r.2 ∧ prepared_withdrawal r.2 = Some (toy_plan ADDRESS).
Proof. split; [by vm_compute|]. split; [|by vm_compute]. vm_compute. do 3 constructor 2. constructor. Qed.

(** A bad request costs the session its lease. *)
Example bad_request_retires_lease :
  let r := execute_request_in_session direct chat (Some "session-1") (leased "session-1" 400) in
  r.1 = Err (UpstreamResponse 400 "answer") ∧ direct_lease r.2 = None ∧
  ("POST", "http://server/v2/openrouter/leases/req-1") ∈ calls (own r.2).
Proof. vm_compute. split; [done|]. split; [done|]. repeat (constructor 1 || constructor 2). Qed.

(** A plan that could not be written is returned as prepared by the next call,
    and is not on disk. *)
Example failed_persist_is_masked :
  let full := toy_state (toy_client_world [None; None; Some "disk full"] "active" 200) 1500000 in
  let first := create_withdrawal direct Mutual ADDRESS full in
  let second := create_withdrawal direct Mutual ADDRESS first.2 in
  first.1 = Err (WalletErr "disk full") ∧ second.1 = Ok (toy_plan ADDRESS) ∧
  files (disk second.2) !! prepared_withdrawal_path "state" = None.
Proof. by vm_compute. Qed.
