(* ===== verification/Cli.v ===== *)
(** * The command line's data and pure functions: [zkapi-cli/src/main.rs]

    The options, the deployment manifest, the configurations they become, the
    checks of a withdrawal proof and the texts passed to [cast]. Errors are the
    messages [anyhow] carries. *)

From Stdlib Require Import ZArith Lia Ascii.
From stdpp Require Import base tactics decidable numbers list strings.
From S2P Require Import Prelude Text Float64 Json Http Types AuthScheme Config ClientTypes ClientHelpers ClientWorld.
From S2P Require Import ClientWallet.

Local Open Scope string_scope.

(** ** Options *)

Inductive WithdrawalModeArg := ArgMutual | ArgEscape | ArgFinalizeEscape.
#[export] Instance WithdrawalModeArg_eq_dec : EqDecision WithdrawalModeArg.
Proof. solve_decision. Defined.
Inductive ClientModeArg := ArgProxy | ArgDirectOpenrouter.
Inductive ProviderArg := ArgEcho | ArgHttpProxy | ArgMetered.

(** [impl From<ClientModeArg> for RequestMode] *)
Definition request_mode_of (value : ClientModeArg) : RequestMode :=
  match value with ArgProxy => Proxy | ArgDirectOpenrouter => DirectOpenrouter end.

(** The options before the subcommand. *)
Record Cli := {
  cli_state_dir : string;
  cli_protocol_server_url : string;
  cli_indexer_url : string;
  cli_protocol_version : Z;
  cli_chain_id : Z;
  cli_contract_address : string;
  cli_request_charge_cap : Z;
  cli_policy_charge_cap : Z;
  cli_policy_enabled : bool;
  cli_auth_scheme : string;
  cli_models : list string;
  cli_demo_rpc_url : option string;
  cli_demo_billing_token_address : option string;
  cli_demo_note_ttl_seconds : option Z;
  cli_trusted_epoch_roots : option string;
  cli_proof_setup_dir : string;
  cli_state_signing_key_x : string;
  cli_state_signing_key_y : string;
  cli_clearance_signing_key_x : string;
  cli_clearance_signing_key_y : string;
  cli_oa_verifier_url : string;
  cli_openrouter_inference_base : string;
  cli_require_oa_org_key_source : bool;
}.

(** [Commands::Serverd] *)
Record ServerdArgs := {
  sv_listen : string;
  sv_provider : ProviderArg;
  sv_flat_charge : Z;
  sv_upstream_url : option string;
  sv_proxy_timeout_ms : Z;
  sv_openai_api_key : option string;
  sv_openai_api_base : string;
  sv_openrouter_inference_key : option string;
  sv_openrouter_api_base : string;
  sv_openrouter_management_key : option string;
  sv_oa_org_url : option string;
  sv_openrouter_lease_ttl_seconds : Z;
  sv_openrouter_settlement_grace_seconds : Z;
  sv_openrouter_settlement_poll_seconds : Z;
  sv_db_path : string;
  sv_state_seed : option string;
  sv_clear_seed : option string;
  sv_initial_root : string;
  sv_indexer_url : option string;
  sv_root_poll_interval_ms : Z;
}.

Definition resolve_secret (cli_value env_value : option string) : option string :=
  match match cli_value with Some v => Some v | None => env_value end with
  | Some value => if String.eqb value "" then None else Some value
  | None => None
  end.

(** The source of key leases from the three secrets. *)
Definition lease_source (openrouter_management_key oa_org_url oa_org_shared_secret : option string)
    (api_base : string) : result string (option OpenRouterLeaseSourceConfig) :=
  match openrouter_management_key, oa_org_url, oa_org_shared_secret with
  | Some _, Some _, _ | Some _, _, Some _ =>
      Err "configure either direct OpenRouter management or OA org key issuance, not both"
  | Some management_key, None, None => Ok (Some (SourceOpenRouter management_key api_base))
  | None, Some org_base_url, Some shared_secret => Ok (Some (SourceOaOrg org_base_url shared_secret))
  | None, Some _, None => Err "--oa-org-url requires an OA org shared secret"
  | None, None, Some _ => Err "an OA org shared secret requires --oa-org-url"
  | None, None, None => Ok None
  end.

(** ** The manifest of a deployment *)

Record DeploymentCurvePoint := { dc_x : string; dc_y : string }.
Record DeploymentManifest := {
  dm_deployment_id : string;
  dm_protocol_version : Z;
  dm_chain_id : Z;
  dm_rpc_url : string;
  dm_contract_address : string;
  dm_billing_token_address : option string;
  dm_demo_mint_enabled : bool;
  dm_protocol_server_url : string;
  dm_indexer_url : string;
  dm_request_charge_cap : Z;
  dm_proof_backend : string;
  dm_state_signing_key : DeploymentCurvePoint;
  dm_clearance_signing_key : DeploymentCurvePoint;
  dm_models : list ModelDescriptor;
}.

Definition model_of_value (v : Value) : option ModelDescriptor :=
  m ← as_object v;
  id ← field_req as_str "id" m;
  owned_by ← field_req as_str "owned_by" m;
  tags ← field_default decode_strings [] "tags" m;
  Some {| md_id := id; md_owned_by := owned_by; md_tags := tags |}.
Definition models_of_value (v : Value) : option (list ModelDescriptor) := l ← as_array v; mapM model_of_value l.
Definition deployment_point_of_value (v : Value) : option DeploymentCurvePoint :=
  m ← as_object v;
  x ← field_req as_str "x" m;
  y ← field_req as_str "y" m;
  Some {| dc_x := x; dc_y := y |}.
Definition manifest_of_value (v : Value) : option DeploymentManifest :=
  m ← as_object v;
  deployment_id ← field_req as_str "deployment_id" m;
  protocol_version ← field_req as_u16 "protocol_version" m;
  chain_id ← field_req as_u64 "chain_id" m;
  rpc_url ← field_req as_str "rpc_url" m;
  contract_address ← field_req as_str "contract_address" m;
  billing_token_address ← field_opt as_str "billing_token_address" m;
  demo_mint_enabled ← field_default as_bool false "demo_mint_enabled" m;
  protocol_server_url ← field_req as_str "protocol_server_url" m;
  indexer_url ← field_req as_str "indexer_url" m;
  request_charge_cap ← field_req as_u128 "request_charge_cap" m;
  proof_backend ← field_req as_str "proof_backend" m;
  state_signing_key ← field_req deployment_point_of_value "state_signing_key" m;
  clearance_signing_key ← field_req deployment_point_of_value "clearance_signing_key" m;
  models ← field_default models_of_value [] "models" m;
  Some {|
    dm_deployment_id := deployment_id; dm_protocol_version := protocol_version; dm_chain_id := chain_id;
    dm_rpc_url := rpc_url; dm_contract_address := contract_address;
    dm_billing_token_address := billing_token_address; dm_demo_mint_enabled := demo_mint_enabled;
    dm_protocol_server_url := protocol_server_url; dm_indexer_url := indexer_url;
    dm_request_charge_cap := request_charge_cap; dm_proof_backend := proof_backend;
    dm_state_signing_key := state_signing_key; dm_clearance_signing_key := clearance_signing_key;
    dm_models := models |}.

Definition validate_deployment_manifest (manifest : DeploymentManifest) : result string unit :=
  _ ← fail_if (negb (dm_protocol_version manifest =? 2)%Z)
        ("deployment " +:+ dm_deployment_id manifest +:+ " uses unsupported protocol version "
         +:+ show_uint (dm_protocol_version manifest) +:+ "; expected v2");
  _ ← fail_if (negb (String.eqb (dm_proof_backend manifest) "groth16_bn254"))
        ("deployment " +:+ dm_deployment_id manifest +:+ " uses unsupported proof backend "
         +:+ dm_proof_backend manifest +:+ "; expected groth16_bn254");
  fail_if (String.eqb (dm_protocol_server_url manifest) "" || String.eqb (dm_indexer_url manifest) "")
    ("deployment " +:+ dm_deployment_id manifest +:+ " is missing public service URLs").

Definition minimum_initial_credits (request_charge_cap : Z) : result string Z :=
  _ ← fail_if (request_charge_cap =? 0)%Z "deployment request charge cap must be greater than zero";
  if (request_charge_cap * 2 <=? u128_MAX)%Z then Ok (request_charge_cap * 2)%Z
  else Err ("deployment request charge cap " +:+ show_uint request_charge_cap +:+ " is too large").

(** A word of a vault getter, printed by [cast] as a number, a decimal or a
    hexadecimal string; the text of a parse error is an argument. *)
Definition value_as_u64 (parse_error : string → string) (print : Value → string) (value : option Value) (label : string)
    : result string Z :=
  value ← ok_or ("vault getter returned no " +:+ label) value;
  match as_u64 value with
  | Some number => Ok number
  | None =>
      match as_str value with
      | Some s =>
          match strip_prefix "0x" s with
          | Some hex => ok_or ("invalid " +:+ label +:+ " " +:+ s +:+ ": " +:+ parse_error hex) (parse_uint 16 u64_MAX hex)
          | None => ok_or ("invalid " +:+ label +:+ " " +:+ s +:+ ": " +:+ parse_error s) (parse_u64 s)
          end
      | None => Err ("vault getter returned invalid " +:+ label +:+ ": " +:+ print value)
      end
  end.

(** The name of a deployment as a directory: characters outside the ASCII set
    become one underscore each, whatever their length in bytes. *)
Definition safe_char (c : ascii) : bool := is_ascii_alphanumeric c || Ascii.eqb c "-" || Ascii.eqb c "_".
Definition safe_id (deployment_id : string) : string :=
  String.concat "" (map (λ p : bool * string,
    match p.2 with String c EmptyString => if safe_char c then p.2 else "_" | _ => "_" end)
    (utf8_parts (String.length deployment_id) deployment_id)).
Definition default_client_state_dir (xdg_state_home home : option string) (deployment_id : string) : string :=
  let state_root :=
    match xdg_state_home with
    | Some dir => dir
    | None => match home with Some home => join (join home ".local") "state" | None => "." end
    end in
  join (join state_root "zkapi") (safe_id deployment_id).

Section cli.
Context `{!FeltOps, !WireTypes, !ClientTypes, !JsonText, !SerdeText, !WalletOps, !ClientEnv, !ClientWire}.

(** What the protocol crates and the codecs provide beside [ClientTypes]: the
    fields of a withdrawal's public inputs, the 32 bytes of a field element, the
    name of the proof system. *)
Class CliTypes := {
  groth16_bn254 : ProofBackendWire;
  felt_bytes : Felt252 → string;
  withdrawal_protocol_version : WithdrawalPublicInputsV2 → Z;
  withdrawal_chain_id : WithdrawalPublicInputsV2 → Z;
  withdrawal_contract_address : WithdrawalPublicInputsV2 → Felt252;
  withdrawal_active_root : WithdrawalPublicInputsV2 → Felt252;
  withdrawal_state_signing_key_x : WithdrawalPublicInputsV2 → Felt252;
  withdrawal_state_signing_key_y : WithdrawalPublicInputsV2 → Felt252;
  withdrawal_clearance_signing_key_x : WithdrawalPublicInputsV2 → Felt252;
  withdrawal_clearance_signing_key_y : WithdrawalPublicInputsV2 → Felt252;
  withdrawal_final_balance : WithdrawalPublicInputsV2 → Z;
  withdrawal_withdrawal_nullifier : WithdrawalPublicInputsV2 → Felt252;
  withdrawal_has_clearance : WithdrawalPublicInputsV2 → bool;
  withdrawal_withdrawal_tag : WithdrawalPublicInputsV2 → Felt252;
  public_inputs_of_value : Value → option WithdrawalPublicInputsV2;
  proof_wire_of_value : Value → option Groth16ProofWire;
  (** [STANDARD.decode] of the [base64] crate. *)
  base64_standard_decode : string → result string string;
  (** Texts of the standard library's errors for a UTF-8 or a digit error. *)
  utf8_error : string → string;
  digit_error : string → string;
}.
Context `{!CliTypes}.
Implicit Types (cli : Cli) (manifest : DeploymentManifest) (plan : WithdrawalPlan).

(** ** Parsing options *)

Definition parse_felt (label value : string) : result string Felt252 :=
  map_err (λ err, "invalid " +:+ label +:+ ": " +:+ err) (from_hex value).
Definition parse_curve_point (label x y : string) : result string CurvePointWire :=
  px ← parse_felt (label +:+ " x") x;
  py ← parse_felt (label +:+ " y") y;
  Ok {| point_x := px; point_y := py |}.
Definition parse_auth_scheme (value : string) : result string AuthSchemeKind := scheme_from_str value.

(** The two error texts depend on the pair that failed; which pair that is is
    decided before either text is built. *)
Definition parse_destination (value : string) : result string string :=
  ClientHelpers.parse_destination (utf8_error value) (digit_error value) value.
Definition normalize_address (value : string) : result string string :=
  address ← parse_destination value; Ok (format_address address).

(** ** Configurations *)

(** [load_trusted_epoch_roots] is the outcome of reading the file, if one is
    named. *)
Definition auth_config (cli : Cli) (request_mode : RequestMode) (trusted_epoch_roots : result string (list EpochRoots))
    : result string AuthConfig :=
  contract_address ← parse_felt "contract address" (cli_contract_address cli);
  auth_scheme ← parse_auth_scheme (cli_auth_scheme cli);
  trusted_epoch_roots ← trusted_epoch_roots;
  state_signing_key ← parse_curve_point "state signing key" (cli_state_signing_key_x cli) (cli_state_signing_key_y cli);
  clearance_signing_key ←
    parse_curve_point "clearance signing key" (cli_clearance_signing_key_x cli) (cli_clearance_signing_key_y cli);
  Ok {|
    ac_protocol_version := cli_protocol_version cli;
    ac_chain_id := cli_chain_id cli;
    ac_contract_address := contract_address;
    ac_request_charge_cap := cli_request_charge_cap cli;
    ac_policy_charge_cap := cli_policy_charge_cap cli;
    ac_policy_enabled := cli_policy_enabled cli;
    ac_auth_scheme := auth_scheme;
    ac_protocol_server_url := cli_protocol_server_url cli;
    ac_indexer_url := cli_indexer_url cli;
    ac_listen_addr := "127.0.0.1:11434";
    ac_state_dir := cli_state_dir cli;
    ac_models := map ModelDescriptor_new (cli_models cli);
    ac_suggested_deposit_amount := Z.min (cli_request_charge_cap cli * 2) u128_MAX;
    ac_demo_rpc_url := cli_demo_rpc_url cli;
    ac_demo_billing_token_address := cli_demo_billing_token_address cli;
    ac_demo_mint_enabled := false;
    ac_demo_note_ttl_seconds := cli_demo_note_ttl_seconds cli;
    ac_proof_mode := "groth16_bn254";
    ac_cairo_dir := "";
    ac_trusted_epoch_roots := trusted_epoch_roots;
    ac_proof_setup_dir := cli_proof_setup_dir cli;
    ac_state_signing_key := state_signing_key;
    ac_clearance_signing_key := clearance_signing_key;
    ac_request_mode := request_mode;
    ac_oa_verifier_url := cli_oa_verifier_url cli;
    ac_openrouter_inference_base := cli_openrouter_inference_base cli;
    ac_require_oa_org_key_source := cli_require_oa_org_key_source cli |}.

Record LocalClientPolicy := {
  lp_request_mode : RequestMode;
  lp_suggested_deposit_amount : Z;
  lp_allow_demo_mint : bool;
  lp_oa_verifier_url : string;
  lp_openrouter_inference_base : string;
  lp_require_oa_org_key_source : bool;
}.
(** The configuration [auth_service_from_manifest] starts the service with. *)
Definition manifest_config (manifest : DeploymentManifest) (state_dir listen : string) (policy : LocalClientPolicy)
    : result string AuthConfig :=
  let models := match dm_models manifest with [] => [ModelDescriptor_new "openai/gpt-5.6-sol"] | models => models end in
  contract_address ← parse_felt "deployment contract address" (dm_contract_address manifest);
  state_signing_key ← parse_curve_point "deployment state signing key"
    (dc_x (dm_state_signing_key manifest)) (dc_y (dm_state_signing_key manifest));
  clearance_signing_key ← parse_curve_point "deployment clearance signing key"
    (dc_x (dm_clearance_signing_key manifest)) (dc_y (dm_clearance_signing_key manifest));
  Ok {|
    ac_protocol_version := dm_protocol_version manifest;
    ac_chain_id := dm_chain_id manifest;
    ac_contract_address := contract_address;
    ac_request_charge_cap := dm_request_charge_cap manifest;
    ac_policy_charge_cap := 10000000;
    ac_policy_enabled := false;
    ac_auth_scheme := StateAnchor;
    ac_protocol_server_url := dm_protocol_server_url manifest;
    ac_indexer_url := dm_indexer_url manifest;
    ac_listen_addr := listen;
    ac_state_dir := state_dir;
    ac_models := models;
    ac_suggested_deposit_amount := lp_suggested_deposit_amount policy;
    ac_demo_rpc_url := Some (dm_rpc_url manifest);
    ac_demo_billing_token_address := dm_billing_token_address manifest;
    ac_demo_mint_enabled := dm_demo_mint_enabled manifest && lp_allow_demo_mint policy;
    ac_demo_note_ttl_seconds := None;
    ac_proof_mode := "groth16_bn254";
    ac_cairo_dir := "";
    ac_trusted_epoch_roots := [];
    ac_proof_setup_dir := "protocol/setup/v2";
    ac_state_signing_key := state_signing_key;
    ac_clearance_signing_key := clearance_signing_key;
    ac_request_mode := lp_request_mode policy;
    ac_oa_verifier_url := lp_oa_verifier_url policy;
    ac_openrouter_inference_base := lp_openrouter_inference_base policy;
    ac_require_oa_org_key_source := lp_require_oa_org_key_source policy |}.

(** The arguments and the environment of [zkapi serverd] as a server
    configuration; [..Default::default()] fills only fields of the retired
    signer. *)
Definition server_config (cli : Cli) (args : ServerdArgs) (env : string → option string)
    (trusted_epoch_roots : result string (list EpochRoots)) : result string ServerConfig :=
  let state_seed := default "0x1" (resolve_secret (sv_state_seed args) (env "ZKAPI_STATE_SEED")) in
  let clear_seed := default "0x2" (resolve_secret (sv_clear_seed args) (env "ZKAPI_CLEAR_SEED")) in
  let metered :=
    match sv_provider args with
    | ArgMetered => Some {|
        openai_api_base := sv_openai_api_base args;
        openai_api_key := resolve_secret (sv_openai_api_key args) (env "ZKAPI_OPENAI_API_KEY");
        openrouter_api_base := sv_openrouter_api_base args;
        openrouter_inference_key :=
          resolve_secret (sv_openrouter_inference_key args) (env "ZKAPI_OPENROUTER_INFERENCE_KEY") |}
    | _ => None
    end in
  let openrouter_management_key :=
    resolve_secret (sv_openrouter_management_key args) (env "ZKAPI_OPENROUTER_MANAGEMENT_KEY") in
  let oa_org_shared_secret := resolve_secret None (env "ZKAPI_OA_ORG_SHARED_SECRET") in
  source ← lease_source openrouter_management_key (sv_oa_org_url args) oa_org_shared_secret
             (sv_openrouter_api_base args);
  contract_address ← parse_felt "contract address" (cli_contract_address cli);
  auth_scheme ← parse_auth_scheme (cli_auth_scheme cli);
  state_seed ← parse_felt "state seed" state_seed;
  clear_seed ← parse_felt "clear seed" clear_seed;
  initial_root ← parse_felt "initial root" (sv_initial_root args);
  _ ← trusted_epoch_roots;
  Ok {|
    c_protocol_version := cli_protocol_version cli;
    c_chain_id := cli_chain_id cli;
    c_contract_address := contract_address;
    c_request_charge_cap := cli_request_charge_cap cli;
    c_policy_charge_cap := cli_policy_charge_cap cli;
    c_policy_enabled := cli_policy_enabled cli;
    c_auth_scheme := auth_scheme;
    c_listen_addr := sv_listen args;
    c_provider_kind := match sv_provider args with
                       | ArgEcho => Echo | ArgHttpProxy => HttpProxy | ArgMetered => Metered end;
    c_echo_fixed_charge := sv_flat_charge args;
    c_proxy_default_charge := sv_flat_charge args;
    c_proxy_upstream_url := sv_upstream_url args;
    c_proxy_timeout_ms := sv_proxy_timeout_ms args;
    c_db_path := sv_db_path args;
    c_state_seed := state_seed;
    c_clear_seed := clear_seed;
    c_initial_root := initial_root;
    c_indexer_url := sv_indexer_url args;
    c_root_poll_interval_ms := sv_root_poll_interval_ms args;
    c_metered := metered;
    c_openrouter_leases := (λ source, {|
      lc_source := source;
      lc_ttl_seconds := sv_openrouter_lease_ttl_seconds args;
      lc_settlement_grace_seconds := sv_openrouter_settlement_grace_seconds args;
      lc_settlement_poll_seconds := sv_openrouter_settlement_poll_seconds args |}) <$> source;
    c_proof_setup_dir := cli_proof_setup_dir cli |}.

(** The configuration of the wallet [zkapi keygen] makes. *)
Definition keygen_config cli : result string ClientConfig :=
  contract_address ← parse_felt "contract address" (cli_contract_address cli);
  state_signing_key ← parse_curve_point "state signing key" (cli_state_signing_key_x cli) (cli_state_signing_key_y cli);
  clearance_signing_key ←
    parse_curve_point "clearance signing key" (cli_clearance_signing_key_x cli) (cli_clearance_signing_key_y cli);
  Ok {|
    cc_protocol_version := cli_protocol_version cli;
    cc_chain_id := cli_chain_id cli;
    cc_contract_address := contract_address;
    cc_request_charge_cap := cli_request_charge_cap cli;
    cc_policy_charge_cap := cli_policy_charge_cap cli;
    cc_policy_enabled := cli_policy_enabled cli;
    cc_server_url := cli_protocol_server_url cli;
    cc_state_dir := cli_state_dir cli;
    cc_setup_dir := cli_proof_setup_dir cli;
    cc_trusted_epoch_roots := [];
    cc_state_signing_key := state_signing_key;
    cc_clearance_signing_key := clearance_signing_key |}.

(** ** What the daemon answers *)

Definition note_status_of_value (v : Value) : option NoteStatus :=
  m ← as_object v;
  note_id ← field_req as_u32 "note_id" m;
  deposit_amount ← field_req as_u128 "deposit_amount" m;
  current_balance ← field_req as_u128 "current_balance" m;
  expiry_ts ← field_req as_u64 "expiry_ts" m;
  is_genesis ← field_req as_bool "is_genesis" m;
  current_anchor ← field_req felt_of_value "current_anchor" m;
  current_commitment_x ← field_req felt_of_value "current_commitment_x" m;
  current_commitment_y ← field_req felt_of_value "current_commitment_y" m;
  Some {| ns_note_id := note_id; ns_deposit_amount := deposit_amount; ns_current_balance := current_balance;
          ns_expiry_ts := expiry_ts; ns_is_genesis := is_genesis; ns_current_anchor := current_anchor;
          ns_current_commitment_x := current_commitment_x; ns_current_commitment_y := current_commitment_y |}.
Definition wallet_status_of_value (v : Value) : option WalletStatus :=
  m ← as_object v;
  has_note ← field_req as_bool "has_note" m;
  pending_request ← field_req as_bool "pending_request" m;
  funding_url ← field_req as_str "funding_url" m;
  note ← field_opt note_status_of_value "note" m;
  Some {| ws_has_note := has_note; ws_pending_request := pending_request; ws_funding_url := funding_url;
          ws_note := note |}.
Definition funding_config_of_value (v : Value) : option FundingConfig :=
  m ← as_object v;
  contract_address ← field_req felt_of_value "contract_address" m;
  chain_id ← field_req as_u64 "chain_id" m;
  indexer_url ← field_req as_str "indexer_url" m;
  protocol_server_url ← field_req as_str "protocol_server_url" m;
  models ← field_req models_of_value "models" m;
  suggested_deposit_amount ← field_req as_u128 "suggested_deposit_amount" m;
  demo_rpc_url ← field_opt as_str "demo_rpc_url" m;
  demo_billing_token_address ← field_opt as_str "demo_billing_token_address" m;
  demo_mint_enabled ← field_req as_bool "demo_mint_enabled" m;
  demo_note_ttl_seconds ← field_opt as_u64 "demo_note_ttl_seconds" m;
  Some {| fc_contract_address := contract_address; fc_chain_id := chain_id; fc_indexer_url := indexer_url;
          fc_protocol_server_url := protocol_server_url; fc_models := models;
          fc_suggested_deposit_amount := suggested_deposit_amount; fc_demo_rpc_url := demo_rpc_url;
          fc_demo_billing_token_address := demo_billing_token_address; fc_demo_mint_enabled := demo_mint_enabled;
          fc_demo_note_ttl_seconds := demo_note_ttl_seconds |}.
Definition mode_text (mode : WithdrawalMode) : string := match mode with Mutual => "mutual" | Escape => "escape" end.
Definition withdrawal_mode_of_value (v : Value) : option WithdrawalMode :=
  s ← as_str v;
  if String.eqb s "mutual" then Some Mutual else if String.eqb s "escape" then Some Escape else None.
Definition withdrawal_plan_of_value (v : Value) : option WithdrawalPlan :=
  m ← as_object v;
  mode ← field_req withdrawal_mode_of_value "mode" m;
  public_inputs ← field_req public_inputs_of_value "public_inputs" m;
  siblings ← field_req (λ v, l ← as_array v; mapM felt_of_value l) "siblings" m;
  proof ← field_req proof_wire_of_value "proof" m;
  Some {| wp_mode := mode; wp_public_inputs := public_inputs; wp_siblings := siblings; wp_proof := proof |}.

(** ** Checks of a withdrawal *)

Definition validate_client_deployment (funding : FundingConfig) manifest : result string unit :=
  manifest_contract ← parse_felt "deployment contract address" (dm_contract_address manifest);
  fail_if (negb (fc_chain_id funding =? dm_chain_id manifest)%Z
           || negb (bool_decide (fc_contract_address funding = manifest_contract)))
    ("the running client uses chain " +:+ show_uint (fc_chain_id funding) +:+ " contract "
     +:+ felt_to_string (fc_contract_address funding) +:+ ", but --deployment selects chain "
     +:+ show_uint (dm_chain_id manifest) +:+ " contract " +:+ dm_contract_address manifest
     +:+ "; use the same manifest for `client` and `withdraw`").

Definition validate_withdrawal_plan plan manifest (mode : WithdrawalMode) (destination : string) : result string unit :=
  let inputs := wp_public_inputs plan in
  _ ← fail_if (negb (bool_decide (wp_mode plan = mode))) "local client returned the wrong withdrawal mode";
  let mismatch := "withdrawal proof does not match the selected deployment" in
  _ ← fail_if (negb (withdrawal_protocol_version inputs =? dm_protocol_version manifest)%Z
               || negb (withdrawal_chain_id inputs =? dm_chain_id manifest)%Z) mismatch;
  contract_address ← parse_felt "deployment contract address" (dm_contract_address manifest);
  _ ← fail_if (negb (bool_decide (withdrawal_contract_address inputs = contract_address))) mismatch;
  address ← normalize_address destination;
  _ ← fail_if (negb (String.eqb address (format_address (withdrawal_destination inputs))))
        "withdrawal proof does not match --destination";
  _ ← fail_if (negb (Bool.eqb (withdrawal_has_clearance inputs) (bool_decide (mode = Mutual))))
        "withdrawal proof has an invalid clearance mode";
  _ ← fail_if (negb (Nat.eqb (length (wp_siblings plan)) 32))
        ("withdrawal proof returned " +:+ show_uint (Z.of_nat (length (wp_siblings plan)))
         +:+ " Merkle siblings; expected 32");
  _ ← fail_if (negb (bool_decide (backend (wp_proof plan) = groth16_bn254))) "withdrawal proof is not Groth16 BN254";
  proof ← map_err (λ error, "withdrawal proof is invalid base64: " +:+ error)
            (base64_standard_decode (Types.proof (wp_proof plan)));
  fail_if (String.eqb proof "") "withdrawal proof is empty".

(** ** Texts for [cast] *)

Definition felt_as_address (value : Felt252) : result string string :=
  let bytes := felt_bytes value in
  _ ← fail_if (negb (str_forall (Ascii.eqb "000"%char) (String.substring 0 12 bytes)))
        "withdrawal proof contains a value that is not an Ethereum address";
  Ok ("0x" +:+ hex_bytes (String.substring 12 (String.length bytes - 12) bytes)).
Definition felt_as_bytes32 (value : Felt252) : string :=
  let s := felt_to_string value in "0x" +:+ pad_left 64 (trim_start_str (String.length s) "0x" s).
Definition felt_array_argument (values : list Felt252) : string :=
  "[" +:+ String.concat "," (map felt_to_string values) +:+ "]".
Definition show_bool (b : bool) : string := if b then "true" else "false".
Definition withdrawal_inputs_argument plan : result string string :=
  let inputs := wp_public_inputs plan in
  contract_address ← felt_as_address (withdrawal_contract_address inputs);
  Ok ("(" +:+ String.concat "," [
    show_uint (withdrawal_protocol_version inputs); show_uint (withdrawal_chain_id inputs); contract_address;
    felt_to_string (withdrawal_active_root inputs);
    felt_to_string (withdrawal_state_signing_key_x inputs); felt_to_string (withdrawal_state_signing_key_y inputs);
    felt_to_string (withdrawal_clearance_signing_key_x inputs);
    felt_to_string (withdrawal_clearance_signing_key_y inputs);
    show_uint (withdrawal_note_id inputs); show_uint (withdrawal_final_balance inputs);
    format_address (withdrawal_destination inputs); felt_to_string (withdrawal_withdrawal_nullifier inputs);
    show_bool (withdrawal_has_clearance inputs); felt_to_string (withdrawal_withdrawal_tag inputs)] +:+ ")").

Definition WITHDRAWAL_INPUTS_ABI : string :=
  "(uint16,uint64,address,uint256,uint256,uint256,uint256,uint256,uint32,uint128,address,uint256,bool,uint256)".
Definition withdrawal_function (mode : WithdrawalMode) : string :=
  match mode with
  | Mutual => "mutualClose(" +:+ WITHDRAWAL_INPUTS_ABI +:+ ",bytes,uint256[32])"
  | Escape => "initiateEscapeWithdrawal(" +:+ WITHDRAWAL_INPUTS_ABI +:+ ",bytes,uint256[32])"
  end.
Definition call_or_send (dry_run : bool) : string := if dry_run then "call" else "send".
(** The arguments of the transaction of a withdrawal. *)
Definition withdrawal_call_args manifest plan (dry_run : bool) : result string (list string) :=
  inputs ← withdrawal_inputs_argument plan;
  proof ← map_err (λ error, "withdrawal proof is invalid base64: " +:+ error)
            (base64_standard_decode (Types.proof (wp_proof plan)));
  Ok [call_or_send dry_run; "--rpc-url"; dm_rpc_url manifest; dm_contract_address manifest;
      withdrawal_function (wp_mode plan); inputs; "0x" +:+ hex_bytes proof; felt_array_argument (wp_siblings plan)].
Definition finalize_call_args manifest (note_id : Z) (dry_run : bool) : list string :=
  [call_or_send dry_run; "--rpc-url"; dm_rpc_url manifest; dm_contract_address manifest;
   "finalizeEscapeWithdrawal(uint32)"; show_uint note_id].
End cli.
