(* ===== verification/CliWorld.v ===== *)
(** * Running a command: the effects of [zkapi-cli/src/main.rs]

    A command talks to the deployment and to the daemon over HTTP, runs Foundry's
    [cast], reads files, pauses and prints; some commands hold the daemon's service
    in their own process and run its methods. A program returns the calls it made,
    oldest first, beside its result. *)

From Stdlib Require Import ZArith Lia.
From stdpp Require Import base tactics decidable numbers list gmap strings.
From S2P Require Import IndexerServer.
From S2P Require Import Prelude Text Float64 Json Http Types AuthScheme Config ClientTypes ClientHelpers ClientWorld.
From S2P Require Import ClientWallet ClientRoutes Cli.

Local Open Scope string_scope.

(** What a finished child process left. *)
Record CastOutput := { co_success : bool; co_stdout : string; co_stderr : string }.

(** A parsed URL, as the [url] crate splits it. *)
Record UrlParts := {
  url_scheme : string;
  url_host : option string;
  url_username : string;
  url_password : option string;
  (** [set_path(path)], without query and fragment, printed. *)
  url_with_path : string → string;
}.

Section world.
Context `{!FeltOps, !WireTypes, !ClientTypes, !JsonText, !SerdeText, !WalletOps, !ClientEnv, !ClientWire, !CliTypes}.

(** [RunServer], [RunIndexer] and [RunDaemon] hand the process over. *)
Inductive CliEvent :=
| Sent (request : HttpRequest) (answer : result string HttpResponse)
| Cast (env : list (string * string)) (args : list string) (outcome : result string CastOutput)
| Paused (ms : Z)
| Printed (body : ReplyBody)
| RunServer (config : ServerConfig)
| RunIndexer (config : IndexerConfig)
| RunDaemon (listen : string).

Class CliEnv := {
  CliWorld : Type;
  cli_http : CliWorld → HttpRequest → result string HttpResponse * CliWorld;
  cli_cast : CliWorld → list (string * string) → list string → result string CastOutput * CliWorld;
  cli_read : CliWorld → string → result string string * CliWorld;
  (** Making and securing a directory. *)
  cli_mkdir : CliWorld → string → option string * CliWorld;
  cli_tempdir : CliWorld → result string string * CliWorld;
  (** The files of a directory, if it can be listed. *)
  cli_files : CliWorld → string → result string (list string) * CliWorld;
  (** 32 random bytes. *)
  cli_random : CliWorld → string * CliWorld;
  cli_env : CliWorld → string → option string;
  cli_run_server : CliWorld → ServerConfig → option string * CliWorld;
  cli_run_indexer : CliWorld → IndexerConfig → option string * CliWorld;
  cli_run_daemon : CliWorld → string → option string * CliWorld;
  (** [zkapi_proof::compact::setup]; the two public keys of a pair of seeds. *)
  cli_proof_setup : CliWorld → string → option string * CliWorld;
  cli_public_key : Felt252 → Value;
  cli_prover_threads : CliWorld → option string * CliWorld;
  parse_url : string → result string UrlParts;
}.
Context `{!CliEnv}.

(** [service] is the state of the daemon's service in this process. *)
Record CliState := { service : ClientWorld.State; cli_world : CliWorld }.

(** ** The monad *)

Definition CM (A : Type) : Type := CliState → list CliEvent * (result string A * CliState).
#[export] Instance CM_ret : MRet CM := λ A a σ, ([], (Ok a, σ)).
#[export] Instance CM_bind : MBind CM := λ A B f m σ,
  match m σ with
  | (l, (Ok a, σ')) => let '(l', rest) := f a σ' in (l ++ l', rest)%list
  | (l, (Err e, σ')) => (l, (Err e, σ'))
  end.

Definition clift {A} (r : result string A) : CM A := λ σ, ([], (r, σ)).
Definition bail {A} (message : string) : CM A := clift (Err message).
Definition ctry {A} (m : CM A) : CM (result string A) := λ σ, let '(l, (r, σ')) := m σ in (l, (Ok r, σ')).
(** [m.map_err(f)] *)
Definition with_error {A} (f : string → string) (m : CM A) : CM A := λ σ, let '(l, (r, σ')) := m σ in (l, (map_err f r, σ')).
Definition emit (e : CliEvent) : CM unit := λ σ, ([e], (Ok tt, σ)).
Definition cdraw {A} (f : CliWorld → A * CliWorld) : CM A := λ σ,
  let '(a, w) := f (cli_world σ) in ([], (Ok a, {| service := service σ; cli_world := w |})).
Definition succeed_or (f : string → string) (fault : option string) : CM unit :=
  match fault with Some err => bail (f err) | None => mret tt end.

(** A method of the service of this process. *)
Definition run_service {A} (m : M A) : CM A := λ σ,
  let '(r, s) := m (service σ) in
  ([], (map_err (ClientTypes.auth_error_to_string status_text) r, {| service := s; cli_world := cli_world σ |})).

Definition send (request : HttpRequest) : CM (result string HttpResponse) :=
  answer ← cdraw (λ w, cli_http w request);
  _ ← emit (Sent request answer);
  mret answer.
Definition cast (env : list (string * string)) (args : list string) : CM (result string CastOutput) :=
  outcome ← cdraw (λ w, cli_cast w env args);
  _ ← emit (Cast env args outcome);
  mret outcome.
Definition read_file (path : string) : CM (result string string) := cdraw (λ w, cli_read w path).
Definition pause (ms : Z) : CM unit := emit (Paused ms).
Definition print (body : ReplyBody) : CM unit := emit (Printed body).
Definition environment : CM (string → option string) := λ σ, ([], (Ok (cli_env (cli_world σ)), σ)).
Definition env_var (name : string) : CM (option string) := env ← environment; mret (env name).

(** ** [cast] *)

Definition no_cast (error : string) : string := "failed to run cast; install Foundry's cast command: " +:+ error.

(** The output of [cast args], or the error the caller words. *)
Definition cast_output (args : list string) (failed : string → string) : CM string :=
  outcome ← cast [] args;
  output ← clift (map_err no_cast outcome);
  if co_success output then mret (co_stdout output)
  else bail (failed (trim (from_utf8_lossy (co_stderr output)))).

Definition run_cast_transaction (args : list string) (interactive : bool) (operation : string) : CM unit :=
  outcome ← cast [] (args ++ if interactive then ["--interactive"] else [])%list;
  output ← clift (map_err no_cast outcome);
  if co_success output then mret tt
  else bail ("cast " +:+ operation +:+ " failed; wallet state was preserved so you can retry").

(** [serde_json::from_slice::<Vec<Value>>] of [cast --json]. *)
Definition cast_values (stdout : string) (invalid : string → string) : CM (list Value) :=
  clift (map_err invalid (from_str as_array stdout)).

Definition getter_args (manifest : DeploymentManifest) (signature : string) (arguments : list string) : list string :=
  (["call"; "--rpc-url"; dm_rpc_url manifest; "--json"; dm_contract_address manifest; signature] ++ arguments)%list.
Definition read_cast_json_values (manifest : DeploymentManifest) (signature : string) (arguments : list string)
    : CM (list Value) :=
  stdout ← cast_output (getter_args manifest signature arguments)
             (λ stderr, "cast could not read vault state: " +:+ stderr);
  cast_values stdout (λ error, "cast returned invalid vault JSON: " +:+ error).

Definition NOTES_SIGNATURE : string := "notes(uint32)(bytes32,uint128,uint64,uint8)".
Definition PENDING_SIGNATURE : string := "pendingWithdrawals(uint32)(bool,uint256,uint256,uint128,address,uint64)".
Definition read_note_status (manifest : DeploymentManifest) (note_id : Z) : CM Z :=
  values ← read_cast_json_values manifest NOTES_SIGNATURE [show_uint note_id];
  clift (value_as_u64 digit_error json_print (values !! 3%nat) "note status").
Definition read_escape_deadline (manifest : DeploymentManifest) (note_id : Z) : CM Z :=
  values ← read_cast_json_values manifest PENDING_SIGNATURE [show_uint note_id];
  clift (value_as_u64 digit_error json_print (values !! 5%nat) "escape challenge deadline").
Definition read_note_expiry (manifest : DeploymentManifest) (note_id : Z) : CM Z :=
  stdout ← cast_output (getter_args manifest NOTES_SIGNATURE [show_uint note_id])
             (λ stderr, "cast could not read the deposited note: " +:+ stderr);
  values ← cast_values stdout (λ error, "cast returned invalid note JSON: " +:+ error);
  clift (ok_or "vault note getter returned no expiry timestamp" (values !! 2%nat ≫= as_u64)).

Definition read_erc20_u128 (rpc_url token signature : string) (arguments : list string) : CM Z :=
  stdout ← cast_output (["call"; "--rpc-url"; rpc_url; token; signature] ++ arguments)%list
             (λ stderr, "cast could not read billing token " +:+ token +:+ ": " +:+ stderr);
  _ ← clift (fail_if (negb (utf8_valid stdout)) ("cast returned non-UTF-8 token data: " +:+ utf8_error stdout));
  value ← clift (ok_or ("cast returned no value for " +:+ signature) (split_whitespace_next stdout));
  clift (ok_or ("cast returned invalid " +:+ signature +:+ " value " +:+ value +:+ ": " +:+ digit_error value)
           (parse_uint 10 u128_MAX value)).

(** ** Waiting *)

Definition show_option (o : option Z) : string :=
  match o with Some n => "Some(" +:+ show_uint n +:+ ")" | None => "None" end.

(** [for _ in 0..20], with [left] rounds left. *)
Fixpoint wait_note_status (left : nat) (manifest : DeploymentManifest) (note_id expected : Z) (last : option Z)
    : CM unit :=
  match left with
  | O => bail ("transaction was submitted, but note " +:+ show_uint note_id +:+ " did not reach on-chain status "
               +:+ show_uint expected +:+ " (last observed " +:+ show_option last
               +:+ "); local wallet state was preserved")
  | S left' =>
      read ← ctry (read_note_status manifest note_id);
      match read with
      | Ok status =>
          if (status =? expected)%Z then mret tt
          else _ ← pause 1000; wait_note_status left' manifest note_id expected (Some status)
      | Err _ => _ ← pause 1000; wait_note_status left' manifest note_id expected last
      end
  end.
Definition wait_for_note_status (manifest : DeploymentManifest) (note_id expected : Z) : CM unit :=
  wait_note_status 20 manifest note_id expected None.

Definition next_note_id_of_value (v : Value) : option Z := m ← as_object v; field_req as_u32 "next_note_id" m.
(** The three nested [if let Ok(..)]. *)
Definition indexed_next_note_id (answer : result string HttpResponse) : option Z :=
  ok (response ← answer; response ← error_for_status response; json_body next_note_id_of_value response).
Fixpoint wait_indexed (left : nat) (url : string) (note_id target : Z) : CM unit :=
  match left with
  | O => bail ("timed out waiting for the public indexer to observe note " +:+ show_uint note_id)
  | S left' =>
      answer ← send (get url);
      match indexed_next_note_id answer with
      | Some next => if (target <=? next)%Z then mret tt else _ ← pause 3000; wait_indexed left' url note_id target
      | None => _ ← pause 3000; wait_indexed left' url note_id target
      end
  end.
Definition wait_for_indexed_note (indexer_url : string) (note_id : Z) : CM unit :=
  wait_indexed 40 (trim_slashes indexer_url +:+ "/v1/tree/next-note-id") note_id (saturating_add u32_MAX note_id 1).
End world.
