(* ===== verification/CliRun.v ===== *)
(** * The commands: [zkapi-cli/src/main.rs]

    The manifest, the requests to the local daemon, the managed withdrawal and its
    finalization, the funding of a fresh note, the one-command client, and the
    dispatch of the subcommands. *)

From Stdlib Require Import ZArith Lia.
From stdpp Require Import base tactics decidable numbers list gmap strings.
From S2P Require Import IndexerServer.
From S2P Require Import Prelude Text Float64 Json Http Types AuthScheme Config ClientTypes Compat ClientHelpers ClientWorld.
From S2P Require Import ClientWallet DirectLease ClientService ClientRoutes Cli CliWorld.

Local Open Scope string_scope.

Section commands.
Context `{!FeltOps, !WireTypes, !ClientTypes, !JsonText, !SerdeText, !WalletOps, !ClientEnv, !ClientWire, !CliTypes,
          !CliEnv}.
Implicit Types (manifest : DeploymentManifest) (plan : WithdrawalPlan) (config : AuthConfig).

(** ** The deployment and the local daemon *)

Definition load_deployment_manifest (source : string) : CM DeploymentManifest :=
  let remote := starts_with "https://" source || starts_with "http://" source in
  let unreadable err := "failed to read deployment manifest " +:+ source +:+ ": " +:+ err in
  bytes ←
    (if remote then
       answer ← send (get source);
       response ← clift (map_err (λ err, "failed to fetch deployment manifest " +:+ source +:+ ": " +:+ err) answer);
       response ← clift (map_err (λ err, "deployment manifest " +:+ source +:+ " returned an error: " +:+ err)
                           (error_for_status response));
       clift (map_err unreadable (http_text response))
     else
       contents ← read_file source;
       clift (map_err unreadable contents));
  clift (map_err (λ err, "invalid deployment manifest " +:+ source +:+ ": " +:+ err) (from_str manifest_of_value bytes)).

Definition local_client_endpoint (client_url path : string) : result string string :=
  url ← map_err (λ error, "invalid --client-url: " +:+ error) (parse_url client_url);
  let local_host := match url_host url with
                    | Some host => existsb (String.eqb host) ["127.0.0.1"; "localhost"; "::1"]
                    | None => false
                    end in
  _ ← fail_if (negb (String.eqb (url_scheme url) "http") || negb local_host || negb (String.eqb (url_username url) "")
               || match url_password url with Some _ => true | None => false end)
        "--client-url must be an unauthenticated loopback HTTP URL";
  Ok (url_with_path url path).

Definition local_request (method endpoint : string) (body : option Value) : HttpRequest := {|
  http_method := method; http_url := endpoint; http_bearer := None; http_headers := []; http_query := [];
  http_body := match body with Some v => JsonBody v | None => NoBody end |}.
Definition local_client_request {A} (dec : Value → option A) (method client_url path : string) (body : option Value)
    : CM A :=
  endpoint ← clift (local_client_endpoint client_url path);
  answer ← send (local_request method endpoint body);
  response ← clift (map_err (λ error, "request to " +:+ endpoint +:+ " failed: " +:+ error) answer);
  bytes ← clift (map_err (λ error, "could not read " +:+ endpoint +:+ ": " +:+ error) (http_text response));
  if negb (is_success (http_status response)) then
    let message :=
      match ok (json_parse bytes) ≫= λ value, as_str (value_index "message" (value_index "error" value)) with
      | Some message => message
      | None => trim (from_utf8_lossy bytes)
      end in
    bail ("local client returned HTTP " +:+ status_text (http_status response) +:+ ": " +:+ message)
  else clift (map_err (λ error, "local client returned invalid JSON: " +:+ error) (from_str dec bytes)).

(** ** Withdrawing *)

Record ManagedWithdrawalOptions := {
  mw_deployment : string;
  mw_client_url : string;
  mw_destination : option string;
  mw_mode : WithdrawalModeArg;
  mw_note_id : option Z;
  mw_dry_run : bool;
}.
Implicit Types (options : ManagedWithdrawalOptions).

Definition run_withdrawal_contract_call manifest plan (dry_run : bool) : CM unit :=
  args ← clift (withdrawal_call_args manifest plan dry_run);
  run_cast_transaction args (negb dry_run) "withdrawal".
Definition run_finalize_escape_call manifest (note_id : Z) (dry_run : bool) : CM unit :=
  run_cast_transaction (finalize_call_args manifest note_id dry_run) (negb dry_run) "escape finalization".

(** The reset of the local wallet after the note closed on chain. *)
Definition reset_local_wallet options (operation : string) : CM unit :=
  reset ← with_error (λ error, operation +:+ " succeeded, but local wallet cleanup failed: " +:+ error)
            (local_client_request wallet_status_of_value "POST" (mw_client_url options) "/wallet/reset" None);
  if ws_has_note reset then bail (operation +:+ " succeeded, but the local client still reports an active note")
  else mret tt.

Definition note_id_value (n : Z) : Value := Num (PosInt n).
(** [json!] panics on an integer beyond [u64]. *)
Definition summary (fields : list (string * Value)) (final_balance : option Z) : CM unit :=
  match final_balance with
  | None => print (BodyValue (json_object fields))
  | Some n =>
      if (n <=? u64_MAX)%Z then print (BodyValue (json_object (("final_balance", Num (PosInt n)) :: fields)))
      else bail "panicked: number out of range"
  end.

Definition finalize_escape_withdrawal manifest options : CM unit :=
  local ← local_client_request wallet_status_of_value "GET" (mw_client_url options) "/wallet/status" None;
  let local_note_id : option Z := ns_note_id <$> ws_note local in
  note_id ← clift (ok_or "--note-id is required when the local client has no active note"
                     (match mw_note_id options with Some n => Some n | None => local_note_id end));
  _ ← match local_note_id with
      | Some local_id =>
          if (local_id =? note_id)%Z then mret tt
          else bail ("--note-id " +:+ show_uint note_id +:+ " does not match the local client's note "
                     +:+ show_uint local_id)
      | None => mret tt
      end;
  current_status ← read_note_status manifest note_id;
  _ ← (if negb (current_status =? 2)%Z && negb (current_status =? 3)%Z then
         bail ("note " +:+ show_uint note_id +:+ " is not pending an escape withdrawal (on-chain status "
               +:+ show_uint current_status +:+ ")")
       else mret tt);
  let simulated := (current_status =? 2)%Z && mw_dry_run options in
  _ ← (if (current_status =? 2)%Z then
         _ ← run_finalize_escape_call manifest note_id (mw_dry_run options);
         if mw_dry_run options then mret tt else wait_for_note_status manifest note_id 3
       else if mw_dry_run options then
         bail ("note " +:+ show_uint note_id +:+ " is already closed; there is nothing to simulate")
       else mret tt);
  if simulated then
    summary [("deployment", Str (dm_deployment_id manifest)); ("mode", Str "finalize_escape");
             ("note_id", note_id_value note_id); ("simulation", Str "succeeded"); ("submitted", Bool false)] None
  else
    let is_local := bool_decide (local_note_id = Some note_id) in
    _ ← (if is_local then reset_local_wallet options "escape finalization" else mret tt);
    summary [("deployment", Str (dm_deployment_id manifest)); ("mode", Str "finalize_escape");
             ("note_id", note_id_value note_id); ("onchain_status", Str "closed");
             ("local_wallet_reset", Bool is_local); ("submitted", Bool (current_status =? 2)%Z)] None.

(** From the settled wallet on: the proof, its checks, the transaction, the wait
    and the reset. *)
Definition withdraw_note manifest options (mode : WithdrawalMode) (destination : string) (local_note : NoteStatus)
    : CM unit :=
  plan ← local_client_request withdrawal_plan_of_value "POST" (mw_client_url options) "/wallet/withdraw"
           (Some (json_object [("mode", Str (mode_text mode)); ("destination", Str destination)]));
  _ ← clift (validate_withdrawal_plan plan manifest mode destination);
  let note_id := withdrawal_note_id (wp_public_inputs plan) in
  _ ← (if (note_id =? ns_note_id local_note)%Z then mret tt
       else bail ("the withdrawal proof is for note " +:+ show_uint note_id +:+ ", but the settled local note is "
                  +:+ show_uint (ns_note_id local_note)));
  _ ← run_withdrawal_contract_call manifest plan (mw_dry_run options);
  let final_balance := withdrawal_final_balance (wp_public_inputs plan) in
  let common := [("deployment", Str (dm_deployment_id manifest)); ("mode", Str (mode_text (wp_mode plan)));
                 ("note_id", note_id_value note_id); ("destination", Str destination)] in
  if mw_dry_run options then
    summary (common ++ [("simulation", Str "succeeded"); ("submitted", Bool false);
       ("note_usage", Str (match mode with Mutual => "withdrawal_only" | Escape => "unchanged" end))])%list
      (Some final_balance)
  else
    match mode with
    | Mutual =>
        _ ← wait_for_note_status manifest note_id 3;
        _ ← reset_local_wallet options "the on-chain withdrawal";
        summary (common ++ [("onchain_status", Str "closed"); ("local_wallet_reset", Bool true);
                            ("submitted", Bool true)])%list (Some final_balance)
    | Escape =>
        _ ← wait_for_note_status manifest note_id 2;
        challenge_deadline ← read_escape_deadline manifest note_id;
        summary (common ++ [("onchain_status", Str "pending_withdrawal");
            ("challenge_deadline", Num (PosInt challenge_deadline)); ("local_wallet_reset", Bool false);
            ("submitted", Bool true);
            ("next", Str ("After the challenge deadline, run: zkapi withdraw --deployment " +:+ mw_deployment options
               +:+ " --mode finalize-escape --note-id " +:+ show_uint note_id))])%list (Some final_balance)
    end.

Definition run_managed_withdrawal options : CM unit :=
  manifest ← load_deployment_manifest (mw_deployment options);
  _ ← clift (validate_deployment_manifest manifest);
  funding ← with_error (λ error, "cannot reach the managed zkAPI client at " +:+ mw_client_url options +:+ ": "
                                 +:+ error +:+ ". Start `zkapi client` first")
              (local_client_request funding_config_of_value "GET" (mw_client_url options) "/funding/config" None);
  _ ← clift (validate_client_deployment funding manifest);
  let requested_mode :=
    match mw_mode options with ArgMutual => Some Mutual | ArgEscape => Some Escape | ArgFinalizeEscape => None end in
  match requested_mode with
  | None =>
      match mw_destination options with
      | Some _ => bail "--destination is not used with --mode finalize-escape"
      | None => finalize_escape_withdrawal manifest options
      end
  | Some mode =>
      _ ← match mw_note_id options with
          | Some _ => bail "--note-id is only used with --mode finalize-escape"
          | None => mret tt
          end;
      destination ← clift (ok_or "--destination is required for mutual and escape withdrawals" (mw_destination options));
      destination ← clift (normalize_address destination);
      settled ← local_client_request wallet_status_of_value "POST" (mw_client_url options) "/wallet/settle" None;
      local_note ← clift (ok_or "the local client has no active note to withdraw" (ws_note settled));
      if ws_pending_request settled then bail "the local client still has a pending request after settlement"
      else withdraw_note manifest options mode destination local_note
  end.

(** ** Funding *)

Record EphemeralCastSigner := {
  sg_keystore_path : string;
  sg_password : string;
  sg_address : string;
}.

Definition import_args (keystore_dir : string) : list string :=
  ["wallet"; "import"; "zkapi-funding"; "--keystore-dir"; keystore_dir; "--interactive"].
(** The address on the first line that names one. *)
Definition reported_address (import_output : string) : option string :=
  head (omap (λ line, (λ p : string * string, trim p.2) <$> split_once "Address:" line) (lines import_output)).
Definition create_ephemeral_cast_signer : CM EphemeralCastSigner :=
  made ← cdraw cli_tempdir;
  keystore_dir ← clift (map_err (λ error, "failed to create temporary cast keystore: " +:+ error) made);
  password_bytes ← cdraw cli_random;
  let password := hex_bytes password_bytes in
  outcome ← cast [("CAST_UNSAFE_PASSWORD", password)] (import_args keystore_dir);
  output ← clift (map_err no_cast outcome);
  _ ← (if co_success output then mret tt else bail "cast could not import the temporary funding signer");
  let import_output := co_stdout output in
  _ ← clift (fail_if (negb (utf8_valid import_output))
               ("cast returned non-UTF-8 import output: " +:+ utf8_error import_output));
  address ← clift (ok_or "cast did not report the imported wallet address" (reported_address import_output));
  address ← clift (normalize_address address);
  listed ← cdraw (λ w, cli_files w keystore_dir);
  keystore_files ← clift listed;
  match keystore_files with
  | [keystore_path] =>
      mret {| sg_keystore_path := keystore_path; sg_password := password; sg_address := address |}
  | _ => bail ("cast created " +:+ show_uint (Z.of_nat (length keystore_files))
               +:+ " temporary keystore files; expected exactly one")
  end.

(** The arguments with the signer's after the subcommand. *)
Definition signed_args (signer : EphemeralCastSigner) (subcommand : string) (arguments : list string) : list string :=
  (subcommand :: "--keystore" :: sg_keystore_path signer :: "--password" :: sg_password signer :: arguments)%list.
Definition run_cast_signed (signer : EphemeralCastSigner) (args : list string) : CM unit :=
  match args with
  | [] => bail "cast transaction command is empty"
  | subcommand :: arguments =>
      outcome ← cast [] (signed_args signer subcommand arguments);
      output ← clift (map_err no_cast outcome);
      if co_success output then mret tt else bail "cast transaction failed"
  end.

Definition mint_args manifest (token address amount : string) : list string :=
  ["send"; "--rpc-url"; dm_rpc_url manifest; token; "mint(address,uint256)"; address; amount].
Definition approve_args manifest (token amount : string) : list string :=
  ["send"; "--rpc-url"; dm_rpc_url manifest; token; "approve(address,uint256)"; dm_contract_address manifest; amount].
Definition deposit_args manifest (commitment amount siblings : string) : list string :=
  ["send"; "--rpc-url"; dm_rpc_url manifest; dm_contract_address manifest;
   "deposit(bytes32,uint128,uint256[32])"; commitment; amount; siblings].

(** The token's checks before anything of value is signed. *)
Definition check_token manifest (token address : string) (needed : Z) : CM unit :=
  decimals ← read_erc20_u128 (dm_rpc_url manifest) token "decimals()(uint8)" [];
  _ ← (if (decimals =? 6)%Z then mret tt
       else bail ("billing token " +:+ token +:+ " reports " +:+ show_uint decimals
                  +:+ " decimals; zkAPI credits require a 6-decimal billing token"));
  balance ← read_erc20_u128 (dm_rpc_url manifest) token "balanceOf(address)(uint256)" [address];
  if (balance <? needed)%Z then
    bail ("address " +:+ address +:+ " has " +:+ show_uint balance +:+ " billing-token base units but this deposit needs "
          +:+ show_uint needed +:+ "; fund it with at least " +:+ show_uint (needed - balance) +:+ " more before retrying")
  else mret tt.

Definition funding_address (signer : EphemeralCastSigner) (requested_address : option string) : result string string :=
  match requested_address with
  | Some address =>
      requested ← normalize_address address;
      _ ← fail_if (negb (String.eqb (sg_address signer) requested))
            ("--address " +:+ requested +:+ " does not match the private key's address " +:+ sg_address signer);
      Ok requested
  | None => Ok (sg_address signer)
  end.

Definition fund_public_deployment config manifest (requested_address : option string) (amount : Z) (skip_mint : bool)
    : CM unit :=
  minimum ← clift (minimum_initial_credits (dm_request_charge_cap manifest));
  _ ← (if (amount <? minimum)%Z then
         bail ("initial credits " +:+ show_uint amount
               +:+ " leave no safe balance after one maximum-cost request; choose --initial-credits at least "
               +:+ show_uint minimum +:+ " (twice this deployment's " +:+ show_uint (dm_request_charge_cap manifest)
               +:+ "-credit per-request proof bound)")
       else mret tt);
  token ← clift (ok_or ("deployment " +:+ dm_deployment_id manifest +:+ " has no billing token. Native ETH funding requires a separate native-asset vault deployment; this v2 vault accepts its configured ERC-20 token.")
                   (dm_billing_token_address manifest));
  signer ← create_ephemeral_cast_signer;
  address ← clift (funding_address signer requested_address);
  plan ← run_service (prepare_deposit config amount);
  let amount := show_uint (dp_amount plan) in
  let commitment := felt_as_bytes32 (dp_commitment plan) in
  let siblings := felt_array_argument (dp_zero_path plan) in
  let note_id := dp_next_note_id plan in
  _ ← (if negb skip_mint && dm_demo_mint_enabled manifest then
         run_cast_signed signer (mint_args manifest token address amount)
       else mret tt);
  _ ← check_token manifest token address (dp_amount plan);
  _ ← run_cast_signed signer (approve_args manifest token amount);
  _ ← run_cast_signed signer (deposit_args manifest commitment amount siblings);
  _ ← wait_for_indexed_note (dm_indexer_url manifest) note_id;
  expiry_ts ← read_note_expiry manifest note_id;
  _ ← run_service (ClientWallet.confirm_deposit config
        {| cd_secret := dp_secret plan; cd_note_id := note_id; cd_amount := dp_amount plan; cd_expiry_ts := expiry_ts |});
  mret tt.

(** ** The one-command client *)

Record OneCommandClientOptions := {
  oc_deployment : string;
  oc_requested_address : option string;
  oc_listen : string;
  oc_requested_state_dir : option string;
  oc_initial_credits : Z;
  oc_no_fund : bool;
  oc_skip_mint : bool;
  oc_request_mode : RequestMode;
  oc_oa_verifier_url : string;
  oc_openrouter_inference_base : string;
  oc_require_oa_org_key_source : bool;
}.

Definition start_service config : CM unit := run_service (ClientWallet.service_new config).
Definition run_daemon (listen : string) : CM unit :=
  _ ← emit (RunDaemon listen);
  fault ← cdraw (λ w, cli_run_daemon w listen);
  succeed_or (λ err, err) fault.
Definition ensure_private_state_dir (path : string) : CM unit :=
  created ← cdraw (λ w, cli_mkdir w path);
  _ ← succeed_or (λ err, "failed to create state directory " +:+ path +:+ ": " +:+ err) created;
  secured ← cdraw (λ w, cli_mkdir w path);
  succeed_or (λ err, "failed to secure state directory " +:+ path +:+ ": " +:+ err) secured.

(** The note to start with: what is there, or, unless [no_fund], a fresh one. *)
Definition ensure_funded_note config manifest (requested_address : option string) (initial_credits : Z)
    (no_fund skip_mint : bool) : CM unit :=
  status ← run_service (status config);
  if negb (ws_has_note status) then
    if no_fund then mret tt else fund_public_deployment config manifest requested_address initial_credits skip_mint
  else
    match ws_note status with
    | Some note =>
        if (ns_current_balance note <=? dm_request_charge_cap manifest)%Z then
          if no_fund then mret tt
          else
            retired ← run_service (retire_low_balance_note config);
            _ ← clift (ok_or "active note state changed while preparing automatic rotation; retry startup" retired);
            fund_public_deployment config manifest requested_address initial_credits skip_mint
        else mret tt
    | None => mret tt
    end.

Definition run_one_command_client (options : OneCommandClientOptions) : CM unit :=
  manifest ← load_deployment_manifest (oc_deployment options);
  _ ← clift (validate_deployment_manifest manifest);
  xdg_state_home ← env_var "XDG_STATE_HOME";
  home ← env_var "HOME";
  let state_dir := match oc_requested_state_dir options with
                   | Some dir => dir
                   | None => default_client_state_dir xdg_state_home home (dm_deployment_id manifest)
                   end in
  _ ← ensure_private_state_dir state_dir;
  config ← clift (manifest_config manifest state_dir (oc_listen options) {|
    lp_request_mode := oc_request_mode options;
    lp_suggested_deposit_amount := oc_initial_credits options;
    lp_allow_demo_mint := dm_demo_mint_enabled manifest && negb (oc_skip_mint options);
    lp_oa_verifier_url := oc_oa_verifier_url options;
    lp_openrouter_inference_base := oc_openrouter_inference_base options;
    lp_require_oa_org_key_source := oc_require_oa_org_key_source options |});
  _ ← start_service config;
  _ ← run_service (ensure_request_mode_available config);
  _ ← ensure_funded_note config manifest (oc_requested_address options) (oc_initial_credits options)
        (oc_no_fund options) (oc_skip_mint options);
  run_daemon (oc_listen options).

(** ** The subcommands *)

Inductive Commands :=
| CmdSetup (output_dir : string)
| CmdSigningKeys (state_seed clear_seed : string)
| CmdKeygen
| CmdClientd (listen : string) (mode : ClientModeArg)
| CmdClient (deployment : string) (address : option string) (listen : string) (state_dir : option string)
    (initial_credits : Z) (no_fund fund_with_cast skip_mint : bool) (mode : ClientModeArg)
| CmdServerd (args : ServerdArgs)
| CmdIndexer (config : IndexerConfig)
| CmdStatus
| CmdPrepareDeposit (amount : Z)
| CmdConfirmDeposit (secret : string) (note_id amount expiry_ts : Z)
| CmdRequest (path method : string) (json body_file : option string)
| CmdRecover
| CmdWithdraw (options : ManagedWithdrawalOptions).

Definition roots_of_value (epoch_root : Value → option EpochRoots) (v : Value) : option (list EpochRoots) :=
  l ← as_array v; mapM epoch_root l.
(** The outcome of reading the file, which a configuration looks at where the
    code reads it. *)
Definition load_trusted_epoch_roots (epoch_root : Value → option EpochRoots) (path : option string)
    : CM (result string (list EpochRoots)) :=
  match path with
  | None => mret (Ok [])
  | Some path =>
      contents ← read_file path;
      mret (bytes ← map_err (λ err, "failed to read trusted epoch roots from " +:+ path +:+ ": " +:+ err) contents;
            map_err (λ err, "failed to parse trusted epoch roots from " +:+ path +:+ ": " +:+ err)
              (from_str (roots_of_value epoch_root) bytes))
  end.

Definition request_body (json body_file : option string) : CM Value :=
  match json with
  | Some json => clift (json_parse json)
  | None =>
      match body_file with
      | Some path => contents ← read_file path; clift (bytes ← contents; json_parse bytes)
      | None => mret (json_object [])
      end
  end.

Definition build_auth_service (epoch_root : Value → option EpochRoots) (cli : Cli) (mode : RequestMode) : CM AuthConfig :=
  roots ← load_trusted_epoch_roots epoch_root (cli_trusted_epoch_roots cli);
  config ← clift (auth_config cli mode roots);
  _ ← start_service config;
  mret config.

Definition configure_client_prover_threads : CM unit :=
  threads ← env_var "RAYON_NUM_THREADS";
  match threads with
  | Some _ => mret tt
  | None =>
      fault ← cdraw cli_prover_threads;
      succeed_or (λ error, "failed to configure prover worker threads: " +:+ error) fault
  end.

Definition keygen (cli : Cli) : CM unit :=
  wallet_config ← clift (keygen_config cli);
  made ← run_service (
    '(r, d') ← draw_at (λ σ, wallet_new (world σ) wallet_config (disk σ));
    _ ← modify (with_disk d');
    mret r);
  wallet ← clift (map_err (λ err, "failed to create wallet: " +:+ client_error_text err) made);
  '(secret, commitment) ← run_service (draw (λ w, wallet_generate_deposit_params w wallet));
  print (BodyValue (json_object [("secret", felt_to_value secret); ("commitment", felt_to_value commitment)])).

(** The commands of [main], after the options are parsed. *)
Section main.
Context (epoch_root : Value → option EpochRoots) (cli : Cli).

Definition setup (output_dir : string) : CM unit :=
  fault ← cdraw (λ w, cli_proof_setup w output_dir);
  _ ← succeed_or (λ err, err) fault;
  print (BodyValue (json_object [("status", Str "ok"); ("proof_backend", Str "groth16_bn254");
                                 ("output_dir", Str output_dir)])).
Definition signing_keys (state_seed clear_seed : string) : CM unit :=
  state ← clift (parse_felt "state seed" state_seed);
  clearance ← clift (parse_felt "clearance seed" clear_seed);
  print (BodyValue (json_object [("state_signing_key", cli_public_key state);
                                 ("clearance_signing_key", cli_public_key clearance)])).
Definition clientd_command (listen : string) (mode : ClientModeArg) : CM unit :=
  config ← build_auth_service epoch_root cli (request_mode_of mode);
  _ ← run_service (ensure_request_mode_available config);
  run_daemon listen.
Definition serverd_command (args : ServerdArgs) : CM unit :=
  roots ← load_trusted_epoch_roots epoch_root (cli_trusted_epoch_roots cli);
  env ← environment;
  config ← clift (server_config cli args env roots);
  _ ← emit (RunServer config);
  fault ← cdraw (λ w, cli_run_server w config);
  succeed_or (λ err, err) fault.
Definition indexer_command (config : IndexerConfig) : CM unit :=
  _ ← emit (RunIndexer config);
  fault ← cdraw (λ w, cli_run_indexer w config);
  succeed_or (λ err, err) fault.
Definition status_command : CM unit :=
  config ← build_auth_service epoch_root cli Proxy; status ← run_service (status config); print (BodyWallet status).
Definition prepare_deposit_command (amount : Z) : CM unit :=
  config ← build_auth_service epoch_root cli Proxy; plan ← run_service (prepare_deposit config amount); print (BodyDeposit plan).
Definition confirm_deposit_command (secret : string) (note_id amount expiry_ts : Z) : CM unit :=
  config ← build_auth_service epoch_root cli Proxy;
  secret ← clift (map_err (λ err, "invalid --secret: " +:+ err) (from_hex secret));
  result ← run_service (ClientWallet.confirm_deposit config
    {| cd_secret := secret; cd_note_id := note_id; cd_amount := amount; cd_expiry_ts := expiry_ts |});
  print (BodyWallet result).
Definition request_command (path method : string) (json body_file : option string) : CM unit :=
  config ← build_auth_service epoch_root cli Proxy;
  body ← request_body json body_file;
  result ← run_service (execute_request config {| cq_method := method; cq_path := path; cq_headers := []; cq_body := body |});
  print (BodyCore result).
Definition recover_command : CM unit :=
  config ← build_auth_service epoch_root cli Proxy; result ← run_service (recover config); print (BodyRecover result).

Definition run_command (command : Commands) : CM unit :=
  match command with
  | CmdSetup output_dir => setup output_dir
  | CmdSigningKeys state_seed clear_seed => signing_keys state_seed clear_seed
  | CmdKeygen => keygen cli
  | CmdClientd listen mode => clientd_command listen mode
  | CmdClient deployment address listen state_dir initial_credits no_fund fund_with_cast skip_mint mode =>
      _ ← configure_client_prover_threads;
      run_one_command_client {|
        oc_deployment := deployment; oc_requested_address := address; oc_listen := listen;
        oc_requested_state_dir := state_dir; oc_initial_credits := initial_credits;
        oc_no_fund := no_fund || negb fund_with_cast; oc_skip_mint := skip_mint;
        oc_request_mode := request_mode_of mode; oc_oa_verifier_url := cli_oa_verifier_url cli;
        oc_openrouter_inference_base := cli_openrouter_inference_base cli;
        oc_require_oa_org_key_source := cli_require_oa_org_key_source cli |}
  | CmdServerd args => serverd_command args
  | CmdIndexer config => indexer_command config
  | CmdStatus => status_command
  | CmdPrepareDeposit amount => prepare_deposit_command amount
  | CmdConfirmDeposit secret note_id amount expiry_ts => confirm_deposit_command secret note_id amount expiry_ts
  | CmdRequest path method json body_file => request_command path method json body_file
  | CmdRecover => recover_command
  | CmdWithdraw options => run_managed_withdrawal options
  end.
End main.
End commands.
