(* ===== verification/DaemonMain.v ===== *)
(** * The two mains: [zkapi-clientd/src/main.rs] and [zkapi-indexerd/src/main.rs]

    The options of the daemons' own binaries, the configurations they become, and
    that [zkapi clientd] with the same options runs the same service. *)

From Stdlib Require Import ZArith Lia Ascii.
From stdpp Require Import base tactics decidable numbers list strings.
From S2P Require Import IndexerServer.
From S2P Require Import Prelude Text Float64 Json Http Types AuthScheme Config ClientTypes Compat ClientHelpers ClientWorld.
From S2P Require Import ClientWallet DirectLease ClientService ClientRoutes Cli CliWorld CliRun.

Local Open Scope string_scope.

(** ** [zkapi-indexerd] *)

Record IndexerArgs := {
  ia_listen : string;
  ia_rpc_url : string;
  ia_contract_address : string;
  ia_from_block : Z;
  ia_poll_interval_ms : Z;
  ia_cursor_path : option string;
}.
(** The options' defaults; the contract address has none. *)
Definition IndexerArgs_defaults (contract_address : string) : IndexerArgs := {|
  ia_listen := "0.0.0.0:3001"; ia_rpc_url := "http://127.0.0.1:8545"; ia_contract_address := contract_address;
  ia_from_block := 0; ia_poll_interval_ms := 1000; ia_cursor_path := None |}.
Definition indexer_config (args : IndexerArgs) : IndexerConfig := {|
  ic_listen_addr := ia_listen args;
  ic_rpc_url := ia_rpc_url args;
  ic_contract_address := ia_contract_address args;
  ic_from_block := ia_from_block args;
  ic_poll_interval_ms := ia_poll_interval_ms args;
  ic_cursor_path := ia_cursor_path args;
|}.

(** ** [zkapi-clientd] *)

Inductive ModeArg := ModeProxy | ModeDirectOpenrouter.
Definition mode_of (mode : ModeArg) : RequestMode :=
  match mode with ModeProxy => Proxy | ModeDirectOpenrouter => DirectOpenrouter end.

Record Args := {
  ar_listen : string;
  ar_mode : ModeArg;
  ar_state_dir : string;
  ar_protocol_server_url : string;
  ar_indexer_url : string;
  ar_protocol_version : Z;
  ar_chain_id : Z;
  ar_contract_address : string;
  ar_request_charge_cap : Z;
  ar_policy_charge_cap : Z;
  ar_policy_enabled : bool;
  ar_auth_scheme : string;
  ar_models : list string;
  ar_demo_rpc_url : option string;
  ar_demo_billing_token_address : option string;
  ar_demo_mint_enabled : bool;
  ar_demo_note_ttl_seconds : option Z;
  ar_trusted_epoch_roots : option string;
  ar_proof_setup_dir : string;
  ar_state_signing_key_x : string;
  ar_state_signing_key_y : string;
  ar_clearance_signing_key_x : string;
  ar_clearance_signing_key_y : string;
  ar_oa_verifier_url : string;
  ar_openrouter_inference_base : string;
  ar_require_oa_org_key_source : bool;
}.
(** The defaults, in an environment that sets none of the options. *)
Definition Args_defaults : Args := {|
  ar_listen := "127.0.0.1:11434"; ar_mode := ModeProxy; ar_state_dir := ".zkapi";
  ar_protocol_server_url := "http://127.0.0.1:3000"; ar_indexer_url := "http://127.0.0.1:3001";
  ar_protocol_version := 2; ar_chain_id := 1; ar_contract_address := "0x0"; ar_request_charge_cap := 1000000;
  ar_policy_charge_cap := 10000000; ar_policy_enabled := false; ar_auth_scheme := "state-anchor";
  ar_models := ["zkapi-echo"]; ar_demo_rpc_url := None; ar_demo_billing_token_address := None;
  ar_demo_mint_enabled := false; ar_demo_note_ttl_seconds := None; ar_trusted_epoch_roots := None;
  ar_proof_setup_dir := "protocol/setup/v2"; ar_state_signing_key_x := "0x0"; ar_state_signing_key_y := "0x1";
  ar_clearance_signing_key_x := "0x0"; ar_clearance_signing_key_y := "0x1";
  ar_oa_verifier_url := "https://verifier2.openanonymity.ai"; ar_openrouter_inference_base := "https://openrouter.ai/api/v1";
  ar_require_oa_org_key_source := false |}.

Section main.
Context `{!FeltOps, !WireTypes, !ClientTypes, !JsonText, !SerdeText, !WalletOps, !ClientEnv, !ClientWire, !CliTypes,
          !CliEnv}.
Implicit Types (args : Args).

(** [roots] is the outcome of reading the file of epoch roots. *)
Definition daemon_config args (roots : result string (list EpochRoots)) : result string AuthConfig :=
  contract_address ← parse_felt "--contract-address" (ar_contract_address args);
  auth_scheme ← scheme_from_str (ar_auth_scheme args);
  trusted_epoch_roots ← roots;
  state_x ← parse_felt "state signing key x" (ar_state_signing_key_x args);
  state_y ← parse_felt "state signing key y" (ar_state_signing_key_y args);
  clearance_x ← parse_felt "clearance signing key x" (ar_clearance_signing_key_x args);
  clearance_y ← parse_felt "clearance signing key y" (ar_clearance_signing_key_y args);
  Ok {|
    ac_protocol_version := ar_protocol_version args;
    ac_chain_id := ar_chain_id args;
    ac_contract_address := contract_address;
    ac_request_charge_cap := ar_request_charge_cap args;
    ac_policy_charge_cap := ar_policy_charge_cap args;
    ac_policy_enabled := ar_policy_enabled args;
    ac_auth_scheme := auth_scheme;
    ac_protocol_server_url := ar_protocol_server_url args;
    ac_indexer_url := ar_indexer_url args;
    ac_listen_addr := ar_listen args;
    ac_state_dir := ar_state_dir args;
    ac_models := map ModelDescriptor_new (ar_models args);
    ac_suggested_deposit_amount := Z.min (ar_request_charge_cap args * 2) u128_MAX;
    ac_demo_rpc_url := ar_demo_rpc_url args;
    ac_demo_billing_token_address := ar_demo_billing_token_address args;
    ac_demo_mint_enabled := ar_demo_mint_enabled args;
    ac_demo_note_ttl_seconds := ar_demo_note_ttl_seconds args;
    ac_proof_mode := "groth16_bn254";
    ac_cairo_dir := "";
    ac_trusted_epoch_roots := trusted_epoch_roots;
    ac_proof_setup_dir := ar_proof_setup_dir args;
    ac_state_signing_key := {| point_x := state_x; point_y := state_y |};
    ac_clearance_signing_key := {| point_x := clearance_x; point_y := clearance_y |};
    ac_request_mode := mode_of (ar_mode args);
    ac_oa_verifier_url := ar_oa_verifier_url args;
    ac_openrouter_inference_base := ar_openrouter_inference_base args;
    ac_require_oa_org_key_source := ar_require_oa_org_key_source args;
  |}.

Definition daemon_main (epoch_root : Value → option EpochRoots) args : CM unit :=
  roots ← load_trusted_epoch_roots epoch_root (ar_trusted_epoch_roots args);
  config ← clift (daemon_config args roots);
  _ ← start_service config;
  _ ← run_service (ensure_request_mode_available config);
  run_daemon (ar_listen args).

(** ** The same daemon from [zkapi] *)

(** The options of [zkapi] that say the same. *)
Definition cli_of_args args : Cli := {|
  cli_state_dir := ar_state_dir args; cli_protocol_server_url := ar_protocol_server_url args;
  cli_indexer_url := ar_indexer_url args; cli_protocol_version := ar_protocol_version args;
  cli_chain_id := ar_chain_id args; cli_contract_address := ar_contract_address args;
  cli_request_charge_cap := ar_request_charge_cap args; cli_policy_charge_cap := ar_policy_charge_cap args;
  cli_policy_enabled := ar_policy_enabled args; cli_auth_scheme := ar_auth_scheme args; cli_models := ar_models args;
  cli_demo_rpc_url := ar_demo_rpc_url args; cli_demo_billing_token_address := ar_demo_billing_token_address args;
  cli_demo_note_ttl_seconds := ar_demo_note_ttl_seconds args; cli_trusted_epoch_roots := ar_trusted_epoch_roots args;
  cli_proof_setup_dir := ar_proof_setup_dir args; cli_state_signing_key_x := ar_state_signing_key_x args;
  cli_state_signing_key_y := ar_state_signing_key_y args; cli_clearance_signing_key_x := ar_clearance_signing_key_x args;
  cli_clearance_signing_key_y := ar_clearance_signing_key_y args; cli_oa_verifier_url := ar_oa_verifier_url args;
  cli_openrouter_inference_base := ar_openrouter_inference_base args;
  cli_require_oa_org_key_source := ar_require_oa_org_key_source args |}.
(** With other values in three fields. *)
Definition adjusted (listen : string) (mint : bool) (cairo_dir : string) (c : AuthConfig) : AuthConfig := {|
  ac_protocol_version := ac_protocol_version c; ac_chain_id := ac_chain_id c; ac_contract_address := ac_contract_address c;
  ac_request_charge_cap := ac_request_charge_cap c; ac_policy_charge_cap := ac_policy_charge_cap c;
  ac_policy_enabled := ac_policy_enabled c; ac_auth_scheme := ac_auth_scheme c;
  ac_protocol_server_url := ac_protocol_server_url c; ac_indexer_url := ac_indexer_url c;
  ac_listen_addr := listen; ac_state_dir := ac_state_dir c; ac_models := ac_models c;
  ac_suggested_deposit_amount := ac_suggested_deposit_amount c; ac_demo_rpc_url := ac_demo_rpc_url c;
  ac_demo_billing_token_address := ac_demo_billing_token_address c; ac_demo_mint_enabled := mint;
  ac_demo_note_ttl_seconds := ac_demo_note_ttl_seconds c; ac_proof_mode := ac_proof_mode c;
  ac_cairo_dir := cairo_dir; ac_trusted_epoch_roots := ac_trusted_epoch_roots c;
  ac_proof_setup_dir := ac_proof_setup_dir c; ac_state_signing_key := ac_state_signing_key c;
  ac_clearance_signing_key := ac_clearance_signing_key c; ac_request_mode := ac_request_mode c;
  ac_oa_verifier_url := ac_oa_verifier_url c; ac_openrouter_inference_base := ac_openrouter_inference_base c;
  ac_require_oa_org_key_source := ac_require_oa_org_key_source c |}.

(** Up to the listen address, which the service does not read, and the mint that
    [zkapi] never advertises. *)
Definition from_cli (c : AuthConfig) : AuthConfig := adjusted "127.0.0.1:11434" false (ac_cairo_dir c) c.

(** The two binaries accept the same options and make the same configuration of
    them. *)
Theorem daemon_config_agrees args roots :
  ok (auth_config (cli_of_args args) (mode_of (ar_mode args)) roots) = from_cli <$> ok (daemon_config args roots).
Proof.
  unfold auth_config, daemon_config, parse_curve_point, parse_auth_scheme, parse_felt, cli_of_args. cbn [
    cli_contract_address cli_auth_scheme cli_state_signing_key_x cli_state_signing_key_y cli_clearance_signing_key_x
    cli_clearance_signing_key_y].
  destruct (from_hex (ar_contract_address args)); [|done]. cbn. destruct (scheme_from_str _); [|done]. cbn.
  destruct roots; [|done]. cbn.
  destruct (from_hex (ar_state_signing_key_x args)); [|done]. cbn. destruct (from_hex (ar_state_signing_key_y args)); [|done]. cbn.
  destruct (from_hex (ar_clearance_signing_key_x args)); [|done]. cbn.
  by destruct (from_hex (ar_clearance_signing_key_y args)).
Qed.
(** The binary's defaults are those of [AuthConfig::default] but for the unused
    [cairo_dir]. *)
Theorem daemon_defaults one : from_hex "0x0" = Ok ZERO → from_hex "0x1" = Ok one →
  ∃ c, daemon_config Args_defaults (Ok []) = Ok c ∧
    adjusted (ac_listen_addr c) (ac_demo_mint_enabled c) "protocol/cairo" c = AuthConfig_default one.
Proof.
  intros Hz Ho. unfold daemon_config, parse_felt. cbn [ar_contract_address ar_state_signing_key_x ar_state_signing_key_y
    ar_clearance_signing_key_x ar_clearance_signing_key_y ar_auth_scheme Args_defaults].
  rewrite Hz, Ho. eexists. split; reflexivity.
Qed.
End main.
