(* ===== verification/CliTheory.v ===== *)
(** * Reasoning about commands

    [runs m l r]: some run of [m] makes the calls [l] and ends with [r]. The
    inversion rules take a run apart along the code; [only P m] bounds the calls a
    program can make. *)

From Stdlib Require Import ZArith Lia.
From stdpp Require Import base tactics decidable numbers list gmap strings.
From S2P Require Import Prelude Text Float64 Json Http Types AuthScheme Config ClientTypes Compat ClientHelpers ClientWorld.
From S2P Require Import ClientWallet DirectLease ClientService ClientRoutes Cli CliWorld CliRun.

Local Open Scope string_scope.

Create HintDb cli.

Section theory.
Context `{!FeltOps, !WireTypes, !ClientTypes, !JsonText, !SerdeText, !WalletOps, !ClientEnv, !ClientWire, !CliTypes,
          !CliEnv}.

Definition runs {A} (m : CM A) (l : list CliEvent) (r : result string A) : Prop := ∃ σ σ', m σ = (l, (r, σ')).

Lemma run_of {A} (m : CM A) σ : runs m (m σ).1 (m σ).2.1.
Proof. exists σ, (m σ).2.2. by destruct (m σ) as [? [??]]. Qed.

(** ** Taking a run apart *)

Lemma runs_bind {A B} (m : CM A) (f : A → CM B) l r :
  runs (m ≫= f) l r →
  (∃ e, r = Err e ∧ runs m l (Err e)) ∨ (∃ a l1 l2, l = (l1 ++ l2)%list ∧ runs m l1 (Ok a) ∧ runs (f a) l2 r).
Proof.
  intros (σ & σ' & Hr). unfold mbind, CM_bind in Hr. destruct (m σ) as [l1 [[a|e] σ1]] eqn:Hm.
  - right. destruct (f a σ1) as [l2 [r2 σ2]] eqn:Hf. injection Hr as <- <- <-. exists a, l1, l2.
    split; [done|]. split; [by exists σ, σ1|by exists σ1, σ2].
  - left. injection Hr as <- <- <-. exists e. split; [done|]. by exists σ, σ1.
Qed.
Lemma runs_bind_ok {A B} (m : CM A) (f : A → CM B) l b :
  runs (m ≫= f) l (Ok b) → ∃ a l1 l2, l = (l1 ++ l2)%list ∧ runs m l1 (Ok a) ∧ runs (f a) l2 (Ok b).
Proof. intros [(e & [=] & _)|?]%runs_bind. done. Qed.
Lemma runs_ret {A} (a : A) l r : runs (mret a) l r → l = [] ∧ r = Ok a.
Proof. by intros (σ & σ' & [= <- <- _]). Qed.
Lemma runs_clift {A} (r0 : result string A) l r : runs (clift r0) l r → l = [] ∧ r = r0.
Proof. by intros (σ & σ' & [= <- <- _]). Qed.
Lemma runs_bail {A} e l r : runs (bail (A:=A) e) l r → l = [] ∧ r = Err e.
Proof. apply runs_clift. Qed.
Lemma runs_emit e l r : runs (emit e) l r → l = [e] ∧ r = Ok tt.
Proof. by intros (σ & σ' & [= <- <- _]). Qed.
Lemma runs_cdraw {A} (f : CliWorld → A * CliWorld) l r : runs (cdraw f) l r → l = [] ∧ ∃ a, r = Ok a.
Proof. intros (σ & σ' & Hr). unfold cdraw in Hr. destruct (f (cli_world σ)). injection Hr as <- <- _. eauto. Qed.
Lemma runs_service {A} (m : M A) l r : runs (run_service m) l r →
  l = [] ∧ ∃ s s' r', m s = (r', s') ∧ r = map_err (ClientTypes.auth_error_to_string status_text) r'.
Proof.
  intros (σ & σ' & Hr). unfold run_service in Hr. destruct (m (service σ)) as [r' s'] eqn:Hm. injection Hr as <- <- _.
  split; [done|]. by exists (service σ), s', r'.
Qed.
Lemma runs_ctry {A} (m : CM A) l r : runs (ctry m) l r → ∃ r', r = Ok r' ∧ runs m l r'.
Proof.
  intros (σ & σ' & Hr). unfold ctry in Hr. destruct (m σ) as [l1 [r1 σ1]] eqn:Hm. injection Hr as <- <- <-.
  exists r1. split; [done|]. by exists σ, σ1.
Qed.
Lemma runs_with_error {A} f (m : CM A) l r : runs (with_error f m) l r → ∃ r', r = map_err f r' ∧ runs m l r'.
Proof.
  intros (σ & σ' & Hr). unfold with_error in Hr. destruct (m σ) as [l1 [r1 σ1]] eqn:Hm. injection Hr as <- <- <-.
  exists r1. split; [done|]. by exists σ, σ1.
Qed.
Lemma runs_draw_bind {A B} (f : CliWorld → A * CliWorld) (k : A → CM B) l r :
  runs (cdraw f ≫= k) l r → ∃ w, runs (k (f w).1) l r.
Proof.
  intros (σ & σ' & Hr). unfold mbind, CM_bind, cdraw in Hr. exists (cli_world σ).
  destruct (f (cli_world σ)) as [a w]. destruct (k a _) as [l2 [r2 σ2]] eqn:Hk. injection Hr as <- <- <-. by eexists _, _.
Qed.
Lemma runs_clift_bind {A B} (r0 : result string A) (f : A → CM B) l r :
  runs (clift r0 ≫= f) l r → (∃ e, r0 = Err e ∧ r = Err e ∧ l = []) ∨ (∃ a, r0 = Ok a ∧ runs (f a) l r).
Proof.
  intros [(e & -> & [-> <-]%runs_clift)|(a & l1 & l2 & -> & [-> <-]%runs_clift & Hf)]%runs_bind; [left|right]; eauto.
Qed.
Lemma runs_send request l r : runs (send request) l r → ∃ answer, l = [Sent request answer] ∧ r = Ok answer.
Proof.
  unfold send. intros [(e & -> & [_ [? [=]]]%runs_cdraw)|(a & l1 & l2 & -> & [-> _]%runs_cdraw & Hf)]%runs_bind.
  apply runs_bind in Hf as [(e & -> & [_ [=]]%runs_emit)|([] & l1 & l3 & -> & [-> _]%runs_emit & [-> ->]%runs_ret)].
  by exists a.
Qed.
Lemma runs_cast env args l r : runs (cast env args) l r → ∃ outcome, l = [Cast env args outcome] ∧ r = Ok outcome.
Proof.
  unfold cast. intros [(e & -> & [_ [? [=]]]%runs_cdraw)|(a & l1 & l2 & -> & [-> _]%runs_cdraw & Hf)]%runs_bind.
  apply runs_bind in Hf as [(e & -> & [_ [=]]%runs_emit)|([] & l1 & l3 & -> & [-> _]%runs_emit & [-> ->]%runs_ret)].
  by exists a.
Qed.

(** ** What a program can call *)

Definition only (P : CliEvent → Prop) {A} (m : CM A) : Prop := ∀ l r, runs m l r → Forall P l.

Lemma only_weaken (P Q : CliEvent → Prop) {A} (m : CM A) : only P m → (∀ e, P e → Q e) → only Q m.
Proof. intros Hm HPQ l r Hr. eapply Forall_impl; [by eapply Hm|done]. Qed.

Section only.
Context (P : CliEvent → Prop).
Lemma only_bind {A B} (m : CM A) (f : A → CM B) : only P m → (∀ a, only P (f a)) → only P (m ≫= f).
Proof.
  intros Hm Hf l r [(e & _ & Hr)|(a & l1 & l2 & -> & Hr1 & Hr2)]%runs_bind; [by eapply Hm|].
  apply Forall_app. split; [by eapply Hm|by eapply Hf].
Qed.
Lemma only_clift {A} (r : result string A) : only P (clift r).
Proof. by intros l r' [-> _]%runs_clift. Qed.
Lemma only_ret {A} (a : A) : only P (mret a).
Proof. apply only_clift. Qed.
Lemma only_bail {A} e : only P (bail (A:=A) e).
Proof. apply only_clift. Qed.
Lemma only_emit e : P e → only P (emit e).
Proof. intros He l r [-> _]%runs_emit. by constructor. Qed.
Lemma only_cdraw {A} (f : CliWorld → A * CliWorld) : only P (cdraw f).
Proof. by intros l r [-> _]%runs_cdraw. Qed.
Lemma only_environment : only P environment.
Proof. by intros l r (σ & σ' & [= <- _ _]). Qed.
Lemma only_service {A} (m : M A) : only P (run_service m).
Proof. by intros l r [-> _]%runs_service. Qed.
Lemma only_read_file path : only P (read_file path).
Proof. apply only_cdraw. Qed.
Lemma only_env_var name : only P (env_var name).
Proof. apply only_bind; [apply only_environment|intros; apply only_ret]. Qed.
Lemma only_ctry {A} (m : CM A) : only P m → only P (ctry m).
Proof. intros Hm l r (r' & _ & Hr)%runs_ctry. by eapply Hm. Qed.
Lemma only_with_error {A} f (m : CM A) : only P m → only P (with_error f m).
Proof. intros Hm l r (r' & _ & Hr)%runs_with_error. by eapply Hm. Qed.
Lemma only_send request : (∀ answer, P (Sent request answer)) → only P (send request).
Proof. intros He l r (answer & -> & _)%runs_send. by constructor. Qed.
Lemma only_cast env args : (∀ outcome, P (Cast env args outcome)) → only P (cast env args).
Proof. intros He l r (outcome & -> & _)%runs_cast. by constructor. Qed.
Lemma only_succeed_or f fault : only P (succeed_or f fault).
Proof. destruct fault; [apply only_bail|apply only_ret]. Qed.
End only.
End theory.

#[export] Hint Resolve only_clift only_ret only_bail only_cdraw only_environment only_read_file only_env_var only_service only_succeed_or : cli.

(** Goes along a program; leaves the calls it makes. *)
Ltac only_step :=
  first
    [ solve [auto 2 with cli]
    | apply only_bind; [|intros ?]
    | apply only_ctry | apply only_with_error
    | apply only_send | apply only_cast | apply only_emit
    | progress cbn zeta
    | match goal with
      | |- only _ (match ?x with _ => _ end) => destruct x
      | |- only _ (if ?x then _ else _) => destruct x
      | |- only _ (let '_ := ?x in _) => destruct x
      end ].
Ltac only_auto := repeat only_step.

(** ** What holds of the calls so far *)

Section steps.
Context `{!FeltOps, !WireTypes, !ClientTypes, !JsonText, !SerdeText, !WalletOps, !ClientEnv, !ClientWire, !CliTypes,
          !CliEnv}.

Definition Assertion := list CliEvent → Prop.
(** Each call of [l], made after [log] and the calls of [l] before it, is one [G]
    allows. *)
Definition guarded (G : list CliEvent → CliEvent → Prop) (log l : list CliEvent) : Prop :=
  ∀ before e after, l = (before ++ e :: after)%list → G (log ++ before)%list e.
(** After calls that satisfy [P], [m] makes calls [G] allows, and a result
    satisfies [Q] of all the calls. *)
Definition steps (G : list CliEvent → CliEvent → Prop) {A} (P : Assertion) (m : CM A) (Q : A → Assertion) : Prop :=
  ∀ log l r, P log → runs m l r → guarded G log l ∧ ∀ a, r = Ok a → Q a (log ++ l)%list.

Lemma guarded_app G log l1 l2 : guarded G log l1 → guarded G (log ++ l1) l2 → guarded G log (l1 ++ l2).
Proof.
  intros Hl1 Hl2 before e after Heq. apply app_eq_app in Heq as (k & [[Hk1 Hk2]|[Hk1 Hk2]]).
  - destruct k as [|e' k]; simpl in Hk2.
    + rewrite app_nil_r in Hk1. subst. specialize (Hl2 [] e after eq_refl). by rewrite app_nil_r in Hl2.
    + injection Hk2 as <- ->. by eapply Hl1.
  - subst. rewrite app_assoc. by eapply Hl2.
Qed.
Lemma guarded_nil G log : guarded G log [].
Proof. by intros [|? ?] e after. Qed.
Lemma guarded_one (G : list CliEvent → CliEvent → Prop) log e : G log e → guarded G log [e].
Proof.
  intros He [|a before] e' after Heq.
  - injection Heq as <- _. by rewrite app_nil_r.
  - injection Heq as _ Heq. by destruct before.
Qed.

Context (G : list CliEvent → CliEvent → Prop).

Lemma steps_conseq {A} (P P' : Assertion) (m : CM A) (Q Q' : A → Assertion) :
  steps G P' m Q' → (∀ log, P log → P' log) → (∀ a log, Q' a log → Q a log) → steps G P m Q.
Proof. intros Hm HP HQ log l r Hp Hr. destruct (Hm log l r (HP _ Hp) Hr) as [Hg Hq]. split; [done|eauto]. Qed.
Lemma steps_pre {A} (P P' : Assertion) (m : CM A) Q : (∀ log, P log → P' log) → steps G P' m Q → steps G P m Q.
Proof. intros HP Hm. by eapply steps_conseq. Qed.
Lemma steps_bind {A B} (P : Assertion) (m : CM A) (f : A → CM B) Q R :
  steps G P m Q → (∀ a, steps G (Q a) (f a) R) → steps G P (m ≫= f) R.
Proof.
  intros Hm Hf log l r Hp [(e & -> & Hr)|(a & l1 & l2 & -> & Hr1 & Hr2)]%runs_bind.
  - split; [by destruct (Hm _ _ _ Hp Hr)|done].
  - destruct (Hm _ _ _ Hp Hr1) as [Hg1 Hq]. destruct (Hf a _ _ _ (Hq a eq_refl) Hr2) as [Hg2 Hq2].
    rewrite app_assoc. split; [by apply guarded_app|done].
Qed.
Lemma steps_clift {A} (P : Assertion) (r : result string A) : steps G P (clift r) (λ a log, P log ∧ r = Ok a).
Proof. intros log l r' Hp [-> ->]%runs_clift. rewrite app_nil_r. split; [apply guarded_nil|done]. Qed.
Lemma steps_ret {A} (P : Assertion) (a : A) (Q : A → Assertion) : (∀ log, P log → Q a log) → steps G P (mret a) Q.
Proof. intros HQ log l r Hp [-> ->]%runs_ret. rewrite app_nil_r. split; [apply guarded_nil|intros ? [= <-]; eauto]. Qed.
Lemma steps_bail {A} (P : Assertion) e (Q : A → Assertion) : steps G P (bail e) Q.
Proof. intros log l r Hp [-> ->]%runs_bail. split; [apply guarded_nil|done]. Qed.
Lemma steps_if {A} (P : Assertion) (b : bool) (m1 m2 : CM A) Q :
  (b = true → steps G P m1 Q) → (b = false → steps G P m2 Q) → steps G P (if b then m1 else m2) Q.
Proof. destruct b; auto. Qed.
Lemma steps_pure {A} (φ : Prop) (P : Assertion) (m : CM A) Q : (φ → steps G P m Q) → steps G (λ log, P log ∧ φ) m Q.
Proof. intros Hm log l r [Hp Hφ]. by apply Hm. Qed.
Lemma steps_clift_bind {A B} (P : Assertion) (r : result string A) (f : A → CM B) R :
  (∀ a, r = Ok a → steps G P (f a) R) → steps G P (clift r ≫= f) R.
Proof. intros Hf. eapply steps_bind; [apply steps_clift|]. intros a. apply steps_pure, Hf. Qed.
Lemma steps_service {A} (P : Assertion) (m : M A) :
  steps G P (run_service m) (λ a log, P log ∧ ∃ s s', m s = (Ok a, s')).
Proof.
  intros log l r Hp [-> (s & s' & r' & Hm & ->)]%runs_service. rewrite app_nil_r. split; [apply guarded_nil|].
  intros a Ha. split; [done|]. destruct r'; simpl in Ha; [injection Ha as ->; eauto|done].
Qed.
Lemma steps_cdraw {A} (P : Assertion) (f : CliWorld → A * CliWorld) : steps G P (cdraw f) (λ _, P).
Proof. intros log l r Hp [-> _]%runs_cdraw. rewrite app_nil_r. split; [apply guarded_nil|done]. Qed.
(** [if b { bail!(e) }], and its opposite. *)
Lemma steps_unless {B} (P : Assertion) (b : bool) e (k : CM B) R :
  (b = false → steps G P k R) → steps G P (_ ← if b then bail (A:=unit) e else mret tt; k) R.
Proof.
  intros Hk. destruct b; [eapply steps_bind; [by apply steps_bail with (Q := λ _ _, False)|]; by intros _ log l r []|].
  eapply steps_bind; [by apply (steps_ret P tt (λ _, P))|]. auto.
Qed.
Lemma steps_check {B} (P : Assertion) (b : bool) e (k : CM B) R :
  (b = true → steps G P k R) → steps G P (_ ← if b then mret tt else bail (A:=unit) e; k) R.
Proof.
  intros Hk. destruct b; [|eapply steps_bind; [by apply steps_bail with (Q := λ _ _, False)|]; by intros _ log l r []].
  eapply steps_bind; [by apply (steps_ret P tt (λ _, P))|]. auto.
Qed.

(** Calls in [F], which [G] always allows and which [P] does not mind. *)
Lemma steps_frame (F : CliEvent → Prop) {A} (P : Assertion) (m : CM A) :
  only F m → (∀ log l, P log → Forall F l → P (log ++ l)%list) → (∀ before e, F e → G before e) →
  steps G P m (λ _, P).
Proof.
  intros Hm HP HF log l r Hp Hr. specialize (Hm l r Hr). split; [|eauto].
  intros before e after ->. apply Forall_app in Hm as [_ [He _]%Forall_cons]. by apply HF.
Qed.

Lemma steps_run {A} (m : CM A) (Q : A → Assertion) σ :
  steps G (λ log, log = []) m Q → ∀ before e after, (m σ).1 = (before ++ e :: after)%list → G before e.
Proof. intros Hm. destruct (Hm [] (m σ).1 (m σ).2.1 eq_refl (run_of m σ)) as [Hg _]. exact Hg. Qed.
(** A run whose first part gave [a]. *)
Lemma steps_run_after {A B} (P : Assertion) (m : CM A) (f : A → CM B) Q σ a :
  (m σ).2.1 = Ok a → guarded G [] (m σ).1 → P (m σ).1 → steps G P (f a) Q → guarded G [] ((m ≫= f) σ).1.
Proof.
  intros Ha Hg Hp Hf. unfold mbind, CM_bind. destruct (m σ) as [l1 [r1 σ1]]. simpl in Ha, Hg, Hp. subst r1.
  pose proof (run_of (f a) σ1) as Hr. destruct (f a σ1) as [l2 [r2 σ2]]. apply guarded_app; [done|].
  by destruct (Hf l1 l2 r2 Hp Hr).
Qed.
Lemma guarded_all log (l : list CliEvent) (F : CliEvent → Prop) : (∀ before e, F e → G before e) → Forall F l → guarded G log l.
Proof. intros HG Hl before e after ->. apply Forall_app in Hl as [_ [He _]%Forall_cons]. by apply HG. Qed.
End steps.

(** Some call so far satisfies [F]. *)
Definition has `{!FeltOps, !WireTypes, !ClientTypes, !WalletOps, !ClientEnv}
  (F : CliEvent → Prop) (log : list CliEvent) : Prop := ∃ e, e ∈ log ∧ F e.
Lemma has_app `{!FeltOps, !WireTypes, !ClientTypes, !WalletOps, !ClientEnv} (F : CliEvent → Prop) log l :
  has F log → has F (log ++ l)%list.
Proof. intros (e & He & HF). exists e. split; [apply elem_of_app; by left|done]. Qed.
Lemma has_one `{!FeltOps, !WireTypes, !ClientTypes, !WalletOps, !ClientEnv} (F : CliEvent → Prop) log e :
  F e → has F (log ++ [e])%list.
Proof. intros HF. exists e. split; [apply elem_of_app; right; by constructor|done]. Qed.

Section once.
Context `{!FeltOps, !WireTypes, !ClientTypes, !JsonText, !SerdeText, !WalletOps, !ClientEnv, !ClientWire, !CliTypes,
          !CliEnv}.

(** ** Programs that make one call *)

(** [m] fails before any call, or makes one call in [F] and its value is one [R]
    lets that call give. *)
Definition once {A} (m : CM A) (F : CliEvent → Prop) (R : A → CliEvent → Prop) : Prop :=
  ∀ l r, runs m l r → (l = [] ∧ ∃ x, r = Err x) ∨ (∃ e, l = [e] ∧ F e ∧ ∀ a, r = Ok a → R a e).

Lemma once_clift {A B} (r0 : result string A) (f : A → CM B) F R :
  (∀ a, r0 = Ok a → once (f a) F R) → once (clift r0 ≫= f) F R.
Proof. intros Hf l r [(e & _ & -> & ->)|(a & Ha & Hr)]%runs_clift_bind; [left; eauto|by eapply Hf]. Qed.
Lemma once_draw {A B} (f : CliWorld → A * CliWorld) (k : A → CM B) F R :
  (∀ w, once (k (f w).1) F R) → once (cdraw f ≫= k) F R.
Proof. intros Hk l r [w Hr]%runs_draw_bind. by apply (Hk w). Qed.
Lemma once_with_error {A} f (m : CM A) F R : once m F R → once (with_error f m) F R.
Proof.
  intros Hm l r (r' & -> & [[-> [x ->]]|(e & -> & Hf & Ha)]%Hm)%runs_with_error; [left; simpl; eauto|right].
  exists e. split; [done|]. split; [done|]. intros a Ho. apply Ha. by destruct r'; inversion Ho.
Qed.
(** [m] makes no call; its value satisfies [S]. *)
Definition silent {A} (m : CM A) (S : A → Prop) : Prop := ∀ l r, runs m l r → l = [] ∧ ∀ a, r = Ok a → S a.
Lemma silent_clift {A} (r : result string A) : silent (clift r) (λ a, r = Ok a).
Proof. by intros l r' [-> ->]%runs_clift. Qed.
Lemma silent_ret {A} (a : A) : silent (mret a) (eq a).
Proof. intros l r' [-> ->]%runs_ret. split; [done|]. by intros ? [= <-]. Qed.
Lemma silent_bail {A} e (S : A → Prop) : silent (bail e) S.
Proof. by intros l r' [-> ->]%runs_bail. Qed.
Lemma silent_clift_bind {A B} (r0 : result string A) (f : A → CM B) S :
  (∀ a, r0 = Ok a → silent (f a) S) → silent (clift r0 ≫= f) S.
Proof. intros Hf l r [(e & _ & -> & ->)|(a & Ha & Hr)]%runs_clift_bind; [done|by apply (Hf a)]. Qed.
Lemma silent_draw {A B} (f : CliWorld → A * CliWorld) (k : A → CM B) S :
  (∀ w, silent (k (f w).1) S) → silent (cdraw f ≫= k) S.
Proof. intros Hk l r [w Hr]%runs_draw_bind. by apply (Hk w). Qed.
(** After its call a program only looks at what it got. *)
Lemma once_then {A B} (m : CM A) (f : A → CM B) S F R R' :
  once m F R → (∀ a, silent (f a) (S a)) → (∀ a b e, R a e → S a b → R' b e) → once (m ≫= f) F R'.
Proof.
  intros Hm Hf HR l r [(e & -> & [[-> _]|(e' & -> & He & _)]%Hm)|(a & l1 & l2 & -> & Hr1 & [-> Hs]%Hf)]%runs_bind.
  - left. eauto.
  - right. exists e'. split; [done|]. split; [done|]. by intros a [=].
  - rewrite app_nil_r. apply Hm in Hr1 as [[_ [x [=]]]|(e & -> & He & Ha)].
    right. exists e. split; [done|]. split; [done|]. intros b Hb. eapply HR; [by apply Ha|by apply Hs].
Qed.
Lemma once_send request : once (send request) (λ e, ∃ answer, e = Sent request answer) (λ answer e, e = Sent request answer).
Proof. intros l r (answer & -> & ->)%runs_send. right. eexists. split; [done|]. split; [eauto|]. by intros ? [= <-]. Qed.
Lemma once_cast env args : once (cast env args) (λ e, ∃ outcome, e = Cast env args outcome) (λ outcome e, e = Cast env args outcome).
Proof. intros l r (outcome & -> & ->)%runs_cast. right. eexists. split; [done|]. split; [eauto|]. by intros ? [= <-]. Qed.
Lemma once_weaken {A} (m : CM A) (F F' : CliEvent → Prop) R R' :
  once m F R → (∀ e, F e → F' e) → (∀ a e, R a e → R' a e) → once m F' R'.
Proof. intros Hm HF HR l r [|(e & -> & Hf & Ha)]%Hm; [by left|right]. exists e. eauto 6. Qed.

Lemma steps_once G {A} (P : Assertion) (m : CM A) F R (Q : A → Assertion) :
  once m F R → (∀ log e, P log → F e → G log e) →
  (∀ log a e, P log → F e → R a e → Q a (log ++ [e])%list) → steps G P m Q.
Proof.
  intros Hm HG HQ log l r Hp [[-> [x ->]]|(e & -> & Hf & Ha)]%Hm; split; [apply guarded_nil|done| |eauto].
  apply guarded_one. eauto.
Qed.

(** ** Calls a property does not mind *)

(** [P] survives calls in [F]. *)
Definition calm (F : CliEvent → Prop) (P : Assertion) : Prop := ∀ log e, P log → F e → P (log ++ [e])%list.
Lemma calm_and F (P P' : Assertion) : calm F P → calm F P' → calm F (λ log, P log ∧ P' log).
Proof. intros Hc Hc' log e [Hp Hp'] Hq. split; [by apply Hc|by apply Hc']. Qed.
Lemma calm_has F F' : calm F (has F').
Proof. intros log e Hh _. by apply has_app. Qed.
Lemma calm_pure F (φ : Prop) : calm F (λ _, φ).
Proof. by intros ???. Qed.
Lemma calm_never (F F' : CliEvent → Prop) : (∀ e, F e → ¬ F' e) → calm F (Forall (λ e, ¬ F' e)).
Proof. intros HF log e Hl He. apply Forall_app. split; [done|]. repeat constructor. by apply HF. Qed.

Section quiet.
Context (G : list CliEvent → CliEvent → Prop) (F : CliEvent → Prop) (HF : ∀ before e, F e → G before e).
(** A quiet call, and what its answer tells. *)
Lemma steps_quiet {A} P (m : CM A) F' R : once m F' R → (∀ e, F' e → F e) → calm F P →
  steps G P m (λ a log, P log ∧ has (R a) log).
Proof.
  intros Hm Hq Hc. eapply steps_once; [done| |].
  - intros log e _ He. by apply HF, Hq.
  - intros log a e Hp He Ha. split; [by apply Hc; [|apply Hq]|by apply has_one].
Qed.
Lemma steps_emit_quiet P e : F e → calm F P → steps G P (emit e) (λ _, P).
Proof.
  intros He Hc log l r Hp [-> _]%runs_emit. split; [by apply guarded_one, HF|]. intros _ _. by apply Hc.
Qed.
Lemma steps_only {A} P (m : CM A) : only F m → calm F P → steps G P m (λ _, P).
Proof.
  intros Hm Hc. apply steps_frame with (F := F); [done| |done].
  intros log l Hp. revert log Hp. induction l as [|e l IH]; intros log Hp Hl; [by rewrite app_nil_r|].
  apply Forall_cons in Hl as [He Hl]. rewrite cons_middle, app_assoc. apply IH; [by apply Hc|done].
Qed.
End quiet.
End once.
