(* ===== verification/CliProps.v ===== *)
(** * What the commands do to the chain and the wallet

    Which transactions [zkapi withdraw] signs and when it clears the local wallet;
    what stands before the deposit of [zkapi client]; the waits; the words and
    names a command reads from outside. *)

From Stdlib Require Import ZArith Lia Ascii.
From stdpp Require Import base tactics decidable numbers list gmap strings.
From S2P Require Import Prelude Text Float64 Json Http Types AuthScheme Config ClientTypes Compat ClientHelpers ClientWorld.
From S2P Require Import ClientWallet DirectLease ClientService ClientRoutes Cli CliWorld CliRun CliTheory.

Local Open Scope string_scope.

Section once.
Context `{!FeltOps, !WireTypes, !ClientTypes, !JsonText, !SerdeText, !WalletOps, !ClientEnv, !ClientWire, !CliTypes,
          !CliEnv}.

(** ** The calls *)

(** A successful [cast] with these arguments printed [stdout]. *)
Definition cast_printed (args : list string) (stdout : string) (e : CliEvent) : Prop :=
  ∃ output, e = Cast [] args (Ok output) ∧ co_success output = true ∧ co_stdout output = stdout.
Definition cast_attempt (args : list string) (e : CliEvent) : Prop := ∃ outcome, e = Cast [] args outcome.
Definition cast_succeeded (args : list string) (e : CliEvent) : Prop := ∃ stdout, cast_printed args stdout e.

Lemma once_checked {A} args (g : CastOutput → A) (failed : CastOutput → string) :
  once (outcome ← cast [] args; output ← clift (map_err no_cast outcome);
        if co_success output then mret (g output) else bail (A:=A) (failed output))
    (cast_attempt args) (λ (a : A) e, ∃ output, cast_printed args (co_stdout output) e ∧ a = g output).
Proof.
  eapply once_then with (S := λ outcome a, ∃ output, outcome = Ok output ∧ co_success output = true ∧ a = g output).
  - eapply once_weaken; [apply once_cast|done|]. intros outcome e He. exact He.
  - intros outcome. apply silent_clift_bind. intros output Ho%map_err_Ok. destruct (co_success output) eqn:Hs; [|apply silent_bail].
    intros l r [-> ->]%runs_ret. split; [done|]. intros a [= <-]. eauto.
  - intros outcome a e -> (output & -> & Hs & Hg). exists output. split; [by exists output|done].
Qed.
Lemma once_cast_output args failed : once (cast_output args failed) (cast_attempt args) (cast_printed args).
Proof. eapply once_weaken; [apply once_checked|done|]. by intros a e (output & He & ->). Qed.
Lemma once_transaction args (interactive : bool) operation :
  let args' := (args ++ if interactive then ["--interactive"] else [])%list in
  once (run_cast_transaction args interactive operation) (cast_attempt args') (λ _, cast_succeeded args').
Proof. eapply once_weaken; [apply once_checked|done|]. intros a e (output & He & _). by eexists. Qed.
Lemma once_signed signer subcommand arguments :
  let args := signed_args signer subcommand arguments in
  once (run_cast_signed signer (subcommand :: arguments)) (cast_attempt args) (λ _, cast_succeeded args).
Proof. eapply once_weaken; [apply once_checked|done|]. intros a e (output & He & _). by eexists. Qed.

(** What an answered request to the daemon tells. *)
Definition answered {A} (dec : Value → option A) (answer : result string HttpResponse) (a : A) : Prop :=
  ∃ response bytes, answer = Ok response ∧ is_success (http_status response) = true ∧
    http_text response = Ok bytes ∧ from_str dec bytes = Ok a.
Definition requests (url method path : string) (body : option Value) (e : CliEvent) : Prop :=
  ∃ endpoint answer, local_client_endpoint url path = Ok endpoint ∧ e = Sent (local_request method endpoint body) answer.
Definition replied {A} (dec : Value → option A) (url method path : string) (body : option Value) (a : A) (e : CliEvent) : Prop :=
  ∃ endpoint answer, local_client_endpoint url path = Ok endpoint ∧
    e = Sent (local_request method endpoint body) answer ∧ answered dec answer a.
Lemma once_local {A} (dec : Value → option A) method url path body :
  once (local_client_request dec method url path body) (requests url method path body) (replied dec url method path body).
Proof.
  apply once_clift. intros endpoint Hend. eapply once_then with (S := answered dec).
  - eapply once_weaken; [apply once_send| |intros answer e He; exact He]. intros e [answer ->]. by exists endpoint, answer.
  - intros answer. apply silent_clift_bind. intros response Ho%map_err_Ok.
    apply silent_clift_bind. intros bytes Hb%map_err_Ok. destruct (is_success (http_status response)) eqn:Hs; [|apply silent_bail].
    intros l r [-> ->]%runs_clift. split; [done|]. intros a Ha%map_err_Ok. by exists response, bytes.
  - intros answer a e -> Ha. by exists endpoint, answer.
Qed.

(** A getter of the vault printed [values]. *)
Definition getter_read (args : list string) (values : list Value) (e : CliEvent) : Prop :=
  ∃ stdout, cast_printed args stdout e ∧ from_str as_array stdout = Ok values.
Lemma once_getter manifest signature arguments :
  let args := getter_args manifest signature arguments in
  once (read_cast_json_values manifest signature arguments) (cast_attempt args) (getter_read args).
Proof.
  eapply once_then; [apply once_cast_output|intros stdout; apply silent_clift|].
  intros stdout values e He Hv%map_err_Ok. by exists stdout.
Qed.
(** The vault showed note [n] in status [s]. *)
Definition status_read manifest (n s : Z) (e : CliEvent) : Prop :=
  ∃ values, getter_read (getter_args manifest NOTES_SIGNATURE [show_uint n]) values e ∧
    value_as_u64 digit_error json_print (values !! 3%nat) "note status" = Ok s.
Lemma once_status manifest n :
  once (read_note_status manifest n) (cast_attempt (getter_args manifest NOTES_SIGNATURE [show_uint n]))
    (status_read manifest n).
Proof. eapply once_then; [apply once_getter|intros values; apply silent_clift|]. intros values s e He Hs. by exists values. Qed.
End once.

Section withdrawal.
Context `{!FeltOps, !WireTypes, !ClientTypes, !JsonText, !SerdeText, !WalletOps, !ClientEnv, !ClientWire, !CliTypes,
          !CliEnv}.
Implicit Types (manifest : DeploymentManifest) (plan : WithdrawalPlan) (options : ManagedWithdrawalOptions).

(** ** Which proofs a withdrawal accepts *)

Definition plan_fits manifest (mode : WithdrawalMode) (to : string) plan : Prop :=
  let inputs := wp_public_inputs plan in
  wp_mode plan = mode ∧ withdrawal_protocol_version inputs = dm_protocol_version manifest ∧
  withdrawal_chain_id inputs = dm_chain_id manifest ∧
  from_hex (dm_contract_address manifest) = Ok (withdrawal_contract_address inputs) ∧
  withdrawal_destination inputs = to ∧ withdrawal_has_clearance inputs = bool_decide (mode = Mutual) ∧
  length (wp_siblings plan) = 32%nat ∧ backend (wp_proof plan) = groth16_bn254 ∧
  ∃ proof, base64_standard_decode (Types.proof (wp_proof plan)) = Ok proof ∧ proof ≠ "".

Lemma bind_Ok_iff {E A B} (r : result E A) (f : A → result E B) b : (r ≫= f) = Ok b ↔ ∃ a, r = Ok a ∧ f a = Ok b.
Proof. split; [apply bind_Ok|by intros (a & -> & Hf)]. Qed.

Lemma normalize_address_Ok value address :
  normalize_address value = Ok address ↔ ∃ to, parse_destination value = Ok to ∧ address = format_address to.
Proof.
  unfold normalize_address. rewrite bind_Ok_iff.
  split; intros (to & Ht & Ha); exists to; (split; [done|]); [by injection Ha|by subst].
Qed.
Lemma normalize_address_twice value address : normalize_address value = Ok address → normalize_address address = Ok address.
Proof.
  intros (to & Ht & ->)%normalize_address_Ok. apply normalize_address_Ok. exists to. split; [|done].
  by eapply parse_destination_format, parse_destination_length.
Qed.
Lemma validate_withdrawal_plan_Ok plan manifest mode destination :
  validate_withdrawal_plan plan manifest mode destination = Ok tt ↔
  ∃ to, parse_destination destination = Ok to ∧ plan_fits manifest mode to plan.
Proof.
  unfold validate_withdrawal_plan, plan_fits. cbv zeta. split.
  - intros Hs. inv_ok. rewrite ?negb_false_iff, ?orb_false_iff in *. destruct_and?.
    repeat match goal with
    | H : negb _ = false |- _ => apply negb_false_iff in H
    | H : (_ =? _)%Z = true |- _ => apply Z.eqb_eq in H
    | H : bool_decide _ = true |- _ => apply bool_decide_eq_true in H
    | H : String.eqb _ _ = true |- _ => apply String.eqb_eq in H
    | H : String.eqb _ _ = false |- _ => apply String.eqb_neq in H
    | H : Nat.eqb _ _ = true |- _ => apply Nat.eqb_eq in H
    | H : Bool.eqb _ _ = true |- _ => apply eqb_prop in H
    | H : map_err _ _ = Ok _ |- _ => apply map_err_Ok in H
    | H : parse_felt _ _ = Ok _ |- _ => apply map_err_Ok in H
    | H : normalize_address _ = Ok _ |- _ => apply normalize_address_Ok in H as (to & Hto & ->)
    | H : format_address _ = format_address _ |- _ => apply format_address_inj in H
    end.
    exists to. subst. split_and!; eauto.
  - intros (to & Ht & Hm & Hv & Hi & Hc & Hd & Hcl & Hl & Hb & proof & Hp & Hne).
    assert (normalize_address destination = Ok (format_address to)) as Hn by (apply normalize_address_Ok; eauto).
    apply String.eqb_neq in Hne. rewrite Hm, Hv, Hi, Hd, Hcl, Hl, Hb, !Z.eqb_refl.
    rewrite (bool_decide_true (mode = mode)), (bool_decide_true (groth16_bn254 = _)) by done.
    unfold parse_felt. rewrite Hc. cbn. rewrite (bool_decide_true (withdrawal_contract_address _ = _)) by done. cbn. rewrite Hn. cbn.
    rewrite String.eqb_refl, Bool.eqb_reflx, Hp. cbn. by rewrite Hne.
Qed.

(** ** Withdrawing *)

(** [set_path] prints an absolute path of these characters as it is: it adds no
    slash, has nothing to encode and no dot segment to resolve. *)
Definition plain_path_char (c : ascii) : bool := is_ascii_alphanumeric c || Ascii.eqb c "/" || Ascii.eqb c "-".
Definition plain_path (p : string) : bool := starts_with "/" p && str_forall plain_path_char p.
Class UrlLaws : Prop := {
  set_path_inj : ∀ url parts p q, parse_url url = Ok parts → url_scheme parts = "http" →
    plain_path p = true → plain_path q = true →
    url_with_path parts p = url_with_path parts q → p = q;
}.
Context `{!UrlLaws}.

Lemma endpoints_differ url p q a :
  local_client_endpoint url p = Ok a → local_client_endpoint url q = Ok a →
  plain_path p = true → plain_path q = true → p = q.
Proof.
  unfold local_client_endpoint. intros Hs Hs' Hp Hq. inv_ok.
  repeat match goal with H : map_err _ _ = Ok _ |- _ => apply map_err_Ok in H end.
  match goal with H : parse_url _ = Ok ?x, H' : parse_url _ = Ok ?y |- _ => rewrite H in H'; injection H' as <- end.
  match goal with H : (_ || _)%bool = false |- _ => rewrite !orb_false_iff, negb_false_iff, String.eqb_eq in H end.
  destruct_and?. by eapply set_path_inj.
Qed.

Section guard.
Context (manifest : DeploymentManifest) (options : ManagedWithdrawalOptions).

(** A transaction; the reset of the local wallet; the daemon reporting note [n]. *)
Definition sends (e : CliEvent) : Prop := ∃ env args outcome, e = Cast env ("send" :: args)%list outcome.
Definition resets (e : CliEvent) : Prop := requests (mw_client_url options) "POST" "/wallet/reset" None e.
Definition reports_note (n : Z) (e : CliEvent) : Prop :=
  ∃ method path status note, replied wallet_status_of_value (mw_client_url options) method path None status e ∧
    ws_note status = Some note ∧ ns_note_id note = n.

(** What a transaction of a withdrawal is, and what was read before it. *)
Definition closes_note (before : list CliEvent) (e : CliEvent) : Prop :=
  match match mw_mode options with ArgMutual => Some Mutual | ArgEscape => Some Escape | ArgFinalizeEscape => None end with
  | Some mode => ∃ destination to plan args,
      mw_destination options = Some destination ∧ parse_destination destination = Ok to ∧
      plan_fits manifest mode to plan ∧ has (reports_note (withdrawal_note_id (wp_public_inputs plan))) before ∧
      withdrawal_call_args manifest plan false = Ok args ∧ cast_attempt (args ++ ["--interactive"])%list e
  | None => ∃ n, has (status_read manifest n 2) before ∧
      cast_attempt (finalize_call_args manifest n false ++ ["--interactive"])%list e
  end.
Definition withdrawal_allowed (before : list CliEvent) (e : CliEvent) : Prop :=
  (resets e → mw_dry_run options = false ∧
     ∃ n, has (status_read manifest n 3) before ∧ has (reports_note n) before) ∧
  (sends e → mw_dry_run options = false ∧ Forall (λ e, ¬ sends e) before ∧ closes_note before e).

(** Calls that change neither the chain nor the wallet. *)
Definition quiet (e : CliEvent) : Prop := ¬ sends e ∧ ¬ resets e.
Lemma quiet_guard before e : quiet e → withdrawal_allowed before e.
Proof. by intros [Hs Hr]. Qed.
Lemma quiet_cast args e : cast_attempt args e → head args ≠ Some "send" → quiet e.
Proof.
  intros (outcome & ->) Hh. split.
  - intros (env & args' & o & [= _ -> _]). by destruct Hh.
  - intros (endpoint & answer & _ & [=]).
Qed.
Lemma quiet_sent request answer : http_method request ≠ "POST" → quiet (Sent request answer).
Proof. intros Hm. split; [by intros (? & ? & ? & [=])|]. by intros (endpoint & a & _ & [= -> _]). Qed.
Lemma quiet_request method path body e : requests (mw_client_url options) method path body e →
  plain_path path = true → path ≠ "/wallet/reset" → quiet e.
Proof.
  intros (endpoint & answer & Hend & ->) Hp Hne. split; [by intros (? & ? & ? & [=])|].
  intros (endpoint' & answer' & Hend' & [= _ -> _ _]). by destruct (Hne (endpoints_differ _ _ _ _ Hend Hend' Hp eq_refl)).
Qed.
Lemma quiet_paused ms : quiet (Paused ms).
Proof. split; [by intros (? & ? & ? & [=])|by intros (? & ? & _ & [=])]. Qed.
Lemma quiet_printed body : quiet (Printed body).
Proof. split; [by intros (? & ? & ? & [=])|by intros (? & ? & _ & [=])]. Qed.

(** ** The run of a withdrawal *)

Lemma calm_unsent : calm quiet (Forall (λ e, ¬ sends e)).
Proof. apply calm_never. by intros e []. Qed.

Lemma steps_status P n : calm quiet P →
  steps withdrawal_allowed P (read_note_status manifest n) (λ s log, P log ∧ has (status_read manifest n s) log).
Proof. apply (steps_quiet _ _ quiet_guard) with (1 := once_status manifest n). intros e He. by eapply quiet_cast. Qed.
Lemma steps_wait left P n expected last : calm quiet P →
  steps withdrawal_allowed P (wait_note_status left manifest n expected last)
    (λ _ log, P log ∧ has (status_read manifest n expected) log).
Proof.
  revert last. induction left as [|left IH]; intros last Hc; cbn [wait_note_status]; [apply steps_bail|].
  assert (∀ last, steps withdrawal_allowed P (_ ← pause 1000; wait_note_status left manifest n expected last)
            (λ _ log, P log ∧ has (status_read manifest n expected) log)) as Hagain.
  { intros last'. eapply steps_bind; [apply (steps_emit_quiet _ _ quiet_guard); [apply quiet_paused|done]|]. intros ?. by apply IH. }
  eapply (steps_bind _ _ _ _ (λ read log, P log ∧ match read with Ok s => has (status_read manifest n s) log | Err _ => True end)).
  { intros log l r Hp (r' & -> & Hr)%runs_ctry. destruct (steps_status P n Hc log l r' Hp Hr) as [Hg Hq].
    split; [done|]. intros a [= <-]. destruct r' as [s|x]; [by apply Hq|]. split; [|done].
    apply once_status in Hr as [[-> _]|(e & -> & He & _)]; [by rewrite app_nil_r|]. apply Hc; [done|].
    by eapply quiet_cast. }
  intros [s|x].
  - apply steps_if; intros Hs.
    + apply Z.eqb_eq in Hs as ->. by apply steps_ret.
    + eapply steps_conseq; [apply Hagain| |done]. tauto.
  - eapply steps_conseq; [apply Hagain| |done]. tauto.
Qed.

Lemma steps_local {A} P (dec : Value → option A) method path body : calm quiet P →
  plain_path path = true → path ≠ "/wallet/reset" →
  steps withdrawal_allowed P (local_client_request dec method (mw_client_url options) path body)
    (λ a log, P log ∧ has (replied dec (mw_client_url options) method path body a) log).
Proof. intros Hc Hp Hne. apply (steps_quiet _ _ quiet_guard) with (1 := once_local _ _ _ _ _); [|done]. intros e He. by eapply quiet_request. Qed.

Lemma steps_summary P fields final_balance : calm quiet P → steps withdrawal_allowed P (summary fields final_balance) (λ _, P).
Proof.
  intros Hc. unfold summary. destruct final_balance as [n|]; [apply steps_if; intros _; [|apply steps_bail]|];
    (apply (steps_emit_quiet _ _ quiet_guard); [apply quiet_printed|done]).
Qed.

(** The reset, once the note was seen closed. *)
Lemma steps_reset P operation n : mw_dry_run options = false →
  (∀ log, P log → has (status_read manifest n 3) log ∧ has (reports_note n) log) →
  steps withdrawal_allowed P (reset_local_wallet options operation) (λ _ _, True).
Proof.
  intros Hdry HP. unfold reset_local_wallet. eapply (steps_bind _ _ _ _ (λ _ _, True)).
  - eapply steps_once; [apply once_with_error, once_local| |done]. intros log e Hp He. split; [eauto|].
    destruct He as (endpoint & answer & _ & ->). by intros (? & ? & ? & [=]).
  - intros reset. apply steps_if; intros _; [apply steps_bail|by apply steps_ret].
Qed.
Lemma steps_reset_pure P operation n :
  (∀ log, P log → has (status_read manifest n 3) log ∧ has (reports_note n) log) →
  steps withdrawal_allowed (λ log, P log ∧ mw_dry_run options = false) (reset_local_wallet options operation) (λ _ _, True).
Proof. intros HP. apply steps_pure. intros Hdry. by apply (steps_reset P _ n). Qed.
(** The transaction, and the wait for status [s] of note [n]. *)
Lemma steps_transaction (P : Assertion) args operation : mw_dry_run options = false →
  (∀ log e, P log → cast_attempt (args ++ ["--interactive"])%list e → closes_note log e) →
  (∀ log, P log → Forall (λ e, ¬ sends e) log) →
  steps withdrawal_allowed P (run_cast_transaction args true operation) (λ _ log, ∃ log0 e, log = (log0 ++ [e])%list ∧ P log0).
Proof.
  intros Hdry Hcloses Hun. eapply steps_once; [apply once_transaction| |eauto].
  intros log e Hp He. split; [|intros _; eauto].
  destruct He as (outcome & ->). by intros (endpoint & answer & _ & [=]).
Qed.

Lemma reports_replied method path status note log :
  ws_note status = Some note → has (replied wallet_status_of_value (mw_client_url options) method path None status) log →
  has (reports_note (ns_note_id note)) log.
Proof. intros Hn (e & He & Hr). exists e. split; [done|]. by exists method, path, status, note. Qed.

(** The branch on the status: nothing, a simulation, or the transaction and its
    wait. *)
Lemma steps_finalize_step P n s : mw_mode options = ArgFinalizeEscape → calm quiet P →
  (∀ log, P log → Forall (λ e, ¬ sends e) log ∧ has (status_read manifest n s) log) → s = 2%Z ∨ s = 3%Z →
  ∀ message F, (∀ log, P log → has F log) →
  steps withdrawal_allowed P
    (if (s =? 2)%Z then
       _ ← run_finalize_escape_call manifest n (mw_dry_run options);
       if mw_dry_run options then mret tt else wait_for_note_status manifest n 3
     else if mw_dry_run options then bail message else mret tt)
    (λ _ log, (s =? 2)%Z && mw_dry_run options = false →
       mw_dry_run options = false ∧ has (status_read manifest n 3) log ∧ has F log).
Proof.
  intros Hmode Hc HP Hs message F HF. unfold run_finalize_escape_call.
  destruct (mw_dry_run options) eqn:Hdry.
  - apply steps_if; intros Hs2; [|apply steps_bail]. cbn [negb]. eapply steps_bind; [|intros ?; apply steps_ret; intros log _; by rewrite Hs2].
    eapply (steps_quiet _ _ quiet_guard); [apply once_transaction| |exact Hc]. intros e He. by eapply quiet_cast.
  - apply steps_if; intros Hs2; cbn [negb].
    + apply Z.eqb_eq in Hs2 as ->. eapply steps_bind.
      * apply steps_transaction; [done| |by intros log []%HP].
        intros log e Hl He. unfold closes_note. rewrite Hmode. exists n. by apply HP in Hl as [].
      * intros ?. eapply steps_conseq; [apply (steps_wait 20 (has F)), calm_has| |tauto].
        intros log (log0 & e & -> & Hl). by apply has_app, HF.
    + apply steps_ret. intros log Hl _. destruct Hs as [->| ->]; [done|]. split; [done|].
      split; [by apply HP in Hl as []|by apply HF].
Qed.
Lemma steps_finalize : mw_mode options = ArgFinalizeEscape →
  steps withdrawal_allowed (Forall (λ e, ¬ sends e)) (finalize_escape_withdrawal manifest options) (λ _ _, True).
Proof.
  intros Hmode. unfold finalize_escape_withdrawal.
  eapply steps_bind; [apply steps_local; [apply calm_unsent|done..]|]. intros local. cbv zeta.
  apply steps_clift_bind. intros note_id _.
  set (P := λ log, _ log ∧ _). set (F := replied _ _ _ _ _ _) in P.
  assert (calm quiet P) as HcP by (apply calm_and; [apply calm_unsent|apply calm_has]).
  apply (steps_bind _ _ _ _ (λ _ log, P log ∧ (∀ id, ns_note_id <$> ws_note local = Some id → id = note_id))).
  { destruct (ns_note_id <$> ws_note local) as [id|]; [apply steps_if; intros Hid; [|apply steps_bail]|];
      apply steps_ret; intros log Hl; (split; [done|]); intros ? [= <-]; by apply Z.eqb_eq. }
  intros ?. apply steps_pure. intros Hlocal.
  eapply steps_bind; [by apply steps_status|]. intros s. apply steps_unless. intros Hs.
  eapply steps_bind.
  { apply steps_finalize_step with (F := F); [done| | |destruct (Z.eqb_spec s 2), (Z.eqb_spec s 3); auto; done|].
    - apply calm_and; [done|apply calm_has].
    - intros log [[Hl _] Hr]. done.
    - intros log [[_ Hl] _]. done. }
  intros ?. apply steps_if; intros Hsim.
  { eapply steps_conseq; [apply (steps_summary (λ _, True)), calm_pure|done..]. }
  eapply steps_bind; [|intros ?; apply (steps_summary (λ _, True)), calm_pure].
  apply steps_if; intros His; [|by apply steps_ret].
  apply bool_decide_eq_true in His. destruct (ws_note local) as [note|] eqn:Hnote; [|done]. injection His as <-.
  eapply steps_conseq with (P' := λ log, (has (status_read manifest (ns_note_id note) 3) log ∧ has F log) ∧ mw_dry_run options = false);
    [|by intros log (? & ? & ?)%(λ k, k Hsim)|done].
  apply (steps_reset_pure _ _ (ns_note_id note)). intros log [Hr Hl]. split; [done|].
  by eapply reports_replied.
Qed.

Lemma withdrawal_args_head plan dry args : withdrawal_call_args manifest plan dry = Ok args → head args = Some (call_or_send dry).
Proof. unfold withdrawal_call_args. intros Ha. by inv_ok. Qed.
Lemma steps_withdrawal_call mode destination to plan :
  mw_mode options = (match mode with Mutual => ArgMutual | Escape => ArgEscape end) →
  mw_destination options = Some destination → parse_destination destination = Ok to → plan_fits manifest mode to plan →
  let F := reports_note (withdrawal_note_id (wp_public_inputs plan)) in
  steps withdrawal_allowed (λ log, Forall (λ e, ¬ sends e) log ∧ has F log)
    (run_withdrawal_contract_call manifest plan (mw_dry_run options)) (λ _, has F).
Proof.
  intros Hmode Hdest Hto Hfit F. apply steps_clift_bind. intros args Hargs. pose proof (withdrawal_args_head _ _ _ Hargs) as Hh.
  destruct (mw_dry_run options) eqn:Hdry; cbn [negb].
  - eapply steps_conseq; [eapply (steps_quiet _ _ quiet_guard (has F)); [apply once_transaction| |apply calm_has]|by intros log []|by intros ? log []].
    intros e He. eapply quiet_cast; [done|]. rewrite app_nil_r, Hh. done.
  - eapply steps_conseq; [apply steps_transaction with (P := λ log, Forall (λ e, ¬ sends e) log ∧ has F log)| |].
    + done.
    + intros log e [_ Hl] He. unfold closes_note. rewrite Hmode. by destruct mode; exists destination, to, plan, args.
    + by intros log [].
    + by intros log.
    + intros ? log (log0 & e & -> & _ & Hl). by apply has_app.
Qed.
Lemma steps_withdraw_note mode address destination to local_note :
  mw_mode options = (match mode with Mutual => ArgMutual | Escape => ArgEscape end) →
  mw_destination options = Some destination → parse_destination destination = Ok to → address = format_address to →
  steps withdrawal_allowed (λ log, Forall (λ e, ¬ sends e) log ∧ has (reports_note (ns_note_id local_note)) log)
    (withdraw_note manifest options mode address local_note) (λ _ _, True).
Proof.
  intros Hmode Hdest Hto ->. set (P := λ log, _ ∧ _).
  assert (calm quiet P) as HcP by (apply calm_and; [apply calm_unsent|apply calm_has]).
  assert (parse_destination (format_address to) = Ok to) as Hto'
    by (by eapply parse_destination_format, parse_destination_length).
  unfold withdraw_note. eapply steps_bind; [by apply steps_local|]. intros plan.
  eapply steps_conseq with (P' := P); [|by intros log []|done].
  apply steps_clift_bind. intros [] (to' & Ht & Hfit)%validate_withdrawal_plan_Ok. cbv zeta.
  rewrite Hto' in Ht. injection Ht as <-. apply steps_check. intros Hid%Z.eqb_eq.
  subst P. rewrite <- Hid. set (F := reports_note _). set (n := withdrawal_note_id _) in *.
  eapply steps_bind; [by eapply steps_withdrawal_call|]. intros ?. cbv zeta.
  apply steps_if; intros Hdry.
  { eapply steps_conseq; [apply (steps_summary (λ _, True)), calm_pure|done..]. }
  destruct mode.
  - eapply steps_bind; [by apply (steps_wait 20), calm_has|]. intros ?.
    eapply steps_bind; [|intros ?; apply (steps_summary (λ _, True)), calm_pure].
    eapply steps_conseq with (P' := λ log, (has (status_read manifest n 3) log ∧ has F log) ∧ mw_dry_run options = false);
      [|by intros log []|done].
    by apply (steps_reset_pure _ _ n).
  - eapply steps_bind; [by apply (steps_wait 20), calm_has|]. intros ?.
    eapply steps_bind; [|intros ?; apply (steps_summary (λ _, True)), calm_pure].
    eapply steps_conseq; [eapply (steps_quiet _ _ quiet_guard (λ _, True)); [by eapply once_then with (R' := λ _ _, True); [apply once_getter|intros ?; apply silent_clift|]| |apply calm_pure]|done..].
    intros e He. by eapply quiet_cast.
Qed.

Lemma load_quiet source : only quiet (load_deployment_manifest source).
Proof. unfold load_deployment_manifest. only_auto. by apply quiet_sent. Qed.

Lemma withdrawal_alloweded σ : (load_deployment_manifest (mw_deployment options) σ).2.1 = Ok manifest →
  guarded withdrawal_allowed [] (run_managed_withdrawal options σ).1.
Proof.
  intros Hm. pose proof (load_quiet _ _ _ (run_of (load_deployment_manifest (mw_deployment options)) σ)) as Hq.
  eapply (steps_run_after _ (Forall (λ e, ¬ sends e)) _ _ _ _ _ Hm).
  { eapply guarded_all; [|exact Hq]. intros before e He. by apply quiet_guard. }
  { eapply Forall_impl; [exact Hq|]. by intros e []. }
  cbv beta. apply steps_clift_bind. intros _ _. eapply steps_bind.
  { apply (steps_quiet _ _ quiet_guard) with (1 := once_with_error _ _ _ _ (once_local _ _ _ _ _)); [|apply calm_unsent].
    intros e He. by eapply quiet_request. }
  intros funding. eapply steps_conseq with (P' := Forall (λ e, ¬ sends e)); [|by intros log []|done].
  apply steps_clift_bind. intros _ _. cbv zeta.
  destruct (mw_mode options) eqn:Hmode; [| |by destruct (mw_destination options); [apply steps_bail|apply steps_finalize]].
  all: eapply (steps_bind _ _ _ _ (λ _, Forall (λ e, ¬ sends e)));
    [by destruct (mw_note_id options); [apply steps_bail|apply steps_ret]|intros ?].
  all: apply steps_clift_bind; intros destination Hdest%ok_or_Ok.
  all: apply steps_clift_bind; intros address (to & Hto & Ha)%normalize_address_Ok.
  all: eapply steps_bind; [by apply steps_local; [apply calm_unsent|..]|intros settled].
  all: apply steps_clift_bind; intros local_note Hnote%ok_or_Ok.
  all: apply steps_if; intros _; [apply steps_bail|].
  all: eapply steps_conseq; [by eapply steps_withdraw_note| |done].
  all: intros log [Hl Hr]; split; [done|by eapply reports_replied].
Qed.
End guard.

(** C23: `zkapi withdraw` clears the local wallet only when its note is gone. In
    every run, before the request that resets the daemon's wallet the vault of the
    loaded manifest showed some note in status 3 (closed) and the daemon reported
    that note as its own; a dry run never resets. *)
Theorem wallet_reset_after_close manifest options σ before e after :
  (load_deployment_manifest (mw_deployment options) σ).2.1 = Ok manifest →
  (run_managed_withdrawal options σ).1 = (before ++ e :: after)%list → resets options e →
  mw_dry_run options = false ∧
  ∃ n, has (status_read manifest n 3) before ∧ has (reports_note options n) before.
Proof. intros Hm Hr He. by apply (withdrawal_alloweded _ _ _ Hm _ _ _ Hr) in He. Qed.

(** C24: `zkapi withdraw` signs at most one transaction, none on a dry run. For a
    mutual or escape withdrawal it is the transaction of a proof that has the mode
    asked for, the deployment of the loaded manifest, the twenty bytes of
    [--destination], a clearance exactly when mutual, 32 siblings and a nonempty
    Groth16 proof, for the note the daemon reported; for a finalization it names a
    note whose escape the vault showed pending. *)
Theorem withdrawal_signs_checked_proof manifest options σ before e after :
  (load_deployment_manifest (mw_deployment options) σ).2.1 = Ok manifest →
  (run_managed_withdrawal options σ).1 = (before ++ e :: after)%list → sends e →
  mw_dry_run options = false ∧ Forall (λ e, ¬ sends e) before ∧ closes_note manifest options before e.
Proof. intros Hm Hr He. by apply (withdrawal_alloweded _ _ _ Hm _ _ _ Hr) in He. Qed.
End withdrawal.
