(* ===== verification/CliFunding.v ===== *)
(** * The deposit of [zkapi client]

    What was read and approved before the deposit is signed, what stands when the
    funding of a note succeeds, and that nothing is signed unless asked for. *)

From Stdlib Require Import ZArith Lia Ascii.
From stdpp Require Import base tactics decidable numbers list gmap strings.
From S2P Require Import Prelude Text Float64 Json Http Types AuthScheme Config ClientTypes Compat ClientHelpers ClientWorld.
From S2P Require Import ClientWallet DirectLease ClientService ClientRoutes Cli CliWorld CliRun CliTheory CliProps.

Local Open Scope string_scope.

Section funding.
Context `{!FeltOps, !WireTypes, !ClientTypes, !JsonText, !SerdeText, !WalletOps, !ClientEnv, !ClientWire, !CliTypes,
          !CliEnv}.
Implicit Types (manifest : DeploymentManifest) (signer : EphemeralCastSigner).

Definition DEPOSIT_SIGNATURE : string := "deposit(bytes32,uint128,uint256[32])".
(** A signed call of the vault's [deposit], whatever its arguments. *)
Definition deposits (e : CliEvent) : Prop :=
  ∃ env args outcome, e = Cast env args outcome ∧ head args = Some "send" ∧ args !! 8%nat = Some DEPOSIT_SIGNATURE.
(** The token answered [n] to a getter. *)
Definition token_read manifest (token signature : string) (arguments : list string) (n : Z) (e : CliEvent) : Prop :=
  ∃ stdout value, cast_printed (["call"; "--rpc-url"; dm_rpc_url manifest; token; signature] ++ arguments)%list stdout e ∧
    split_whitespace_next stdout = Some value ∧ parse_uint 10 u128_MAX value = Some n.
(** [cast] signed these arguments, and succeeded. *)
Definition signed_ok signer (args : list string) (e : CliEvent) : Prop :=
  cast_succeeded (signed_args signer "send" (tail args)) e.

(** [cast] imported a key into a fresh keystore that then held one file, the
    signer's, and reported the signer's address for it. *)
Definition imported signer (e : CliEvent) : Prop :=
  ∃ keystore_dir output address w,
    e = Cast [("CAST_UNSAFE_PASSWORD", sg_password signer)] (import_args keystore_dir) (Ok output) ∧
    co_success output = true ∧ reported_address (co_stdout output) = Some address ∧
    normalize_address address = Ok (sg_address signer) ∧
    (cli_files w keystore_dir).1 = Ok [sg_keystore_path signer].
Lemma once_signer : once create_ephemeral_cast_signer
  (λ e, ∃ env args outcome, e = Cast env args outcome ∧ head args = Some "wallet") imported.
Proof.
  apply once_draw. intros w1. apply once_clift. intros keystore_dir _. apply once_draw. intros w2. cbv zeta.
  set (password := hex_bytes _). eapply once_then with (R := λ outcome e, e = Cast [("CAST_UNSAFE_PASSWORD", password)] (import_args keystore_dir) outcome)
    (S := λ outcome signer, ∃ output address w, outcome = Ok output ∧ co_success output = true ∧ sg_password signer = password ∧
      reported_address (co_stdout output) = Some address ∧ normalize_address address = Ok (sg_address signer) ∧
      (cli_files w keystore_dir).1 = Ok [sg_keystore_path signer]).
  - eapply once_weaken; [apply once_cast| |done]. intros e (outcome & ->). by eexists _, _, _.
  - intros outcome. apply silent_clift_bind. intros output ->%map_err_Ok.
    destruct (co_success output) eqn:Hs; [|intros l r [(e & -> & [-> _]%runs_bail)|(? & ? & ? & _ & [_ [=]]%runs_bail & _)]%runs_bind; done].
    apply (silent_clift_bind (Ok tt)). intros _ _. apply silent_clift_bind. intros _ _.
    apply silent_clift_bind. intros address Ha%ok_or_Ok. apply silent_clift_bind. intros sender Hn.
    apply silent_draw. intros w3. apply silent_clift_bind. intros files Hf.
    destruct files as [|path [|]]; [apply silent_bail| |apply silent_bail].
    intros l r [-> ->]%runs_ret. split; [done|]. intros ? [= <-]. by exists output, address, w3.
  - intros outcome signer e -> (output & address & w & -> & Hs & <- & Ha). by exists keystore_dir, output, address, w.
Qed.
(** The address that was asked for, if any, is the signer's. *)
Definition asked_address (requested : option string) signer : Prop :=
  match requested with Some address => normalize_address address = Ok (sg_address signer) | None => True end.
Lemma funding_address_Ok signer requested address :
  funding_address signer requested = Ok address → address = sg_address signer ∧ asked_address requested signer.
Proof.
  unfold funding_address, asked_address. destruct requested as [a|]; [|by intros [= <-]].
  destruct (normalize_address a) as [b|]; [|done]. cbn. destruct (String.eqb_spec (sg_address signer) b) as [->|]; [|done].
  by intros [= <-].
Qed.

Lemma once_token manifest token signature arguments :
  let args := (["call"; "--rpc-url"; dm_rpc_url manifest; token; signature] ++ arguments)%list in
  once (read_erc20_u128 (dm_rpc_url manifest) token signature arguments) (cast_attempt args)
    (token_read manifest token signature arguments).
Proof.
  eapply once_then with (S := λ stdout n, ∃ value, split_whitespace_next stdout = Some value ∧ parse_uint 10 u128_MAX value = Some n).
  - apply once_cast_output.
  - intros stdout. apply silent_clift_bind. intros _ _. apply silent_clift_bind. intros value Hv%ok_or_Ok.
    intros l r [-> ->]%runs_clift. split; [done|]. intros n Hn%ok_or_Ok. by exists value.
  - intros stdout n e He (value & Hv & Hn). by exists stdout, value.
Qed.

(** The indexer's answer that the note is in the tree; the vault's on its expiry. *)
Definition indexed manifest (note_id : Z) (e : CliEvent) : Prop :=
  ∃ answer next, e = Sent (get (trim_slashes (dm_indexer_url manifest) +:+ "/v1/tree/next-note-id")) answer ∧
    indexed_next_note_id answer = Some next ∧ (saturating_add u32_MAX note_id 1 ≤ next)%Z.
Definition expiry_read manifest (note_id expiry_ts : Z) (e : CliEvent) : Prop :=
  ∃ values, getter_read (getter_args manifest NOTES_SIGNATURE [show_uint note_id]) values e ∧
    values !! 2%nat ≫= as_u64 = Some expiry_ts.
Lemma once_expiry manifest note_id :
  once (read_note_expiry manifest note_id) (cast_attempt (getter_args manifest NOTES_SIGNATURE [show_uint note_id]))
    (expiry_read manifest note_id).
Proof.
  eapply once_then with (S := λ stdout n, ∃ values, from_str as_array stdout = Ok values ∧ values !! 2%nat ≫= as_u64 = Some n).
  - apply once_cast_output.
  - intros stdout. apply silent_clift_bind. intros values Hv%map_err_Ok.
    intros l r [-> ->]%runs_clift. split; [done|]. intros n Hn%ok_or_Ok. by exists values.
  - intros stdout n e He (values & Hv & Hn). exists values. split; [by exists stdout|done].
Qed.

(** Every value [m] gives satisfies [φ]. *)
Definition gives {A} (m : M A) (φ : A → Prop) : Prop := ∀ s a s', m s = (Ok a, s') → φ a.
Lemma gives_bind {A B} (m : M A) (f : A → M B) φ : (∀ a, gives (f a) φ) → gives (m ≫= f) φ.
Proof. intros Hf s b s'. unfold mbind, M_bind. destruct (m s) as [[a|x] s1]; [apply Hf|done]. Qed.
(** The plan's amount is the one asked for. *)
Lemma prepare_deposit_amount config amount : gives (prepare_deposit config amount) (λ plan, dp_amount plan = amount).
Proof.
  unfold prepare_deposit. do 7 (apply gives_bind; intros ?). apply gives_bind. intros [secret commitment].
  by intros s plan s' [= <- _].
Qed.

Lemma minimum_initial_credits_Ok cap minimum : minimum_initial_credits cap = Ok minimum → cap ≠ 0%Z ∧ minimum = (cap * 2)%Z.
Proof.
  unfold minimum_initial_credits. destruct (Z.eqb_spec cap 0); [done|]. cbn. by destruct (_ <=? _)%Z; intros [= <-].
Qed.

(** ** What stands before the deposit *)

Section guard.
Context (manifest : DeploymentManifest) (requested : option string) (amount : Z).

Definition deposit_covered (before : list CliEvent) (e : CliEvent) : Prop :=
  dm_request_charge_cap manifest ≠ 0%Z ∧ (dm_request_charge_cap manifest * 2 ≤ amount)%Z ∧
  ∃ token signer balance commitment siblings,
    dm_billing_token_address manifest = Some token ∧ has (imported signer) before ∧ asked_address requested signer ∧
    has (token_read manifest token "decimals()(uint8)" [] 6) before ∧
    has (token_read manifest token "balanceOf(address)(uint256)" [sg_address signer] balance) before ∧
    (amount ≤ balance)%Z ∧
    has (signed_ok signer (approve_args manifest token (show_uint amount))) before ∧
    cast_attempt (signed_args signer "send" (tail (deposit_args manifest commitment (show_uint amount) siblings))) e.
Definition funding_guard (before : list CliEvent) (e : CliEvent) : Prop :=
  deposits e → Forall (λ e, ¬ deposits e) before ∧ deposit_covered before e.

Definition other (e : CliEvent) : Prop := ¬ deposits e.
Lemma other_guard before e : other e → funding_guard before e.
Proof. by intros He Hd. Qed.
Lemma other_cast args e : cast_attempt args e → head args ≠ Some "send" ∨ args !! 8%nat ≠ Some DEPOSIT_SIGNATURE → other e.
Proof. intros (outcome & ->) Hne (env & args' & o & [= _ <- _] & Hh & H8'). by destruct Hne. Qed.

Lemma steps_sign P signer subcommand args :
  args !! 3%nat ≠ Some DEPOSIT_SIGNATURE → calm other P →
  steps funding_guard P (run_cast_signed signer (subcommand :: args)%list)
    (λ _ log, P log ∧ has (cast_succeeded (signed_args signer subcommand args)) log).
Proof.
  intros Hne Hc. apply (steps_quiet _ _ other_guard) with (1 := once_signed signer subcommand args); [|done].
  intros e He. eapply other_cast; [done|]. by right.
Qed.
Lemma steps_check_token P token address needed : calm other P →
  steps funding_guard P (check_token manifest token address needed)
    (λ _ log, P log ∧ has (token_read manifest token "decimals()(uint8)" [] 6) log ∧
       ∃ balance, has (token_read manifest token "balanceOf(address)(uint256)" [address] balance) log ∧ (needed ≤ balance)%Z).
Proof.
  intros Hc. assert (∀ P signature arguments, calm other P →
    steps funding_guard P (read_erc20_u128 (dm_rpc_url manifest) token signature arguments)
      (λ n log, P log ∧ has (token_read manifest token signature arguments n) log)) as Hread.
  { intros P' signature arguments. apply (steps_quiet _ _ other_guard) with (1 := once_token _ _ _ _).
    intros e He. eapply other_cast; [done|]. by left. }
  unfold check_token. eapply steps_bind; [by apply Hread|]. intros decimals. apply steps_check. intros Hd%Z.eqb_eq. subst.
  eapply steps_bind; [apply Hread, calm_and; [done|apply calm_has]|]. intros balance.
  apply steps_if; intros Hb; [apply steps_bail|]. apply Z.ltb_ge in Hb. apply steps_ret. intros log [[Hp Hd] Hr]. eauto.
Qed.
Lemma steps_wait_indexed left P note_id : calm other P →
  steps funding_guard P
    (wait_indexed left (trim_slashes (dm_indexer_url manifest) +:+ "/v1/tree/next-note-id") note_id
       (saturating_add u32_MAX note_id 1))
    (λ _ log, P log ∧ has (indexed manifest note_id) log).
Proof.
  intros Hc. set (url := trim_slashes _ +:+ _). induction left as [|left IH]; cbn [wait_indexed]; [apply steps_bail|].
  eapply steps_bind.
  { apply (steps_quiet _ _ other_guard) with (1 := once_send (get url)); [|done]. by intros e (answer & ->) (? & ? & ? & [=] & _). }
  intros answer. assert (steps funding_guard (λ log, P log ∧ has (λ e, e = Sent (get url) answer) log)
    (_ ← pause 3000; wait_indexed left url note_id (saturating_add u32_MAX note_id 1))
    (λ _ log, P log ∧ has (indexed manifest note_id) log)) as Hagain.
  { apply steps_pre with P; [by intros log []|]. eapply steps_bind.
    - apply (steps_emit_quiet _ _ other_guard); [|done]. by intros (? & ? & ? & [=] & _).
    - intros ?. apply IH. }
  destruct (indexed_next_note_id answer) as [next|] eqn:Hn; [apply steps_if; intros Hle|]; [|exact Hagain..].
  apply steps_ret. intros log (Hp & e & He & ->). split; [done|]. exists (Sent (get url) answer). split; [done|].
  exists answer, next. apply Z.leb_le in Hle. done.
Qed.

Lemma steps_funding config skip_mint :
  steps funding_guard (Forall (λ e, ¬ deposits e)) (fund_public_deployment config manifest requested amount skip_mint)
    (λ _ _, True).
Proof.
  assert (calm other (Forall (λ e, ¬ deposits e))) as Hcalm by by apply calm_never.
  unfold fund_public_deployment. apply steps_clift_bind. intros minimum Hmin. apply steps_unless. intros Hamount.
  apply steps_clift_bind. intros token Htoken%ok_or_Ok. eapply steps_bind.
  { apply (steps_quiet _ _ other_guard) with (1 := once_signer); [|done].
    intros e (env & args & o & -> & Hw) (? & ? & ? & [= _ <- _] & Hs & _). congruence. }
  intros signer. apply steps_clift_bind. intros address [-> Hasked]%funding_address_Ok.
  eapply steps_bind; [apply steps_service|]. intros plan. cbv zeta.
  apply steps_pure. intros (s & s' & Hplan%prepare_deposit_amount). rewrite Hplan.
  set (P0 := λ log, _ ∧ has (imported signer) log).
  assert (calm other P0) as Hcalm0 by (apply calm_and; [done|apply calm_has]).
  eapply (steps_bind _ _ _ _ (λ _, P0)).
  { apply steps_if; intros _; [|by apply steps_ret]. eapply steps_conseq; [by apply steps_sign| done |by intros ? log []]. }
  intros ?. eapply steps_bind; [by apply steps_check_token|]. intros ?. set (P := λ log, P0 log ∧ _).
  assert (calm other P) as HcalmP.
  { intros log e (Hl & Hd & b & Hb & Hle) He. split; [by apply Hcalm0|]. split; [by apply has_app|].
    exists b. split; [by apply has_app|done]. }
  eapply steps_bind; [by apply steps_sign|]. intros ?.
  eapply (steps_bind _ _ _ _ (λ _ _, True)).
  { eapply steps_once; [apply once_signed| |done].
    intros log e [((Hl & Hi) & Hd & b & Hb & Hle) Ha] He _. split; [done|].
    apply minimum_initial_credits_Ok in Hmin as [Hcap ->]. apply Z.ltb_ge in Hamount.
    split; [done|]. split; [done|].
    by exists token, signer, b, (felt_as_bytes32 (dp_commitment plan)), (felt_array_argument (dp_zero_path plan)). }
  intros ?. eapply steps_bind; [apply (steps_wait_indexed _ (λ _, True)), calm_pure|]. intros ?.
  eapply (steps_bind _ _ _ _ (λ _ _, True)).
  { eapply steps_conseq; [apply (steps_quiet _ _ other_guard (λ _, True)) with (1 := once_expiry _ _); [|apply calm_pure]|done..].
    intros e He. eapply other_cast; [done|]. by left. }
  intros expiry_ts. eapply steps_bind; [apply steps_service|]. intros status. by apply steps_ret.
Qed.
End guard.

(** C25: the deposit is covered before it is signed. In every run of
    [fund_public_deployment], at most one deposit is signed, and before it: [cast]
    imported the signing key and reported its address, which is the one asked for,
    if any; the amount is at least twice the (nonzero) cap of a request; the token
    answered six decimals and a balance of the signer's address that covers the
    amount; and the signer's approval of that same amount for the vault succeeded. *)
Theorem deposit_is_covered config manifest requested amount skip_mint σ before e after :
  (fund_public_deployment config manifest requested amount skip_mint σ).1 = (before ++ e :: after)%list → deposits e →
  Forall (λ e, ¬ deposits e) before ∧ deposit_covered manifest requested amount before e.
Proof.
  intros Hr He. destruct (steps_funding manifest requested amount config skip_mint [] _ _ (Forall_nil_2 _)
    (run_of (fund_public_deployment config manifest requested amount skip_mint) σ)) as [Hg _].
  exact (Hg _ _ _ Hr He).
Qed.

(** ** What a finished funding has done *)

Section finished.
Context (config : AuthConfig) (manifest : DeploymentManifest) (requested : option string) (amount : Z).

(** From the terminal [σ] through the calls [log] to [σ']. *)
Definition funded (σ : CliState) (log : list CliEvent) (σ' : CliState) : Prop :=
  ∃ plan s signer expiry_ts status before deposit after,
    prepare_deposit config amount (service σ) = (Ok plan, s) ∧ dp_amount plan = amount ∧
    log = (before ++ deposit :: after)%list ∧ has (imported signer) before ∧ asked_address requested signer ∧
    signed_ok signer (deposit_args manifest (felt_as_bytes32 (dp_commitment plan)) (show_uint amount)
                        (felt_array_argument (dp_zero_path plan))) deposit ∧
    has (indexed manifest (dp_next_note_id plan)) after ∧ has (expiry_read manifest (dp_next_note_id plan) expiry_ts) after ∧
    ClientWallet.confirm_deposit config
      {| cd_secret := dp_secret plan; cd_note_id := dp_next_note_id plan; cd_amount := amount; cd_expiry_ts := expiry_ts |} s
      = (Ok status, service σ').

(** A run in which [m] succeeds. *)
Definition succeeds {A} (m : CM A) σ l a σ' : Prop := m σ = (l, (Ok a, σ')).
Lemma succeeds_bind {A B} (m : CM A) (f : A → CM B) σ l b σ' : succeeds (m ≫= f) σ l b σ' →
  ∃ a l1 l2 σ1, l = (l1 ++ l2)%list ∧ succeeds m σ l1 a σ1 ∧ succeeds (f a) σ1 l2 b σ'.
Proof.
  unfold succeeds, mbind, CM_bind. destruct (m σ) as [l1 [[a|e] σ1]]; [|done]. destruct (f a σ1) as [l2 [r σ2]] eqn:Hf.
  intros [= <- -> ->]. by exists a, l1, l2, σ1.
Qed.
Lemma succeeds_runs {A} (m : CM A) σ l a σ' : succeeds m σ l a σ' → runs m l (Ok a).
Proof. intros Hm. by exists σ, σ'. Qed.
(** [m] leaves the service of this process alone. *)
Definition apart {A} (m : CM A) : Prop := ∀ σ l a σ', succeeds m σ l a σ' → service σ' = service σ.
Lemma apart_bind {A B} (m : CM A) (f : A → CM B) : apart m → (∀ a, apart (f a)) → apart (m ≫= f).
Proof. intros Hm Hf σ l b σ' (a & l1 & l2 & σ1 & _ & Ha%Hm & Hb%Hf)%succeeds_bind. congruence. Qed.
Lemma apart_clift {A} (r : result string A) : apart (clift r).
Proof. by intros σ l a σ' [= _ _ <-]. Qed.
Lemma apart_emit e : apart (emit e).
Proof. by intros σ l a σ' [= _ _ <-]. Qed.
Lemma apart_cdraw {A} (f : CliWorld → A * CliWorld) : apart (cdraw f).
Proof. intros σ l a σ'. unfold succeeds, cdraw. destruct (f _). by intros [= _ _ <-]. Qed.
Hint Resolve apart_clift apart_emit apart_cdraw : core.
Ltac apart_auto :=
  repeat first
    [ solve [auto 1] | apply apart_clift | apply apart_bind; [|intros ?]
    | match goal with
      | |- apart (match ?x with _ => _ end) => destruct x
      | |- apart (if ?x then _ else _) => destruct x
      | |- apart (let '_ := ?x in _) => destruct x
      end ].
Lemma apart_signer : apart create_ephemeral_cast_signer.
Proof. unfold create_ephemeral_cast_signer, cast. cbv zeta. apart_auto. Qed.
Lemma apart_signed signer args : apart (run_cast_signed signer args).
Proof. unfold run_cast_signed, cast. apart_auto. Qed.
Lemma apart_check token address needed : apart (check_token manifest token address needed).
Proof. unfold check_token, read_erc20_u128, cast_output, cast. apart_auto. Qed.
Lemma apart_wait left url note_id target : apart (wait_indexed left url note_id target).
Proof. induction left as [|left IH]; cbn [wait_indexed]; unfold send, pause; apart_auto; exact IH. Qed.
Lemma apart_wait_for url note_id : apart (wait_for_indexed_note url note_id).
Proof. unfold wait_for_indexed_note. apply apart_wait. Qed.
Lemma wait_indexed_saw note_id l : runs (wait_for_indexed_note (dm_indexer_url manifest) note_id) l (Ok tt) →
  has (indexed manifest note_id) l.
Proof.
  unfold wait_for_indexed_note. intros Hr.
  destruct (steps_wait_indexed manifest requested amount 40 (λ _, True) note_id (calm_pure _ _) [] l (Ok tt) I Hr) as [_ Hq].
  by destruct (Hq tt eq_refl).
Qed.
Lemma apart_expiry note_id : apart (read_note_expiry manifest note_id).
Proof. unfold read_note_expiry, cast_values, cast_output, cast. apart_auto. Qed.
(** The one call of a program that succeeds. *)
Lemma succeeds_once {A} (m : CM A) F R σ l a σ' : once m F R → succeeds m σ l a σ' → ∃ e, l = [e] ∧ R a e.
Proof. intros Hm [[_ [x [=]]]|(e & -> & _ & Ha)]%succeeds_runs%Hm. exists e. split; [done|by apply Ha]. Qed.
Lemma succeeds_clift {A B} (r : result string A) (f : A → CM B) σ l b σ' :
  succeeds (clift r ≫= f) σ l b σ' → ∃ a, r = Ok a ∧ succeeds (f a) σ l b σ'.
Proof. intros (a & l1 & l2 & σ1 & -> & [= <- -> <-] & Hf)%succeeds_bind. by exists a. Qed.
Lemma succeeds_service {A B} (m : M A) (f : A → CM B) σ l b σ' :
  succeeds (run_service m ≫= f) σ l b σ' →
  ∃ a s, m (service σ) = (Ok a, s) ∧ succeeds (f a) {| service := s; cli_world := cli_world σ |} l b σ'.
Proof.
  intros (a & l1 & l2 & σ1 & -> & Hm & Hf)%succeeds_bind. unfold succeeds, run_service in Hm.
  destruct (m (service σ)) as [[a'|e] s]; [|done]. injection Hm as <- -> <-. by exists a, s.
Qed.
(** A part of a run that leaves the service alone. *)
Lemma succeeds_apart {A B} (m : CM A) (f : A → CM B) σ l b σ' : apart m → succeeds (m ≫= f) σ l b σ' →
  ∃ a l1 l2 σ1, l = (l1 ++ l2)%list ∧ succeeds m σ l1 a σ1 ∧ service σ1 = service σ ∧ succeeds (f a) σ1 l2 b σ'.
Proof. intros Hm (a & l1 & l2 & σ1 & -> & Ha & Hf)%succeeds_bind. exists a, l1, l2, σ1. by pose proof (Hm _ _ _ _ Ha). Qed.
Lemma has_single (F : CliEvent → Prop) e : F e → has F [e].
Proof. intros HF. exists e. split; [by left|done]. Qed.
Lemma has_right (F : CliEvent → Prop) l l' : has F l' → has F (l ++ l')%list.
Proof. intros (e & He & HF). exists e. split; [apply elem_of_app; by right|done]. Qed.

(** From the deposit on. *)
Lemma deposited_confirms plan signer σ l σ' :
  succeeds (_ ← run_cast_signed signer (deposit_args manifest (felt_as_bytes32 (dp_commitment plan)) (show_uint (dp_amount plan))
                                          (felt_array_argument (dp_zero_path plan)));
            _ ← wait_for_indexed_note (dm_indexer_url manifest) (dp_next_note_id plan);
            expiry_ts ← read_note_expiry manifest (dp_next_note_id plan);
            _ ← run_service (ClientWallet.confirm_deposit config
                  {| cd_secret := dp_secret plan; cd_note_id := dp_next_note_id plan; cd_amount := dp_amount plan;
                     cd_expiry_ts := expiry_ts |});
            mret tt) σ l tt σ' →
  ∃ expiry_ts status deposit after, l = deposit :: after
    ∧ signed_ok signer (deposit_args manifest (felt_as_bytes32 (dp_commitment plan)) (show_uint (dp_amount plan))
                          (felt_array_argument (dp_zero_path plan))) deposit
    ∧ has (indexed manifest (dp_next_note_id plan)) after ∧ has (expiry_read manifest (dp_next_note_id plan) expiry_ts) after
    ∧ ClientWallet.confirm_deposit config
        {| cd_secret := dp_secret plan; cd_note_id := dp_next_note_id plan; cd_amount := dp_amount plan;
           cd_expiry_ts := expiry_ts |} (service σ) = (Ok status, service σ').
Proof.
  intros (? & l1 & l2 & σ1 & -> & Hdep & Hs1 & Hr)%succeeds_apart; [|apply apart_signed].
  eapply succeeds_once in Hdep as (deposit & -> & Hdep); [|apply once_signed].
  apply succeeds_apart in Hr as ([] & lw & l3 & σ2 & -> & Hwait & Hs2 & Hr); [|apply apart_wait_for].
  apply succeeds_runs, wait_indexed_saw in Hwait as Hi.
  apply succeeds_apart in Hr as (expiry_ts & le & l4 & σ3 & -> & Hexp & Hs3 & Hr); [|apply apart_expiry].
  eapply succeeds_once in Hexp as (e & -> & Hexp); [|apply once_expiry].
  apply succeeds_service in Hr as (status & s' & Hc & Hr). injection Hr as <- <-.
  exists expiry_ts, status, deposit, (lw ++ [e])%list. rewrite app_nil_r. split; [done|]. split; [exact Hdep|].
  split; [by apply has_app|]. split; [by apply has_right, has_single|].
  rewrite <- Hs1, <- Hs2, <- Hs3. exact Hc.
Qed.
End finished.

(** C26: funding that succeeds leaves a usable note. The daemon's service drew up one
    plan for the amount, from the state it was in; a deposit of the amount with that
    plan's commitment and path was signed, with the imported key of the address asked
    for, and succeeded; after it the indexer served a tree past the plan's note and
    the vault answered the note's expiry; and from the state the plan left it in the
    service accepted exactly that note: the plan's own secret, its id, the amount and
    that expiry, which is the state the command ends with. *)
Theorem funding_confirms_deposit config manifest requested amount skip_mint σ :
  let run := fund_public_deployment config manifest requested amount skip_mint σ in
  run.2.1 = Ok tt → funded config manifest requested amount σ run.1 run.2.2.
Proof.
  intros run Hok. assert (succeeds (fund_public_deployment config manifest requested amount skip_mint) σ run.1 tt run.2.2) as Hr.
  { unfold succeeds. fold run. by destruct run as [l [r σ']]; cbn in Hok |- *; rewrite Hok. }
  clearbody run. clear Hok. set (log := run.1) in *. set (σ' := run.2.2) in *. clearbody log σ'. clear run.
  unfold fund_public_deployment in Hr. apply succeeds_clift in Hr as (minimum & _ & Hr).
  apply succeeds_apart in Hr as (? & l1 & l2 & σ1 & -> & Hl1 & Hs1 & Hr); [|by destruct (_ <? _)%Z; apply apart_clift].
  apply succeeds_clift in Hr as (token & _ & Hr).
  apply succeeds_apart in Hr as (signer & l3 & l4 & σ2 & -> & Hsign & Hs2 & Hr); [|apply apart_signer].
  eapply succeeds_once in Hsign as (e & -> & Hi); [|apply once_signer].
  apply succeeds_clift in Hr as (address & [_ Ha]%funding_address_Ok & Hr).
  apply succeeds_service in Hr as (plan & s & Hplan & Hr).
  apply succeeds_apart in Hr as (? & l5 & l6 & σ3 & -> & _ & Hs3 & Hr);
    [|by destruct (_ && _); [apply apart_signed|apply apart_clift]].
  apply succeeds_apart in Hr as (? & l7 & l8 & σ4 & -> & _ & Hs4 & Hr); [|apply apart_check].
  apply succeeds_apart in Hr as (? & l9 & l10 & σ5 & -> & _ & Hs5 & Hr); [|apply apart_signed].
  apply (deposited_confirms config manifest requested amount) in Hr as (expiry_ts & status & deposit & after & -> & Hd & Hx & He & Hc).
  assert (dp_amount plan = amount) as Hamount by (eapply prepare_deposit_amount; exact Hplan). rewrite Hamount in *.
  exists plan, s, signer, expiry_ts, status, (l1 ++ [e] ++ l5 ++ l7 ++ l9)%list, deposit, after.
  split; [rewrite <- Hs1, <- Hs2; exact Hplan|]. split; [exact Hamount|]. split; [by rewrite <- !app_assoc|].
  split; [by apply has_right, has_app, has_single|]. do 4 (split; [assumption|]).
  cbn [service] in Hs3. rewrite <- Hs3, <- Hs4, <- Hs5. exact Hc.
Qed.

(** ** Nothing is signed unless asked for *)

Definition no_cast_call (e : CliEvent) : Prop := match e with Cast _ _ _ => False | _ => True end.

(** `zkapi client` without [--fund-with-cast] (or with [--no-fund]) never
    starts [cast]: no key is imported and nothing is signed or read from the chain,
    in every run. *)
Theorem client_signs_only_on_request epoch_root cli deployment address listen state_dir credits no_fund fund_with_cast
    skip_mint mode σ :
  no_fund || negb fund_with_cast = true →
  Forall no_cast_call
    (run_command epoch_root cli (CmdClient deployment address listen state_dir credits no_fund fund_with_cast skip_mint mode) σ).1.
Proof.
  intros Hno. set (m := run_command _ _ _). assert (only no_cast_call m) as Honly; [|exact (Honly _ _ (run_of m σ))].
  unfold m. cbn [run_command]. rewrite Hno. unfold configure_client_prover_threads, run_one_command_client.
  cbn [oc_no_fund]. unfold ensure_private_state_dir, ensure_funded_note, start_service, run_daemon.
  by only_auto.
Qed.
End funding.
