(* ===== verification/CliReads.v ===== *)
(** * What the commands read from outside

    The words of the vault's getters, the bounded waits for a status and for the
    indexer, and the name of a deployment as a directory. *)

From Stdlib Require Import ZArith Lia Ascii.
From stdpp Require Import base tactics decidable numbers list gmap strings.
From S2P Require Import Errors Store StoreTheory TreeMirror TreeMirrorTheory Poller PollerTheory Router IndexerServer.
From S2P Require Import Prelude Text Float64 Json Http Types AuthScheme Config ClientTypes Compat ClientHelpers ClientWorld.
From S2P Require Import IndexerApi.
From S2P Require Import ClientWallet DirectLease ClientService ClientRoutes Cli CliWorld CliRun CliTheory CliProps.

Local Open Scope string_scope.

(** ** Words *)

Lemma show_digits_nonempty fuel n acc : acc ≠ "" → show_digits fuel n acc ≠ "".
Proof.
  revert n acc. induction fuel as [|fuel IH]; intros n acc Ha; cbn [show_digits]; [done|].
  case_match; [done|by apply IH].
Qed.
Lemma show_uint_nonempty n : show_uint n ≠ "".
Proof. unfold show_uint. cbn [show_digits]. case_match; [done|by apply show_digits_nonempty]. Qed.
Lemma show_uint_digits n p : (0 ≤ n)%Z → parse_digits 10 n 0 p = None → strip_prefix p (show_uint n) = None.
Proof.
  intros Hn Hp. destruct (strip_prefix p (show_uint n)) as [r|] eqn:Hs; [|done]. apply strip_prefix_spec in Hs.
  apply show_uint_parse in Hn. rewrite Hs in Hn. exfalso. revert Hn Hp. clear. generalize 0%Z as acc.
  induction p as [|c p IH]; intros acc; [done|]. rewrite str_app_cons. cbn [parse_digits].
  destruct (digit_value 10 c); [|done]. cbn [mbind option_bind]. case_match; [apply IH|done].
Qed.
Lemma show_uint_u64 n : in_u64 n → parse_u64 (show_uint n) = Some n.
Proof.
  intros [Hn Hm]. unfold parse_u64, parse_uint. rewrite (show_uint_digits n "+") by (done || reflexivity).
  cbn [default id]. rewrite (proj2 (String.eqb_neq _ _)) by apply show_uint_nonempty.
  eapply parse_digits_mono; [exact Hm|by apply show_uint_parse].
Qed.
Lemma show_hex_digits_nonempty fuel n acc : acc ≠ "" → show_hex_digits fuel n acc ≠ "".
Proof.
  revert n acc. induction fuel as [|fuel IH]; intros n acc Ha; cbn [show_hex_digits]; [done|].
  case_match; [done|by apply IH].
Qed.
Lemma show_hex_u64 n : in_u64 n → parse_uint 16 u64_MAX (show_hex n) = Some n.
Proof.
  intros [Hn Hm]. destruct (show_hex_number n Hn) as [Hv Hs].
  rewrite parse_uint_hex; [by rewrite Hv, (proj2 (Z.leb_le _ _))|done| |done].
  unfold show_hex. cbn [show_hex_digits]. case_match; [done|by apply show_hex_digits_nonempty].
Qed.

Lemma word_of_str parse_error print label s :
  value_as_u64 parse_error print (Some (Str s)) label =
  match strip_prefix "0x" s with
  | Some hex => ok_or ("invalid " +:+ label +:+ " " +:+ s +:+ ": " +:+ parse_error hex) (parse_uint 16 u64_MAX hex)
  | None => ok_or ("invalid " +:+ label +:+ " " +:+ s +:+ ": " +:+ parse_error s) (parse_u64 s)
  end.
Proof. done. Qed.

(** a word of the vault is read exactly, however [cast --json] prints it: as a
    JSON number, as a decimal string, as a hexadecimal string with [0x], a value of
    64 bits comes back unchanged; and what is read always fits in 64 bits. *)
Theorem vault_word_roundtrip parse_error print label v n :
  let read := λ v, value_as_u64 parse_error print v label in
  (in_u64 n → read (Some (Num (PosInt n))) = Ok n ∧ read (Some (Str (show_uint n))) = Ok n ∧
     read (Some (Str ("0x" +:+ show_hex n))) = Ok n) ∧
  (read v = Ok n → in_u64 n).
Proof.
  split.
  - intros Hn. pose proof Hn as [Hlo Hhi]. repeat split.
    + cbn. by rewrite (proj2 (Z.leb_le _ _)), (proj2 (Z.leb_le _ _)).
    + rewrite word_of_str, (show_uint_digits n "0x"), show_uint_u64; [done..|]. vm_compute. by destruct n.
    + by rewrite word_of_str, (proj2 (strip_prefix_spec _ _ (show_hex n))), show_hex_u64.
  - cbn beta zeta. unfold value_as_u64. intros (w & Hw & Hr)%bind_Ok. destruct (as_u64 w) as [k|] eqn:Hk.
    + injection Hr as <-. destruct w as [| |[]| | |]; try done. cbn in Hk. case_match; [|done]. injection Hk as <-.
      unfold in_u64. lia.
    + destruct (as_str w) as [text|]; [|done].
      assert (∀ radix body, (0 ≤ radix)%Z → parse_uint radix u64_MAX body = Some n → in_u64 n) as Hin
        by (intros radix body Hx; by apply parse_uint_range).
      destruct (strip_prefix "0x" text); apply ok_or_Ok in Hr; by eapply Hin in Hr.
Qed.

(** ** Names *)

Lemma concat_forall f (l : list string) : Forall (λ s, str_forall f s = true) l → str_forall f (String.concat "" l) = true.
Proof.
  induction 1 as [|s [|t l] Hs Hl IH]; [done|done|]. change (String.concat "" (s :: t :: l)) with (s +:+ String.concat "" (t :: l)).
  by rewrite str_forall_app, Hs, IH.
Qed.

(** the state directory of a deployment is one name under the state root,
    whatever its id: a manifest cannot lead [zkapi client] out of that root, since
    the name has only letters, digits, [-] and [_]. *)
Theorem state_dir_is_contained xdg_state_home home :
  ∃ root, ∀ deployment_id, ∃ name,
    default_client_state_dir xdg_state_home home deployment_id = join root name ∧ str_forall safe_char name = true.
Proof.
  eexists. intros deployment_id. exists (safe_id deployment_id). split; [reflexivity|].
  apply concat_forall, Forall_map, Forall_true. intros [whole [|c [|c' s]]]; cbn; [done| |done].
  destruct (safe_char c) eqn:Hc; cbn; by rewrite ?Hc.
Qed.
(** Ids that differ in replaced characters share a directory. *)
Lemma state_dirs_collide home :
  default_client_state_dir None home "zk.api" = default_client_state_dir None home "zk/api" ∧ "zk.api" ≠ "zk/api".
Proof. done. Qed.

(** ** The wait for a status *)

Section wait.
Context `{!FeltOps, !WireTypes, !ClientTypes, !JsonText, !SerdeText, !WalletOps, !ClientEnv, !ClientWire, !CliTypes,
          !CliEnv}.
Context (manifest : DeploymentManifest) (n expected : Z).

Definition is_cast (e : CliEvent) : bool := match e with Cast _ _ _ => true | _ => false end.

Lemma status_read_Ok s e : status_read manifest n s e →
  ∀ l r, runs (read_note_status manifest n) l r → l = [e] → r = Ok s.
Proof.
  intros (values & (stdout & (output & -> & Hs & <-) & Hv) & Hw) l r (σ & σ' & Hr) ->. revert Hr.
  unfold read_note_status, read_cast_json_values, cast_output, cast, cdraw, emit, mbind, CM_bind.
  destruct (cli_cast (cli_world σ) [] _) as [outcome w]. cbn. destruct outcome as [o|x]; cbn; [|by intros [=]].
  destruct (co_success o) eqn:Ho; cbn.
  - unfold cast_values. destruct (from_str as_array (co_stdout o)) eqn:Hf; cbn; intros [= -> <- _]; congruence.
  - intros [= -> _ _]. congruence.
Qed.

Lemma wait_steps left last l r : runs (wait_note_status left manifest n expected last) l r →
  (length (List.filter is_cast l) ≤ left)%nat ∧ (r = Ok tt ↔ Exists (status_read manifest n expected) l).
Proof.
  revert last l r. induction left as [|left IH]; intros last l r; cbn [wait_note_status].
  { intros [-> ->]%runs_bail. split; [done|]. split; [done|]. by intros []%Exists_nil. }
  intros [(x & _ & (r' & [=] & _)%runs_ctry)|(read & l1 & l2 & -> & (r' & [= <-] & Hread)%runs_ctry & Hr)]%runs_bind.
  pose proof (λ s e, status_read_Ok s e) as Hok.
  assert (length (List.filter is_cast l1) ≤ 1)%nat as Hone.
  { apply once_status in Hread as [[-> _]|(e & -> & (outcome & ->) & _)]; cbn; lia. }
  assert (Exists (status_read manifest n expected) l1 ↔ read = Ok expected) as Hex.
  { split.
    - intros Hex. pose proof Hread as [[-> _]|(e & -> & _)]%once_status; [by apply Exists_nil in Hex|].
      apply Exists_cons in Hex as [He|He]; [|by apply Exists_nil in He]. by eapply status_read_Ok.
    - intros ->. apply once_status in Hread as [[_ [x [=]]]|(e & -> & _ & He)]. apply Exists_cons. left. by apply He. }
  assert (∀ last l2, runs (_ ← pause 1000; wait_note_status left manifest n expected last) l2 r → read ≠ Ok expected →
    (length (List.filter is_cast (l1 ++ l2)%list) ≤ S left)%nat ∧
    (r = Ok tt ↔ Exists (status_read manifest n expected) (l1 ++ l2)%list)) as Hagain.
  { intros last' l2' [(x & _ & [_ [=]]%runs_emit)|(u & l3 & l4 & -> & [-> _]%runs_emit & Hw)]%runs_bind Hne.
    destruct (IH _ _ _ Hw) as [Hlen Hiff]. rewrite List.filter_app, length_app, Exists_app, Exists_app, Exists_cons, Exists_nil.
    cbn. split; [lia|]. rewrite Hiff. split; [by auto|]. intros [?|[[He|[]]|?]]; [tauto| |done].
    destruct He as (v & (o & (x & [=] & _) & _) & _). }
  destruct read as [s|x]; [|by eapply Hagain; [exact Hr|]]. destruct (Z.eqb_spec s expected) as [->|Hne].
  - apply runs_ret in Hr as [-> ->]. rewrite app_nil_r. split; [lia|]. rewrite Hex. done.
  - eapply Hagain; [exact Hr|]. by intros [= ->].
Qed.

(** The wait after a transaction ends and is exact: it reads the vault at most
    twenty times, and succeeds exactly when one of the answers showed the note in
    the expected status. *)
Theorem wait_for_status_exact σ :
  let run := wait_for_note_status manifest n expected σ in
  (length (List.filter is_cast run.1) ≤ 20)%nat ∧
  (run.2.1 = Ok tt ↔ Exists (status_read manifest n expected) run.1).
Proof. cbv zeta. unfold wait_for_note_status. exact (wait_steps 20 None _ _ (run_of _ σ)). Qed.
End wait.

(** ** Beside the indexer *)

Section indexed_wait.
Context `{!FeltOps, !MerkleOps, !MerkleLaws, !WireTypes, !WireOps, !JsonText, !SerdeText, !PollerOps, !PollerLaws}.
Context `{!ClientTypes, !WalletOps, !ClientEnv, !ClientWire, !CliTypes, !CliEnv, !ReplyLaws, !Axum, !AxumLaws}.
Context (chain : Z → list RpcLog) (indexer : IndexerConfig) (ticks : list Tick) (read_fails : bool) (d : Poller.Disk).

(** A wait that succeeds read an id that is large enough. *)
Lemma wait_indexed_read left url note_id target l : runs (wait_indexed left url note_id target) l (Ok tt) →
  ∃ answer next, Sent (get url) answer ∈ l ∧ indexed_next_note_id answer = Some next ∧ (target ≤ next)%Z.
Proof.
  revert l. induction left as [|left IH]; intros l; cbn [wait_indexed]; [by intros [_ [=]]%runs_bail|].
  intros (answer & l1 & l2 & -> & (answer' & -> & [= <-])%runs_send & Hr)%runs_bind_ok.
  assert (∀ l2, runs (_ ← pause 3000; wait_indexed left url note_id target) l2 (Ok tt) →
    ∃ answer' next, Sent (get url) answer' ∈ ([Sent (get url) answer] ++ l2)%list
      ∧ indexed_next_note_id answer' = Some next ∧ (target ≤ next)%Z) as Hagain.
  { intros l3 (u & l4 & l5 & -> & _ & (answer' & next & Hin & Hrest)%IH)%runs_bind_ok. exists answer', next.
    split; [|done]. apply elem_of_app. right. apply elem_of_app. by right. }
  destruct (indexed_next_note_id answer) as [next|] eqn:Hn; [|by apply Hagain].
  destruct (Z.leb_spec target next); [|by apply Hagain]. exists answer, next. split; [by left|done].
Qed.

Lemma wait_indexed_deposited left url note_id l :
  polls_vault chain indexer ticks d → in_u32 note_id → note_id ≠ u32_MAX →
  runs (wait_indexed left (url +:+ "/v1/tree/next-note-id") note_id (saturating_add u32_MAX note_id 1)) l (Ok tt) →
  (∀ path response, Sent (get (url +:+ path)) (Ok response) ∈ l → indexed indexer ticks read_fails d path response) →
  ∃ es i note, moment chain indexer ticks es ∧ vault_of es !! i = Some note ∧ (note_id ≤ i)%Z.
Proof.
  intros Hpolls Hid Hlast (answer & next & Hin & Hnext & Htarget)%wait_indexed_read Hserved. unfold indexed_next_note_id in Hnext.
  destruct answer as [response|]; [|done]. cbn in Hnext. unfold error_for_status in Hnext.
  destruct (is_http_error (http_status response)) eqn:He; [done|]. cbn in Hnext.
  destruct (json_body next_note_id_of_value response) as [next'|] eqn:Hj; [|done]. injection Hnext as ->.
  apply (read_next_note_id chain indexer ticks read_fails d Hpolls) in Hj as (Hn & es & Hes & _ & [[-> _]|[note Hnote]]);
    [..|by apply Hserved|done]; unfold in_u32, saturating_add in *.
  - lia.
  - exists es, (next - 1)%Z, note. split; [done|]. split; [done|lia].
Qed.

Lemma wait_run_deposited left url note_id σ :
  polls_vault chain indexer ticks d → in_u32 note_id → note_id ≠ u32_MAX →
  let run := wait_indexed left (url +:+ "/v1/tree/next-note-id") note_id (saturating_add u32_MAX note_id 1) σ in
  (∀ path response, Sent (get (url +:+ path)) (Ok response) ∈ run.1 → indexed indexer ticks read_fails d path response) →
  run.2.1 = Ok tt → ∃ es i note, moment chain indexer ticks es ∧ vault_of es !! i = Some note ∧ (note_id ≤ i)%Z.
Proof.
  intros Hpolls Hid Hlast run Hserved Hok. eapply wait_indexed_deposited; [done..| |exact Hserved].
  rewrite <-Hok. apply run_of.
Qed.

(** A wait for the deposit that succeeds saw it. When the manifest's
    [indexer_url] is an indexer that follows the vault through a node that tells the
    truth or fails, and the note's id is not the last [u32], the vault has a note of
    that id or a later one, after an initial part of the contract's events. *)
Theorem indexed_note_deposited url note_id σ :
  polls_vault chain indexer ticks d → in_u32 note_id → note_id ≠ u32_MAX →
  let run := wait_for_indexed_note url note_id σ in
  (∀ path response, Sent (get (trim_slashes url +:+ path)) (Ok response) ∈ run.1 → indexed indexer ticks read_fails d path response) →
  run.2.1 = Ok tt → ∃ es i note, moment chain indexer ticks es ∧ vault_of es !! i = Some note ∧ (note_id ≤ i)%Z.
Proof.
  intros Hpolls Hid Hlast. exact (wait_run_deposited 40 (trim_slashes url) note_id σ Hpolls Hid Hlast).
Qed.
End indexed_wait.
