(* ===== verification/CliWitnesses.v ===== *)
(** * The commands' theorems at a concrete terminal

    Instances of the commands' parameters: a local daemon with note 7, a vault that
    closes the note when a transaction is sent, a token with six decimals, and the
    service of [ClientToy]. Each theorem with hypotheses is applied at a run of them,
    and runs show behaviour the code's help texts do not mention. *)

From Stdlib Require Import ZArith Lia Ascii.
From stdpp Require Import base tactics decidable numbers list gmap strings.
From S2P Require Import Prelude Text Float64 Json Http Types AuthScheme Config Store Toy ClientTypes Compat ClientHelpers.
From S2P Require Import ClientWorld ClientWallet DirectLease ClientService ClientRoutes ClientToy.
From S2P Require Import Cli CliWorld CliRun CliTheory CliProps CliFunding CliReads.

Local Open Scope string_scope.

#[export] Instance toy_cli_types : CliTypes := {|
  groth16_bn254 := (tt : @ProofBackendWire toy_types);
  felt_bytes := λ _, be_bytes 32 192;
  withdrawal_protocol_version := λ _, 2%Z;
  withdrawal_chain_id := λ _, 1%Z;
  withdrawal_contract_address := λ _, ("0xc0" : @Felt252 toy_felt);
  withdrawal_active_root := λ _, ("root" : @Felt252 toy_felt);
  withdrawal_state_signing_key_x := λ _, ("kx" : @Felt252 toy_felt);
  withdrawal_state_signing_key_y := λ _, ("ky" : @Felt252 toy_felt);
  withdrawal_clearance_signing_key_x := λ _, ("kx" : @Felt252 toy_felt);
  withdrawal_clearance_signing_key_y := λ _, ("ky" : @Felt252 toy_felt);
  withdrawal_final_balance := λ _, 1500000%Z;
  withdrawal_withdrawal_nullifier := λ _, ("n" : @Felt252 toy_felt);
  withdrawal_has_clearance := λ _, true;
  withdrawal_withdrawal_tag := λ _, ("t" : @Felt252 toy_felt);
  public_inputs_of_value := λ v,
    m ← as_object v;
    note_id ← field_req as_u32 "note_id" m;
    destination ← field_req as_str "destination" m;
    Some ({| ti_note_id := note_id; ti_destination := destination |} : @WithdrawalPublicInputsV2 _ toy_client_types);
  proof_wire_of_value := λ v,
    proof ← as_str v; Some {| backend := (tt : @ProofBackendWire toy_types); Types.proof := proof |};
  base64_standard_decode := λ s, Ok s;
  utf8_error := λ s, "not UTF-8: " +:+ s;
  digit_error := λ s, "not a number: " +:+ s;
|}.

(** [kw_sent] tells whether a transaction was sent; [kw_note] is the vault's
    answer until then; [kw_next] the indexer's answer for its next note. *)
Record ToyCliWorld := { kw_note : string; kw_next : string; kw_sent : bool }.

Definition LOCAL : string := "http://127.0.0.1:11434".
Definition toy_page (next : string) (url : string) : result string HttpResponse :=
  if String.eqb url "https://deployment" then http_reply 200 "manifest"
  else if String.eqb url (LOCAL +:+ "/funding/config") then http_reply 200 "funding"
  else if String.eqb url (LOCAL +:+ "/wallet/status") then http_reply 200 "wallet"
  else if String.eqb url (LOCAL +:+ "/wallet/settle") then http_reply 200 "wallet"
  else if String.eqb url (LOCAL +:+ "/wallet/withdraw") then http_reply 200 "plan"
  else if String.eqb url (LOCAL +:+ "/wallet/reset") then http_reply 200 "empty wallet"
  else if String.eqb url "http://indexer/v1/tree/next-note-id" then http_reply 200 next
  else Err "offline".
Definition cast_ok (stdout : string) : result string CastOutput :=
  Ok {| co_success := true; co_stdout := stdout; co_stderr := "" |}.
Definition toy_cast (w : ToyCliWorld) (args : list string) : result string CastOutput * ToyCliWorld :=
  let mentions s := existsb (String.eqb s) args in
  if mentions "send" then (cast_ok "", {| kw_note := kw_note w; kw_next := kw_next w; kw_sent := true |})
  else if mentions "import" then (cast_ok ("Address: 0x3132333435363738393031323334353637383930"), w)
  else if mentions "decimals()(uint8)" then (cast_ok "6", w)
  else if mentions "balanceOf(address)(uint256)" then (cast_ok "5000000 [5e6]", w)
  else if mentions NOTES_SIGNATURE then (cast_ok (if kw_sent w then "closed note" else kw_note w), w)
  else (cast_ok "", w).

#[export] Instance toy_cli_env : CliEnv := {|
  CliWorld := ToyCliWorld;
  cli_http := λ w request, (toy_page (kw_next w) (http_url request), w);
  cli_cast := λ w _ args, toy_cast w args;
  cli_read := λ w _, (Err "no such file", w);
  cli_mkdir := λ w _, (None, w);
  cli_tempdir := λ w, (Ok "tmp", w);
  cli_files := λ w _, (Ok ["tmp/zkapi-funding"], w);
  cli_random := λ w, (pad_zeros 32 "", w);
  cli_env := λ _ name, if String.eqb name "HOME" then Some "home" else None;
  cli_run_server := λ w _, (None, w);
  cli_run_indexer := λ w _, (None, w);
  cli_run_daemon := λ w _, (None, w);
  cli_proof_setup := λ w _, (None, w);
  cli_public_key := λ _, Null;
  cli_prover_threads := λ w, (None, w);
  parse_url := λ url,
    if starts_with LOCAL url then
      Ok {| url_scheme := "http"; url_host := Some "127.0.0.1"; url_username := ""; url_password := None;
            url_with_path := λ path, LOCAL +:+ path |}
    else Err "relative URL without a base";
|}.
#[export] Instance toy_url_laws : UrlLaws.
Proof.
  split. intros url parts p q Hs _ _ _. cbn in Hs. destruct (starts_with LOCAL url); [|done].
  injection Hs as <-. cbn. apply (str_app_inj_l LOCAL).
Qed.

(** ** States *)

(** The service of a one-command client without a note. *)
Definition toy_deposit_services (request : HttpRequest) : result string HttpResponse :=
  let url := http_url request in
  if String.eqb url "http://indexer/v1/tree/root" then http_reply 200 "root"
  else if String.eqb url "http://indexer/v1/tree/next-note-id" then http_reply 200 "next 7"
  else if String.eqb url "http://indexer/v1/tree/notes/7/zero-path" then http_reply 200 "path"
  else Err "offline".
Definition toy_service : State := {|
  direct_lease := None; prepared_withdrawal := None; disk := {| files := ∅; dirs := {["state"]} |};
  world := {| cw_now := 1000; cw_faults := []; cw_serve := toy_deposit_services |}; instant := 0;
  events := []; own := [] |}.
(** A terminal before a vault where the note is as the document [note] says, and
    an indexer that is at the document [next]. *)
Definition terminal_at (next note : string) : CliState :=
  {| service := toy_service; cli_world := ({| kw_note := note; kw_next := next; kw_sent := false |} : CliWorld) |}.
Definition terminal : string → CliState := terminal_at "next 8".

Definition toy_manifest : result string DeploymentManifest := from_str manifest_of_value "manifest".
Definition mutual_close (dry_run : bool) : ManagedWithdrawalOptions := {|
  mw_deployment := "https://deployment"; mw_client_url := LOCAL;
  mw_destination := Some "0x3132333435363738393031323334353637383930"; mw_mode := ArgMutual; mw_note_id := None;
  mw_dry_run := dry_run |}.
Definition finalize_note : ManagedWithdrawalOptions := {|
  mw_deployment := "https://deployment"; mw_client_url := LOCAL; mw_destination := None; mw_mode := ArgFinalizeEscape;
  mw_note_id := Some 7%Z; mw_dry_run := false |}.

(** ** Finding a call in a run *)

Lemma split_log (f : CliEvent → bool) (l : list CliEvent) : existsb f l = true →
  ∃ before e after, l = (before ++ e :: after)%list ∧ f e = true.
Proof. intros (e & (before & after & ->)%in_split & He)%existsb_exists. by exists before, e, after. Qed.
Lemma is_ok_inv {E A} (r : result E A) : is_ok r = true → ∃ a, r = Ok a.
Proof. destruct r as [a|]; [by exists a|done]. Qed.

Definition is_reset (e : CliEvent) : bool :=
  match e with
  | Sent {| http_method := m; http_url := u; http_bearer := None; http_headers := []; http_query := [];
            http_body := NoBody |} _ => String.eqb m "POST" && String.eqb u (LOCAL +:+ "/wallet/reset")
  | _ => false
  end.
Lemma is_reset_resets options e : mw_client_url options = LOCAL → is_reset e = true → resets options e.
Proof.
  intros Hu. destruct e as [[m u [|] [|] [|] []] answer| | | | | |]; try done. cbn -[String.eqb].
  intros [->%String.eqb_eq ->%String.eqb_eq]%andb_true_iff.
  exists (LOCAL +:+ "/wallet/reset"), answer. rewrite Hu. split; [reflexivity|done].
Qed.
Definition is_send (e : CliEvent) : bool := match e with Cast _ (c :: _) _ => String.eqb c "send" | _ => false end.
Lemma is_send_sends e : is_send e = true → sends e.
Proof. destruct e as [|env [|c args] outcome| | | | |]; try done. intros ->%String.eqb_eq. by exists env, args, outcome. Qed.
Definition is_deposit (e : CliEvent) : bool :=
  is_send e && match e with Cast _ args _ => bool_decide (args !! 8%nat = Some DEPOSIT_SIGNATURE) | _ => false end.
Lemma is_deposit_deposits e : is_deposit e = true → deposits e.
Proof.
  intros [(env & args & outcome & ->)%is_send_sends Hs%bool_decide_eq_true]%andb_true_iff.
  by exists env, ("send" :: args)%list, outcome.
Qed.

(** ** Witnesses *)

Lemma wallet_reset_after_close_witness : ∃ manifest before e after,
  (run_managed_withdrawal (mutual_close false) (terminal "closed note")).1 = (before ++ e :: after)%list ∧
  resets (mutual_close false) e ∧
  ∃ n, has (status_read manifest n 3) before ∧ has (reports_note (mutual_close false) n) before.
Proof.
  assert (is_ok (load_deployment_manifest (mw_deployment (mutual_close false)) (terminal "closed note")).2.1 = true) as Hm by by vm_compute.
  apply is_ok_inv in Hm as [manifest Hm].
  assert (existsb is_reset (run_managed_withdrawal (mutual_close false) (terminal "closed note")).1 = true) as Hr by by vm_compute.
  apply split_log in Hr as (before & e & after & Hr & He).
  exists manifest, before, e, after. split; [exact Hr|]. apply (is_reset_resets (mutual_close false)) in He; [|reflexivity].
  split; [exact He|]. exact (proj2 (wallet_reset_after_close manifest (mutual_close false) _ _ _ _ Hm Hr He)).
Defined.

Lemma withdrawal_signs_checked_proof_witness : ∃ manifest before e after,
  (run_managed_withdrawal finalize_note (terminal "pending note")).1 = (before ++ e :: after)%list ∧
  sends e ∧ closes_note manifest finalize_note before e.
Proof.
  assert (is_ok (load_deployment_manifest (mw_deployment finalize_note) (terminal "pending note")).2.1 = true) as Hm by by vm_compute.
  apply is_ok_inv in Hm as [manifest Hm].
  assert (existsb is_send (run_managed_withdrawal finalize_note (terminal "pending note")).1 = true) as Hr by by vm_compute.
  apply split_log in Hr as (before & e & after & Hr & He).
  exists manifest, before, e, after. split; [exact Hr|]. apply is_send_sends in He. split; [exact He|].
  exact (proj2 (proj2 (withdrawal_signs_checked_proof manifest finalize_note _ _ _ _ Hm Hr He))).
Defined.

(** The funding of a note of two million credits. *)
Definition funding_run (manifest : DeploymentManifest) := fund_public_deployment (toy_client_config Proxy) manifest None 2000000 true.
Lemma deposit_is_covered_witness : ∃ manifest before e after,
  (funding_run manifest (terminal "pending note")).1 = (before ++ e :: after)%list ∧
  deposits e ∧ deposit_covered manifest None 2000000 before e.
Proof.
  assert (is_ok toy_manifest = true) as Hm by by vm_compute.
  assert (match toy_manifest with Ok manifest => existsb is_deposit (funding_run manifest (terminal "pending note")).1
                                | Err _ => false end = true) as Hr by by vm_compute.
  apply is_ok_inv in Hm as [manifest Hm]. rewrite Hm in Hr.
  apply split_log in Hr as (before & e & after & Hr & He). apply is_deposit_deposits in He.
  exists manifest, before, e, after. split; [exact Hr|]. split; [exact He|].
  exact (proj2 (deposit_is_covered _ manifest None 2000000 true _ _ _ _ Hr He)).
Defined.
Lemma funding_confirms_deposit_witness : ∃ manifest,
  let run := funding_run manifest (terminal "pending note") in
  funded (toy_client_config Proxy) manifest None 2000000 (terminal "pending note") run.1 run.2.2.
Proof.
  assert (is_ok toy_manifest = true) as Hm by by vm_compute.
  assert (match toy_manifest with Ok manifest => is_ok (funding_run manifest (terminal "pending note")).2.1
                                | Err _ => false end = true) as Hr by by vm_compute.
  apply is_ok_inv in Hm as [manifest Hm]. rewrite Hm in Hr. apply is_ok_inv in Hr as [[] Hr].
  exists manifest. exact (funding_confirms_deposit _ manifest None 2000000 true _ Hr).
Defined.

(** The default options. *)
Definition toy_cli : Cli := {|
  cli_state_dir := "state"; cli_protocol_server_url := "http://server"; cli_indexer_url := "http://indexer";
  cli_protocol_version := 2; cli_chain_id := 1; cli_contract_address := "0xc0"; cli_request_charge_cap := 1000000;
  cli_policy_charge_cap := 1000000; cli_policy_enabled := false; cli_auth_scheme := "state-anchor"; cli_models := [];
  cli_demo_rpc_url := None; cli_demo_billing_token_address := None; cli_demo_note_ttl_seconds := None;
  cli_trusted_epoch_roots := None; cli_proof_setup_dir := "setup"; cli_state_signing_key_x := "kx";
  cli_state_signing_key_y := "ky"; cli_clearance_signing_key_x := "kx"; cli_clearance_signing_key_y := "ky";
  cli_oa_verifier_url := "https://verifier"; cli_openrouter_inference_base := OPENROUTER;
  cli_require_oa_org_key_source := false |}.
Definition client_command (fund_with_cast : bool) : Commands :=
  CmdClient "https://deployment" None "127.0.0.1:11434" None 2000000 false fund_with_cast true ArgProxy.
Definition no_roots (v : Value) : option (@EpochRoots toy_felt toy_client_types) := None.
Lemma client_signs_only_on_request_witness :
  Forall no_cast_call (run_command no_roots toy_cli (client_command false) (terminal "pending note")).1 ∧
  existsb is_deposit (run_command no_roots toy_cli (client_command true) (terminal "pending note")).1 = true.
Proof.
  split; [|by vm_compute].
  exact (client_signs_only_on_request no_roots toy_cli "https://deployment" None "127.0.0.1:11434" None 2000000 false false
           true ArgProxy (terminal "pending note") eq_refl).
Defined.

Lemma vault_word_roundtrip_witness :
  value_as_u64 (λ s, s) (λ _, "?") (Some (Str ("0x" +:+ show_hex 255))) "word" = Ok 255%Z ∧ in_u64 255.
Proof.
  assert (in_u64 255) as Hin by (split; [lia|by vm_compute]). split; [|exact Hin].
  exact (proj2 (proj2 (proj1 (vault_word_roundtrip (λ s, s) (λ _, "?") "word" None 255) Hin))).
Defined.

(** ** Behaviour worth knowing *)

(** An empty option masks the secret of the environment. *)
Example empty_secret_masks_environment :
  resolve_secret (Some "") (Some "secret") = None ∧ resolve_secret None (Some "secret") = Some "secret".
Proof. done. Qed.

(** The secret of a note lives in the process until the daemon confirms the note:
    when the indexer does not show the deposit within the forty reads, it was
    signed, and the wallet directory holds nothing. *)
Definition deposit_lost (manifest : DeploymentManifest) : bool :=
  let '(log, (r, σ)) := funding_run manifest (terminal_at "next 7" "pending note") in
  existsb is_deposit log && negb (is_ok r) && bool_decide (files (disk (service σ)) = ∅).
Example deposit_without_secret : match toy_manifest with Ok manifest => deposit_lost manifest | Err _ => false end = true.
Proof. by vm_compute. Qed.
