(* ===== verification/ApiWitnesses.v ===== *)
(** * The daemon, the command line and the server beside a concrete indexer *)

From Stdlib Require Import ZArith Lia Ascii.
From stdpp Require Import base tactics decidable numbers list gmap fin_maps strings.
From S2P Require Import Prelude Text Float64 Json Http Types AuthScheme Errors Config Store StoreTheory Toy.
From S2P Require Import TreeMirror TreeMirrorTheory Poller PollerTheory Router IndexerServer IndexerWitnesses.
From S2P Require Import ClientTypes Compat ClientHelpers ClientWorld ClientWallet ClientToy.
From S2P Require Import DirectLease ClientService ClientRoutes Cli CliWorld CliReads CliWitnesses IndexerApi.

Local Open Scope string_scope.

(** The codec and the services of the indexer's node. *)
#[local] Existing Instance node_json.
#[local] Existing Instance node_serde.

#[export] Instance HttpResponse_eq_dec : EqDecision HttpResponse.
Proof. solve_decision. Defined.

Lemma felts_flat (l : list (@Felt252 toy_felt)) : Forall (λ v, ∃ s, v = Str s) (map felt_to_value l).
Proof. induction l as [|f l IH]; [done|]. constructor; [by exists f|done]. Qed.
Lemma path_value_flat (p : TreePathResponse) :
  ∃ kv m, path_value p = Object (kv :: m) ∧ Forall (λ q : string * Value, flat q.2) (kv :: m).
Proof. do 2 eexists. split; [reflexivity|]. repeat constructor; apply felts_flat. Qed.
#[export] Instance toy_reply_laws : ReplyLaws.
Proof.
  split; [|done]. intros r v _ Hv.
  assert (∃ kv m, v = Object (kv :: m) ∧ Forall (λ q : string * Value, flat q.2) (kv :: m)) as (kv & m & -> & Hf).
  { destruct r as [| [] | [] | [] | [p|] | [p|] |]; try discriminate Hv; injection Hv as <-;
      try apply path_value_flat; (do 2 eexists; split; [reflexivity|]; repeat constructor; apply felts_flat). }
  by apply node_json_flat.
Qed.

(** ** The witnesses *)

Definition api_serve (request : HttpRequest) : result string HttpResponse :=
  match strip_prefix "http://indexer" (http_url request) with
  | Some path => Ok (reply_http (indexer_serve (seen toy_self toy_self) toy_self "GET" path))
  | None => Err "offline"
  end.
Lemma api_serve_indexed path response : api_serve (get ("http://indexer" +:+ path)) = Ok response →
  indexed toy_indexer toy_ticks false ∅ path response.
Proof.
  unfold api_serve. cbn [http_url get]. rewrite (proj2 (strip_prefix_spec "http://indexer" _ path) eq_refl). intros [= <-].
  exists 3%nat, 3%nat, 3%nat, toy_self, toy_self, toy_self. split; [lia|]. do 3 (split; [exact toy_life_self|]). reflexivity.
Qed.
Definition api_event (e : Event) : bool :=
  match e with EvHttp request answer => bool_decide (answer = api_serve request) | _ => true end.
Definition api_state : State := {|
  direct_lease := None; prepared_withdrawal := None; disk := {| files := ∅; dirs := {["state"]} |};
  world := {| cw_now := 1000; cw_faults := []; cw_serve := api_serve |}; instant := 0; events := []; own := [] |}.

Lemma deposit_plan_fits_vault_witness : ∃ plan es,
  (prepare_deposit (toy_client_config Proxy) 2000000 api_state).1 = Ok plan ∧ dp_next_note_id plan = 8%Z ∧
  moment toy_chain toy_indexer toy_ticks es ∧ next_id (vault_of es) 8.
Proof.
  assert (dp_next_note_id <$> (prepare_deposit (toy_client_config Proxy) 2000000 api_state).1 = Ok 8%Z) as Hok by by vm_compute.
  assert (forallb api_event (own (prepare_deposit (toy_client_config Proxy) 2000000 api_state).2) = true) as Hev by by vm_compute.
  destruct (prepare_deposit (toy_client_config Proxy) 2000000 api_state) as [r σ'] eqn:Hrun. cbn [fst snd] in *.
  destruct r as [plan|]; [|discriminate Hok]. injection Hok as Hid.
  destruct (deposit_plan_fits_vault toy_chain toy_indexer toy_ticks false ∅ (toy_client_config Proxy) toy_polls _ _ _ _ Hrun)
    as (es & _ & _ & [He Hn] & _).
  - intros path response Hin%list_elem_of_In. rewrite forallb_forall in Hev.
    apply Hev, bool_decide_eq_true in Hin. by apply api_serve_indexed.
  - rewrite Hid in Hn. exists plan, es. split; [done|]. split; [done|]. by split.
Defined.

(** A terminal whose HTTP calls reach the indexer. *)
Definition api_cli : CliEnv := {|
  CliWorld := ToyCliWorld;
  cli_http w request := (api_serve request, w);
  cli_cast := cli_cast; cli_read := cli_read; cli_mkdir := cli_mkdir; cli_tempdir := cli_tempdir; cli_files := cli_files;
  cli_random := cli_random; cli_env := cli_env; cli_run_server := cli_run_server; cli_run_indexer := cli_run_indexer;
  cli_run_daemon := cli_run_daemon; cli_proof_setup := cli_proof_setup; cli_public_key := cli_public_key;
  cli_prover_threads := cli_prover_threads; parse_url := parse_url;
|}.
#[local] Existing Instance api_cli.
Definition api_sent (e : CliEvent) : bool :=
  match e with Sent request answer => bool_decide (answer = api_serve request) | _ => true end.
Definition api_terminal : @CliState _ _ _ _ _ api_cli :=
  {| service := toy_service; cli_world := ({| kw_note := ""; kw_next := ""; kw_sent := false |} : @CliWorld.CliWorld _ api_cli) |}.
Lemma indexed_note_deposited_witness :
  ∃ es i note, moment toy_chain toy_indexer toy_ticks es ∧ vault_of es !! i = Some note ∧ (7 ≤ i)%Z.
Proof.
  apply (indexed_note_deposited toy_chain toy_indexer toy_ticks false ∅ "http://indexer/" 7 api_terminal toy_polls).
  - unfold in_u32, u32_MAX. lia.
  - done.
  - intros path response Hin%list_elem_of_In.
    assert (forallb api_sent (wait_for_indexed_note "http://indexer/" 7 api_terminal).1 = true) as Hev by by vm_compute.
    rewrite forallb_forall in Hev. apply Hev, bool_decide_eq_true in Hin. by apply api_serve_indexed.
  - vm_compute. reflexivity.
Defined.

(** ** The server *)

From S2P Require Import Pricing ProviderTypes Dashboard StoreProps World WorldTheory OpenRouter OaOrg Provider Processor.
From S2P Require Import Leases Routes ToyWorld.
#[local] Existing Instance node_json.
#[local] Existing Instance node_serde.

Definition following : State :=
  {| shared := {| store := empty_store; root := ("root" : @Felt252 toy_felt); hub := None |};
     world := {| tw_clock_ms := 1010000; tw_fault := None; tw_serve := api_serve |};
     calls := []; writes := [] |}.
Lemma server_follows_vault_witness :
  let polled := poll_root felt_of_value "http://indexer/" following in
  root (shared polled.2) = mirror_root (TreeMirror.mirror toy_self)
  ∧ (root (shared polled.2) = root (shared following)
     ∨ ∃ es, moment toy_chain toy_indexer toy_ticks es ∧ root_of (vault_of es) (root (shared polled.2))).
Proof.
  split; [vm_compute; reflexivity|].
  apply (server_follows_vault toy_chain toy_indexer toy_ticks false ∅ "http://indexer/" following
    (poll_root felt_of_value "http://indexer/" following).1 _ toy_polls); [|apply surjective_pairing].
  intros request response Hu. cbn [following world env_http toy_env tw_serve fst]. unfold api_serve. rewrite Hu.
  intros Hr. exists 3%nat, 3%nat, 3%nat, toy_self, toy_self, toy_self. split; [lia|]. do 3 (split; [exact toy_life_self|]).
  revert Hr. vm_compute. by intros [= <-].
Defined.
